(* ===== verification/_CoqProject ===== *)
-Q . S2P
Prelude.v
Utf8.v
Errors.v
EnvMap.v
Handles.v
Syscalls.v
Registry.v
OnceLock.v
Futex.v
RwLocks.v
Features.v
CheckedMem.v
Bytes.v
BufReader.v
ProcMem.v
Signals.v
IoCalls.v
Alloc.v
Tls.v
TlsMem.v
LoadLock.v
Loader.v
Ldso.v
Asm.v
Start.v
Routines.v
Trap.v
Rand.v
Entry.v
SysInfo.v
Shmem.v
ShmemThreads.v
CRuntime.v
SliceIter.v
Spawn.v
Threads.v
Exits.v
Abi.v
Emulate.v
Build.v
Layouts.v
NullTerm.v
Cells.v
MiniStd.v
