(* ===== verification/Prelude.v ===== *)
(** * winter-lily, verified

    winter-lily runs programs of the Lilium operating system on Linux.  A loader
    (wl-ld-lilium) maps the emulation libraries and the guest program, sets up
    thread-local storage and starts the guest; the guest's system calls trap as
    SIGSYS and are dispatched by wl-impl to subsystem libraries (wl-usi-base,
    -thread, -io, -process, -debug, -kmgmt), which translate them to Linux calls.
    wl-helpers has the synchronisation primitives, an allocator and CPU feature
    detection that the others share.

    ** Files

    Each file models one component, from the functions of the source files it
    names in its own header, and proves what makes that component correct.

    - [Prelude]: outcomes of Rust code (values and panics), results and [?], code
      with state and errors ([stm]), machine integers, slices, counting lemmas, automation and hint databases.
    - [Utf8]: UTF-8 and the automaton of [check_utf8] (wl-impl/src/helpers.rs).
    - [Errors]: Linux errors, Lilium errors and the return registers of calls.
    - [EnvMap]: the environment map (wl-impl/src/env.rs), a byte buffer of entries
      with an index and a free list, refined to a finite map.
    - [Handles]: the handle table (wl-impl/src/handle_base.rs) and the interface
      [HandleTable] that system calls are proved against.
    - [Syscalls]: subsystem registration, dispatch of a trapped call number, boot
      (wl-impl/src/syscall_handler.rs, the lib.rs of the subsystems, entry.rs).
    - [Registry]: registration by several threads, with stores that become visible in any
      order; the template of a subsystem (wl-impl/src/syscall_handler.rs, module-lib-templ).
    - [OnceLock]: [OnceLock] and [LazyLock] (wl-helpers/src/lib.rs), sequentially
      and under every interleaving of threads.
    - [Futex]: the reader-writer lock (wl-helpers/src/sync.rs), as a step relation
      over a shared word with sleeping threads.
    - [RwLocks]: what clients rely on of a reader-writer lock, as a class with its laws;
      the futex lock is an instance.
    - [Features]: the feature array, the feature table and the x86-64 level
      (wl-ld-lilium/src/detect/x86.rs, wl-helpers/src/detect/x86.rs,
      wl-usi-base/src/info.rs).
    - [CheckedMem]: access to the guest's memory: the copy routine in assembly, the
      fault handler, checked copies, [check_utf8], checked iterators, small parsers
      (wl-impl/src/helpers.rs, libc/libc_defs.rs, c/signal_support/x86_64.c).
    - [Bytes]: C strings, splitting, environment lookup and memory functions of the
      loader (wl-ld-lilium/src/helpers.rs, env.rs).
    - [BufReader]: buffered input and formatted output of the loader (io.rs).
    - [ProcMem]: mapping calls of the process subsystem (wl-usi-process/src/mem.rs).
    - [Signals]: signals to exceptions, the trap of a system call
      (wl-impl/src/catch_signals.rs, helpers/strexcept.rs).
    - [IoCalls]: calls that use handles (wl-usi-io/src/basic.rs, fs.rs, dev.rs,
      wl-usi-process/src/proc.rs), for any [HandleTable].
    - [Alloc]: [MmapAllocator] (wl-helpers/src/lib.rs) over a map of regions.
    - [Tls]: thread-local storage and load addresses (wl-ld-lilium/src/loader.rs,
      iface.rs), with control blocks as records; [TlsMem]: the thread pointer and the update
      of a thread on one memory of bytes that holds control blocks and data.
    - [LoadLock]: the functions that run under [LOAD_LOCK] as programs of several threads,
      for any lock with the laws of [RwLocks] (wl-ld-lilium/src/loader.rs, ldso.rs).
    - [Loader]: mapping the segments of a module over a model of pages and their
      protections (wl-ld-lilium/src/loader.rs).
    - [Ldso]: paths below the system root, configuration files with includes and
      patterns, the search for a module, the choice of a subsystem's library
      (wl-ld-lilium/src/ldso.rs, helpers.rs, loader.rs).
    - [Asm]: a machine for the subset of x86-64 the assembly routines use, with the
      lemmas and tactics to run code on it.
    - [Start]: [_start] and [__call_entry_point] (wl-ld-lilium/src/entry/x86_64.rs).
    - [Routines]: [__handle_syscall], [__setjmp], [longjmp] and [__tls_get_addr] in
      assembly (wl-impl/src/syscall_handler.rs, libc/libc_defs.rs,
      wl-ld-lilium/src/iface.rs).
    - [Trap]: the trap of a system call in assembly, with the register numbers of the
      signal context, run together with the dispatcher of [Routines]; [impl_restorer]
      (wl-impl/src/catch_signals.rs, libc/libc_defs.rs).
    - [Rand]: the random generator, its set-up and the per-thread generators
      (wl-helpers/src/rand.rs, wl-impl/src/rand.rs, lib.rs).
    - [Entry]: [__rust_entry]: address space, auxiliary vector, command line, order of
      the start, hand-over (wl-ld-lilium/src/entry.rs, the end of ldso.rs).
    - [SysInfo]: [GetSystemInfo] on requests and buffers in one memory
      (wl-usi-base/src/info.rs).
    - [Shmem]: the shared-memory allocator (wl-impl/src/global.rs); [ShmemThreads]: its
      operations interleaved by threads.
    - [CRuntime]: system call wrappers, [malloc], [sigaction], output
      (wl-impl/src/libc.rs, libc/libc_defs.rs, ministd.rs).
    - [SliceIter]: the checked slice iterators (wl-impl/src/helpers.rs).
    - [Spawn]: both sides of [CreateProcess] (wl-usi-process/src/proc.rs).
    - [Threads]: first thread, joining (wl-impl/src/thread.rs).
    - [Exits]: the installed signal handler, crashes, panics, exits, polling
      (wl-impl/c/signal_support/x86_64.c, helpers.rs, panic.rs, the exit.rs files,
      wl-usi-io/src/poll.rs).
    - [Abi]: the types of parameters and results of system calls, with the signature of
      every exported function (wl-impl/src/syscall_helpers.rs, the usi crates).
    - [Emulate]: the set-up of a process, then a [syscall] instruction of the guest from
      the trap to its result, through [Entry], [Exits], [Signals] and [Syscalls]
      (wl-impl/src/lib.rs, wl-ld-lilium/src/entry.rs).
    - [Build]: the build scripts: targets, components and constants, library names,
      version words (the build.rs files, build-usi-lib.rs, wl-impl/src/lib.rs).
    - [Layouts]: size, alignment and field offsets of the [repr(C)] structures, and the
      numbers in assembly, loader and C code that stand for them.
    - [NullTerm]: arrays that end in a zero element (wl-ld-lilium/src/helpers.rs).
    - [Cells]: cells and pointers of the loader, zeroed values, comparison by bytes, ranges
      of slices (wl-ld-lilium/src/helpers.rs, wl-impl/src/helpers.rs).
    - [MiniStd]: hash maps, printing, the messages of panics and the panic handlers
      (wl-impl/src/ministd.rs, panic.rs, wl-ld-lilium/src/lib.rs).

    ** How code is modelled

    Functions are executable definitions with the source's names and control flow.
    State is passed explicitly; a record holds the statics or fields of a
    component.  A panic, an out-of-range index, a checked overflow, a [todo!] and a
    memory fault are the values of [panic]; [Result] is [result].  Machine words
    are [Z] with [wrap] written out where arithmetic can wrap; the loader crates
    are built without overflow checks, the others with them.  Bytes are [Z] below
    256, strings are lists of bytes.  Pointers are addresses.  The functions behind a
    system call act on a world, a type parameter of [Signals], [Exits] and [Emulate], and
    either return to it or do not ([call_result]); in [Trap] the world is the machine.

    Loops that are not structural take fuel.  In [CheckedMem] the fuel is one more
    than the number of bytes or elements, in [BufReader] two more than the number of
    reads left (plus the bytes wanted), in [EnvMap] the length of the buffer, in
    [Loader] the bytes wanted; inclusion of configuration files is unbounded in the
    source, and [Ldso] proves that some fuel is enough for every finite tree.  [SysInfo]
    takes one more than the number of requests, [NullTerm] one more than the number of
    elements.  The theorems are about the functions
    with that fuel and state their result, so that running out never happens.  Code of
    [Asm] runs for a number of instructions: the theorems of [Start], [Routines] and [Trap]
    give a number that is enough.  In [Exits] and [MiniStd] a panic handler
    that panics calls itself: [depth] is the number of calls the stack has room for, a
    crash that needs more overflows it and ends by SIGSEGV, and the theorems say for every
    depth when this happens.  Threads ([OnceLock], [Futex], [LoadLock],
    [ShmemThreads], [Registry]) are programs with one
    step per atomic operation, under an arbitrary schedule; atomic operations are
    sequentially consistent, the memory orderings of the source are not modelled, except
    in [Registry], where relaxed stores of a thread become visible in any order.

    Code outside the repository is a parameter: the constants of [lilium_sys] and of
    the operating system, the [cpuid] instruction, the compiler's target features,
    the results of Linux calls (as an answer or as a script of answers).  Hypotheses
    on such parameters are stated where they are used, and witnesses instantiate
    them.

    ** What the theorems show

    - Data structures refine their abstract counterparts: the environment map a
      finite map (while no freed entry is recycled), the handle table a partial
      function with an exact count of live handles, the once-lock a four-state
      machine, the page allocator an exact owner of its pages.
    - Dispatch: after boot every 64-bit call number reaches exactly the documented
      function or the unsupported error; a [syscall] instruction of the guest, followed
      through trap, handler and dispatcher, leaves that function's result in the registers.
      Every exported function has a signature that fits the registers of a call, and the
      sign of the register it returns tells an error from a value; a call that does not
      return leaves the program in it.  Threads that register subsystems at the same time
      never get the same dynamic number; two fixed registrations under one number replace
      each other.
    - Concurrency: single initialisation and mutual exclusion; and the executions in
      which the code as written blocks a thread forever, initialises twice or leaves
      a sleeper behind.  Loads and updates of thread-local storage under [LOAD_LOCK]
      behave as if run one after the other, and an update that meets a load hangs.
      The shared-memory allocator keeps blocks, table and descriptors consistent in every
      interleaving in which Linux does not return an address too early, and what is lost
      when it does.
    - Guest memory: what a checked copy copies and refuses, what string validation
      decides, that loops over guest arrays visit every element.
    - System calls: no mapping is writable and executable at once; handles are only
      reached with the right type; opening files, creating and joining processes
      change the table as they report, and where they leak; what [GetSystemInfo] answers
      and writes, address by address.
    - Parsing and I/O in the loader: splitting and joining, environment lookup,
      lines and exact reads independent of how the data arrives; the meaning of a
      configuration file as a tree of includes, and the first module found along the
      resulting list.
    - Assembly: the dispatcher and [__tls_get_addr] equal their reference
      definitions; the trap of a system call, run with the dispatcher, changes the signal
      context as the model of the handler does, for every function that keeps to the calling
      convention or does not return; [longjmp] returns to [__setjmp]; what [_start] reads
      from the stack [__call_entry_point] builds, and the word by which it misses the
      auxiliary vector when [__rust_entry] calls it.
    - Layout: the offsets used by assembly, loader and C code are those of the declared
      structures, whose fields are aligned and do not overlap.
    - Start: the layout of the address space, the order in which subsystems and program
      are started, what the loader does with every command line, that secure mode ends first.
    - Processes and threads: what the caller of [CreateProcess] learns from every fate of
      the child, the thread pointer and the bytes an update of a thread writes, the
      descriptors of shared memory, how a crash ends and what the parent is told of it.
    - Loading: every segment gets its bytes and zeros, those with file bytes their
      protection, and what happens to segments that share a page; thread-local blocks do
      not overlap.
    - Build: which components and constants every target selects, how library names and
      version words are formed.
    - Several theorems state the behaviour of the code where it departs from its
      evident purpose, for instance the last byte a copy of 8 bytes leaves out.

    ** Not modelled

    Parsing of ELF files, symbols and relocation (the ld-so-impl submodule), the pooled
    allocator (pooled-alloc, a submodule), the hash function and the queue of jobs (other
    crates), formatting of values other than numbers (a message is the list of the pieces
    that are written), the contents of the floating-point part of the signal context.  The
    lines of the sources that no definition translates are imports, attributes, module and
    extern declarations, marker traits ([Send], [Sync]), comments, and the types of eh.rs,
    which no function uses. *)

From Stdlib Require Import ZArith Lia.
From stdpp Require Import base numbers list option gmap strings.

#[export] Set Default Goal Selector "!".

(** ** Outcomes of Rust code *)

(** How an evaluation can stop other than by returning. *)
Inductive panic : Type :=
| Explicit      (** [panic!], [unwrap]/[expect] on the wrong variant, [assert!] *)
| OutOfBounds   (** a slice or array index outside its range, a length mismatch
                    in [copy_from_slice] *)
| Overflow      (** checked arithmetic (profiles with overflow checks) *)
| Todo          (** [todo!()] *)
| Fault.        (** an unhandled memory fault: the signal handler ends the process *)

Inductive outcome (A : Type) : Type :=
| Ret (a : A)
| Panic (p : panic).
Arguments Ret {A} a.
Arguments Panic {A} p.

(** Rust's [Result]. *)
Inductive result (A E : Type) : Type :=
| Ok (a : A)
| Err (e : E).
Arguments Ok {A E} a.
Arguments Err {A E} e.

#[export] Instance outcome_ret : MRet outcome := fun A a => Ret a.
#[export] Instance outcome_bind : MBind outcome := fun A B f m =>
  match m with Ret a => f a | Panic p => Panic p end.
#[export] Instance outcome_fmap : FMap outcome := fun A B f m =>
  match m with Ret a => Ret (f a) | Panic p => Panic p end.

#[export] Instance panic_eq_dec : EqDecision panic.
Proof. solve_decision. Defined.
#[export] Instance outcome_eq_dec {A} `{EqDecision A} : EqDecision (outcome A).
Proof. solve_decision. Defined.
#[export] Instance result_eq_dec {A E} `{EqDecision A, EqDecision E} :
  EqDecision (result A E).
Proof. solve_decision. Defined.

(** [Option::expect] and [Option::unwrap]. *)
Definition expect {A} (o : option A) : outcome A :=
  match o with Some a => Ret a | None => Panic Explicit end.

(** [Result::map_err], [Result::and], [Result::map]. *)
Definition map_err {A E F} (f : E -> F) (r : result A E) : result A F :=
  match r with Ok a => Ok a | Err e => Err (f e) end.
Definition result_and {A B E} (r : result A E) (s : result B E) : result B E :=
  match r with Ok _ => s | Err e => Err e end.

(** The [?] operator on a [Result] inside code that may also panic. *)
Definition try_bind {A B E} (m : outcome (result A E))
    (k : A -> outcome (result B E)) : outcome (result B E) :=
  match m with
  | Ret (Ok a) => k a
  | Ret (Err e) => Ret (Err e)
  | Panic p => Panic p
  end.

Declare Scope rust_scope.
Delimit Scope rust_scope with rust.
Notation "x ?<- m ; k" := (try_bind m (fun x => k))
  (at level 20, m at level 100, k at level 200, right associativity) : rust_scope.
Notation "' p ?<- m ; k" := (try_bind m (fun x => match x with p => k end))
  (at level 20, p pattern, m at level 100, k at level 200, right associativity) : rust_scope.

(** ** Code with state, errors and panics *)

(** A computation over a state [S] that fails with an [E]; the state reached is kept
    on failure. *)
Definition stm (S E A : Type) : Type := S -> outcome (S * result A E).

Section Stm.
Context {S E : Type}.

#[export] Instance stm_ret : MRet (stm S E) := fun A a s => Ret (s, Ok a).
#[export] Instance stm_bind : MBind (stm S E) := fun A B f m s =>
  match m s with
  | Ret (s', Ok a) => f a s'
  | Ret (s', Err e) => Ret (s', Err e)
  | Panic p => Panic p
  end.
Definition throw {A} (e : E) : stm S E A := fun s => Ret (s, Err e).
Definition panics {A} (p : panic) : stm S E A := fun _ => Panic p.
Definition lift {A} (m : outcome A) : stm S E A := fun s => a ← m; Ret (s, Ok a).
Definition ret_result {A} (r : result A E) : stm S E A := fun s => Ret (s, r).
(** A [match] on the [Result] of a call. *)
Definition attempt {A} (m : stm S E A) : stm S E (result A E) := fun s =>
  '(s', r) ← m s; Ret (s', Ok r).

Lemma stm_bind_ok {A B} (m : stm S E A) (f : A -> stm S E B) s s' a :
  m s = Ret (s', Ok a) -> (m ≫= f) s = f a s'.
Proof. intros H. unfold mbind, stm_bind. by rewrite H. Qed.

Lemma stm_bind_err {A B} (m : stm S E A) (f : A -> stm S E B) s s' e :
  m s = Ret (s', Err e) -> (m ≫= f) s = Ret (s', Err e).
Proof. intros H. unfold mbind, stm_bind. by rewrite H. Qed.

Lemma stm_bind_panic {A B} (m : stm S E A) (f : A -> stm S E B) s p :
  m s = Panic p -> (m ≫= f) s = Panic p.
Proof. intros H. unfold mbind, stm_bind. by rewrite H. Qed.

Lemma attempt_ret {A} (m : stm S E A) s s' r : m s = Ret (s', r) -> attempt m s = Ret (s', Ok r).
Proof. intros H. unfold attempt. by rewrite H. Qed.

Lemma lift_ret {A} (m : outcome A) s a : m = Ret a -> lift m s = Ret (s, Ok a).
Proof. intros ->. done. Qed.
End Stm.

(** ** Machine integers *)

Local Open Scope Z_scope.

(** Unsigned and signed reading of a [w]-bit word. *)
Definition wrap (w z : Z) : Z := z mod 2 ^ w.
Definition swrap (w z : Z) : Z :=
  let u := wrap w z in if u <? 2 ^ (w - 1) then u else u - 2 ^ w.

Definition usize_wrap (z : Z) : Z := wrap 64 z.
Definition as_isize (z : Z) : Z := swrap 64 z.
Definition as_i32 (z : Z) : Z := swrap 32 z.
Definition as_u32 (z : Z) : Z := wrap 32 z.
Definition as_u16 (z : Z) : Z := wrap 16 z.
Definition as_u8 (z : Z) : Z := wrap 8 z.

Definition USIZE_MAX : Z := 2 ^ 64 - 1.

(** [usize] additions and subtractions with overflow checks. *)
Definition usize_add (a b : Z) : outcome Z :=
  if a + b <=? USIZE_MAX then Ret (a + b) else Panic Overflow.
Definition usize_sub (a b : Z) : outcome Z :=
  if b <=? a then Ret (a - b) else Panic Overflow.

(** [!x] on a [w]-bit unsigned word. *)
Definition not_w (w x : Z) : Z := Z.lxor x (Z.ones w).

(** ** Slices *)

Section Slices.
Context {A : Type}.
Implicit Types l s : list A.

(** [&l[i..]], [&l[..j]] and [l[i]], which panic outside the slice. *)
Definition slice_from l (i : nat) : outcome (list A) :=
  if decide (i <= length l)%nat then Ret (drop i l) else Panic OutOfBounds.
Definition slice_to l (j : nat) : outcome (list A) :=
  if decide (j <= length l)%nat then Ret (take j l) else Panic OutOfBounds.
Definition index l (i : nat) : outcome A :=
  match l !! i with Some a => Ret a | None => Panic OutOfBounds end.
Definition store l (i : nat) (a : A) : outcome (list A) :=
  if decide (i < length l)%nat then Ret (<[i := a]> l) else Panic OutOfBounds.

(** [l[i..i+s.len()].copy_from_slice(s)]: overwrite in place. *)
Definition overwrite l (i : nat) s : list A :=
  take i l ++ s ++ drop (i + length s)%nat l.
Definition copy_into l (i : nat) s : outcome (list A) :=
  if decide (i + length s <= length l)%nat then Ret (overwrite l i s) else Panic OutOfBounds.

(** First position satisfying a test ([memchr], [iter().position]). *)
Fixpoint find_index (p : A -> bool) l : option nat :=
  match l with
  | [] => None
  | x :: r => if p x then Some 0%nat else S <$> find_index p r
  end.
End Slices.

Definition memchr (b : Z) (l : list Z) : option nat := find_index (Z.eqb b) l.

(** [to_le_bytes]/[from_le_bytes] on an [n]-byte word ([to_ne_bytes] on x86-64). *)
Fixpoint le_bytes (n : nat) (z : Z) : list Z :=
  match n with
  | O => []
  | S m => z mod 256 :: le_bytes m (z / 256)
  end.
Fixpoint le_value (bs : list Z) : Z :=
  match bs with
  | [] => 0
  | b :: r => b + 256 * le_value r
  end.

(** ** Automation *)

Create HintDb wl discriminated.
Create Rewrite HintDb wl_len.

(** Case analysis on the scrutinee of a [match]/[if] in the goal or a hypothesis. *)
Ltac case_goal :=
  match goal with
  | |- context [match ?x with _ => _ end] => destruct x eqn:?
  end.
Ltac case_hyp H :=
  match type of H with
  | context [match ?x with _ => _ end] => destruct x eqn:?
  end.
(** Boolean comparisons on [Z] and [nat] to propositions. *)
Ltac reflect_bools :=
  repeat match goal with
  | H : (_ =? _)%Z = true |- _ => apply Z.eqb_eq in H
  | H : (_ =? _)%Z = false |- _ => apply Z.eqb_neq in H
  | H : (_ <? _)%Z = true |- _ => apply Z.ltb_lt in H
  | H : (_ <? _)%Z = false |- _ => apply Z.ltb_ge in H
  | H : (_ <=? _)%Z = true |- _ => apply Z.leb_le in H
  | H : (_ <=? _)%Z = false |- _ => apply Z.leb_gt in H
  | H : (_ && _) = true |- _ => apply andb_true_iff in H as [? ?]
  | H : (_ || _) = false |- _ => apply orb_false_iff in H as [? ?]
  | H : negb _ = true |- _ => apply negb_true_iff in H
  | H : negb _ = false |- _ => apply negb_false_iff in H
  end.

(** ** Shared lemmas *)

Section SliceLemmas.
Context {A : Type}.
Implicit Types l s : list A.

Lemma slice_from_ok l i : (i <= length l)%nat -> slice_from l i = Ret (drop i l).
Proof. intros. unfold slice_from. by rewrite decide_True. Qed.

Lemma slice_to_ok l i : (i <= length l)%nat -> slice_to l i = Ret (take i l).
Proof. intros. unfold slice_to. by rewrite decide_True. Qed.

Lemma store_ok l i a : (i < length l)%nat -> store l i a = Ret (<[i := a]> l).
Proof. intros. unfold store. by rewrite decide_True. Qed.

Lemma copy_into_ok l i s :
  (i + length s <= length l)%nat -> copy_into l i s = Ret (overwrite l i s).
Proof. intros. unfold copy_into. by rewrite decide_True. Qed.

Lemma length_overwrite l i s :
  (i + length s <= length l)%nat -> length (overwrite l i s) = length l.
Proof. intros. unfold overwrite. rewrite !length_app, length_take, length_drop. lia. Qed.

(** Overwriting a middle part of equal length replaces exactly that part. *)
Lemma overwrite_app l1 l2 l3 s :
  length s = length l2 ->
  overwrite (l1 ++ l2 ++ l3) (length l1) s = l1 ++ s ++ l3.
Proof.
  intros Hs. unfold overwrite. rewrite take_app_length, Hs, drop_app_add. by rewrite drop_app_length.
Qed.

Lemma overwrite_lookup l i s j :
  (i + length s <= length l)%nat ->
  overwrite l i s !! j = if decide (i <= j < i + length s)%nat then s !! (j - i)%nat else l !! j.
Proof.
  intros H. unfold overwrite. case_decide.
  - rewrite lookup_app_r, length_take, Nat.min_l by (rewrite ?length_take; lia). by rewrite lookup_app_l by lia.
  - destruct (decide (j < i)%nat).
    + by rewrite lookup_app_l, lookup_take_lt by (rewrite ?length_take; lia).
    + rewrite !lookup_app_r, lookup_drop by (rewrite ?length_take; lia). rewrite length_take. f_equal. lia.
Qed.

(** Overwriting and then storing one more element is one longer overwrite. *)
Lemma overwrite_store l i s x :
  (i + length s < length l)%nat ->
  store (overwrite l i s) (i + length s) x = Ret (overwrite l i (s ++ [x])).
Proof.
  intros H. rewrite store_ok by (rewrite length_overwrite; lia). f_equal.
  destruct (lookup_lt_is_Some_2 l _ H) as [y Hy].
  assert (exists a b r, l = a ++ b ++ [y] ++ r /\ length a = i /\ length b = length s)
    as (a & b & r & -> & <- & Hb).
  { exists (take i l), (take (length s) (drop i l)), (drop (S (i + length s)) l).
    split_and!; [|rewrite length_take; lia|rewrite length_take, length_drop; lia].
    rewrite <- (take_drop_middle l _ y Hy) at 1. rewrite (app_assoc (take i l)). f_equal.
    by rewrite <- take_take_drop. }
  rewrite overwrite_app by done.
  rewrite (app_assoc b), overwrite_app by (rewrite !length_app; simpl; lia).
  rewrite insert_app_r, insert_app_r_alt, Nat.sub_diag by lia. by rewrite <- app_assoc.
Qed.

Lemma find_index_app_stop p l a r :
  Forall (fun x => p x = false) l -> p a = true ->
  find_index p (l ++ a :: r) = Some (length l).
Proof.
  intros Hl Ha. induction Hl as [|x l Hx _ IH]; simpl; [by rewrite Ha|].
  by rewrite Hx, IH.
Qed.

Lemma find_index_none p l : Forall (fun x => p x = false) l -> find_index p l = None.
Proof. induction 1 as [|x l Hx _ IH]; simpl; [done|]. by rewrite Hx, IH. Qed.

(** A hit splits the list at the first element that satisfies the test. *)
Lemma find_index_split p l n :
  find_index p l = Some n ->
  exists a, l = take n l ++ a :: drop (S n) l /\ p a = true /\
            Forall (fun x => p x = false) (take n l) /\ (n < length l)%nat.
Proof.
  revert n. induction l as [|x l IH]; intros n H; simpl in *; [done|].
  destruct (p x) eqn:Hx.
  - injection H as <-. exists x. simpl. rewrite drop_0. auto with lia.
  - destruct (find_index p l) as [m|] eqn:Hm; simpl in *; [|done]. injection H as <-.
    destruct (IH m eq_refl) as (a & Hl & Ha & Hf & Hlt).
    exists a. simpl. split_and!; [by f_equal|done|by constructor|lia].
Qed.
End SliceLemmas.

(** Elements that satisfy a test, and the effect of a point update on their number. *)
Definition count {A} (p : A -> bool) (l : list A) : nat := length (List.filter p l).

Lemma count_insert {A} (p : A -> bool) l i x y :
  l !! i = Some x ->
  (count p (<[i := y]> l) + Nat.b2n (p x) = count p l + Nat.b2n (p y))%nat.
Proof.
  unfold count. revert i. induction l as [|z l IH]; intros [|i] H; simplify_eq/=.
  - destruct (p x), (p y); simpl; lia.
  - specialize (IH i H). destruct (p z); simpl; lia.
Qed.

Lemma count_le {A} (p : A -> bool) l : (count p l <= length l)%nat.
Proof. unfold count. apply filter_length_le. Qed.

Lemma count_lookup {A} (p : A -> bool) l i x :
  l !! i = Some x -> p x = true -> (1 <= count p l)%nat.
Proof.
  unfold count. revert i. induction l as [|z l IH]; intros [|i] H Hp; simplify_eq/=; [rewrite Hp; simpl; lia|].
  specialize (IH i H Hp). destruct (p z); simpl; lia.
Qed.

Lemma count_two {A} (p : A -> bool) l i j x y :
  l !! i = Some x -> l !! j = Some y -> p x = true -> p y = true -> i <> j -> (2 <= count p l)%nat.
Proof.
  unfold count. revert i j. induction l as [|z l IH]; intros [|i] [|j] Hi Hj Hx Hy Hne; simplify_eq/=.
  - rewrite Hx. simpl. pose proof (count_lookup p l j y Hj Hy). unfold count in *. lia.
  - rewrite Hy. simpl. pose proof (count_lookup p l i x Hi Hx). unfold count in *. lia.
  - specialize (IH i j Hi Hj Hx Hy ltac:(lia)). destruct (p z); simpl; lia.
Qed.

Lemma length_le_bytes n z : length (le_bytes n z) = n.
Proof. revert z. induction n; intros; simpl; [done|]. by rewrite IHn. Qed.

Lemma le_value_le_bytes n z : 0 <= z < 256 ^ Z.of_nat n -> le_value (le_bytes n z) = z.
Proof.
  revert z. induction n as [|n IH]; intros z Hz.
  - simpl in *. lia.
  - cbn [le_bytes le_value]. rewrite IH; [pose proof (Z.div_mod z 256); lia|].
    rewrite Nat2Z.inj_succ, Z.pow_succ_r in Hz by lia.
    split; [apply Z.div_pos; lia|apply Z.div_lt_upper_bound; lia].
Qed.

Lemma wrap_small w z : 0 <= z < 2 ^ w -> wrap w z = z.
Proof. apply Z.mod_small. Qed.

Lemma wrap_range w z : 0 <= w -> 0 <= wrap w z < 2 ^ w.
Proof. intros. apply Z.mod_pos_bound. by apply Z.pow_pos_nonneg. Qed.

(** A bitwise or of a shifted word and low bits is a sum. *)
Lemma lor_low a b n : 0 <= n -> 0 <= b < 2 ^ n -> Z.lor (a * 2 ^ n) b = a * 2 ^ n + b.
Proof.
  intros Hn Hb. pose proof (Z.add_lor_land (a * 2 ^ n) b) as H.
  enough (Z.land (a * 2 ^ n) b = 0) by lia.
  apply Z.bits_inj'. intros i Hi. rewrite Z.land_spec, Z.bits_0.
  destruct (Z.ltb_spec i n); [by rewrite Z.mul_pow2_bits_low by lia|].
  destruct (Z.eq_dec b 0) as [->|]; [by rewrite Z.bits_0, andb_false_r|].
  rewrite (Z.bits_above_log2 b); [by rewrite andb_false_r|lia|].
  assert (Z.log2 b < n) by (apply Z.log2_lt_pow2; lia). lia.
Qed.

(** Clearing the low [k] bits of a word rounds down. *)
Lemma land_not_ones x k :
  0 <= k <= 64 -> 0 <= x < 2 ^ 64 -> Z.land x (not_w 64 (2 ^ k - 1)) = x / 2 ^ k * 2 ^ k.
Proof.
  intros Hk Hx. assert (2 ^ k - 1 = Z.ones k) as -> by (rewrite Z.ones_equiv; lia).
  rewrite <- Z.shiftr_div_pow2, <- Z.shiftl_mul_pow2, <- Z.ldiff_ones_r by lia.
  apply Z.bits_inj'. intros i Hi. unfold not_w. rewrite Z.land_spec, Z.ldiff_spec, Z.lxor_spec.
  destruct (Z.lt_ge_cases i 64).
  - rewrite (Z.ones_spec_low 64) by lia. by rewrite xorb_true_r.
  - rewrite (Z.bits_above_log2 x i); [done|lia|].
    destruct (Z.eq_dec x 0) as [->|]; [simpl; lia|].
    assert (Z.log2 x < 64) by (apply Z.log2_lt_pow2; lia). lia.
Qed.

#[export] Hint Resolve slice_from_ok slice_to_ok store_ok copy_into_ok : wl.
#[export] Hint Rewrite @length_app @length_take @length_drop length_le_bytes
  @length_insert @length_cons : wl_len.
