(* ===== verification/Utf8.v ===== *)
(** * UTF-8: the encoding Rust's [str] promises, and the kernel-side checker

    The first part states what a [str] is (the concatenation of the encodings
    of Unicode scalar values) and gives the executable test that
    [core::str::from_utf8] performs.  The second part models the byte automaton
    inside [check_utf8] (wl-impl/src/helpers.rs) and characterises exactly which
    byte strings it accepts.  The memory side of [check_utf8] (chunked, checked
    reads of user memory) is in [CheckedMem]. *)

From Stdlib Require Import ZArith Lia.
From stdpp Require Import base numbers list option.
From S2P Require Import Prelude.

Local Open Scope Z_scope.

(** ** The standard library's side *)

(** [char::from_u32] succeeds exactly on scalar values. *)
Definition is_scalar (c : Z) : bool :=
  ((0 <=? c) && (c <? 0xD800)) || ((0xE000 <=? c) && (c <=? 0x10FFFF)).
Definition char_from_u32 (c : Z) : option Z := if is_scalar c then Some c else None.

(** [char::len_utf8]. *)
Definition len_utf8 (c : Z) : Z :=
  if c <? 0x80 then 1 else if c <? 0x800 then 2 else if c <? 0x10000 then 3 else 4.

Definition encode_char (c : Z) : list Z :=
  if c <? 0x80 then [c]
  else if c <? 0x800 then [0xC0 + c / 64; 0x80 + c mod 64]
  else if c <? 0x10000 then [0xE0 + c / 4096; 0x80 + (c / 64) mod 64; 0x80 + c mod 64]
  else [0xF0 + c / 262144; 0x80 + (c / 4096) mod 64; 0x80 + (c / 64) mod 64; 0x80 + c mod 64].
Definition encode_utf8 (cs : list Z) : list Z := cs ≫= encode_char.

(** A byte string is a [str] when it encodes some scalar values. *)
Definition is_str (bs : list Z) : Prop :=
  exists cs, Forall (fun c => is_scalar c = true) cs /\ bs = encode_utf8 cs.

Definition in_range (lo hi b : Z) : bool := (lo <=? b) && (b <? hi).
Definition is_cont (b : Z) : bool := in_range 0x80 0xC0 b.

(** The decoded value of two, three and four byte sequences. *)
Definition dec2 (b0 b1 : Z) : Z := (b0 - 0xC0) * 64 + (b1 - 0x80).
Definition dec3 (b0 b1 b2 : Z) : Z := ((b0 - 0xE0) * 64 + (b1 - 0x80)) * 64 + (b2 - 0x80).
Definition dec4 (b0 b1 b2 b3 : Z) : Z :=
  (((b0 - 0xF0) * 64 + (b1 - 0x80)) * 64 + (b2 - 0x80)) * 64 + (b3 - 0x80).

(** [core::str::from_utf8(bs).is_ok()]. *)
Fixpoint utf8_ok (bs : list Z) : bool :=
  match bs with
  | [] => true
  | b0 :: r =>
    if in_range 0 0x80 b0 then utf8_ok r else
    match r with
    | [] => false
    | b1 :: r1 =>
      if in_range 0xC0 0xE0 b0 then is_cont b1 && (0x80 <=? dec2 b0 b1) && utf8_ok r1 else
      match r1 with
      | [] => false
      | b2 :: r2 =>
        if in_range 0xE0 0xF0 b0 then
          is_cont b1 && is_cont b2 && (0x800 <=? dec3 b0 b1 b2)
            && is_scalar (dec3 b0 b1 b2) && utf8_ok r2
        else
        match r2 with
        | [] => false
        | b3 :: r3 =>
          in_range 0xF0 0xF8 b0 && is_cont b1 && is_cont b2 && is_cont b3
            && (0x10000 <=? dec4 b0 b1 b2 b3) && is_scalar (dec4 b0 b1 b2 b3) && utf8_ok r3
        end
      end
    end
  end.

(** [core::str::from_utf8(bs).expect(..)] / [.unwrap()]. *)
Definition from_utf8_expect (bs : list Z) : outcome (list Z) :=
  if utf8_ok bs then Ret bs else Panic Explicit.

(** ** The automaton of [check_utf8] *)

Record utf8_state : Type := mkUtf8 {
  cur_char_size : Z;
  cur_char_init_size : Z;
  cur_char_val : Z }.

Definition utf8_init : utf8_state := mkUtf8 0 0 0.

(** One iteration of the inner [for]: [None] is [Err(InvalidUtf8)]. *)
Definition utf8_step (st : utf8_state) (v : Z) : option utf8_state :=
  let '(mkUtf8 size isize val) := st in
  if in_range 0x80 0xC0 v then
    if size =? 0 then None else
    let val' := Z.lor (as_u32 (Z.shiftl val 6)) (Z.land v 0x3F) in
    let size' := size - 1 in
    if size' =? 0 then
      match char_from_u32 val' with
      | None => None
      | Some c => if len_utf8 c =? isize then Some (mkUtf8 size' isize val') else None
      end
    else Some (mkUtf8 size' isize val')
  else if negb (size =? 0) then None
  else if in_range 0 0x80 v then Some st
  else if in_range 0xC0 0xE0 v then Some (mkUtf8 1 2 (Z.land v 0x1F))
  else if in_range 0xE0 0xF0 v then Some (mkUtf8 2 3 (Z.land v 0xF))
  else if in_range 0xF0 0xF8 v then Some (mkUtf8 3 4 (Z.land v 0x7))
  else None.

Fixpoint utf8_run (st : utf8_state) (bs : list Z) : option utf8_state :=
  match bs with
  | [] => Some st
  | b :: r => match utf8_step st b with Some st' => utf8_run st' r | None => None end
  end.

(** What [check_utf8] decides once all bytes were read: after the loop the code
    returns [Ok] without looking at [cur_char_size] again. *)
Definition utf8_accepts (bs : list Z) : bool :=
  match utf8_run utf8_init bs with Some _ => true | None => false end.

(** A sequence cut short: a lead byte with fewer continuation bytes than it
    announces (or nothing at all). *)
Definition lead_need (b : Z) : option nat :=
  if in_range 0xC0 0xE0 b then Some 1%nat
  else if in_range 0xE0 0xF0 b then Some 2%nat
  else if in_range 0xF0 0xF8 b then Some 3%nat
  else None.
Definition cut_tail (tail : list Z) : Prop :=
  match tail with
  | [] => True
  | lead :: conts =>
      exists n, lead_need lead = Some n /\ (length conts < n)%nat /\
                Forall (fun b => is_cont b = true) conts
  end.

(** ** Arithmetic of the bit operations *)

Ltac unranges :=
  unfold is_cont, in_range, is_scalar, dec2, dec3, dec4 in *;
  repeat match goal with
  | H : (_ && _) = true |- _ => apply andb_true_iff in H as [? ?]
  | H : (_ <=? _)%Z = true |- _ => apply Z.leb_le in H
  | H : (_ <? _)%Z = true |- _ => apply Z.ltb_lt in H
  end.
Ltac divmod := Z.div_mod_to_equations; lia.

Lemma land_63 v : is_cont v = true -> Z.land v 0x3F = v - 0x80.
Proof.
  intros H. unranges. change 0x3F with (Z.ones 6). rewrite Z.land_ones by lia.
  change (2 ^ 6) with 64. divmod.
Qed.
Lemma land_31 v : in_range 0xC0 0xE0 v = true -> Z.land v 0x1F = v - 0xC0.
Proof.
  intros H. unranges. change 0x1F with (Z.ones 5). rewrite Z.land_ones by lia.
  change (2 ^ 5) with 32. divmod.
Qed.
Lemma land_15 v : in_range 0xE0 0xF0 v = true -> Z.land v 0xF = v - 0xE0.
Proof.
  intros H. unranges. change 0xF with (Z.ones 4). rewrite Z.land_ones by lia.
  change (2 ^ 4) with 16. divmod.
Qed.
Lemma land_7 v : in_range 0xF0 0xF8 v = true -> Z.land v 0x7 = v - 0xF0.
Proof.
  intros H. unranges. change 0x7 with (Z.ones 3). rewrite Z.land_ones by lia.
  change (2 ^ 3) with 8. divmod.
Qed.

(** Shifting in six bits is multiplication by 64 plus the new bits. *)
Lemma shift_in val v :
  0 <= val < 2 ^ 26 -> is_cont v = true ->
  Z.lor (as_u32 (Z.shiftl val 6)) (Z.land v 0x3F) = val * 64 + (v - 0x80).
Proof.
  intros Hval Hv. rewrite (land_63 v Hv). unfold as_u32.
  rewrite wrap_small by (rewrite Z.shiftl_mul_pow2 by lia; lia).
  rewrite Z.shiftl_mul_pow2 by lia. unranges. rewrite lor_low by lia. lia.
Qed.

(** ** Encodings *)

Lemma encode_dec1 b : in_range 0 0x80 b = true -> encode_char b = [b] /\ is_scalar b = true.
Proof.
  intros H. unfold encode_char, is_scalar. unranges. split.
  - by rewrite (proj2 (Z.ltb_lt _ _)).
  - apply orb_true_iff. left. apply andb_true_iff. split; [apply Z.leb_le|apply Z.ltb_lt]; lia.
Qed.

Lemma encode_dec2 b0 b1 :
  in_range 0xC0 0xE0 b0 = true -> is_cont b1 = true -> 0x80 <= dec2 b0 b1 ->
  encode_char (dec2 b0 b1) = [b0; b1].
Proof.
  intros H0 H1 Hd. unfold encode_char. unranges.
  rewrite (proj2 (Z.ltb_ge _ _)) by lia. rewrite (proj2 (Z.ltb_lt _ _)) by lia.
  repeat f_equal; divmod.
Qed.

Lemma encode_dec3 b0 b1 b2 :
  in_range 0xE0 0xF0 b0 = true -> is_cont b1 = true -> is_cont b2 = true ->
  0x800 <= dec3 b0 b1 b2 -> encode_char (dec3 b0 b1 b2) = [b0; b1; b2].
Proof.
  intros H0 H1 H2 Hd. unfold encode_char. unranges.
  rewrite !(proj2 (Z.ltb_ge _ _)) by lia. rewrite (proj2 (Z.ltb_lt _ _)) by lia.
  repeat f_equal; divmod.
Qed.

Lemma encode_dec4 b0 b1 b2 b3 :
  in_range 0xF0 0xF8 b0 = true -> is_cont b1 = true -> is_cont b2 = true ->
  is_cont b3 = true -> 0x10000 <= dec4 b0 b1 b2 b3 ->
  encode_char (dec4 b0 b1 b2 b3) = [b0; b1; b2; b3].
Proof.
  intros H0 H1 H2 H3 Hd. unfold encode_char. unranges.
  rewrite !(proj2 (Z.ltb_ge _ _)) by lia.
  repeat f_equal; divmod.
Qed.

(** The four shapes an encoded scalar can have. *)
Inductive enc_shape : Z -> list Z -> Prop :=
| Enc1 b : in_range 0 0x80 b = true -> enc_shape b [b]
| Enc2 b0 b1 : in_range 0xC0 0xE0 b0 = true -> is_cont b1 = true ->
    0x80 <= dec2 b0 b1 -> enc_shape (dec2 b0 b1) [b0; b1]
| Enc3 b0 b1 b2 : in_range 0xE0 0xF0 b0 = true -> is_cont b1 = true -> is_cont b2 = true ->
    0x800 <= dec3 b0 b1 b2 -> is_scalar (dec3 b0 b1 b2) = true ->
    enc_shape (dec3 b0 b1 b2) [b0; b1; b2]
| Enc4 b0 b1 b2 b3 : in_range 0xF0 0xF8 b0 = true -> is_cont b1 = true ->
    is_cont b2 = true -> is_cont b3 = true -> 0x10000 <= dec4 b0 b1 b2 b3 ->
    is_scalar (dec4 b0 b1 b2 b3) = true -> enc_shape (dec4 b0 b1 b2 b3) [b0; b1; b2; b3].

Ltac solve_range :=
  unfold is_cont, in_range; apply andb_true_iff; split;
  [apply Z.leb_le|apply Z.ltb_lt]; divmod.

Lemma encode_char_shape c : is_scalar c = true -> enc_shape c (encode_char c).
Proof.
  intros Hs. pose proof Hs as Hr. unfold is_scalar in Hr.
  assert (0 <= c <= 0x10FFFF) as Hc.
  { apply orb_true_iff in Hr as [Hr|Hr]; unranges; lia. }
  unfold encode_char.
  destruct (Z.ltb_spec c 0x80); [constructor; solve_range|].
  destruct (Z.ltb_spec c 0x800).
  { assert (c = dec2 (0xC0 + c / 64) (0x80 + c mod 64)) as He by (unfold dec2; divmod).
    rewrite He at 1. constructor; [solve_range..|lia]. }
  destruct (Z.ltb_spec c 0x10000).
  { assert (c = dec3 (0xE0 + c / 4096) (0x80 + (c / 64) mod 64) (0x80 + c mod 64)) as He
      by (unfold dec3; divmod).
    rewrite He at 1. constructor; [solve_range..|lia|congruence]. }
  assert (c = dec4 (0xF0 + c / 262144) (0x80 + (c / 4096) mod 64) (0x80 + (c / 64) mod 64)
                (0x80 + c mod 64)) as He by (unfold dec4; divmod).
  rewrite He at 1. constructor; [solve_range..|lia|congruence].
Qed.

(** ** [core::str::from_utf8] decides [is_str] *)

Lemma in_range_disj lo hi lo' hi' b :
  in_range lo hi b = true -> (hi <= lo' \/ hi' <= lo) -> in_range lo' hi' b = false.
Proof.
  intros H Hd. unranges. apply andb_false_iff.
  destruct Hd; [left; apply Z.leb_gt|right; apply Z.ltb_ge]; lia.
Qed.

Ltac off_range H := rewrite (in_range_disj _ _ _ _ _ H) by lia.

Lemma utf8_ok_app_shape c enc r : enc_shape c enc -> utf8_ok (enc ++ r) = utf8_ok r.
Proof.
  destruct 1 as [b Hb|b0 b1 H0 H1 Hd|b0 b1 b2 H0 H1 H2 Hd Hs|b0 b1 b2 b3 H0 H1 H2 H3 Hd Hs]; simpl.
  - by rewrite Hb.
  - off_range H0. rewrite H0, H1. by rewrite (proj2 (Z.leb_le _ _) Hd).
  - do 2 off_range H0. rewrite H0, H1, H2, Hs. by rewrite (proj2 (Z.leb_le _ _) Hd).
  - do 3 off_range H0. rewrite H0, H1, H2, H3, Hs. by rewrite (proj2 (Z.leb_le _ _) Hd).
Qed.

Lemma enc_shape_encode c enc : enc_shape c enc -> encode_char c = enc /\ is_scalar c = true.
Proof.
  destruct 1 as [b Hb|b0 b1 H0 H1 Hd|b0 b1 b2 H0 H1 H2 Hd Hs|b0 b1 b2 b3 H0 H1 H2 H3 Hd Hs].
  - by apply encode_dec1.
  - split; [by apply encode_dec2|]. unfold is_scalar. unranges.
    apply orb_true_iff. left. solve_range.
  - split; [by apply encode_dec3|done].
  - split; [by apply encode_dec4|done].
Qed.

Lemma is_str_cons c enc bs : enc_shape c enc -> is_str bs -> is_str (enc ++ bs).
Proof.
  intros [<- Hs]%enc_shape_encode (cs & Hcs & ->). exists (c :: cs). by split; [constructor|].
Qed.

Lemma utf8_ok_sound_len n bs : (length bs <= n)%nat -> utf8_ok bs = true -> is_str bs.
Proof.
  revert bs. induction n as [|n IH]; intros bs Hn H.
  { destruct bs; simpl in *; [by exists []|lia]. }
  destruct bs as [|b0 r]; [by exists []|]. simpl in *.
  destruct (in_range 0 0x80 b0) eqn:E0.
  { apply (is_str_cons b0 [b0]); [by constructor|]. apply IH; [lia|done]. }
  destruct r as [|b1 r1]; [done|]. simpl in *.
  destruct (in_range 0xC0 0xE0 b0) eqn:E1.
  { reflect_bools. apply (is_str_cons (dec2 b0 b1) [b0; b1]); [by constructor|].
    apply IH; [lia|done]. }
  destruct r1 as [|b2 r2]; [done|]. simpl in *.
  destruct (in_range 0xE0 0xF0 b0) eqn:E2.
  { reflect_bools. apply (is_str_cons (dec3 b0 b1 b2) [b0; b1; b2]); [by constructor|].
    apply IH; [lia|done]. }
  destruct r2 as [|b3 r3]; [done|]. simpl in *.
  reflect_bools. apply (is_str_cons (dec4 b0 b1 b2 b3) [b0; b1; b2; b3]); [by constructor|].
  apply IH; [lia|done].
Qed.

Lemma utf8_ok_iff bs : utf8_ok bs = true <-> is_str bs.
Proof.
  split; [by apply (utf8_ok_sound_len (length bs))|].
  intros (cs & Hcs & ->). induction Hcs as [|c cs Hc _ IH]; [done|].
  unfold encode_utf8 in *. cbn [mbind list_bind]. by rewrite (utf8_ok_app_shape c) by by apply encode_char_shape.
Qed.

(** No byte of a [str] is 0xF8 or above; in particular not 0xFE or 0xFF. *)
Lemma is_str_bytes bs : is_str bs -> Forall (fun b => 0 <= b < 0xF8) bs.
Proof.
  intros (cs & Hcs & ->). unfold encode_utf8. induction Hcs as [|c cs Hc _ IH]; [constructor|].
  cbn [mbind list_bind]. apply Forall_app. split; [|done].
  destruct (encode_char_shape c Hc); unranges; repeat constructor; lia.
Qed.

Lemma is_str_app a b : is_str a -> is_str b -> is_str (a ++ b).
Proof.
  intros (ca & Ha & ->) (cb & Hb & ->). exists (ca ++ cb).
  split; [by apply Forall_app|]. unfold encode_utf8. by rewrite bind_app.
Qed.

(** ASCII bytes form a [str]. *)
Lemma is_str_ascii bs : Forall (fun b => in_range 0 0x80 b = true) bs -> is_str bs.
Proof.
  induction 1 as [|b bs Hb _ IH]; [by exists []|]. apply (is_str_cons b [b]); [by constructor|done].
Qed.

(** ** The automaton *)

(** Between characters the automaton only depends on [cur_char_size]. *)
Lemma utf8_run_idle i v bs :
  cur_char_size <$> utf8_run (mkUtf8 0 i v) bs = cur_char_size <$> utf8_run utf8_init bs.
Proof.
  revert i v. induction bs as [|b bs IH]; intros i v; [done|]. simpl.
  destruct (in_range 0x80 0xC0 b); [done|].
  destruct (in_range 0 0x80 b); [apply IH|]. by repeat case_goal.
Qed.

(** A continuation byte in the middle of a character, and the last one. *)
Lemma utf8_step_mid size i v b :
  1 < size -> 0 <= v < 2 ^ 26 -> is_cont b = true ->
  utf8_step (mkUtf8 size i v) b = Some (mkUtf8 (size - 1) i (v * 64 + (b - 0x80))).
Proof.
  intros Hs Hv Hb. unfold utf8_step. fold (is_cont b). rewrite Hb, shift_in by done.
  by rewrite !(proj2 (Z.eqb_neq _ _)) by lia.
Qed.

Lemma utf8_step_last i v b :
  0 <= v < 2 ^ 26 -> is_cont b = true ->
  let c := v * 64 + (b - 0x80) in
  utf8_step (mkUtf8 1 i v) b =
    if is_scalar c && (len_utf8 c =? i) then Some (mkUtf8 0 i c) else None.
Proof.
  intros Hv Hb c. unfold utf8_step. fold (is_cont b). rewrite Hb, shift_in by done. fold c.
  simpl. unfold char_from_u32. by destruct (is_scalar c).
Qed.

(** Any other byte in the middle of a character is refused. *)
Lemma utf8_step_break size i v b :
  0 < size -> is_cont b = false -> utf8_step (mkUtf8 size i v) b = None.
Proof.
  intros Hs Hb. unfold utf8_step. fold (is_cont b). rewrite Hb.
  by rewrite (proj2 (Z.eqb_neq _ _)) by lia.
Qed.

Lemma utf8_step_lead n i v b st :
  lead_need b = Some n -> utf8_step (mkUtf8 0 i v) b = Some st ->
  cur_char_size st = Z.of_nat n /\ cur_char_init_size st = Z.of_nat n + 1 /\
  cur_char_val st = b - (if in_range 0xC0 0xE0 b then 0xC0 else
                         if in_range 0xE0 0xF0 b then 0xE0 else 0xF0).
Proof.
  unfold lead_need. intros Hn. unfold utf8_step.
  destruct (in_range 0xC0 0xE0 b) eqn:H0; [|destruct (in_range 0xE0 0xF0 b) eqn:H1;
    [|destruct (in_range 0xF0 0xF8 b) eqn:H2; [|done]]]; injection Hn as <-.
  - do 2 off_range H0. intros [= <-]. simpl. by rewrite land_31.
  - do 2 off_range H1. intros [= <-]. simpl. by rewrite land_15.
  - do 2 off_range H2. intros [= <-]. simpl. by rewrite land_7.
Qed.

Ltac decide_ltb :=
  repeat first [rewrite (proj2 (Z.ltb_ge _ _)) by lia | rewrite (proj2 (Z.ltb_lt _ _)) by lia].

Lemma len_utf8_shape c enc : enc_shape c enc -> len_utf8 c = Z.of_nat (length enc).
Proof. destruct 1; unfold len_utf8; unranges; by decide_ltb. Qed.

(** Reading one complete encoded character brings the automaton back to rest. *)
Lemma utf8_run_shape c enc r :
  enc_shape c enc ->
  cur_char_size <$> utf8_run utf8_init (enc ++ r) = cur_char_size <$> utf8_run utf8_init r.
Proof.
  intros Hsh. pose proof (enc_shape_encode _ _ Hsh) as [_ Hsc].
  pose proof (len_utf8_shape _ _ Hsh) as Hlen.
  destruct Hsh as [b Hb|b0 b1 H0 H1 Hd|b0 b1 b2 H0 H1 H2 Hd Hs|b0 b1 b2 b3 H0 H1 H2 H3 Hd Hs];
    cbn [app utf8_run utf8_step utf8_init].
  - off_range Hb. by rewrite Hb.
  - do 2 off_range H0. rewrite H0, land_31 by done. cbn [Z.eqb negb utf8_run].
    rewrite utf8_step_last by (done || (unranges; lia)). fold (dec2 b0 b1).
    rewrite Hsc, Hlen. apply utf8_run_idle.
  - do 3 off_range H0. rewrite H0, land_15 by done. cbn [Z.eqb negb utf8_run].
    rewrite utf8_step_mid by (done || (unranges; lia)). change (2 - 1) with 1.
    rewrite utf8_step_last by (done || (unranges; lia)). fold (dec3 b0 b1 b2).
    rewrite Hsc, Hlen. apply utf8_run_idle.
  - do 4 off_range H0. rewrite H0, land_7 by done. cbn [Z.eqb negb utf8_run].
    rewrite utf8_step_mid by (done || (unranges; lia)). change (3 - 1) with 2.
    rewrite utf8_step_mid by (done || (unranges; lia)). change (2 - 1) with 1.
    rewrite utf8_step_last by (done || (unranges; lia)). fold (dec4 b0 b1 b2 b3).
    rewrite Hsc, Hlen. apply utf8_run_idle.
Qed.

Lemma utf8_run_encode cs r :
  Forall (fun c => is_scalar c = true) cs ->
  cur_char_size <$> utf8_run utf8_init (encode_utf8 cs ++ r) =
  cur_char_size <$> utf8_run utf8_init r.
Proof.
  unfold encode_utf8. induction 1 as [|c cs Hc _ IH]; [done|].
  cbn [mbind list_bind]. rewrite <- app_assoc, (utf8_run_shape c) by by apply encode_char_shape. done.
Qed.

(** Continuation bytes that do not complete the character. *)
Lemma utf8_run_conts conts size i v :
  Z.of_nat (length conts) < size <= 3 -> 0 <= v < 64 ^ (4 - size) ->
  Forall (fun b => is_cont b = true) conts ->
  exists v', utf8_run (mkUtf8 size i v) conts = Some (mkUtf8 (size - Z.of_nat (length conts)) i v').
Proof.
  revert size v. induction conts as [|b conts IH]; intros size v Hs Hv Hc; simpl in Hs.
  { exists v. simpl. by rewrite Z.sub_0_r. }
  apply Forall_cons_1 in Hc as [Hb Hc]. cbn [utf8_run].
  assert (64 ^ (4 - size) <= 64 ^ 3) by (apply Z.pow_le_mono_r; lia).
  rewrite utf8_step_mid by (done || lia).
  destruct (IH (size - 1) (v * 64 + (b - 0x80))) as [v' ->]; [lia| |done|].
  { replace (4 - (size - 1)) with (Z.succ (4 - size)) by lia. rewrite Z.pow_succ_r by lia.
    unranges. lia. }
  exists v'. f_equal. f_equal. simpl. lia.
Qed.

Lemma utf8_run_cut tail :
  cut_tail tail -> exists st, utf8_run utf8_init tail = Some st /\ (cur_char_size st = 0 <-> tail = []).
Proof.
  destruct tail as [|lead conts]; [by exists utf8_init|].
  intros (n & Hn & Hlen & Hc). cbn [utf8_run].
  destruct (utf8_step utf8_init lead) as [[size i v]|] eqn:Hst.
  - destruct (utf8_step_lead _ _ _ _ _ Hn Hst) as (Hsz & Hi & Hv). simpl in *. subst size.
    destruct (utf8_run_conts conts (Z.of_nat n) i v) as [v' ->]; [| |done|].
    + unfold lead_need in Hn. repeat case_hyp Hn; simplify_eq; lia.
    + subst v. unfold lead_need in Hn. repeat case_hyp Hn; simplify_eq; unranges; simpl; lia.
    + eexists. split; [done|]. simpl. split; [lia|done].
  - exfalso. revert Hn Hst. unfold lead_need, utf8_step, utf8_init.
    destruct (in_range 0xC0 0xE0 lead) eqn:H0; [do 2 off_range H0; done|].
    destruct (in_range 0xE0 0xF0 lead) eqn:H1; [do 2 off_range H1; done|].
    destruct (in_range 0xF0 0xF8 lead) eqn:H2; [do 2 off_range H2; done|done].
Qed.

(** What the automaton accepts: complete characters, then possibly the beginning
    of one more. *)
Definition str_then_cut (bs : list Z) (rest : Z) : Prop :=
  exists cs tail, bs = encode_utf8 cs ++ tail /\ Forall (fun c => is_scalar c = true) cs /\
                  cut_tail tail /\ (rest = 0 <-> tail = []).

Lemma str_then_cut_cons c enc bs rest :
  enc_shape c enc -> str_then_cut bs rest -> str_then_cut (enc ++ bs) rest.
Proof.
  intros Hsh (cs & tail & -> & Hcs & Ht & Hr).
  destruct (enc_shape_encode _ _ Hsh) as [<- Hc].
  exists (c :: cs), tail. split_and!; [|by constructor|done..].
  unfold encode_utf8. cbn [mbind list_bind]. by rewrite app_assoc.
Qed.

Lemma str_then_cut_lead lead conts n rest :
  lead_need lead = Some n -> (length conts < n)%nat ->
  Forall (fun b => is_cont b = true) conts -> rest <> 0 -> str_then_cut (lead :: conts) rest.
Proof.
  intros Hn Hl Hc Hr. exists [], (lead :: conts). split_and!; [done|constructor|by exists n|].
  by split.
Qed.

(** Running from inside a character: either the input ends there, or the
    announced continuation bytes follow and the character they form is checked. *)
Definition feed (v : Z) (conts : list Z) : Z := foldl (fun v b => v * 64 + (b - 0x80)) v conts.

Lemma utf8_run_inside k size i v r st :
  size = Z.of_nat (S k) -> size <= 3 -> 0 <= v < 64 ^ (4 - size) ->
  utf8_run (mkUtf8 size i v) r = Some st ->
  ((length r < S k)%nat /\ Forall (fun b => is_cont b = true) r /\ 0 < cur_char_size st) \/
  (exists conts r', r = conts ++ r' /\ length conts = S k /\
     Forall (fun b => is_cont b = true) conts /\ is_scalar (feed v conts) = true /\
     len_utf8 (feed v conts) = i /\ utf8_run (mkUtf8 0 i (feed v conts)) r' = Some st).
Proof.
  revert size v r. induction k as [|k IH]; intros size v r Hsize Hle Hv Hrun;
    (destruct r as [|b r]; [left; injection Hrun as <-; simpl; split_and!; [lia|constructor|lia]|]);
    cbn [utf8_run] in Hrun; assert (64 ^ (4 - size) <= 64 ^ 3) by (apply Z.pow_le_mono_r; lia);
    (destruct (is_cont b) eqn:Hb; [|by rewrite utf8_step_break in Hrun by (done || lia)]).
  - subst size. change (Z.of_nat 1) with 1 in *. rewrite utf8_step_last in Hrun by (done || lia).
    destruct (is_scalar _ && _) eqn:Hok; [|done]. reflect_bools. right. exists [b], r.
    by split_and!; [done|done|constructor|..].
  - rewrite utf8_step_mid in Hrun by (done || lia).
    destruct (IH (size - 1) (v * 64 + (b - 0x80)) r) as [(Hl & Hf & Hz)|(conts & r' & -> & Hl & Hf & Hs & Hi & Hr)];
      [lia|lia| |done| |].
    + replace (4 - (size - 1)) with (Z.succ (4 - size)) by lia. rewrite Z.pow_succ_r by lia.
      unranges. lia.
    + left. split_and!; [simpl; lia|by constructor|done].
    + right. exists (b :: conts), r'. simpl. split_and!; [done|lia|by constructor|done..].
Qed.

Lemma conts1 (conts : list Z) : length conts = 1%nat -> exists b, conts = [b].
Proof. destruct conts as [|? []]; simpl; intros; try lia; eauto. Qed.
Lemma conts2 (conts : list Z) : length conts = 2%nat -> exists b c, conts = [b; c].
Proof. destruct conts as [|? [|? []]]; simpl; intros; try lia; eauto. Qed.
Lemma conts3 (conts : list Z) : length conts = 3%nat -> exists b c d, conts = [b; c; d].
Proof. destruct conts as [|? [|? [|? []]]]; simpl; intros; try lia; eauto. Qed.

(** The checks at the end of a character make lead and continuation bytes one of
    the four legal shapes. *)
Lemma feed_shape b n conts v :
  lead_need b = Some n -> length conts = n -> Forall (fun b => is_cont b = true) conts ->
  v = b - (if in_range 0xC0 0xE0 b then 0xC0 else if in_range 0xE0 0xF0 b then 0xE0 else 0xF0) ->
  is_scalar (feed v conts) = true -> len_utf8 (feed v conts) = Z.of_nat n + 1 ->
  enc_shape (feed v conts) (b :: conts).
Proof.
  unfold lead_need. intros Hn Hl Hf -> Hs Hlen.
  destruct (in_range 0xC0 0xE0 b) eqn:H0; [|destruct (in_range 0xE0 0xF0 b) eqn:H1;
    [|destruct (in_range 0xF0 0xF8 b) eqn:H2; [|done]]]; injection Hn as <-.
  - apply conts1 in Hl as (b1 & ->). decompose_Forall_hyps. apply Enc2; [done..|].
    revert Hlen. unfold len_utf8, feed, dec2. simpl. repeat case_goal; reflect_bools; lia.
  - apply conts2 in Hl as (b1 & b2 & ->). decompose_Forall_hyps. apply Enc3; [done..| |done].
    revert Hlen. unfold len_utf8, feed, dec3. simpl. repeat case_goal; reflect_bools; lia.
  - apply conts3 in Hl as (b1 & b2 & b3 & ->). decompose_Forall_hyps. apply Enc4; [done..| |done].
    revert Hlen. unfold len_utf8, feed, dec4. simpl. repeat case_goal; reflect_bools; lia.
Qed.

(** A first byte the automaton accepts at rest is ASCII or a lead byte. *)
Lemma utf8_step_rest i v b st :
  utf8_step (mkUtf8 0 i v) b = Some st ->
  (in_range 0 0x80 b = true /\ st = mkUtf8 0 i v) \/ exists n, lead_need b = Some n.
Proof.
  unfold utf8_step, lead_need. intros H. repeat case_hyp H; simplify_eq; simpl in *; eauto; done.
Qed.

Lemma utf8_run_decompose n bs i v st :
  (length bs <= n)%nat -> utf8_run (mkUtf8 0 i v) bs = Some st -> str_then_cut bs (cur_char_size st).
Proof.
  revert bs i v. induction n as [|n IH]; intros bs i v Hn Hrun;
    (destruct bs as [|b r]; [injection Hrun as <-; by exists [], []|simpl in Hn; try lia]).
  cbn [utf8_run] in Hrun. destruct (utf8_step _ b) as [st1|] eqn:Hst; [|done].
  destruct (utf8_step_rest _ _ _ _ Hst) as [[Hb ->]|[m Hm]].
  { apply (str_then_cut_cons b [b]); [by constructor|]. eapply IH; [lia|done]. }
  destruct (utf8_step_lead _ _ _ _ _ Hm Hst) as (Hsz & Hi & Hv).
  destruct st1 as [size isz val]. simpl in Hsz, Hi, Hv.
  assert (exists k, m = S k /\ (k <= 2)%nat) as (k & -> & Hk).
  { unfold lead_need in Hm. repeat case_hyp Hm; simplify_eq; eauto with lia. }
  assert (0 <= val < 64 ^ (4 - size)) as Hval.
  { subst. unfold lead_need in Hm. repeat case_hyp Hm; simplify_eq; unranges; simpl; lia. }
  destruct (utf8_run_inside k size isz val r st) as [(Hl & Hf & Hz)|(conts & r' & -> & Hl & Hf & Hs & Hlen & Hr)];
    [done|lia|done|done| |].
  - eapply str_then_cut_lead; [done|lia|done|lia].
  - change (b :: conts ++ r') with ((b :: conts) ++ r'). eapply str_then_cut_cons.
    + eapply feed_shape; [done|done|done|done|done|]. congruence.
    + eapply IH; [|done]. rewrite length_app in Hn. lia.
Qed.

(** C20 (the byte check of [check_utf8], exactly): the automaton accepts a byte
    string iff it is a sequence of encoded scalar values followed by a possibly
    cut-off last character: what it rejects is not UTF-8, all UTF-8 is accepted,
    and the only non-UTF-8 it lets through are strings that end in the middle of
    a character. *)
Theorem check_utf8_accepts_exactly bs :
  utf8_accepts bs = true <->
  exists cs tail, bs = encode_utf8 cs ++ tail /\
    Forall (fun c => is_scalar c = true) cs /\ cut_tail tail.
Proof.
  unfold utf8_accepts. split.
  - destruct (utf8_run utf8_init bs) as [st|] eqn:H; [intros _|done].
    destruct (utf8_run_decompose (length bs) bs 0 0 st) as (cs & tail & ? & ? & ? & _); eauto.
  - intros (cs & tail & -> & Hcs & Ht). pose proof (utf8_run_encode cs tail Hcs) as He.
    destruct (utf8_run_cut tail Ht) as (st & Hst & _). rewrite Hst in He.
    by destruct (utf8_run utf8_init (encode_utf8 cs ++ tail)).
Qed.

(** The automaton ends at rest exactly on well-formed strings. *)
Lemma utf8_run_complete bs :
  (exists st, utf8_run utf8_init bs = Some st /\ cur_char_size st = 0) <-> is_str bs.
Proof.
  split.
  - intros (st & Hst & Hz).
    destruct (utf8_run_decompose (length bs) bs 0 0 st) as (cs & tail & -> & Hcs & _ & Hr); [done..|].
    apply Hr in Hz as ->. rewrite app_nil_r. by exists cs.
  - intros (cs & Hcs & ->). pose proof (utf8_run_encode cs [] Hcs) as He. rewrite app_nil_r in He.
    destruct (utf8_run utf8_init (encode_utf8 cs)) as [st|]; [|done]. injection He as Hz. by exists st.
Qed.
