(* ===== verification/Errors.v ===== *)
(** * Errors: Linux error numbers and the errors system calls return

    [errno] has the constants of the linux-errno crate the sources name, and
    [SysError] the variants of [lilium_sys::result::Error] the sources name (its
    numeric codes are not part of this repository: [into_code] is a parameter
    where it is used). *)

From Stdlib Require Import ZArith.
From stdpp Require Import base decidable list sets.
From S2P Require Import Prelude.

Local Open Scope Z_scope.

Inductive errno : Type :=
| EINTR | EPERM | ENOMEM | EINVAL | EFAULT | ENOSYS | ENOENT | ENODEV
| EMFILE | ENFILE | EDQUOT | EBADF | EACCES | ENODATA
| EOther (code : Z).

Inductive SysError : Type :=
| Interrupted | Permission | InsufficientMemory | InvalidOperation | InvalidMemory
| UnsupportedKernelFunction | DoesNotExist | ResourceLimitExhausted | InvalidHandle
| InvalidOption | InsufficientLength | UnknownDevice | UnsupportedOperation | InvalidString
| ErrorCode (code : Z).   (** [Error::from_code(c).unwrap_err()] *)

#[export] Instance errno_eq_dec : EqDecision errno.
Proof. solve_decision. Defined.
#[export] Instance SysError_eq_dec : EqDecision SysError.
Proof. solve_decision. Defined.

(** [helpers::linux_error_to_lilium]. *)
Definition linux_error_to_lilium (e : errno) : SysError :=
  match e with
  | EINTR => Interrupted
  | EPERM => Permission
  | ENOMEM => InsufficientMemory
  | EINVAL => InvalidOperation
  | EFAULT => InvalidMemory
  | ENOSYS => UnsupportedKernelFunction
  | ENOENT => DoesNotExist
  | ENODEV => DoesNotExist
  | EMFILE | ENFILE | EDQUOT => ResourceLimitExhausted
  | EBADF => InvalidHandle
  | _ => ErrorCode (-0x800)
  end.

(** [SyscallRet::into_sys] for [Result<()>] and [Result<usize>]: the register a
    system call returns, given the numeric code of an error. *)
Section IntoSys.
Context (into_code : SysError -> Z).

Definition into_sys_unit (r : result unit SysError) : Z :=
  match r with Ok _ => 0 | Err e => into_code e end.
Definition into_sys_usize (r : result Z SysError) : Z :=
  match r with Ok v => as_isize v | Err e => into_code e end.
End IntoSys.

(** The conversion loses no failure and tells the unknown ones apart from the
    others. *)
Lemma linux_error_unknown e :
  linux_error_to_lilium e = ErrorCode (-0x800) <->
  e ∉@{list errno} [EINTR; EPERM; ENOMEM; EINVAL; EFAULT; ENOSYS; ENOENT; ENODEV; EMFILE; ENFILE;
         EDQUOT; EBADF].
Proof. destruct e; simpl; split; intros H; try done; try set_solver. Qed.
