(* ===== verification/EnvMap.v ===== *)
(** * The emulated environment block (wl-impl/src/env.rs)

    [EnvMap] keeps the environment in one byte vector of length-prefixed
    entries, a hash map from keys to entry offsets and a list of free entries.
    The file models every operation on that representation (construction,
    lookup, update, removal, iteration) down to the byte and the slice bound,
    and relates it to a finite map from keys to values. *)

From Stdlib Require Import ZArith Lia.
From stdpp Require Import base numbers list option gmap fin_maps.
From S2P Require Import Prelude.
From S2P Require Import Utf8.

Local Open Scope Z_scope.

(** Keys and values are Rust strings, modelled by their bytes. *)
Abbreviation str := (list Z).

Definition KEY_TERM : Z := 0xFE.
Definition ENTRY_TERM : Z := 0xFF.
Definition EMPTY : list Z := [0xFE; 0xFF].
(** [size_of::<usize>()] on x86-64. *)
Definition SIZEOF_USIZE : nat := 8%nat.

Definition entry_len (k v : str) : nat := (SIZEOF_USIZE + 2 + length k + length v)%nat.

Record EnvMap : Type := mkEnv {
  env : list Z;
  env_map : gmap str nat;
  freelist : list nat }.

(** [ministd::RandomState::new] is [todo!()], and [HashMap::new] calls it. *)
Definition RandomState_new : outcome (Z * Z) := Panic Todo.
Definition HashMap_new : outcome (gmap str nat) := _ ← RandomState_new; Ret ∅.

(** The bytes of a fresh entry: length prefix, key, 0xFE, value, 0xFF. *)
Definition entry_bytes (k v : str) : list Z :=
  le_bytes SIZEOF_USIZE (Z.of_nat (entry_len k v)) ++ k ++ [KEY_TERM] ++ v ++ [ENTRY_TERM].

(** [FromIterator]: the loop over the items, from an empty hash map. *)
Fixpoint from_iter_loop (e : list Z) (m : gmap str nat) (items : list (str * str)) :
    outcome EnvMap :=
  match items with
  | [] => Ret (mkEnv e m [])
  | (k, v) :: r =>
    if decide (is_Some (m !! k)) then Panic Explicit else
    from_iter_loop (e ++ entry_bytes k v) (<[k := length e]> m) r
  end.
Definition from_iter (items : list (str * str)) : outcome EnvMap :=
  m ← HashMap_new; from_iter_loop [] m items.

(** [EnvMap::var]. *)
Definition var (e : EnvMap) (k : str) : outcome (option str) :=
  match env_map e !! k with
  | Some off =>
    ptr ← slice_from (env e) (off + SIZEOF_USIZE);
    ptr ← slice_from ptr (length k + 1);
    n ← expect (memchr ENTRY_TERM ptr);
    s ← from_utf8_expect (take n ptr);
    Ret (Some s)
  | None => Ret None
  end.

(** [EnvMap::remove_var]: the entry becomes empty but is not put on the free list. *)
Definition remove_var (e : EnvMap) (k : str) : outcome EnvMap :=
  match env_map e !! k with
  | Some off =>
    b ← copy_into (env e) (off + SIZEOF_USIZE) EMPTY;
    Ret (mkEnv b (delete k (env_map e)) (freelist e))
  | None => Ret e
  end.

(** Reading the length prefix at an offset ([first_chunk], [from_ne_bytes]). *)
Definition read_prefix (b : list Z) (off : nat) : outcome nat :=
  ptr ← slice_from b off;
  if decide (length ptr < SIZEOF_USIZE)%nat then Panic Explicit else
  Ret (Z.to_nat (le_value (take SIZEOF_USIZE ptr))).

(** The scan of the free list in [set_var]: the first entry whose length is at
    most the wanted one, with its position. *)
Fixpoint find_free (b : list Z) (fl : list nat) (i elen : nat) : outcome (option (nat * nat)) :=
  match fl with
  | [] => Ret None
  | elem :: r =>
    tlen ← read_prefix b elem;
    if decide (tlen <= elen)%nat then Ret (Some (i, elem)) else find_free b r (S i) elen
  end.

(** [Vec::swap_remove]. *)
Definition swap_remove (l : list nat) (i : nat) : list nat :=
  match last l with
  | Some x => take (length l - 1) (<[i := x]> l)
  | None => l
  end.

(** The write of an entry into a recycled slot: [ptr] is [&mut self.env[..elem]]. *)
Definition write_recycled (b : list Z) (elem : nat) (k v : str) : outcome (list Z) :=
  ptr ← slice_to b elem;
  let off := (SIZEOF_USIZE + length k)%nat in
  ptr ← copy_into ptr SIZEOF_USIZE k;
  ptr ← store ptr off KEY_TERM;
  ptr ← copy_into ptr (off + 1) v;
  ptr ← store ptr (off + 1 + length v) ENTRY_TERM;
  Ret (ptr ++ drop elem b).

(** [set_var], the part after the in-place attempt. *)
Definition set_var_move (e : EnvMap) (k v : str) : outcome EnvMap :=
  let elen := entry_len k v in
  hit ← find_free (env e) (freelist e) 0 elen;
  match hit with
  | Some (i, elem) =>
    match env_map e !! k with
    | Some old_off =>
      b ← copy_into (env e) (old_off + SIZEOF_USIZE) EMPTY;
      b ← write_recycled b elem k v;
      Ret (mkEnv b (<[k := elem]> (env_map e)) (<[i := old_off]> (freelist e)))
    | None =>
      b ← write_recycled (env e) elem k v;
      Ret (mkEnv b (<[k := elem]> (env_map e)) (swap_remove (freelist e) i))
    end
  | None =>
    let elem := length (env e) in
    let b := env e ++ entry_bytes k v in
    match env_map e !! k with
    | Some old_off =>
      b ← copy_into b (old_off + SIZEOF_USIZE) EMPTY;
      Ret (mkEnv b (<[k := elem]> (env_map e)) (freelist e ++ [old_off]))
    | None => Ret (mkEnv b (<[k := elem]> (env_map e)) (freelist e))
    end
  end.

(** [EnvMap::set_var]. *)
Definition set_var (e : EnvMap) (k v : str) : outcome EnvMap :=
  let elen := entry_len k v in
  match env_map e !! k with
  | Some off =>
    tlen ← read_prefix (env e) off;
    if decide (elen <= tlen)%nat then
      let pos := (off + (SIZEOF_USIZE + 1 + length k))%nat in
      b ← copy_into (env e) pos v;
      b ← store b (pos + length v) ENTRY_TERM;
      Ret (mkEnv b (env_map e) (freelist e))
    else set_var_move e k v
  | None => set_var_move e k v
  end.

(** [Extend::extend]. *)
Fixpoint extend (e : EnvMap) (items : list (str * str)) : outcome EnvMap :=
  match items with
  | [] => Ret e
  | (k, v) :: r => e ← set_var e k v; extend e r
  end.

(** [Iter::next]: the item and the remaining bytes. *)
Definition iter_next (b : list Z) : outcome (option ((str * str) * list Z)) :=
  if decide (length b < SIZEOF_USIZE)%nat then Ret None else
  let len := Z.to_nat (le_value (take SIZEOF_USIZE b)) in
  let rest := drop SIZEOF_USIZE b in
  b' ← slice_from b len;
  off ← expect (memchr KEY_TERM rest);
  let key := take off rest in
  let rest := drop off rest in
  n ← expect (memchr ENTRY_TERM rest);
  val ← slice_from (take n rest) 1;
  key ← from_utf8_expect key;
  val ← from_utf8_expect val;
  Ret (Some ((key, val), b')).

(** [iter().collect()], with fuel for the number of entries. *)
Fixpoint iter_collect (fuel : nat) (b : list Z) : outcome (list (str * str)) :=
  match fuel with
  | O => Ret []
  | S f =>
    r ← iter_next b;
    match r with
    | None => Ret []
    | Some (kv, b') => l ← iter_collect f b'; Ret (kv :: l)
    end
  end.
Definition iter_all (e : EnvMap) : outcome (list (str * str)) :=
  iter_collect (S (length (env e))) (env e).

(** ** The representation: a sequence of slots *)

Record slot : Type := mkSlot { s_key : str; s_val : str; s_tail : list Z }.

Definition slot_body (s : slot) : list Z :=
  s_key s ++ [KEY_TERM] ++ s_val s ++ [ENTRY_TERM] ++ s_tail s.
Definition slot_len (s : slot) : nat := (SIZEOF_USIZE + length (slot_body s))%nat.
Definition slot_bytes (s : slot) : list Z :=
  le_bytes SIZEOF_USIZE (Z.of_nat (slot_len s)) ++ slot_body s.
Definition layout (ss : list slot) : list Z := ss ≫= slot_bytes.
Definition slot_off (ss : list slot) (i : nat) : nat := length (layout (take i ss)).

(** An entry is well formed: its strings are UTF-8, a free entry has neither key
    nor value, and the length fits the prefix. *)
Definition slot_ok (s : slot) : Prop :=
  is_str (s_key s) /\ is_str (s_val s) /\ (s_key s = [] -> s_val s = []) /\
  Z.of_nat (slot_len s) < 2 ^ 64.

(** Slot [i] holds key [k]. *)
Definition holds (ss : list slot) (k : str) (i : nat) (s : slot) : Prop :=
  ss !! i = Some s /\ s_key s = k /\ k <> [].

(** The byte vector, the hash map and the free list agree on the slots. *)
Record env_wf (e : EnvMap) (ss : list slot) : Prop := {
  wf_env : env e = layout ss;
  wf_slots : Forall slot_ok ss;
  wf_map : forall k off, env_map e !! k = Some off <->
             exists i s, holds ss k i s /\ off = slot_off ss i;
  wf_free : Forall (fun off => exists i s, ss !! i = Some s /\ s_key s = [] /\
                                           off = slot_off ss i) (freelist e) }.

(** The environment a state stands for. *)
Definition represents (e : EnvMap) (m : gmap str str) : Prop :=
  exists ss, env_wf e ss /\
    forall k v, m !! k = Some v <-> exists i s, holds ss k i s /\ s_val s = v.

(** ** Layout arithmetic *)

Lemma length_slot_bytes s : length (slot_bytes s) = slot_len s.
Proof. unfold slot_bytes. rewrite length_app, length_le_bytes. done. Qed.

Lemma layout_app ss1 ss2 : layout (ss1 ++ ss2) = layout ss1 ++ layout ss2.
Proof. apply bind_app. Qed.

Lemma layout_cons s ss : layout (s :: ss) = slot_bytes s ++ layout ss.
Proof. done. Qed.

Lemma layout_split ss i s :
  ss !! i = Some s ->
  layout ss = layout (take i ss) ++ slot_bytes s ++ layout (drop (S i) ss).
Proof.
  intros H. rewrite <- (take_drop_middle ss i s H) at 1. by rewrite layout_app.
Qed.

Lemma slot_off_bound ss i s :
  ss !! i = Some s -> (slot_off ss i + slot_len s <= length (layout ss))%nat.
Proof.
  intros H. rewrite (layout_split ss i s H), !length_app, length_slot_bytes.
  unfold slot_off. lia.
Qed.

Lemma slot_off_lt ss i j s :
  ss !! i = Some s -> (i < j)%nat -> (slot_off ss i + slot_len s <= slot_off ss j)%nat.
Proof.
  intros H Hij. unfold slot_off at 2.
  assert (take j ss !! i = Some s) as Hi by by rewrite lookup_take_lt.
  apply slot_off_bound in Hi. unfold slot_off in *. rewrite take_take in Hi.
  by replace (i `min` j)%nat with i in Hi by lia.
Qed.

Lemma slot_len_pos s : (10 <= slot_len s)%nat.
Proof.
  unfold slot_len, slot_body, SIZEOF_USIZE. rewrite !length_app. simpl. lia.
Qed.

Lemma slot_off_inj ss i j s t :
  ss !! i = Some s -> ss !! j = Some t -> slot_off ss i = slot_off ss j -> i = j.
Proof.
  intros Hi Hj He. pose proof (slot_len_pos s). pose proof (slot_len_pos t).
  destruct (Nat.lt_trichotomy i j) as [H'|[H'|H']]; [|done|].
  - pose proof (slot_off_lt _ _ _ _ Hi H'). lia.
  - pose proof (slot_off_lt _ _ _ _ Hj H'). lia.
Qed.

(** Replacing a slot by one of the same length moves nothing. *)
Lemma length_layout_insert ss i s s' :
  ss !! i = Some s -> slot_len s' = slot_len s ->
  length (layout (<[i := s']> ss)) = length (layout ss).
Proof.
  intros H Hl. pose proof (lookup_lt_Some _ _ _ H).
  rewrite (layout_split ss i s H), insert_take_drop by done.
  rewrite layout_app, layout_cons, !length_app, !length_slot_bytes. lia.
Qed.

Lemma slot_off_insert ss i j s s' :
  ss !! i = Some s -> slot_len s' = slot_len s ->
  slot_off (<[i := s']> ss) j = slot_off ss j.
Proof.
  intros H Hl. unfold slot_off. destruct (decide (i < j)%nat).
  - rewrite take_insert_lt by done.
    apply (length_layout_insert _ _ s); [by rewrite lookup_take_lt|done].
  - by rewrite take_insert_ge by lia.
Qed.

Lemma layout_insert ss i s s' :
  ss !! i = Some s -> slot_len s' = slot_len s ->
  layout (<[i := s']> ss) = layout (take i ss) ++ slot_bytes s' ++ layout (drop (S i) ss).
Proof.
  intros H Hl. pose proof (lookup_lt_Some _ _ _ H).
  by rewrite insert_take_drop, layout_app, layout_cons.
Qed.

(** Bytes behind an offset inside a slot, and writing there. *)
Lemma drop_layout ss i s n :
  ss !! i = Some s -> (n <= slot_len s)%nat ->
  drop (slot_off ss i + n) (layout ss) = drop n (slot_bytes s) ++ layout (drop (S i) ss).
Proof.
  intros H Hn. rewrite (layout_split ss i s H). unfold slot_off.
  rewrite drop_app_add, drop_app_le by (rewrite length_slot_bytes; lia). done.
Qed.

Lemma overwrite_layout ss i s s' n w :
  ss !! i = Some s -> slot_len s' = slot_len s -> (n + length w <= slot_len s)%nat ->
  overwrite (slot_bytes s) n w = slot_bytes s' ->
  overwrite (layout ss) (slot_off ss i + n) w = layout (<[i := s']> ss).
Proof.
  intros H Hl Hn Hw. rewrite (layout_insert ss i s s'), (layout_split ss i s H) by done.
  rewrite <- Hw. unfold overwrite, slot_off.
  rewrite take_app_add, <- (Nat.add_assoc _ n), drop_app_add.
  rewrite take_app_le, drop_app_le by (rewrite length_slot_bytes; lia).
  by rewrite <- !app_assoc.
Qed.

Lemma read_prefix_slot ss i s :
  ss !! i = Some s -> Z.of_nat (slot_len s) < 2 ^ 64 ->
  read_prefix (layout ss) (slot_off ss i) = Ret (slot_len s).
Proof.
  intros H Hlt. unfold read_prefix. pose proof (slot_off_bound _ _ _ H). pose proof (slot_len_pos s).
  rewrite slice_from_ok by lia. cbn [mbind outcome_bind].
  rewrite <- (Nat.add_0_r (slot_off ss i)), (drop_layout ss i s 0) by (done || lia).
  rewrite drop_0, length_app, length_slot_bytes, decide_False by (unfold SIZEOF_USIZE; lia).
  unfold slot_bytes. rewrite <- app_assoc, take_app_length' by (by rewrite length_le_bytes).
  rewrite le_value_le_bytes by (change (256 ^ Z.of_nat SIZEOF_USIZE) with (2 ^ 64); lia).
  by rewrite Nat2Z.id.
Qed.

(** ** Which slot holds which key *)

Lemma holds_insert ss i s s' k j t :
  ss !! i = Some s ->
  holds (<[i := s']> ss) k j t <->
  (j = i /\ t = s' /\ s_key s' = k /\ k <> []) \/ (j <> i /\ holds ss k j t).
Proof.
  intros Hi. pose proof (lookup_lt_Some _ _ _ Hi). unfold holds.
  destruct (decide (j = i)) as [->|Hne].
  - rewrite list_lookup_insert_eq by done. split.
    + intros ([= <-] & ? & ?). by left.
    + by intros [(_ & -> & ? & ?)|[? _]].
  - rewrite list_lookup_insert_ne by done. split; [by right|]. by intros [(? & _)|[_ ?]].
Qed.

Lemma holds_snoc ss s' k j t :
  holds (ss ++ [s']) k j t <->
  holds ss k j t \/ (j = length ss /\ t = s' /\ s_key s' = k /\ k <> []).
Proof.
  unfold holds. rewrite lookup_app. split.
  - intros (H & Hk & Hne). destruct (ss !! j) as [u|] eqn:E; [simplify_eq; by left|].
    right. apply lookup_ge_None in E. rewrite list_lookup_singleton in H.
    case_hyp H; [|done]. simplify_eq. split_and!; [lia|done..].
  - intros [(H & Hk & Hne)|(-> & -> & Hk & Hne)]; [by rewrite H|].
    rewrite lookup_ge_None_2 by lia. by rewrite Nat.sub_diag.
Qed.

Lemma slot_off_snoc ss s' j : (j <= length ss)%nat -> slot_off (ss ++ [s']) j = slot_off ss j.
Proof. intros. unfold slot_off. by rewrite take_app_le by lia. Qed.

Lemma slot_off_length ss : slot_off ss (length ss) = length (layout ss).
Proof. unfold slot_off. by rewrite take_ge by lia. Qed.

Lemma env_wf_unique e ss k i j s t :
  env_wf e ss -> holds ss k i s -> holds ss k j t -> i = j /\ s = t.
Proof.
  intros Hwf Hi Hj. pose proof (wf_map _ _ Hwf k) as Hm.
  assert (slot_off ss i = slot_off ss j) as Ho.
  { assert (env_map e !! k = Some (slot_off ss i)) as H1 by (apply Hm; eauto).
    assert (env_map e !! k = Some (slot_off ss j)) as H2 by (apply Hm; eauto). congruence. }
  destruct Hi as (Hi & ? & ?), Hj as (Hj & ? & ?).
  pose proof (slot_off_inj _ _ _ _ _ Hi Hj Ho). by simplify_eq.
Qed.

Lemma env_wf_slot_ok e ss i s : env_wf e ss -> ss !! i = Some s -> slot_ok s.
Proof. intros Hwf Hi. exact (Forall_lookup_1 _ _ _ _ (wf_slots _ _ Hwf) Hi). Qed.

(** Strings never contain the terminators. *)
Lemma str_no_term b v : 0xF8 <= b -> is_str v -> Forall (fun x => Z.eqb b x = false) v.
Proof.
  intros Hb Hv%is_str_bytes. eapply Forall_impl; [done|]. intros x Hx. apply Z.eqb_neq. simpl in *. lia.
Qed.

Lemma memchr_term b v r : 0xF8 <= b -> is_str v -> memchr b (v ++ b :: r) = Some (length v).
Proof.
  intros Hb Hv. apply find_index_app_stop; [by apply str_no_term|apply Z.eqb_refl].
Qed.

Lemma from_utf8_expect_str v : is_str v -> from_utf8_expect v = Ret v.
Proof. intros Hv%utf8_ok_iff. unfold from_utf8_expect. by rewrite Hv. Qed.

Lemma drop_slot_bytes s : drop SIZEOF_USIZE (slot_bytes s) = slot_body s.
Proof. unfold slot_bytes. by rewrite drop_app_length' by (by rewrite length_le_bytes). Qed.

Lemma drop_slot_val s :
  drop (SIZEOF_USIZE + (length (s_key s) + 1)) (slot_bytes s) =
  s_val s ++ [ENTRY_TERM] ++ s_tail s.
Proof.
  rewrite <- drop_drop, drop_slot_bytes. unfold slot_body.
  rewrite drop_app_add. done.
Qed.

Lemma length_slot s :
  slot_len s = (SIZEOF_USIZE + length (s_key s) + 1 + length (s_val s) + 1 + length (s_tail s))%nat.
Proof. unfold slot_len, slot_body. rewrite !length_app. simpl. lia. Qed.

(** ** The operations against the representation *)

Lemma var_slot e ss k i s :
  env_wf e ss -> holds ss k i s -> var e k = Ret (Some (s_val s)).
Proof.
  intros Hwf Hh. unfold var.
  assert (env_map e !! k = Some (slot_off ss i)) as -> by (apply (wf_map _ _ Hwf); eauto).
  destruct Hh as (Hi & <- & _). destruct (env_wf_slot_ok _ _ _ _ Hwf Hi) as (_ & Hv & _ & _).
  pose proof (slot_off_bound _ _ _ Hi) as Hb. pose proof (length_slot s) as Hl.
  rewrite (wf_env _ _ Hwf), slice_from_ok by lia. cbn [mbind outcome_bind].
  rewrite slice_from_ok by (rewrite length_drop; lia). cbn [mbind outcome_bind].
  rewrite drop_drop, <- Nat.add_assoc, (drop_layout _ _ s), drop_slot_val by (done || lia).
  rewrite <- !app_assoc. change ([ENTRY_TERM] ++ s_tail s ++ ?r) with (ENTRY_TERM :: s_tail s ++ r).
  rewrite memchr_term by (done || unfold ENTRY_TERM; lia). cbn [expect mbind outcome_bind].
  by rewrite take_app_length, from_utf8_expect_str.
Qed.

(** Emptying a slot in place. *)
Definition cleared (s : slot) : slot := mkSlot [] [] (drop 2 (slot_body s)).

Lemma cleared_bytes s :
  slot_len (cleared s) = slot_len s /\
  overwrite (slot_bytes s) SIZEOF_USIZE EMPTY = slot_bytes (cleared s).
Proof.
  assert (2 <= length (slot_body s))%nat.
  { unfold slot_body. rewrite !length_app. simpl. lia. }
  assert (slot_len (cleared s) = slot_len s) as Hl.
  { unfold slot_len, cleared, slot_body at 1. simpl. rewrite length_drop. lia. }
  split; [done|]. unfold slot_bytes. rewrite Hl. unfold overwrite.
  rewrite take_app_length' by (by rewrite length_le_bytes).
  rewrite drop_app_ge by (rewrite length_le_bytes; unfold SIZEOF_USIZE; simpl; lia).
  by rewrite length_le_bytes.
Qed.

Lemma cleared_ok s : slot_ok s -> slot_ok (cleared s).
Proof.
  intros (_ & _ & _ & Hl). split_and!; [by exists []|by exists []|done|].
  by rewrite (proj1 (cleared_bytes s)).
Qed.

Lemma clear_layout ss i s :
  ss !! i = Some s ->
  copy_into (layout ss) (slot_off ss i + SIZEOF_USIZE) EMPTY =
  Ret (layout (<[i := cleared s]> ss)).
Proof.
  intros Hi. destruct (cleared_bytes s) as [Hl Hb]. pose proof (slot_off_bound _ _ _ Hi).
  pose proof (slot_len_pos s).
  rewrite copy_into_ok by (unfold EMPTY, SIZEOF_USIZE; simpl; lia).
  f_equal. apply overwrite_layout with (s := s); [done..|unfold SIZEOF_USIZE; simpl; lia|done].
Qed.

(** Writing a new value into a slot that is long enough. *)
Definition revalued (s : slot) (v : str) : slot :=
  mkSlot (s_key s) v (drop (length v + 1) (s_val s ++ [ENTRY_TERM] ++ s_tail s)).

Lemma revalued_bytes s v :
  (length v <= length (s_val s) + length (s_tail s))%nat ->
  slot_len (revalued s v) = slot_len s /\
  overwrite (slot_bytes s) (SIZEOF_USIZE + 1 + length (s_key s)) (v ++ [ENTRY_TERM]) =
  slot_bytes (revalued s v).
Proof.
  intros Hv. assert (slot_len (revalued s v) = slot_len s) as Hl.
  { rewrite !length_slot. simpl. rewrite length_drop, !length_app. simpl. lia. }
  split; [done|]. unfold slot_bytes. rewrite Hl. unfold slot_body at 1, revalued, slot_body.
  cbn [s_key s_val s_tail].
  replace (le_bytes SIZEOF_USIZE (Z.of_nat (slot_len s)) ++ s_key s ++ [KEY_TERM] ++ s_val s ++
           [ENTRY_TERM] ++ s_tail s) with
    ((le_bytes SIZEOF_USIZE (Z.of_nat (slot_len s)) ++ s_key s ++ [KEY_TERM]) ++
     (s_val s ++ [ENTRY_TERM] ++ s_tail s)) by by rewrite <- !app_assoc.
  rewrite <- (take_drop (length v + 1) (s_val s ++ [ENTRY_TERM] ++ s_tail s)) at 1.
  replace (SIZEOF_USIZE + 1 + length (s_key s))%nat with
    (length (le_bytes SIZEOF_USIZE (Z.of_nat (slot_len s)) ++ s_key s ++ [KEY_TERM])).
  - rewrite overwrite_app; [by rewrite <- !app_assoc|].
    rewrite length_take, !length_app. simpl. lia.
  - rewrite !length_app, length_le_bytes. simpl. lia.
Qed.


Lemma revalued_ok s v : slot_ok s -> is_str v -> s_key s <> [] ->
  (length v <= length (s_val s) + length (s_tail s))%nat -> slot_ok (revalued s v).
Proof.
  intros (Hk & _ & _ & Hl) Hv Hne Hfit. split_and!; [done|done|done|].
  by rewrite (proj1 (revalued_bytes s v Hfit)).
Qed.

Lemma revalue_layout ss i s v :
  ss !! i = Some s -> (length v <= length (s_val s) + length (s_tail s))%nat ->
  let pos := (slot_off ss i + (SIZEOF_USIZE + 1 + length (s_key s)))%nat in
  (b ← copy_into (layout ss) pos v; store b (pos + length v) ENTRY_TERM) =
  Ret (layout (<[i := revalued s v]> ss)).
Proof.
  intros Hi Hv pos. destruct (revalued_bytes s v Hv) as [Hl Hb].
  pose proof (slot_off_bound _ _ _ Hi). pose proof (length_slot s).
  rewrite copy_into_ok by (unfold pos; lia). cbn [mbind outcome_bind].
  rewrite overwrite_store by (unfold pos; lia). f_equal.
  apply overwrite_layout with (s := s); [done|done| |done]. rewrite length_app. cbn [length]. lia.
Qed.

(** Changing one slot to another of the same length: what remains to be shown is
    about the hash map and the free list only. *)
Lemma env_wf_insert e ss i s s' m fl :
  env_wf e ss -> ss !! i = Some s -> slot_len s' = slot_len s -> slot_ok s' ->
  (forall k off, m !! k = Some off <->
     exists j t, holds (<[i := s']> ss) k j t /\ off = slot_off ss j) ->
  Forall (fun off => exists j t, (<[i := s']> ss) !! j = Some t /\ s_key t = [] /\
                                 off = slot_off ss j) fl ->
  env_wf (mkEnv (layout (<[i := s']> ss)) m fl) (<[i := s']> ss).
Proof.
  intros Hwf Hi Hl Hok Hm Hfl. split; simpl; [done| | |].
  - apply Forall_insert; [apply (wf_slots _ _ Hwf)|done].
  - intros k off. rewrite Hm. by setoid_rewrite (slot_off_insert ss i _ s s' Hi Hl).
  - eapply Forall_impl; [done|]. intros off. by setoid_rewrite (slot_off_insert ss i _ s s' Hi Hl).
Qed.

(** Free slots stay free when a slot is replaced and its key keeps or loses its value. *)
Lemma free_insert e ss i s s' :
  env_wf e ss -> ss !! i = Some s -> (s_key s = [] -> s_key s' = []) ->
  Forall (fun off => exists j t, (<[i := s']> ss) !! j = Some t /\ s_key t = [] /\
                                 off = slot_off ss j) (freelist e).
Proof.
  intros Hwf Hi Hk. eapply Forall_impl; [apply (wf_free _ _ Hwf)|].
  intros off (j & t & Hj & Ht & ->). pose proof (lookup_lt_Some _ _ _ Hi).
  destruct (decide (j = i)) as [->|].
  - exists i, s'. rewrite list_lookup_insert_eq by done. simplify_eq. auto.
  - exists j, t. by rewrite list_lookup_insert_ne by done.
Qed.

Lemma remove_var_slot e ss k i s :
  env_wf e ss -> holds ss k i s ->
  exists e', remove_var e k = Ret e' /\ env_wf e' (<[i := cleared s]> ss).
Proof.
  intros Hwf Hh. pose proof Hh as (Hi & Hk & Hne). unfold remove_var.
  assert (env_map e !! k = Some (slot_off ss i)) as -> by (apply (wf_map _ _ Hwf); eauto).
  rewrite (wf_env _ _ Hwf), (clear_layout _ _ _ Hi). eexists. split; [done|].
  apply env_wf_insert with (e := e) (s := s);
    [done|done|apply cleared_bytes|apply cleared_ok; by eapply env_wf_slot_ok| |].
  - intros k' off. rewrite lookup_delete_Some, (wf_map _ _ Hwf).
    setoid_rewrite (holds_insert ss i s (cleared s) _ _ _ Hi). split.
    + intros (Hkk & j & t & Hj & ->). exists j, t. split; [right|done]. split; [|done].
      intros ->. destruct Hj as (? & ? & ?). simplify_eq.
    + intros (j & t & [(_ & _ & Hc & Hc')|[Hji Hj]] & ->); [by simpl in Hc|].
      split; [|by exists j, t]. intros <-. by destruct (env_wf_unique _ _ _ _ _ _ _ Hwf Hh Hj).
  - by apply (free_insert e ss i s).
Qed.

Lemma set_var_in_place e ss k i s v :
  env_wf e ss -> holds ss k i s -> is_str v -> (entry_len k v <= slot_len s)%nat ->
  exists e', set_var e k v = Ret e' /\ env_wf e' (<[i := revalued s v]> ss) /\
             freelist e' = freelist e.
Proof.
  intros Hwf Hh Hv Hfit. pose proof Hh as (Hi & Hk & Hne). unfold set_var.
  assert (env_map e !! k = Some (slot_off ss i)) as -> by (apply (wf_map _ _ Hwf); eauto).
  pose proof (env_wf_slot_ok _ _ _ _ Hwf Hi) as Hok.
  rewrite (wf_env _ _ Hwf), (read_prefix_slot _ _ s) by (done || apply Hok).
  cbn [mbind outcome_bind]. rewrite decide_True by done.
  assert (length v <= length (s_val s) + length (s_tail s))%nat as Hlen.
  { unfold entry_len in Hfit. rewrite length_slot in Hfit. subst k. lia. }
  pose proof (revalue_layout ss i s v Hi Hlen) as Hw. subst k. cbn [mbind outcome_bind] in Hw.
  destruct (copy_into _ _ v); [|done].
  cbn [mbind outcome_bind] in Hw |- *. rewrite Hw. eexists. split_and!; [done| |done].
  apply env_wf_insert with (e := e) (s := s);
    [done|done|by apply revalued_bytes|by apply revalued_ok| |by apply (free_insert e ss i s)].
  intros k' off. rewrite (wf_map _ _ Hwf).
  setoid_rewrite (holds_insert ss i s (revalued s v) _ _ _ Hi). split.
  - intros (j & t & Hj & ->). destruct (decide (j = i)) as [->|]; [|exists j, t; auto].
    destruct Hj as (? & <- & ?). simplify_eq. exists i, (revalued s v).
    split; [by left|done].
  - intros (j & t & [(-> & -> & Hkk & Hne')|[Hji Hj]] & ->); [|by exists j, t].
    exists i, s. by subst k'.
Qed.

(** Appending a fresh slot. *)
Definition fresh_slot (k v : str) : slot := mkSlot k v [].

Lemma fresh_slot_bytes k v :
  slot_len (fresh_slot k v) = entry_len k v /\ slot_bytes (fresh_slot k v) = entry_bytes k v.
Proof.
  assert (slot_len (fresh_slot k v) = entry_len k v) as Hl.
  { rewrite length_slot. unfold entry_len. simpl. lia. }
  split; [done|]. unfold slot_bytes, entry_bytes, slot_body. rewrite Hl. done.
Qed.

Lemma layout_snoc ss k v : layout (ss ++ [fresh_slot k v]) = layout ss ++ entry_bytes k v.
Proof. rewrite layout_app, layout_cons, (proj2 (fresh_slot_bytes k v)). by rewrite app_nil_r. Qed.

Lemma env_wf_snoc e ss k v :
  env_wf e ss -> is_str k -> is_str v -> k <> [] -> Z.of_nat (entry_len k v) < 2 ^ 64 ->
  env_map e !! k = None ->
  env_wf (mkEnv (env e ++ entry_bytes k v) (<[k := length (env e)]> (env_map e)) (freelist e))
         (ss ++ [fresh_slot k v]).
Proof.
  intros Hwf Hk Hv Hne Hl Hfresh. split; simpl.
  - by rewrite (wf_env _ _ Hwf), layout_snoc.
  - apply Forall_app. split; [apply (wf_slots _ _ Hwf)|]. apply Forall_singleton.
    split_and!; [done|done|done|]. by rewrite (proj1 (fresh_slot_bytes k v)).
  - intros k' off. rewrite lookup_insert. setoid_rewrite holds_snoc. case_decide as Hkk.
    + subst k'. split.
      * intros [= <-]. exists (length ss), (fresh_slot k v). split; [right; auto|].
        by rewrite slot_off_snoc, slot_off_length, (wf_env _ _ Hwf) by lia.
      * intros (j & t & [Hj|(-> & -> & _)] & ->).
        -- exfalso. assert (env_map e !! k = Some (slot_off ss j)) by (apply (wf_map _ _ Hwf); eauto).
           congruence.
        -- by rewrite slot_off_snoc, slot_off_length, (wf_env _ _ Hwf) by lia.
    + rewrite (wf_map _ _ Hwf). split.
      * intros (j & t & Hj & ->). exists j, t. split; [by left|].
        destruct Hj as (Hj & _). apply lookup_lt_Some in Hj. by rewrite slot_off_snoc by lia.
      * intros (j & t & [Hj|(_ & _ & Hc & _)] & ->); [|by simpl in Hc]. exists j, t. split; [done|].
        destruct Hj as (Hj & _). apply lookup_lt_Some in Hj. by rewrite slot_off_snoc by lia.
  - eapply Forall_impl; [apply (wf_free _ _ Hwf)|]. intros off (j & t & Hj & Ht & ->).
    pose proof (lookup_lt_Some _ _ _ Hj). exists j, t.
    by rewrite lookup_app_l, slot_off_snoc by lia.
Qed.

(** No free entry is short enough for the free-list scan to pick it. *)
Definition no_small_free (e : EnvMap) (elen : nat) : Prop :=
  Forall (fun off => exists t, read_prefix (env e) off = Ret t /\ (elen < t)%nat) (freelist e).

Lemma find_free_none b fl i elen :
  Forall (fun off => exists t, read_prefix b off = Ret t /\ (elen < t)%nat) fl ->
  find_free b fl i elen = Ret None.
Proof.
  intros H. revert i. induction H as [|off fl (t & Ht & Hlt) _ IH]; intros i; [done|].
  cbn [find_free]. rewrite Ht. cbn [mbind outcome_bind]. by rewrite decide_False by lia.
Qed.

(** The keys of the map and the live slots. *)
Definition lists_slots (m : gmap str str) (ss : list slot) : Prop :=
  forall k v, m !! k = Some v <-> exists i s, holds ss k i s /\ s_val s = v.

Lemma lists_slots_None e ss m k :
  env_wf e ss -> lists_slots m ss -> m !! k = None -> env_map e !! k = None.
Proof.
  intros Hwf Hm Hk. destruct (env_map e !! k) as [off|] eqn:E; [|done].
  apply (wf_map _ _ Hwf) in E as (i & s & Hh & _).
  assert (m !! k = Some (s_val s)) by (apply Hm; eauto). congruence.
Qed.

Lemma lists_slots_snoc e ss m k v :
  env_wf e ss -> lists_slots m ss -> k <> [] -> env_map e !! k = None ->
  lists_slots (<[k := v]> m) (ss ++ [fresh_slot k v]).
Proof.
  intros Hwf Hm Hne Hk k' v'. setoid_rewrite holds_snoc. rewrite lookup_insert.
  case_decide as Hkk.
  - subst k'. split.
    + intros [= <-]. exists (length ss), (fresh_slot k v). split; [right; auto|done].
    + intros (i & s & [Hh|(_ & -> & _)] & <-); [|done]. exfalso.
      assert (env_map e !! k = Some (slot_off ss i)) by (apply (wf_map _ _ Hwf); eauto). congruence.
  - rewrite (Hm k' v'). split.
    + intros (i & s & Hh & <-). exists i, s. auto.
    + intros (i & s & [Hh|(_ & _ & Hc & _)] & <-); [by exists i, s|by simpl in Hc].
Qed.

Lemma lists_slots_clear e ss m k i s :
  env_wf e ss -> lists_slots m ss -> holds ss k i s ->
  lists_slots (delete k m) (<[i := cleared s]> ss).
Proof.
  intros Hwf Hm Hh k' v'. pose proof Hh as (Hi & Hk & Hne).
  setoid_rewrite (holds_insert ss i s (cleared s) _ _ _ Hi).
  rewrite lookup_delete_Some, (Hm k' v'). split.
  - intros (Hkk & j & t & Hj & <-). exists j, t. split; [|done]. right. split; [|done].
    intros ->. destruct Hj as (? & ? & ?). simplify_eq.
  - intros (j & t & [(_ & _ & Hc & Hc')|[Hji Hj]] & <-); [by simpl in Hc|].
    split; [|by exists j, t]. intros <-. by destruct (env_wf_unique _ _ _ _ _ _ _ Hwf Hh Hj).
Qed.

Lemma lists_slots_revalue e ss m k i s v :
  env_wf e ss -> lists_slots m ss -> holds ss k i s ->
  lists_slots (<[k := v]> m) (<[i := revalued s v]> ss).
Proof.
  intros Hwf Hm Hh k' v'. pose proof Hh as (Hi & Hk & Hne).
  setoid_rewrite (holds_insert ss i s (revalued s v) _ _ _ Hi).
  rewrite lookup_insert. case_decide as Hkk.
  - subst k'. split.
    + intros [= <-]. exists i, (revalued s v). split; [left; auto|done].
    + intros (j & t & [(-> & -> & _)|[Hji Hj]] & <-); [done|].
      by destruct (env_wf_unique _ _ _ _ _ _ _ Hwf Hh Hj).
  - rewrite (Hm k' v'). split.
    + intros (j & t & Hj & <-). exists j, t. split; [|done]. right. split; [|done].
      intros ->. destruct Hj as (? & ? & ?). by simplify_eq.
    + intros (j & t & [(-> & -> & Hc & _)|[Hji Hj]] & <-); [by simpl in Hc; simplify_eq|by exists j, t].
Qed.

Lemma env_wf_push_free e ss i s :
  env_wf e ss -> ss !! i = Some s -> s_key s = [] ->
  env_wf (mkEnv (env e) (env_map e) (freelist e ++ [slot_off ss i])) ss.
Proof.
  intros Hwf Hi Hk. split; simpl; [apply Hwf..|].
  apply Forall_app. split; [apply (wf_free _ _ Hwf)|]. apply Forall_singleton. by exists i, s.
Qed.

(** Moving a live entry to the end of the vector. *)
Lemma set_var_relocate e ss k i s v :
  env_wf e ss -> holds ss k i s -> is_str v -> Z.of_nat (entry_len k v) < 2 ^ 64 ->
  no_small_free e (entry_len k v) ->
  exists e', set_var_move e k v = Ret e' /\
    env_wf e' (<[i := cleared s]> ss ++ [fresh_slot k v]) /\
    freelist e' = freelist e ++ [slot_off ss i].
Proof.
  intros Hwf Hh Hv Hl Hfree. pose proof Hh as (Hi & Hk & Hne).
  pose proof (lookup_lt_Some _ _ _ Hi) as Hlt.
  unfold set_var_move. rewrite find_free_none by done. cbn [mbind outcome_bind].
  assert (env_map e !! k = Some (slot_off ss i)) as Hm by (apply (wf_map _ _ Hwf); eauto).
  rewrite Hm, (wf_env _ _ Hwf), <- layout_snoc.
  rewrite <- (slot_off_snoc ss (fresh_slot k v) i) by lia.
  rewrite (clear_layout _ _ s) by by rewrite lookup_app_l. cbn [mbind outcome_bind].
  rewrite insert_app_l, slot_off_snoc by lia. eexists. split_and!; [done| |done].
  destruct (remove_var_slot _ _ _ _ _ Hwf Hh) as (e1 & He1 & Hwf1).
  unfold remove_var in He1. rewrite Hm, (wf_env _ _ Hwf), (clear_layout _ _ _ Hi) in He1.
  injection He1 as <-.
  pose proof (length_layout_insert _ _ _ (cleared s) Hi (proj1 (cleared_bytes s))) as Hlen.
  apply env_wf_snoc with (k := k) (v := v) in Hwf1; simpl in Hwf1;
    [|subst k; by apply (env_wf_slot_ok _ _ _ _ Hwf Hi)|done|done|done|apply lookup_delete_eq].
  rewrite Hlen, insert_delete_eq, <- layout_snoc in Hwf1.
  eapply (env_wf_push_free _ _ i (cleared s)) in Hwf1; simpl in Hwf1; [|by rewrite lookup_app_l, list_lookup_insert_eq by (try rewrite length_insert; lia)|done].
  rewrite slot_off_snoc, (slot_off_insert _ _ _ s) in Hwf1 by (done || apply cleared_bytes || rewrite length_insert; lia).
  exact Hwf1.
Qed.

Lemma lists_slots_relocate e ss m k i s v :
  env_wf e ss -> lists_slots m ss -> holds ss k i s ->
  lists_slots (<[k := v]> m) (<[i := cleared s]> ss ++ [fresh_slot k v]).
Proof.
  intros Hwf Hm Hh. destruct (remove_var_slot _ _ _ _ _ Hwf Hh) as (e1 & He1 & Hwf1).
  rewrite <- insert_delete_eq. apply (lists_slots_snoc e1); [done|by eapply lists_slots_clear|apply Hh|].
  eapply lists_slots_None; [done|by eapply lists_slots_clear|apply lookup_delete_eq].
Qed.

(** ** Refinement to a finite map *)

(** The slot currently used for [k] is long enough for the new value. *)
Definition fits_in_place (e : EnvMap) (k v : str) : Prop :=
  exists off t, env_map e !! k = Some off /\ read_prefix (env e) off = Ret t /\
                (entry_len k v <= t)%nat.

(** C28: looking a variable up returns exactly the value of the map the byte
    block represents, and never panics. *)
Theorem var_refines_lookup e m k :
  represents e m -> var e k = Ret (m !! k).
Proof.
  intros (ss & Hwf & Hm). destruct (m !! k) as [v|] eqn:E.
  - apply Hm in E as (i & s & Hh & <-). by eapply var_slot.
  - unfold var. by rewrite (lists_slots_None _ _ _ _ Hwf Hm E).
Qed.

(** C31: [remove_var] deletes the variable and nothing else. *)
Theorem remove_var_refines_delete e m k :
  represents e m -> exists e', remove_var e k = Ret e' /\ represents e' (delete k m).
Proof.
  intros (ss & Hwf & Hm). destruct (m !! k) as [v|] eqn:E.
  - apply Hm in E as (i & s & Hh & <-).
    destruct (remove_var_slot _ _ _ _ _ Hwf Hh) as (e' & He & Hwf').
    exists e'. split; [done|]. exists (<[i := cleared s]> ss). split; [done|].
    by eapply lists_slots_clear.
  - exists e. unfold remove_var. rewrite (lists_slots_None _ _ _ _ Hwf Hm E). split; [done|].
    exists ss. by rewrite delete_id.
Qed.

(** C3: as long as the value fits the variable's slot or no free entry is short
    enough to be recycled, [set_var] succeeds and updates exactly that variable. *)
Theorem set_var_refines_insert e m k v :
  represents e m -> k <> [] -> is_str k -> is_str v -> Z.of_nat (entry_len k v) < 2 ^ 64 ->
  fits_in_place e k v \/ no_small_free e (entry_len k v) ->
  exists e', set_var e k v = Ret e' /\ represents e' (<[k := v]> m).
Proof.
  intros (ss & Hwf & Hm) Hne Hk Hv Hl Hroom. destruct (m !! k) as [v0|] eqn:E.
  - apply Hm in E as (i & s & Hh & <-). pose proof Hh as (Hi & Hks & _).
    pose proof (env_wf_slot_ok _ _ _ _ Hwf Hi) as (_ & _ & _ & Hsl).
    assert (env_map e !! k = Some (slot_off ss i)) as Hmap by (apply (wf_map _ _ Hwf); eauto).
    assert (read_prefix (env e) (slot_off ss i) = Ret (slot_len s)) as Hpre
      by (rewrite (wf_env _ _ Hwf); by apply read_prefix_slot).
    destruct (decide (entry_len k v <= slot_len s)%nat) as [Hfit|Hnofit].
    + destruct (set_var_in_place _ _ _ _ _ _ Hwf Hh Hv Hfit) as (e' & He & Hwf' & _).
      exists e'. split; [done|]. exists (<[i := revalued s v]> ss). split; [done|].
      by eapply lists_slots_revalue.
    + destruct Hroom as [(off & t & Ho & Ht & Hfit)|Hfree]; 
        [rewrite Hmap in Ho; injection Ho as <-; rewrite Hpre in Ht; injection Ht as <-; lia|].
      destruct (set_var_relocate _ _ _ _ _ _ Hwf Hh Hv Hl Hfree) as (e' & He & Hwf' & _).
      exists e'. split; [|eexists; split; [done|by eapply lists_slots_relocate]].
      unfold set_var. rewrite Hmap, Hpre. cbn [mbind outcome_bind]. by rewrite decide_False.
  - pose proof (lists_slots_None _ _ _ _ Hwf Hm E) as Hnone.
    destruct Hroom as [(off & t & Ho & _)|Hfree]; [congruence|].
    unfold set_var. rewrite Hnone. unfold set_var_move. rewrite find_free_none by done.
    cbn [mbind outcome_bind]. rewrite Hnone. eexists. split; [done|].
    exists (ss ++ [fresh_slot k v]). split; [by apply env_wf_snoc|by eapply lists_slots_snoc].
Qed.

(** ** Construction *)

Lemma from_iter_loop_represents items e ss m :
  env_wf e ss -> lists_slots m ss -> freelist e = [] ->
  Forall (fun kv => kv.1 <> [] /\ is_str kv.1 /\ is_str kv.2 /\
                    Z.of_nat (entry_len kv.1 kv.2) < 2 ^ 64) items ->
  NoDup (items.*1) -> (forall k, k ∈ items.*1 -> m !! k = None) ->
  exists e' ss', from_iter_loop (env e) (env_map e) items = Ret e' /\ env_wf e' ss' /\
    lists_slots (foldl (fun a kv => <[kv.1 := kv.2]> a) m items) ss' /\ freelist e' = [].
Proof.
  revert e ss m. induction items as [|[k v] items IH]; intros e ss m Hwf Hm Hfl Hok Hnd Hfresh.
  { exists e, ss. destruct e; simpl in *. by subst. }
  inversion Hok as [|? ? (Hne & Hk & Hv & Hl) Hok']; subst. simpl in Hne, Hk, Hv, Hl.
  rewrite fmap_cons in Hnd. simpl in Hnd. apply NoDup_cons in Hnd as [Hnotin Hnd].
  assert (env_map e !! k = None) as Hnone.
  { eapply lists_slots_None; [done..|]. apply Hfresh. rewrite fmap_cons. simpl. by left. }
  cbn [from_iter_loop]. rewrite Hnone, decide_False by (by intros [? ?]).
  pose proof (env_wf_snoc e ss k v Hwf Hk Hv Hne Hl Hnone) as Hwf'.
  eapply (IH _ _ (<[k := v]> m)) in Hwf'; simpl in Hwf'; [done|by eapply lists_slots_snoc|done..|].
  intros k' Hk'. rewrite lookup_insert_ne by set_solver. apply Hfresh. rewrite fmap_cons. by right.
Qed.

Lemma env_wf_empty : env_wf (mkEnv [] ∅ []) [].
Proof.
  split; simpl; [done|constructor| |constructor]. intros k off. rewrite lookup_empty.
  split; [done|]. by intros (i & s & (Hc & _) & _).
Qed.

Lemma lists_slots_empty : lists_slots ∅ [].
Proof. intros k v. rewrite lookup_empty. split; [done|]. by intros (i & s & (Hc & _) & _). Qed.

(** Building the block from items with distinct keys succeeds and represents
    exactly those items; a repeated key panics. *)
Theorem from_iter_loop_spec items :
  Forall (fun kv => kv.1 <> [] /\ is_str kv.1 /\ is_str kv.2 /\
                    Z.of_nat (entry_len kv.1 kv.2) < 2 ^ 64) items ->
  if decide (NoDup (items.*1)) then
    exists e, from_iter_loop [] ∅ items = Ret e /\ freelist e = [] /\
              represents e (foldl (fun a kv => <[kv.1 := kv.2]> a) ∅ items)
  else from_iter_loop [] ∅ items = Panic Explicit.
Proof.
  intros Hok. case_decide as Hnd.
  - destruct (from_iter_loop_represents items _ _ ∅ env_wf_empty lists_slots_empty)
      as (e & ss & He & Hwf & Hm & Hfl); [done|done|done|by intros; rewrite lookup_empty|].
    exists e. split_and!; [done..|]. by exists ss.
  - assert (forall b (m : gmap str nat), ~ NoDup (items.*1) \/ (exists k, k ∈ items.*1 /\ is_Some (m !! k)) ->
      from_iter_loop b m items = Panic Explicit) as Hgen; [|by apply Hgen; left].
    clear Hok Hnd. induction items as [|[k v] items IH]; intros b m H.
    { destruct H as [H|(k & Hk & _)]; [by destruct H; constructor|set_solver]. }
    cbn [from_iter_loop]. case_decide as Hd; [done|]. apply IH. rewrite fmap_cons in H. simpl in H.
    destruct H as [H|(k' & Hk' & Hs)].
    + destruct (decide (k ∈ items.*1)) as [Hin|Hin].
      * right. exists k. split; [done|]. by rewrite lookup_insert_eq.
      * left. intros Hnd. apply H. by constructor.
    + right. apply elem_of_cons in Hk' as [->|Hk']; [done|]. exists k'. split; [done|].
      rewrite lookup_insert. by case_decide.
Qed.

(** ** Iteration *)

Lemma iter_next_slot s r :
  slot_ok s -> iter_next (slot_bytes s ++ r) = Ret (Some ((s_key s, s_val s), r)).
Proof.
  intros (Hk & Hv & _ & Hl). unfold iter_next. pose proof (slot_len_pos s).
  rewrite decide_False by (rewrite length_app, length_slot_bytes; unfold SIZEOF_USIZE; lia).
  assert (take SIZEOF_USIZE (slot_bytes s ++ r) = le_bytes SIZEOF_USIZE (Z.of_nat (slot_len s))) as ->.
  { unfold slot_bytes. by rewrite <- app_assoc, take_app_length' by (by rewrite length_le_bytes). }
  rewrite le_value_le_bytes by (change (256 ^ Z.of_nat SIZEOF_USIZE) with (2 ^ 64); lia).
  rewrite Nat2Z.id, slice_from_ok by (rewrite length_app, length_slot_bytes; lia).
  cbn [mbind outcome_bind]. rewrite drop_app_length' by (by rewrite length_slot_bytes).
  rewrite drop_app_le, drop_slot_bytes by (rewrite length_slot_bytes; unfold SIZEOF_USIZE; lia).
  unfold slot_body. rewrite <- !app_assoc. cbn [app].
  rewrite memchr_term by (done || unfold KEY_TERM; lia). cbn [expect mbind outcome_bind].
  rewrite drop_app_length, take_app_length.
  change (KEY_TERM :: s_val s ++ ?x) with ((KEY_TERM :: s_val s) ++ x).
  assert (memchr ENTRY_TERM ((KEY_TERM :: s_val s) ++ ENTRY_TERM :: s_tail s ++ r) =
          Some (length (KEY_TERM :: s_val s))) as ->.
  { apply find_index_app_stop; [|apply Z.eqb_refl].
    constructor; [done|]. apply str_no_term; [unfold ENTRY_TERM; lia|done]. }
  cbn [expect mbind outcome_bind]. rewrite take_app_length, slice_from_ok by (simpl; lia).
  cbn [mbind outcome_bind]. cbn [drop]. rewrite drop_0. by rewrite !from_utf8_expect_str.
Qed.

Lemma iter_collect_layout ss fuel :
  Forall slot_ok ss -> (length ss < fuel)%nat ->
  iter_collect fuel (layout ss) = Ret ((fun s => (s_key s, s_val s)) <$> ss).
Proof.
  intros Hok. revert fuel. induction Hok as [|s ss Hs _ IH]; intros fuel Hf;
    (destruct fuel as [|fuel]; simpl in Hf; [lia|]); [done|].
  cbn [iter_collect]. rewrite layout_cons, iter_next_slot by done. cbn [mbind outcome_bind].
  rewrite IH by lia. done.
Qed.

Lemma length_layout_ge ss : (length ss <= length (layout ss))%nat.
Proof.
  induction ss as [|s ss IH]; [done|]. rewrite layout_cons, length_app, length_slot_bytes. simpl.
  pose proof (slot_len_pos s). lia.
Qed.

Lemma NoDup_filter_unique {A} (P : A -> Prop) `{forall x, Decision (P x)} (l : list A) :
  (forall i j x, l !! i = Some x -> l !! j = Some x -> P x -> i = j) -> NoDup (filter P l).
Proof.
  induction l as [|x l IH]; intros Hu; [constructor|]. rewrite filter_cons.
  assert (NoDup (filter P l)) as Hnd.
  { apply IH. intros i j y Hi Hj Hy. assert (S i = S j) by (by apply (Hu (S i) (S j) y)). lia. }
  case_decide as Hx; [|done]. constructor; [|done].
  intros [_ [j Hj]%list_elem_of_lookup]%list_elem_of_filter.
  assert (0%nat = S j) by (by apply (Hu 0%nat (S j) x)). lia.
Qed.

(** Iterating always succeeds within the fuel and yields every variable of the
    represented map exactly once; the only other items are the empty pairs that
    stand for freed entries. *)
Theorem iter_all_spec e m :
  represents e m ->
  exists l, iter_all e = Ret l /\
    filter (fun kv => kv.1 <> []) l ≡ₚ map_to_list m /\
    Forall (fun kv => kv.1 = [] -> kv.2 = []) l.
Proof.
  intros (ss & Hwf & Hm). eexists. split; [|split].
  - unfold iter_all. rewrite (wf_env _ _ Hwf). apply iter_collect_layout; [apply Hwf|].
    pose proof (length_layout_ge ss). lia.
  - apply NoDup_Permutation; [| apply NoDup_map_to_list|].
    + apply NoDup_filter_unique. intros i j [k v] Hi Hj Hne.
      rewrite list_lookup_fmap in Hi, Hj. apply fmap_Some in Hi as (s & Hi & [= Hk Hv]).
      apply fmap_Some in Hj as (t & Hj & [= Hk' Hv']). simpl in Hne.
      by apply (env_wf_unique e ss k i j s t).
    + intros [k v]. rewrite list_elem_of_filter, elem_of_map_to_list, (Hm k v).
      rewrite list_elem_of_fmap. split.
      * intros (Hne & s & [= -> ->] & [i Hi]%list_elem_of_lookup). simpl in Hne. by exists i, s.
      * intros (i & s & (Hi & <- & Hne) & <-). split; [done|]. exists s. split; [done|].
        by eapply list_elem_of_lookup_2.
  - apply Forall_fmap. eapply Forall_impl; [apply (wf_slots _ _ Hwf)|]. by intros s (_ & _ & H & _).
Qed.

(** ** The free-list path *)

(** Recycling the entry at the start of the vector always panics: the code writes
    into [self.env[..elem]], which is empty there. *)
Lemma write_recycled_0 b k v : write_recycled b 0 k v = Panic OutOfBounds.
Proof.
  unfold write_recycled. rewrite slice_to_ok by lia. cbn [mbind outcome_bind].
  unfold copy_into. by rewrite decide_False by (unfold SIZEOF_USIZE; simpl; lia).
Qed.

(** Once the first variable of the block has been moved, its old entry is on the
    free list, and setting any new variable at least as long as that entry aborts
    the process. *)
Theorem set_var_recycle_first_panics e ss k0 s0 v0 e1 k v :
  env_wf e ss -> holds ss k0 0 s0 -> freelist e = [] -> is_str v0 ->
  Z.of_nat (entry_len k0 v0) < 2 ^ 64 -> (slot_len s0 < entry_len k0 v0)%nat ->
  set_var e k0 v0 = Ret e1 ->
  env_map e1 !! k = None -> (slot_len s0 <= entry_len k v)%nat ->
  set_var e1 k v = Panic OutOfBounds.
Proof.
  intros Hwf Hh Hfl Hv0 Hl Hgrow Hset Hk Hlong. pose proof Hh as (Hi & Hk0 & _).
  pose proof (env_wf_slot_ok _ _ _ _ Hwf Hi) as (_ & _ & _ & Hsl).
  destruct (set_var_relocate e ss k0 0 s0 v0) as (e' & He & Hwf' & Hfl');
    [done|done|done|done|unfold no_small_free; rewrite Hfl; constructor|].
  unfold set_var in Hset.
  assert (env_map e !! k0 = Some (slot_off ss 0)) as Hm by (apply (wf_map _ _ Hwf); eauto).
  rewrite Hm, (wf_env _ _ Hwf), (read_prefix_slot _ _ s0) in Hset by done.
  cbn [mbind outcome_bind] in Hset. rewrite decide_False, He in Hset by lia. injection Hset as <-.
  unfold set_var, set_var_move. rewrite Hk, Hfl', Hfl, (wf_env _ _ Hwf'). cbn [app find_free].
  pose proof (lookup_lt_Some _ _ _ Hi) as Hlt. destruct (cleared_bytes s0) as [Hcl _].
  assert (slot_off ss 0 = slot_off (<[0%nat := cleared s0]> ss ++ [fresh_slot k0 v0]) 0) as -> by done.
  rewrite (read_prefix_slot _ _ (cleared s0));
    [|by rewrite lookup_app_l, list_lookup_insert_eq by (try rewrite length_insert; lia)|lia].
  cbn [mbind outcome_bind]. rewrite decide_True by lia.
  cbn [mbind outcome_bind]. change (slot_off _ 0) with 0%nat.
  by rewrite write_recycled_0.
Qed.

(** [ministd::HashMap::new] is unimplemented, so the public constructor of
    [EnvMap] panics on every input. *)
Lemma from_iter_unimplemented items : from_iter items = Panic Todo.
Proof. done. Qed.

(** ** Concrete inputs *)

(** [("PATH", "/bin"); ("A", "1")]. *)
Definition sample_items : list (str * str) :=
  [([80; 65; 84; 72], [47; 98; 105; 110]); ([65], [49])].
Definition sample_map : gmap str str :=
  foldl (fun a kv => <[kv.1 := kv.2]> a) ∅ sample_items.
Definition sample_env : EnvMap :=
  match from_iter_loop [] ∅ sample_items with Ret e => e | Panic _ => mkEnv [] ∅ [] end.

Lemma sample_items_ok :
  Forall (fun kv : str * str => kv.1 <> [] /\ is_str kv.1 /\ is_str kv.2 /\
                    Z.of_nat (entry_len kv.1 kv.2) < 2 ^ 64) sample_items.
Proof. repeat constructor; try done; by apply utf8_ok_iff. Qed.

Lemma sample_wf : exists ss, env_wf sample_env ss /\ lists_slots sample_map ss /\
  freelist sample_env = [].
Proof.
  destruct (from_iter_loop_represents sample_items _ _ ∅ env_wf_empty lists_slots_empty)
    as (e & ss & He & Hwf & Hm & Hfl);
    [done|apply sample_items_ok|by apply (bool_decide_unpack (NoDup sample_items.*1))|by intros; rewrite lookup_empty|].
  simpl in He. assert (sample_env = e) as -> by (unfold sample_env; simpl; by rewrite He).
  by exists ss.
Qed.

Lemma sample_represents : represents sample_env sample_map.
Proof. destruct sample_wf as (ss & ? & ? & _). by exists ss. Qed.

Lemma var_refines_lookup_witness : var sample_env [80; 65; 84; 72] = Ret (Some [47; 98; 105; 110]).
Proof. exact (var_refines_lookup sample_env sample_map [80; 65; 84; 72] sample_represents). Defined.

Lemma remove_var_refines_delete_witness :
  exists e', remove_var sample_env [65] = Ret e' /\ represents e' (delete [65] sample_map).
Proof. exact (remove_var_refines_delete sample_env sample_map [65] sample_represents). Defined.

(** Growing ["A"] from ["1"] to ["123"]. *)
Lemma set_var_refines_insert_witness :
  exists e', set_var sample_env [65] [49; 50; 51] = Ret e' /\
             represents e' (<[[65] := [49; 50; 51]]> sample_map).
Proof.
  apply (set_var_refines_insert sample_env sample_map [65] [49; 50; 51] sample_represents).
  - done.
  - by apply utf8_ok_iff.
  - by apply utf8_ok_iff.
  - by vm_compute.
  - right. constructor.
Defined.

Lemma from_iter_loop_spec_witness :
  exists e, from_iter_loop [] ∅ sample_items = Ret e /\ freelist e = [] /\
            represents e sample_map.
Proof. exact (from_iter_loop_spec sample_items sample_items_ok). Defined.

Lemma iter_all_spec_witness :
  exists l, iter_all sample_env = Ret l /\
    filter (fun kv : str * str => kv.1 <> []) l ≡ₚ map_to_list sample_map /\
    Forall (fun kv : str * str => kv.1 = [] -> kv.2 = []) l.
Proof. exact (iter_all_spec sample_env sample_map sample_represents). Defined.

(** ["A" = "1"] alone, moved when it becomes ["123"]; then ["B" = "123"]. *)
Definition single_slots : list slot := [fresh_slot [65] [49]].
Definition single_env : EnvMap := mkEnv (layout single_slots) {[ [65] := 0%nat ]} [].

Lemma single_env_wf : env_wf single_env single_slots.
Proof.
  pose proof (env_wf_snoc _ _ [65] [49] env_wf_empty) as H.
  apply H; [by apply utf8_ok_iff|by apply utf8_ok_iff|done|by vm_compute|done].
Qed.

Lemma set_var_recycle_first_panics_witness :
  exists e1, set_var single_env [65] [49; 50; 51] = Ret e1 /\
             set_var e1 [66] [49; 50; 51] = Panic OutOfBounds.
Proof.
  eexists. split; [vm_compute; reflexivity|].
  eapply (set_var_recycle_first_panics single_env single_slots [65] (fresh_slot [65] [49])
            [49; 50; 51] _ [66] [49; 50; 51] single_env_wf).
  - by split.
  - done.
  - by apply utf8_ok_iff.
  - by vm_compute.
  - vm_compute; lia.
  - vm_compute; reflexivity.
  - vm_compute; reflexivity.
  - vm_compute; lia.
Defined.
