(* ===== verification/Handles.v ===== *)
(** * The handle table (wl-impl/src/handle_base.rs)

    Every thread owns a table of 512 handles; system calls receive and return
    pointers into it.  The file models the table (slots, start hint, live
    counter) and its operations, proves the table invariant and the behaviour of
    each operation, and shows that the table implements the interface
    [HandleTable], against which the system calls of [IoCalls] are proved. *)

From Stdlib Require Import ZArith Lia.
From stdpp Require Import base numbers list option gmap fin_maps.
From S2P Require Import Prelude.
From S2P Require Import Errors.

Local Open Scope Z_scope.

(** [struct Handle]; pointers and words are addresses, [fd] is a [c_long]. *)
Record Handle : Type := mkHandle { ty : Z; blob1 : Z; blob2 : Z; fd : Z }.
#[export] Instance Handle_eq_dec : EqDecision Handle.
Proof. solve_decision. Defined.

(** [bytemuck::zeroed()]. *)
Definition zeroed : Handle := mkHandle 0 0 0 0.

Definition NHANDLES : nat := 512%nat.
(** [size_of::<Handle>()]: [repr(C, align(32))] over four words. *)
Definition HANDLE_SIZE : Z := 32.

(** The three thread-local statics. *)
Record hstate : Type := mkH {
  HANDLE_ARRAY : list Handle;
  START_HINT : nat;
  LIVE_HANDLES : Z }.

Definition hinit : hstate := mkH (replicate NHANDLES zeroed) 0 0.

(** The order in which [insert_handle] visits the slots. *)
Definition probe_order (start : nat) : list nat :=
  (fun n => Nat.land (n + start) (NHANDLES - 1)) <$> seq 0 NHANDLES.

Definition is_free (l : list Handle) (n : nat) : bool :=
  match l !! n with Some h => ty h =? 0 | None => false end.

(** The [for] loop: the first free slot of the order. *)
Fixpoint first_free (l : list Handle) (order : list nat) : option nat :=
  match order with
  | [] => None
  | n :: r => if is_free l n then Some n else first_free l r
  end.

Section Table.
(** The address of the thread's [HANDLE_ARRAY]. *)
Context (base : Z).

Definition handle_ptr (n : nat) : Z := base + HANDLE_SIZE * Z.of_nat n.

(** [insert_handle]. *)
Definition insert_handle (s : hstate) (h : Handle) : outcome (hstate * result Z SysError) :=
  match first_free (HANDLE_ARRAY s) (probe_order (START_HINT s)) with
  | Some n =>
    live ← usize_add (LIVE_HANDLES s) 1;
    Ret (mkH (<[n := h]> (HANDLE_ARRAY s)) n live, Ok (handle_ptr n))
  | None => Ret (s, Err ResourceLimitExhausted)
  end.

(** [as_ptr_range().contains(ptr) && ptr.is_aligned()]. *)
Definition in_table (ptr : Z) : bool :=
  (base <=? ptr) && (ptr <? base + HANDLE_SIZE * Z.of_nat NHANDLES) && (ptr mod HANDLE_SIZE =? 0).

(** The slot a pointer into the table designates. *)
Definition slot_of (ptr : Z) : nat := Z.to_nat ((ptr - base) / HANDLE_SIZE).

(** [Handle::try_deref]: a reference to a live slot, here its index. *)
Definition try_deref (s : hstate) (ptr : Z) : result nat SysError :=
  if in_table ptr then
    match HANDLE_ARRAY s !! slot_of ptr with
    | Some h => if negb (ty h =? 0) then Ok (slot_of ptr) else Err InvalidHandle
    | None => Err InvalidHandle
    end
  else Err InvalidHandle.
End Table.

(** [-(x as i32)] with overflow checks. *)
Definition neg_i32 (x : Z) : outcome Z :=
  let v := as_i32 x in if v =? - 2 ^ 31 then Panic Overflow else Ret (- v).

(** [Handle::close] on slot [n]: the new table and the descriptors passed to
    [close(2)]. *)
Definition close (s : hstate) (n : nat) (use_fd2 : bool) : outcome (hstate * list Z) :=
  live ← usize_sub (LIVE_HANDLES s) 1;
  h ← index (HANDLE_ARRAY s) n;
  let fd2 := as_isize (blob2 h) in
  c2 ← (if use_fd2 && (fd2 <? 0) then x ← neg_i32 fd2; Ret [x] else Ret []);
  let c1 := if 0 <=? fd h then [as_i32 (fd h)] else [] in
  Ret (mkH (<[n := zeroed]> (HANDLE_ARRAY s)) (START_HINT s) live, c2 ++ c1).

(** [ident], [borrow_fd], [borrow_fd2], [check_type]. *)
Definition ident (h : Handle) : Z := ty h.
Definition borrow_fd (h : Handle) : option Z :=
  if 0 <=? fd h then Some (as_i32 (fd h)) else None.
Definition borrow_fd2 (h : Handle) : option (outcome Z) :=
  if as_isize (blob2 h) <? 0 then Some (neg_i32 (blob2 h)) else None.
Definition check_type (h : Handle) (want mask : Z) : result unit SysError :=
  if Z.land (ty h) (not_w 64 mask) =? want then Ok tt else Err InvalidHandle.

(** [get_init_handles]: handles for descriptors 0, 1 and 2, stored at the front
    of the given slice, whose new length is 3. *)
Definition std_handle (HANDLE_TYPE_IO n : Z) : Handle := mkHandle HANDLE_TYPE_IO 0 0 n.
Definition unwrap_ok {A E} (r : result A E) : outcome A :=
  match r with Ok a => Ret a | Err _ => Panic Explicit end.
Definition get_init_handles (base HANDLE_TYPE_IO : Z) (s : hstate) (sl : list Z) :
    outcome (hstate * (list Z * Z)) :=
  '(s, r0) ← insert_handle base s (std_handle HANDLE_TYPE_IO 0); p0 ← unwrap_ok r0;
  sl ← store sl 0 p0;
  '(s, r1) ← insert_handle base s (std_handle HANDLE_TYPE_IO 1); p1 ← unwrap_ok r1;
  sl ← store sl 1 p1;
  '(s, r2) ← insert_handle base s (std_handle HANDLE_TYPE_IO 2); p2 ← unwrap_ok r2;
  sl ← store sl 2 p2;
  Ret (s, (sl, 3)).

(** ** The table invariant *)

Definition live_count (l : list Handle) : nat := length (filter (fun h => ty h <> 0) l).

Record hwf (s : hstate) : Prop := {
  hwf_len : length (HANDLE_ARRAY s) = NHANDLES;
  hwf_hint : (START_HINT s < NHANDLES)%nat;
  hwf_live : LIVE_HANDLES s = Z.of_nat (live_count (HANDLE_ARRAY s)) }.

Lemma live_count_insert l n h h' :
  l !! n = Some h' ->
  (live_count (<[n := h]> l) + (if decide (ty h' <> 0%Z) then 1 else 0) =
   live_count l + (if decide (ty h <> 0%Z) then 1 else 0))%nat.
Proof.
  unfold live_count. intros Hn. rewrite insert_take_drop by by eapply lookup_lt_Some.
  rewrite <- (take_drop_middle l n h' Hn) at 3. rewrite !filter_app, !filter_cons.
  repeat case_decide; rewrite !length_app; simpl; lia.
Qed.

Lemma live_count_le l : (live_count l <= length l)%nat.
Proof. apply length_filter. Qed.

Lemma live_count_all l : Forall (fun h => ty h <> 0) l -> live_count l = length l.
Proof.
  unfold live_count. induction 1 as [|h l Hh _ IH]; [done|].
  rewrite filter_cons, decide_True by done. simpl. by rewrite IH.
Qed.

(** ** The probe order visits every slot once *)

Lemma land_511 n : Nat.land n (NHANDLES - 1) = (n mod NHANDLES)%nat.
Proof. change (NHANDLES - 1)%nat with (Nat.ones 9). by rewrite Nat.land_ones. Qed.

Lemma probe_order_In start n :
  (start < NHANDLES)%nat -> n ∈ probe_order start <-> (n < NHANDLES)%nat.
Proof.
  intros Hs. unfold probe_order. rewrite list_elem_of_fmap. split.
  - intros (i & -> & _). rewrite land_511. by apply Nat.mod_upper_bound.
  - intros Hn. exists ((n + NHANDLES - start) mod NHANDLES)%nat. split.
    + rewrite land_511, Nat.Div0.add_mod_idemp_l.
      replace (n + NHANDLES - start + start)%nat with (n + 1 * NHANDLES)%nat by lia.
      by rewrite Nat.Div0.mod_add, Nat.mod_small.
    + apply elem_of_seq. split; [lia|]. rewrite Nat.add_0_l. by apply Nat.mod_upper_bound.
Qed.

(** The loop finds a free slot exactly when there is one, and it is the first of
    the order. *)
Lemma first_free_Some l order n :
  first_free l order = Some n ->
  exists pre post, order = pre ++ n :: post /\ is_free l n = true /\
                   Forall (fun m => is_free l m = false) pre.
Proof.
  induction order as [|m order IH]; simpl; [done|].
  destruct (is_free l m) eqn:E.
  - intros [= <-]. by exists [], order.
  - intros H. destruct (IH H) as (pre & post & -> & Hf & Hp). exists (m :: pre), post.
    split_and!; [done|done|by constructor].
Qed.

Lemma first_free_None l order :
  first_free l order = None <-> Forall (fun m => is_free l m = false) order.
Proof.
  induction order as [|m order IH]; simpl; [by split; [constructor|]|].
  destruct (is_free l m) eqn:E; [split; [done|intros H; inv H; congruence]|].
  rewrite IH. split; [by constructor|intros H; by inv H].
Qed.

Lemma is_free_lookup l n : is_free l n = true <-> exists h, l !! n = Some h /\ ty h = 0.
Proof.
  unfold is_free. destruct (l !! n) as [h|].
  - rewrite Z.eqb_eq. split; [by exists h|by intros (? & [= <-] & ?)].
  - split; [done|by intros (? & ? & _)].
Qed.

(** ** Pointers *)

Section Pointers.
Context (base : Z) (Hbase : base mod HANDLE_SIZE = 0).

Lemma handle_ptr_in_table n : (n < NHANDLES)%nat -> in_table base (handle_ptr base n) = true.
Proof using Hbase.
  intros Hn. unfold in_table, handle_ptr, HANDLE_SIZE in *. rewrite !andb_true_iff.
  rewrite Z.leb_le, Z.ltb_lt, Z.eqb_eq. split_and!; [lia|lia|].
  rewrite Z.add_mod, Hbase, Z.mul_comm, Z.mod_mul by lia. done.
Qed.

Lemma slot_of_handle_ptr n : slot_of base (handle_ptr base n) = n.
Proof.
  unfold slot_of, handle_ptr, HANDLE_SIZE.
  replace (base + 32 * Z.of_nat n - base) with (Z.of_nat n * 32) by lia.
  rewrite Z.div_mul by lia. lia.
Qed.

(** A pointer passes the range and alignment test iff it is the address of a slot. *)
Lemma in_table_iff ptr :
  in_table base ptr = true <-> exists n, (n < NHANDLES)%nat /\ ptr = handle_ptr base n.
Proof using Hbase.
  split; [|intros (n & Hn & ->); by apply handle_ptr_in_table].
  unfold in_table. rewrite !andb_true_iff, Z.leb_le, Z.ltb_lt, Z.eqb_eq.
  intros ((Hlo & Hhi) & Hal). unfold handle_ptr, HANDLE_SIZE, NHANDLES in *.
  exists (Z.to_nat ((ptr - base) / 32)).
  apply Z.mod_divide in Hbase as [b Hb]; [|lia]. apply Z.mod_divide in Hal as [p Hp]; [|lia].
  subst base ptr. replace (p * 32 - b * 32) with ((p - b) * 32) by lia.
  rewrite Z.div_mul by lia. lia.
Qed.

Lemma try_deref_Ok s ptr n :
  try_deref base s ptr = Ok n <->
  ptr = handle_ptr base n /\ (n < NHANDLES)%nat /\
  exists h, HANDLE_ARRAY s !! n = Some h /\ ty h <> 0.
Proof using Hbase.
  unfold try_deref. destruct (in_table base ptr) eqn:E.
  - apply in_table_iff in E as (m & Hm & ->). rewrite slot_of_handle_ptr.
    destruct (HANDLE_ARRAY s !! m) as [h|] eqn:Hh.
    + destruct (Z.eqb_spec (ty h) 0); simpl; split.
      * done.
      * intros (Hp & _ & h' & Hh' & Hty). assert (m = n) as <- by (unfold handle_ptr, HANDLE_SIZE in Hp; lia).
        congruence.
      * intros [= <-]. eauto.
      * intros (Hp & _). f_equal. unfold handle_ptr, HANDLE_SIZE in Hp. lia.
    + split; [done|]. intros (Hp & _ & h' & Hh' & _).
      assert (m = n) as <- by (unfold handle_ptr, HANDLE_SIZE in Hp; lia). congruence.
  - split; [done|]. intros (-> & Hn & _). by rewrite handle_ptr_in_table in E.
Qed.

Lemma try_deref_Err s ptr e : try_deref base s ptr = Err e -> e = InvalidHandle.
Proof. unfold try_deref. intros H. repeat case_hyp H; by simplify_eq. Qed.
End Pointers.

(** ** The operations *)

(** What a pointer refers to: the handle behind a successful [try_deref]. *)
Definition deref (base : Z) (s : hstate) (ptr : Z) : option Handle :=
  match try_deref base s ptr with Ok n => HANDLE_ARRAY s !! n | Err _ => None end.

Section Operations.
Context (base : Z) (Hbase : base mod HANDLE_SIZE = 0).

Lemma deref_Some s ptr h :
  deref base s ptr = Some h <->
  exists n, ptr = handle_ptr base n /\ (n < NHANDLES)%nat /\ HANDLE_ARRAY s !! n = Some h /\ ty h <> 0.
Proof using Hbase.
  unfold deref. destruct (try_deref base s ptr) as [n|e] eqn:E.
  - apply try_deref_Ok in E as (-> & Hn & h' & Hh & Hty); [|done]. split.
    + intros Hs. exists n. by simplify_eq.
    + intros (m & Hp & _ & Hm & _). assert (n = m) as <- by (unfold handle_ptr, HANDLE_SIZE in Hp; lia).
      done.
  - split; [done|]. intros (n & -> & Hn & Hh & Hty).
    assert (try_deref base s (handle_ptr base n) = Ok n) by (apply try_deref_Ok; eauto). congruence.
Qed.

Lemma deref_insert s n h h0 hint live ptr :
  HANDLE_ARRAY s !! n = Some h0 -> (n < NHANDLES)%nat ->
  deref base (mkH (<[n := h]> (HANDLE_ARRAY s)) hint live) ptr =
  if decide (ptr = handle_ptr base n) then (if decide (ty h = 0) then None else Some h)
  else deref base s ptr.
Proof using Hbase.
  intros Hn Hlt. pose proof (lookup_lt_Some _ _ _ Hn). apply option_eq. intros x.
  rewrite deref_Some. simpl. split.
  - intros (m & -> & Hm & Hx & Hty). destruct (decide (m = n)) as [->|Hne].
    + rewrite list_lookup_insert_eq in Hx by done. injection Hx as <-.
      by rewrite decide_True, decide_False.
    + rewrite list_lookup_insert_ne in Hx by done.
      rewrite decide_False by (unfold handle_ptr, HANDLE_SIZE; lia). apply deref_Some. eauto.
  - case_decide as Hp.
    + case_decide as Hty; [done|]. intros [= <-]. exists n.
      rewrite list_lookup_insert_eq by done. eauto.
    + intros (m & -> & Hm & Hx & Hty)%deref_Some. exists m.
      rewrite list_lookup_insert_ne by (intros ->; done). eauto.
Qed.

(** [insert_handle] on a well-formed table: either every slot is live and the table
    is returned unchanged with [ResourceLimitExhausted], or the first free slot in
    probe order is filled. *)
Lemma insert_handle_cases s h :
  hwf s -> ty h <> 0 ->
  (Forall (fun x => ty x <> 0) (HANDLE_ARRAY s) /\
     insert_handle base s h = Ret (s, Err ResourceLimitExhausted)) \/
  (exists n h0 pre post,
     HANDLE_ARRAY s !! n = Some h0 /\ ty h0 = 0 /\ (n < NHANDLES)%nat /\
     probe_order (START_HINT s) = pre ++ n :: post /\
     Forall (fun m => is_free (HANDLE_ARRAY s) m = false) pre /\
     insert_handle base s h =
       Ret (mkH (<[n := h]> (HANDLE_ARRAY s)) n (LIVE_HANDLES s + 1), Ok (handle_ptr base n))).
Proof.
  intros Hwf Hty. unfold insert_handle.
  destruct (first_free (HANDLE_ARRAY s) (probe_order (START_HINT s))) as [n|] eqn:E.
  - right. pose proof (first_free_Some _ _ _ E) as (pre & post & Ho & Hf & Hp).
    apply is_free_lookup in Hf as (h0 & Hn & H0).
    exists n, h0, pre, post. split_and!; [done|done| |done|done|].
    + apply (probe_order_In _ _ (hwf_hint _ Hwf)). rewrite Ho.
      apply elem_of_app. right. by left.
    + unfold usize_add. pose proof (live_count_le (HANDLE_ARRAY s)) as Hle.
      rewrite (hwf_len _ Hwf) in Hle. rewrite (hwf_live _ Hwf).
      unfold USIZE_MAX, NHANDLES in *. by rewrite (proj2 (Z.leb_le _ _)) by lia.
  - left. split; [|done]. apply first_free_None in E. apply Forall_lookup. intros n x Hn.
    assert (n < NHANDLES)%nat as Hlt by (rewrite <- (hwf_len _ Hwf); by eapply lookup_lt_Some).
    apply (probe_order_In _ _ (hwf_hint _ Hwf)) in Hlt.
    rewrite Forall_forall in E. specialize (E n Hlt). intros H0.
    assert (is_free (HANDLE_ARRAY s) n = true) by (apply is_free_lookup; eauto). congruence.
Qed.

Lemma hwf_insert s n h h0 :
  hwf s -> HANDLE_ARRAY s !! n = Some h0 -> ty h0 = 0 -> ty h <> 0 ->
  hwf (mkH (<[n := h]> (HANDLE_ARRAY s)) n (LIVE_HANDLES s + 1)).
Proof.
  intros Hwf Hn H0 Hty. pose proof (lookup_lt_Some _ _ _ Hn) as Hlt. split; simpl.
  - by rewrite length_insert, (hwf_len _ Hwf).
  - by rewrite <- (hwf_len _ Hwf).
  - pose proof (live_count_insert _ _ h _ Hn) as Hc. rewrite decide_False, decide_True in Hc by tauto.
    rewrite (hwf_live _ Hwf). lia.
Qed.

Lemma hwf_close s n h0 :
  hwf s -> HANDLE_ARRAY s !! n = Some h0 -> ty h0 <> 0 ->
  0 < LIVE_HANDLES s /\ hwf (mkH (<[n := zeroed]> (HANDLE_ARRAY s)) (START_HINT s) (LIVE_HANDLES s - 1)).
Proof.
  intros Hwf Hn Hty. pose proof (live_count_insert _ _ zeroed _ Hn) as Hc.
  rewrite decide_True, decide_False in Hc by (simpl; tauto). split.
  - rewrite (hwf_live _ Hwf). lia.
  - split; simpl; [by rewrite length_insert, (hwf_len _ Hwf)|apply Hwf|rewrite (hwf_live _ Hwf); lia].
Qed.

Lemma close_live s n h :
  hwf s -> HANDLE_ARRAY s !! n = Some h -> ty h <> 0 ->
  close s n false =
    Ret (mkH (<[n := zeroed]> (HANDLE_ARRAY s)) (START_HINT s) (LIVE_HANDLES s - 1),
         if 0 <=? fd h then [as_i32 (fd h)] else []).
Proof.
  intros Hwf Hn Hty. destruct (hwf_close _ _ _ Hwf Hn Hty) as [Hpos _].
  unfold close, usize_sub. rewrite (proj2 (Z.leb_le _ _)) by lia. cbn [mbind outcome_bind].
  unfold index. rewrite Hn. done.
Qed.

(** C1: on a well-formed table [insert_handle] never panics, preserves the
    invariant (the live counter counts the occupied slots), returns a pointer that
    was invalid before and dereferences to the new handle, leaves every other
    handle alone, and fails exactly when all 512 slots are occupied. *)
Theorem insert_handle_correct s h :
  hwf s -> ty h <> 0 ->
  exists s' r, insert_handle base s h = Ret (s', r) /\ hwf s' /\
    match r with
    | Ok p => try_deref base s p = Err InvalidHandle /\ deref base s' p = Some h /\
              (forall q, q <> p -> deref base s' q = deref base s q) /\
              LIVE_HANDLES s' = LIVE_HANDLES s + 1
    | Err e => e = ResourceLimitExhausted /\ s' = s /\ LIVE_HANDLES s = Z.of_nat NHANDLES
    end.
Proof using Hbase.
  intros Hwf Hty. destruct (insert_handle_cases s h Hwf Hty)
    as [[Hfull ->]|(n & h0 & pre & post & Hn & H0 & Hlt & _ & _ & ->)].
  - exists s, (Err ResourceLimitExhausted). split_and!; [done..|].
    rewrite (hwf_live _ Hwf).
    by rewrite live_count_all, (hwf_len _ Hwf).
  - eexists _, _. split; [done|]. split; [by eapply hwf_insert|]. split_and!.
    + destruct (try_deref base s (handle_ptr base n)) as [m|e] eqn:E;
        [|f_equal; by eapply try_deref_Err].
      apply try_deref_Ok in E as (Hp & _ & h' & Hh & Hne); [|done].
      assert (n = m) as <- by (unfold handle_ptr, HANDLE_SIZE in Hp; lia). congruence.
    + rewrite (deref_insert _ _ _ h0) by done. by rewrite decide_True, decide_False.
    + intros q Hq. rewrite (deref_insert _ _ _ h0) by done. by rewrite decide_False.
    + done.
Qed.

(** C13: closing a live handle never underflows the counter, closes exactly its own
    descriptor, makes the pointer invalid, and leaves every other handle alone. *)
Theorem close_correct s p h :
  hwf s -> deref base s p = Some h ->
  exists n s' fds, try_deref base s p = Ok n /\ close s n false = Ret (s', fds) /\ hwf s' /\
    fds = (if 0 <=? fd h then [as_i32 (fd h)] else []) /\
    try_deref base s' p = Err InvalidHandle /\
    (forall q, q <> p -> deref base s' q = deref base s q) /\
    LIVE_HANDLES s' = LIVE_HANDLES s - 1.
Proof using Hbase.
  intros Hwf (n & -> & Hlt & Hn & Hty)%deref_Some.
  exists n. eexists _, _. split; [apply try_deref_Ok; eauto|].
  split; [by eapply close_live|]. split; [by eapply hwf_close|]. split; [done|]. split_and!.
  - destruct (try_deref _ _ _) as [m|e] eqn:E; [|f_equal; by eapply try_deref_Err].
    apply try_deref_Ok in E as (Hp & _ & h' & Hh & Hne); [|done]. simpl in Hh.
    assert (n = m) as <- by (unfold handle_ptr, HANDLE_SIZE in Hp; lia).
    rewrite list_lookup_insert_eq in Hh by by eapply lookup_lt_Some. by simplify_eq.
  - intros q Hq. rewrite (deref_insert _ _ _ h) by done. by rewrite decide_False.
  - done.
Qed.
End Operations.

(** ** The interface other components rely on *)

(** A table of handles as its clients see it: a partial function from pointers to
    live handles with room for a bounded number of them. *)
Class HandleTable (T : Type) := {
  ht_ok : T -> Prop;
  ht_get : T -> Z -> option Handle;
  ht_deref : T -> Z -> result Handle SysError;
  ht_insert : T -> Handle -> outcome (T * result Z SysError);
  ht_close : T -> Z -> outcome (T * list Z);
  ht_update : T -> Z -> Handle -> T;
  ht_full : T -> Prop;
  ht_deref_spec : forall t p,
    ht_deref t p = match ht_get t p with Some h => Ok h | None => Err InvalidHandle end;
  ht_get_live : forall t p h, ht_get t p = Some h -> ty h <> 0;
  ht_insert_spec : forall t h, ht_ok t -> ty h <> 0 ->
    exists t' r, ht_insert t h = Ret (t', r) /\ ht_ok t' /\
      match r with
      | Ok p => ht_get t p = None /\ ht_get t' p = Some h /\
                (forall q, q <> p -> ht_get t' q = ht_get t q)
      | Err e => e = ResourceLimitExhausted /\ t' = t /\ ht_full t
      end;
  ht_close_spec : forall t p h, ht_ok t -> ht_get t p = Some h ->
    exists t', ht_close t p = Ret (t', if 0 <=? fd h then [as_i32 (fd h)] else []) /\ ht_ok t' /\
      ht_get t' p = None /\ (forall q, q <> p -> ht_get t' q = ht_get t q);
  ht_update_spec : forall t p h h', ht_ok t -> ht_get t p = Some h -> ty h' <> 0 ->
    ht_ok (ht_update t p h') /\ ht_get (ht_update t p h') p = Some h' /\
    (forall q, q <> p -> ht_get (ht_update t p h') q = ht_get t q) }.

(** The thread-local table: its pointers start at an aligned address. *)
Record table_base : Type := { tb_addr : Z; tb_aligned : tb_addr mod HANDLE_SIZE = 0 }.

Definition close_ptr (base : Z) (s : hstate) (p : Z) : outcome (hstate * list Z) :=
  match try_deref base s p with
  | Ok n => close s n false
  | Err _ => Panic Explicit
  end.
Definition deref_res (base : Z) (s : hstate) (p : Z) : result Handle SysError :=
  match try_deref base s p with
  | Ok n => match HANDLE_ARRAY s !! n with Some h => Ok h | None => Err InvalidHandle end
  | Err e => Err e
  end.

(** Assigning fields through the reference [deref_unchecked] returns. *)
Definition update_ptr (base : Z) (s : hstate) (p : Z) (h : Handle) : hstate :=
  match try_deref base s p with
  | Ok n => mkH (<[n := h]> (HANDLE_ARRAY s)) (START_HINT s) (LIVE_HANDLES s)
  | Err _ => s
  end.

Lemma hwf_update s n h h' :
  hwf s -> HANDLE_ARRAY s !! n = Some h -> ty h <> 0 -> ty h' <> 0 ->
  hwf (mkH (<[n := h']> (HANDLE_ARRAY s)) (START_HINT s) (LIVE_HANDLES s)).
Proof.
  intros Hwf Hn Hty Hty'. pose proof (live_count_insert _ _ h' _ Hn) as Hc.
  rewrite !decide_True in Hc by done.
  split; simpl; [by rewrite length_insert, (hwf_len _ Hwf)|apply Hwf|rewrite (hwf_live _ Hwf); lia].
Qed.

Lemma deref_res_spec base s p :
  deref_res base s p = match deref base s p with Some h => Ok h | None => Err InvalidHandle end.
Proof.
  unfold deref_res, deref. destruct (try_deref base s p) as [n|e] eqn:E; [by destruct (_ !! n)|].
  by rewrite (try_deref_Err _ _ _ _ E).
Qed.

#[export] Program Instance hstate_table (b : table_base) : HandleTable hstate := {
  ht_ok := hwf;
  ht_get := deref (tb_addr b);
  ht_deref := deref_res (tb_addr b);
  ht_insert := insert_handle (tb_addr b);
  ht_close := close_ptr (tb_addr b);
  ht_update := update_ptr (tb_addr b);
  ht_full := fun s => Forall (fun x => ty x <> 0) (HANDLE_ARRAY s) }.
Next Obligation. intros b t p. apply deref_res_spec. Qed.
Next Obligation.
  intros b t p h H. apply deref_Some in H as (n & _ & _ & _ & Hty); [done|apply tb_aligned].
Qed.
Next Obligation.
  intros b t h Hok Hty. pose proof (tb_aligned b) as Hb.
  destruct (insert_handle_cases (tb_addr b) t h Hok Hty)
    as [[Hfull ->]|(n & h0 & pre & post & Hn & H0 & Hlt & _ & _ & ->)]; [by eexists _, _|].
  eexists _, _. split; [done|]. split; [by eapply hwf_insert|]. split_and!.
  - destruct (deref _ t _) as [h'|] eqn:E; [|done].
    apply deref_Some in E as (m & Hp & _ & Hm & Hne); [|done].
    assert (n = m) as <- by (unfold handle_ptr, HANDLE_SIZE in Hp; lia). congruence.
  - rewrite (deref_insert _ Hb _ _ _ h0) by done. by rewrite decide_True, decide_False.
  - intros q Hq. rewrite (deref_insert _ Hb _ _ _ h0) by done. by rewrite decide_False.
Qed.
Next Obligation.
  intros b t p h Hok H. pose proof (tb_aligned b) as Hb.
  apply deref_Some in H as (n & -> & Hlt & Hn & Hty); [|done]. unfold close_ptr.
  assert (try_deref (tb_addr b) t (handle_ptr (tb_addr b) n) = Ok n) as -> by (apply try_deref_Ok; eauto).
  rewrite (close_live _ _ _ Hok Hn Hty). eexists. split; [done|]. split; [by eapply hwf_close|].
  split; [|intros q Hq]; rewrite (deref_insert _ Hb _ _ _ h) by done.
  - by rewrite !decide_True.
  - by rewrite decide_False.
Qed.

Next Obligation.
  intros b t p h h' Hok H Hty'. pose proof (tb_aligned b) as Hb.
  apply deref_Some in H as (n & -> & Hlt & Hn & Hty); [|done]. unfold update_ptr.
  assert (try_deref (tb_addr b) t (handle_ptr (tb_addr b) n) = Ok n) as -> by (apply try_deref_Ok; eauto).
  split; [by eapply hwf_update|]. split; [|intros q Hq]; rewrite (deref_insert _ Hb _ _ _ h) by done.
  - by rewrite decide_True, decide_False.
  - by rewrite decide_False.
Qed.

(** ** Reachable tables *)

Lemma hinit_wf : hwf hinit.
Proof. split; [done|unfold hinit, NHANDLES; simpl; lia|by vm_compute]. Qed.

(** A thread's history: handles are inserted with a non-zero type and closed while
    live. *)
Inductive hstep (base : Z) : hstate -> hstate -> Prop :=
| step_insert s h s' r : ty h <> 0 -> insert_handle base s h = Ret (s', r) -> hstep base s s'
| step_close s p n s' fds : try_deref base s p = Ok n -> close s n false = Ret (s', fds) ->
    hstep base s s'.
Inductive hreach (base : Z) : hstate -> Prop :=
| reach_init : hreach base hinit
| reach_step s s' : hreach base s -> hstep base s s' -> hreach base s'.

Lemma hreach_wf base s : base mod HANDLE_SIZE = 0 -> hreach base s -> hwf s.
Proof.
  intros Hb. induction 1 as [|s s' _ IH Hst]; [apply hinit_wf|].
  destruct Hst as [s h s' r Hty Hi|s p n s' fds Hd Hc].
  - destruct (insert_handle_cases base s h IH Hty)
      as [[_ E]|(n & h0 & pre & post & Hn & H0 & _ & _ & _ & E)]; rewrite E in Hi; simplify_eq; [done|].
    by eapply hwf_insert.
  - apply try_deref_Ok in Hd as (-> & Hlt & h & Hn & Hty); [|done].
    rewrite (close_live _ _ _ IH Hn Hty) in Hc. simplify_eq. by eapply hwf_close.
Qed.

(** C14: in every reachable table the live counter is the number of occupied slots
    and at most 512, and a pointer dereferences iff it is the aligned address of an
    occupied slot of the table. *)
Theorem reachable_table_sound base s ptr :
  base mod HANDLE_SIZE = 0 -> hreach base s ->
  LIVE_HANDLES s = Z.of_nat (live_count (HANDLE_ARRAY s)) /\ LIVE_HANDLES s <= 512 /\
  (forall n, try_deref base s ptr = Ok n <->
     ptr = base + 32 * Z.of_nat n /\ (n < 512)%nat /\
     exists h, HANDLE_ARRAY s !! n = Some h /\ ty h <> 0).
Proof.
  intros Hb Hr. pose proof (hreach_wf base s Hb Hr) as Hwf. split; [apply Hwf|]. split.
  - rewrite (hwf_live _ Hwf). pose proof (live_count_le (HANDLE_ARRAY s)) as Hle.
    rewrite (hwf_len _ Hwf) in Hle. unfold NHANDLES in Hle. lia.
  - intros n. by apply try_deref_Ok.
Qed.

(** The first insertions into a fresh table go to slots 0, 1 and 2. *)
Lemma is_free_hit l n h : (n < length l)%nat -> ty h <> 0 -> is_free (<[n := h]> l) n = false.
Proof. intros Hn Hh. unfold is_free. rewrite list_lookup_insert_eq by done. by apply Z.eqb_neq. Qed.
Lemma is_free_skip l n m h : n <> m -> is_free (<[n := h]> l) m = is_free l m.
Proof. intros Hn. unfold is_free. by rewrite list_lookup_insert_ne. Qed.

Definition fresh_array : list Handle := replicate NHANDLES zeroed.

Lemma first_free_boot h0 h1 :
  ty h0 <> 0 -> ty h1 <> 0 ->
  first_free fresh_array (probe_order 0) = Some 0%nat /\
  first_free (<[0%nat := h0]> fresh_array) (probe_order 0) = Some 1%nat /\
  first_free (<[1%nat := h1]> (<[0%nat := h0]> fresh_array)) (probe_order 1) = Some 2%nat.
Proof.
  intros H0 H1. split; [by vm_compute|]. split.
  - assert (probe_order 0 = 0%nat :: 1%nat :: drop 2 (probe_order 0)) as -> by by vm_compute.
    cbn [first_free]. by rewrite is_free_hit, is_free_skip by (done || by vm_compute; lia).
  - assert (probe_order 1 = 1%nat :: 2%nat :: drop 2 (probe_order 1)) as -> by by vm_compute.
    cbn [first_free]. rewrite is_free_hit by (done || rewrite length_insert; vm_compute; lia).
    by rewrite !is_free_skip.
Qed.

Lemma insert_handle_at base l hint live h n :
  first_free l (probe_order hint) = Some n -> live < 2 ^ 32 ->
  insert_handle base (mkH l hint live) h = Ret (mkH (<[n := h]> l) n (live + 1), Ok (handle_ptr base n)).
Proof.
  intros E Hl. unfold insert_handle, usize_add. cbn [HANDLE_ARRAY START_HINT LIVE_HANDLES]. rewrite E.
  by rewrite (proj2 (Z.leb_le _ _)) by (unfold USIZE_MAX; lia).
Qed.

(** The call at process start returns, and reports length 3, on any slice of three or more
    entries, wherever the table is. *)
Lemma get_init_handles_len base io_type a b c sl :
  exists s' sl', get_init_handles base io_type hinit (a :: b :: c :: sl) = Ret (s', (sl', 3)).
Proof.
  unfold get_init_handles, hinit. fold fresh_array. set (h i := std_handle io_type i).
  assert (first_free fresh_array (probe_order 0) = Some 0%nat) as E0 by by vm_compute.
  assert (exists n1 n2, first_free (<[0%nat := h 0]> fresh_array) (probe_order 0) = Some n1 /\
    first_free (<[n1 := h 1]> (<[0%nat := h 0]> fresh_array)) (probe_order n1) = Some n2) as (n1 & n2 & E1 & E2).
  { destruct (decide (io_type = 0)) as [->|Hio]; [exists 0%nat, 0%nat; split; by vm_compute|].
    exists 1%nat, 2%nat. apply (first_free_boot (h 0) (h 1)); done. }
  rewrite (insert_handle_at base fresh_array 0 0 _ 0) by done. cbn [mbind outcome_bind unwrap_ok].
  rewrite store_ok by (simpl; lia). cbn [mbind outcome_bind]. rewrite (insert_handle_at _ _ _ _ _ _ E1) by done.
  cbn [mbind outcome_bind unwrap_ok]. rewrite store_ok by (rewrite length_insert; simpl; lia).
  cbn [mbind outcome_bind]. rewrite (insert_handle_at _ _ _ _ _ _ E2) by done. cbn [mbind outcome_bind unwrap_ok].
  rewrite store_ok by (rewrite !length_insert; simpl; lia). cbn [mbind outcome_bind]. eexists _, _. done.
Qed.

(** At process start [get_init_handles] fills the first three entries of the
    caller's slice with pointers to handles for descriptors 0, 1 and 2, in that
    order, and reports length 3; a shorter slice panics. *)
Theorem get_init_handles_spec base io_type (sl : list Z) :
  io_type <> 0 -> base mod HANDLE_SIZE = 0 ->
  if decide (3 <= length sl)%nat then
    exists s', get_init_handles base io_type hinit sl =
                 Ret (s', ([base; base + 32; base + 64] ++ drop 3 sl, 3)) /\
      (forall i, (i < 3)%nat -> deref base s' (handle_ptr base i) =
                                Some (std_handle io_type (Z.of_nat i))) /\
      LIVE_HANDLES s' = 3
  else get_init_handles base io_type hinit sl = Panic OutOfBounds.
Proof.
  intros Hio Hb. set (h i := std_handle io_type i).
  destruct (first_free_boot (h 0) (h 1)) as (E0 & E1 & E2); [done..|].
  unfold get_init_handles, hinit. fold fresh_array.
  rewrite (insert_handle_at base fresh_array 0 0 _ 0) by done. cbn [mbind outcome_bind unwrap_ok].
  destruct sl as [|a sl]; [done|]. cbn [store length]. rewrite store_ok by (simpl; lia).
  cbn [mbind outcome_bind]. rewrite (insert_handle_at _ _ _ _ _ _ E1) by done.
  cbn [mbind outcome_bind unwrap_ok]. destruct sl as [|b sl]; [done|].
  rewrite store_ok by (simpl; lia). cbn [mbind outcome_bind].
  rewrite (insert_handle_at _ _ _ _ _ _ E2) by done. cbn [mbind outcome_bind unwrap_ok].
  destruct sl as [|c sl]; [done|]. rewrite store_ok by (simpl; lia). rewrite decide_True by (simpl; lia).
  cbn [mbind outcome_bind].
  exists (mkH (<[2%nat := h 2]> (<[1%nat := h 1]> (<[0%nat := h 0]> fresh_array))) 2 3).
  split; [|split; [|done]].
  - unfold handle_ptr, HANDLE_SIZE. cbn [insert list_insert app drop Z.of_nat]. repeat f_equal; lia.
  - intros i Hi. apply deref_Some; [done|]. exists i. cbn [HANDLE_ARRAY].
    split_and!; [done|unfold NHANDLES; lia| |done].
    destruct i as [|[|[|]]]; [..|lia];
      repeat first [ rewrite list_lookup_insert_ne by done
                   | rewrite list_lookup_insert_eq by (rewrite ?length_insert; by vm_compute; lia) ];
      done.
Qed.

(** ** Concrete inputs *)

Definition sample_handle : Handle := mkHandle 7 0 0 5.
Definition sample_table : hstate := mkH (<[0%nat := sample_handle]> fresh_array) 0 1.

Lemma sample_table_reach : hreach 4096 sample_table.
Proof.
  eapply reach_step; [apply reach_init|].
  apply (step_insert _ _ sample_handle _ (Ok 4096)); [done|by vm_compute].
Qed.

Lemma sample_table_wf : hwf sample_table.
Proof. by apply (hreach_wf 4096), sample_table_reach. Qed.

Lemma insert_handle_correct_witness :
  exists s' r, insert_handle 4096 sample_table sample_handle = Ret (s', r) /\ hwf s' /\
    match r with
    | Ok p => try_deref 4096 sample_table p = Err InvalidHandle /\
              deref 4096 s' p = Some sample_handle /\
              (forall q, q <> p -> deref 4096 s' q = deref 4096 sample_table q) /\
              LIVE_HANDLES s' = LIVE_HANDLES sample_table + 1
    | Err e => e = ResourceLimitExhausted /\ s' = sample_table /\
               LIVE_HANDLES sample_table = Z.of_nat NHANDLES
    end.
Proof. apply (insert_handle_correct 4096); [done|exact sample_table_wf|done]. Defined.

Lemma close_correct_witness :
  exists n s' fds, try_deref 4096 sample_table 4096 = Ok n /\
    close sample_table n false = Ret (s', fds) /\ hwf s' /\ fds = [5] /\
    try_deref 4096 s' 4096 = Err InvalidHandle /\
    (forall q, q <> 4096 -> deref 4096 s' q = deref 4096 sample_table q) /\
    LIVE_HANDLES s' = 0.
Proof.
  apply (close_correct 4096 eq_refl sample_table 4096 sample_handle sample_table_wf).
  vm_compute. reflexivity.
Defined.

Lemma reachable_table_sound_witness : try_deref 4096 sample_table 4096 = Ok 0%nat.
Proof.
  apply (reachable_table_sound 4096 sample_table 4096 eq_refl sample_table_reach).
  split; [done|]. split; [lia|]. by exists sample_handle.
Defined.

Lemma get_init_handles_spec_witness :
  exists s', get_init_handles 4096 7 hinit [0; 0; 0; 9] = Ret (s', ([4096; 4128; 4160; 9], 3)) /\
    (forall i, (i < 3)%nat -> deref 4096 s' (handle_ptr 4096 i) =
                              Some (std_handle 7 (Z.of_nat i))) /\ LIVE_HANDLES s' = 3.
Proof. exact (get_init_handles_spec 4096 7 [0; 0; 0; 9] ltac:(discriminate) eq_refl). Defined.
