(* ===== verification/Syscalls.v ===== *)
(** * System call registration and dispatch

    Subsystems register a table of 4096 system calls under a number
    (wl-impl/src/syscall_handler.rs); a trapped system call is dispatched through
    the registered tables by [__handle_syscall].  The tables themselves are
    built by [insert_elems] (wl-impl/src/helpers.rs) in each subsystem's lib.rs,
    and the loader initialises the six default subsystems in a fixed order
    (wl-ld-lilium/src/entry.rs). *)

From Stdlib Require Import ZArith Lia.
From stdpp Require Import base numbers list option strings.
From S2P Require Import Prelude.

Local Open Scope Z_scope.

(** A system call implementation ([SysCallTyErased]), by its function name. *)
Abbreviation sysfn := string.
Definition SYSCALLS_PER_SUBSYS : nat := 4096%nat.
Definition NSUBSYS : nat := 64%nat.

(** [helpers::insert_elems]: a const function, whose assertion and indexing fail
    at compile time. *)
Fixpoint insert_elems_loop {T} (base : list T) (updates : list (nat * T)) : outcome (list T) :=
  match updates with
  | [] => Ret base
  | (idx, val) :: r => b ← store base idx val; insert_elems_loop b r
  end.
Definition insert_elems {T} (base : list T) (updates : list (nat * T)) : outcome (list T) :=
  if decide (length updates <= length base)%nat then insert_elems_loop base updates
  else Panic Explicit.

(** [struct SubsysInfo]; UUIDs by their text. *)
Record SubsysInfo : Type := mkInfo {
  name : string;
  uuid : string;
  subsys_version : Z;
  max_sysno : Z }.

Abbreviation systable := (list (option sysfn)).

(** The three statics of syscall_handler.rs; [None] is the null pointer. *)
Record registry : Type := mkReg {
  SYSCALL_SUBSYS_ARRAY : list (option systable);
  NEXT_DYN_SUBSYS : Z;
  SUBSYS_REGISTRY : list (option SubsysInfo) }.

Definition reg_init : registry := mkReg (replicate NSUBSYS None) 8 (replicate NSUBSYS None).

(** [register_subsys]: [!0] asks for the next dynamic number. *)
Definition register_subsys (r : registry) (subsys : Z) (arr : systable) (info : SubsysInfo) :
    outcome registry :=
  '(r, n) ← (if subsys =? USIZE_MAX then
      let val := NEXT_DYN_SUBSYS r in
      let r' := mkReg (SYSCALL_SUBSYS_ARRAY r) (usize_wrap (val + 1)) (SUBSYS_REGISTRY r) in
      if val >? Z.of_nat (length (SYSCALL_SUBSYS_ARRAY r)) then Panic Explicit else Ret (r', val)
    else Ret (r, subsys));
  a ← store (SYSCALL_SUBSYS_ARRAY r) (Z.to_nat n) (Some arr);
  g ← store (SUBSYS_REGISTRY r) (Z.to_nat n) (Some info);
  Ret (mkReg a (NEXT_DYN_SUBSYS r) g).

(** [all_subsystems]: the non-null entries with their numbers. *)
Definition all_subsystems (r : registry) : list (Z * SubsysInfo) :=
  omap (fun p => match p with (n, Some i) => Some (as_u16 (Z.of_nat n), i) | (_, None) => None end)
       (imap (fun n i => (n, i)) (SUBSYS_REGISTRY r)).

(** The effect of [__handle_syscall]: a tail call, or the error code. *)
Inductive dispatch : Type :=
| Jump (f : sysfn)
| Unsupported.    (** [mov rax, UNSUPPORTED_KERNEL_FUNCTION; ret] *)

(** [__handle_syscall]: [r10 = rax >> 12], [rax = rax & 0xFFF], then two loads. *)
Definition handle_syscall (r : registry) (rax : Z) : dispatch :=
  let r10 := Z.shiftr rax 12 in
  let no := Z.land rax 0xFFF in
  if Z.of_nat NSUBSYS <=? r10 then Unsupported else
  match SYSCALL_SUBSYS_ARRAY r !! Z.to_nat r10 with
  | Some (Some arr) =>
    match arr !! Z.to_nat no with
    | Some (Some f) => Jump f
    | _ => Unsupported
    end
  | _ => Unsupported
  end.

(** ** The default subsystems *)

Definition empty_table : systable := replicate SYSCALLS_PER_SUBSYS None.

Section Subsystems.
(** System call numbers of the base subsystem, constants of [lilium_sys]. *)
Context (SYS_UnmanagedException SYS_GetSystemInfo : nat).

Definition base_calls : list (nat * option sysfn) :=
  [(SYS_UnmanagedException, Some "UnmanagedException"%string);
   (SYS_GetSystemInfo, Some "GetSystemInfo"%string)].
Definition thread_calls : list (nat * option sysfn) := [].
Definition io_calls : list (nat * option sysfn) := [(1%nat, Some "IOWrite"%string)].
Definition process_calls : list (nat * option sysfn) :=
  [(0%nat, Some "ExitProcess"%string);
   (0x30%nat, Some "CreateMapping"%string);
   (0x31%nat, Some "ChangeMappingAttributes"%string);
   (0x32%nat, Some "RemoveMapping"%string);
   (0x33%nat, Some "ResizeMapping"%string)].
Definition debug_calls : list (nat * option sysfn) := [].
Definition kmgmt_calls : list (nat * option sysfn) := [].

Definition base_info : SubsysInfo := mkInfo "base" "9e780f9e-f35f-580a-ada0-444d0c24e3ea" 0 128.
Definition thread_info : SubsysInfo := mkInfo "thread" "f8ee4381-7db2-5c4b-bdd9-dad7f83412a4" 0 128.
Definition io_info : SubsysInfo := mkInfo "io" "144e7137-9e85-5b9e-8d4a-8c700fb9d6bd" 0 128.
Definition process_info : SubsysInfo := mkInfo "process" "2bf86506-9b4a-5065-ac9e-ad6d21027460" 0 128.
Definition debug_info : SubsysInfo := mkInfo "debug" "630603ac-38d2-5936-9083-ed87a50b3453" 0 128.
Definition kmgmt_info : SubsysInfo := mkInfo "kmgmt" "90bd3c96-a8e1-5896-a9f2-704e98abec9f" 0 128.

(** [init_subsystem] of each library. *)
Definition init_with (n : Z) (calls : list (nat * option sysfn)) (info : SubsysInfo)
    (r : registry) : outcome registry :=
  t ← insert_elems empty_table calls; register_subsys r n t info.
Definition init_base : registry -> outcome registry := init_with 0 base_calls base_info.
Definition init_thread : registry -> outcome registry := init_with 1 thread_calls thread_info.
Definition init_io : registry -> outcome registry := init_with 2 io_calls io_info.
Definition init_process : registry -> outcome registry := init_with 3 process_calls process_info.
Definition init_debug : registry -> outcome registry := init_with 4 debug_calls debug_info.
Definition init_kmgmt : registry -> outcome registry := init_with 5 kmgmt_calls kmgmt_info.

(** The order in [__rust_entry]: base first, then thread, io, process, debug,
    kmgmt. *)
Definition boot (r : registry) : outcome registry :=
  r ← init_base r; r ← init_thread r; r ← init_io r;
  r ← init_process r; r ← init_debug r; init_kmgmt r.
End Subsystems.

(** ** Tables *)

Definition apply_updates {T} (base : list T) (updates : list (nat * T)) : list T :=
  foldl (fun b u => <[u.1 := u.2]> b) base updates.

Lemma length_apply_updates {T} (base : list T) updates :
  length (apply_updates base updates) = length base.
Proof.
  unfold apply_updates. revert base. induction updates as [|u updates IH]; intros base; simpl; [done|].
  by rewrite IH, length_insert.
Qed.

Lemma insert_elems_loop_ok {T} (base : list T) updates :
  Forall (fun u => (u.1 < length base)%nat) updates ->
  insert_elems_loop base updates = Ret (apply_updates base updates).
Proof.
  unfold apply_updates. revert base. induction updates as [|[i v] updates IH]; intros base H; [done|].
  inv H. cbn [insert_elems_loop foldl fst snd]. rewrite store_ok by done. cbn [mbind outcome_bind].
  apply IH. eapply Forall_impl; [done|]. simpl. by rewrite length_insert.
Qed.

(** An update list with distinct indices: every index finds its own value, and the
    others keep the base value. *)
Definition assoc {T} (i : nat) (updates : list (nat * T)) : option T :=
  snd <$> find (fun u => Nat.eqb u.1 i) updates.

Lemma apply_updates_lookup {T} (base : list T) updates i :
  Forall (fun u => (u.1 < length base)%nat) updates -> NoDup (updates.*1) ->
  apply_updates base updates !! i =
  match assoc i updates with Some v => Some v | None => base !! i end.
Proof.
  unfold assoc. revert base. induction updates as [|[j v] updates IH]; intros base Hb Hnd; [done|].
  inv Hb. rewrite fmap_cons in Hnd. apply NoDup_cons in Hnd as [Hnotin Hnd]. simpl in *.
  unfold apply_updates in *. simpl.
  rewrite IH; [|eapply Forall_impl; [done|]; simpl; by rewrite length_insert|done].
  destruct (Nat.eqb_spec j i) as [->|Hne].
  - destruct (find _ updates) as [[j' v']|] eqn:E; simpl.
    + apply find_some in E as [Hin Heq]. simpl in Heq. apply Nat.eqb_eq in Heq as ->.
      exfalso. apply Hnotin. apply list_elem_of_fmap. exists (i, v'). split; [done|].
      by apply list_elem_of_In.
    + by rewrite list_lookup_insert_eq.
  - destruct (find _ updates); [done|]. simpl. by rewrite list_lookup_insert_ne.
Qed.

(** A system call table built by [insert_elems] from distinct in-range entries
    holds exactly those entries. *)
Theorem insert_elems_table (calls : list (nat * option sysfn)) :
  Forall (fun u => (u.1 < SYSCALLS_PER_SUBSYS)%nat) calls -> NoDup (calls.*1) ->
  (length calls <= SYSCALLS_PER_SUBSYS)%nat ->
  exists t, insert_elems empty_table calls = Ret t /\ length t = SYSCALLS_PER_SUBSYS /\
    forall i, (i < SYSCALLS_PER_SUBSYS)%nat ->
      t !! i = Some (match assoc i calls with Some v => v | None => None end).
Proof.
  intros Hb Hnd Hlen. exists (apply_updates empty_table calls). unfold insert_elems.
  assert (length empty_table = SYSCALLS_PER_SUBSYS) as Hl by apply length_replicate.
  split_and!.
  - rewrite Hl, decide_True by done. apply insert_elems_loop_ok. by rewrite Hl.
  - by rewrite length_apply_updates.
  - intros i Hi. rewrite apply_updates_lookup by (done || by rewrite Hl).
    destruct (assoc i calls); [done|]. by apply lookup_replicate_2.
Qed.

(** ** Registration *)

Definition reg_ok (r : registry) : Prop :=
  length (SYSCALL_SUBSYS_ARRAY r) = NSUBSYS /\ length (SUBSYS_REGISTRY r) = NSUBSYS.

Lemma reg_init_ok : reg_ok reg_init.
Proof. by split. Qed.

(** What a table gives for a call number. *)
Definition table_call (t : systable) (no : Z) : dispatch :=
  match t !! Z.to_nat no with Some (Some f) => Jump f | _ => Unsupported end.

(** The machine code splits a call number into quotient and remainder by 4096; the
    comparison with 64 makes the first load in bounds. *)
Lemma handle_syscall_split r rax :
  reg_ok r -> 0 <= rax ->
  handle_syscall r rax =
  match SYSCALL_SUBSYS_ARRAY r !! Z.to_nat (rax / 4096) with
  | Some (Some t) => table_call t (rax mod 4096)
  | _ => Unsupported
  end.
Proof.
  intros [Hl _] Hr. unfold handle_syscall, table_call.
  rewrite Z.shiftr_div_pow2 by lia. change (2 ^ 12) with 4096.
  change 0xFFF with (Z.ones 12). rewrite Z.land_ones by lia. change (2 ^ 12) with 4096.
  destruct (Z.leb_spec (Z.of_nat NSUBSYS) (rax / 4096)) as [H|H]; [|done].
  rewrite lookup_ge_None_2; [done|]. lia.
Qed.

(** Registering at slot [n] stores the table and the description there. *)
Definition reg_set (r : registry) (n : nat) (t : systable) (i : SubsysInfo) (next : Z) : registry :=
  mkReg (<[n := Some t]> (SYSCALL_SUBSYS_ARRAY r)) next (<[n := Some i]> (SUBSYS_REGISTRY r)).

Lemma reg_set_ok r n t i next : reg_ok r -> reg_ok (reg_set r n t i next).
Proof. intros [H1 H2]. split; simpl; by rewrite length_insert. Qed.

Lemma register_subsys_at r n t i :
  reg_ok r -> 0 <= n < Z.of_nat NSUBSYS ->
  register_subsys r n t i = Ret (reg_set r (Z.to_nat n) t i (NEXT_DYN_SUBSYS r)).
Proof.
  intros [H1 H2] Hn. unfold register_subsys.
  rewrite (proj2 (Z.eqb_neq n USIZE_MAX)) by (unfold NSUBSYS, USIZE_MAX in *; lia).
  cbn [mbind outcome_bind]. rewrite store_ok by lia. cbn [mbind outcome_bind].
  by rewrite store_ok by lia.
Qed.

Lemma register_subsys_dyn r t i :
  reg_ok r -> 0 <= NEXT_DYN_SUBSYS r < Z.of_nat NSUBSYS ->
  register_subsys r USIZE_MAX t i =
    Ret (reg_set r (Z.to_nat (NEXT_DYN_SUBSYS r)) t i (NEXT_DYN_SUBSYS r + 1)).
Proof.
  intros [H1 H2] Hn. unfold register_subsys. rewrite Z.eqb_refl, H1, Z.gtb_ltb.
  rewrite (proj2 (Z.ltb_ge _ _)) by lia.
  cbn [mbind outcome_bind SYSCALL_SUBSYS_ARRAY SUBSYS_REGISTRY NEXT_DYN_SUBSYS].
  rewrite store_ok by lia. cbn [mbind outcome_bind]. rewrite store_ok by lia.
  unfold usize_wrap. rewrite wrap_small by (unfold NSUBSYS in *; lia). done.
Qed.

Lemma handle_syscall_set r n t i next rax :
  reg_ok r -> (n < NSUBSYS)%nat -> 0 <= rax ->
  handle_syscall (reg_set r n t i next) rax =
  if decide (Z.to_nat (rax / 4096) = n) then table_call t (rax mod 4096) else handle_syscall r rax.
Proof.
  intros Hok Hn Hr. pose proof Hok as [Hl _].
  rewrite !handle_syscall_split by (done || by apply reg_set_ok). cbn [reg_set SYSCALL_SUBSYS_ARRAY].
  case_decide as Hd; [subst n; by rewrite list_lookup_insert_eq by lia|].
  by rewrite list_lookup_insert_ne by done.
Qed.

(** Registering a subsystem, under a given number or under the next dynamic
    one: a slot below 64 gets the table, so that exactly the call numbers with that
    quotient by 4096 change their meaning, and the dynamic counter advances only
    for a dynamic request; a slot past the end panics, with the message that names
    the limit only when the dynamic counter is already above 64, and with an index
    error otherwise. *)
Theorem register_subsys_correct r subsys t i :
  reg_ok r -> 0 <= subsys <= USIZE_MAX -> 0 <= NEXT_DYN_SUBSYS r < USIZE_MAX ->
  let dyn := subsys =? USIZE_MAX in
  let slot := if dyn then NEXT_DYN_SUBSYS r else subsys in
  if slot <? 64 then
    exists r', register_subsys r subsys t i = Ret r' /\ reg_ok r' /\
      NEXT_DYN_SUBSYS r' = (if dyn then NEXT_DYN_SUBSYS r + 1 else NEXT_DYN_SUBSYS r) /\
      SUBSYS_REGISTRY r' = <[Z.to_nat slot := Some i]> (SUBSYS_REGISTRY r) /\
      forall rax, 0 <= rax -> handle_syscall r' rax =
        if rax / 4096 =? slot then table_call t (rax mod 4096) else handle_syscall r rax
  else register_subsys r subsys t i =
         Panic (if dyn && (64 <? NEXT_DYN_SUBSYS r) then Explicit else OutOfBounds).
Proof.
  intros Hok Hs Hn dyn slot. pose proof Hok as [H1 H2].
  assert (0 <= slot) as Hs0 by (subst slot; destruct dyn; lia).
  destruct (Z.ltb_spec slot 64) as [Hlt|Hge].
  - exists (reg_set r (Z.to_nat slot) t i (if dyn then NEXT_DYN_SUBSYS r + 1 else NEXT_DYN_SUBSYS r)).
    split_and!; [|by apply reg_set_ok|done..|].
    + subst slot. destruct dyn eqn:E; subst dyn.
      * apply Z.eqb_eq in E as ->. by apply register_subsys_dyn.
      * by apply register_subsys_at.
    + intros rax Hr. rewrite handle_syscall_set by (done || unfold NSUBSYS; lia).
      pose proof (Z.div_pos rax 4096 Hr ltac:(lia)).
      case_decide as Hd; destruct (Z.eqb_spec (rax / 4096) slot); done || lia.
  - unfold register_subsys. subst slot. rewrite H1. fold dyn. change (Z.of_nat NSUBSYS) with 64.
    assert (forall n (v : option systable), 64 <= n ->
      store (SYSCALL_SUBSYS_ARRAY r) (Z.to_nat n) v = Panic OutOfBounds) as Hst.
    { intros n v Hge'. unfold store. rewrite decide_False; [done|]. rewrite H1. unfold NSUBSYS. lia. }
    rewrite Z.gtb_ltb. destruct dyn; cbn [andb] in Hge |- *.
    + destruct (Z.ltb_spec 64 (NEXT_DYN_SUBSYS r)); cbn [mbind outcome_bind]; [done|].
      by rewrite Hst.
    + cbn [mbind outcome_bind]. by rewrite Hst.
Qed.

(** ** Boot *)

Lemma init_with_ok n calls info r :
  reg_ok r -> 0 <= n < Z.of_nat NSUBSYS ->
  Forall (fun u => (u.1 < SYSCALLS_PER_SUBSYS)%nat) calls -> (length calls <= SYSCALLS_PER_SUBSYS)%nat ->
  init_with n calls info r =
    Ret (reg_set r (Z.to_nat n) (apply_updates empty_table calls) info (NEXT_DYN_SUBSYS r)).
Proof.
  intros Hok Hn Hb Hlen. unfold init_with, insert_elems.
  assert (length empty_table = SYSCALLS_PER_SUBSYS) as Hl by apply length_replicate.
  rewrite Hl, decide_True, insert_elems_loop_ok by (done || by rewrite Hl).
  cbn [mbind outcome_bind]. by apply register_subsys_at.
Qed.

Lemma table_call_updates calls no :
  Forall (fun u => (u.1 < SYSCALLS_PER_SUBSYS)%nat) calls -> NoDup (calls.*1) -> 0 <= no < 4096 ->
  table_call (apply_updates empty_table calls) no =
  match assoc (Z.to_nat no) calls with Some (Some f) => Jump f | _ => Unsupported end.
Proof.
  intros Hb Hnd Hno. unfold table_call.
  rewrite apply_updates_lookup by (done || by rewrite length_replicate).
  destruct (assoc _ calls) as [v|]; [done|]. unfold empty_table.
  rewrite lookup_replicate_2; [done|]. unfold SYSCALLS_PER_SUBSYS. lia.
Qed.

(** The system calls available after boot, as (number, function). *)
Definition boot_entries (SYS_UnmanagedException SYS_GetSystemInfo : nat) : list (Z * sysfn) :=
  [(Z.of_nat SYS_UnmanagedException, "UnmanagedException"%string);
   (Z.of_nat SYS_GetSystemInfo, "GetSystemInfo"%string);
   (0x2001, "IOWrite"%string);
   (0x3000, "ExitProcess"%string);
   (0x3030, "CreateMapping"%string);
   (0x3031, "ChangeMappingAttributes"%string);
   (0x3032, "RemoveMapping"%string);
   (0x3033, "ResizeMapping"%string)].
Definition lookup_entry (entries : list (Z * sysfn)) (rax : Z) : dispatch :=
  match find (fun e => e.1 =? rax) entries with Some e => Jump e.2 | None => Unsupported end.

Lemma eqb_split a q m rax :
  0 <= rax -> rax / 4096 = q -> 0 <= m < 4096 -> a = 4096 * q + m ->
  (a =? rax) = Nat.eqb (Z.to_nat m) (Z.to_nat (rax mod 4096)).
Proof.
  intros Hr Hq Hm ->. pose proof (Z.div_mod rax 4096 ltac:(lia)). pose proof (Z.mod_pos_bound rax 4096 ltac:(lia)).
  destruct (Z.eqb_spec (4096 * q + m) rax), (Nat.eqb_spec (Z.to_nat m) (Z.to_nat (rax mod 4096))); lia.
Qed.
Lemma eqb_other a q rax : rax / 4096 = q -> a / 4096 <> q -> (a =? rax) = false.
Proof. intros <- H. apply Z.eqb_neq. by intros ->. Qed.

Section Boot.
Context (SYS_UnmanagedException SYS_GetSystemInfo : nat).
Hypothesis Hs0 : (SYS_UnmanagedException < SYSCALLS_PER_SUBSYS)%nat.
Hypothesis Hs1 : (SYS_GetSystemInfo < SYSCALLS_PER_SUBSYS)%nat.
Hypothesis Hne : SYS_UnmanagedException <> SYS_GetSystemInfo.

Local Abbreviation base_calls' := (base_calls SYS_UnmanagedException SYS_GetSystemInfo).

(** The update lists of the six subsystems by subsystem number. *)
Definition calls_of (q : Z) : list (nat * option sysfn) :=
  if q =? 0 then base_calls' else if q =? 2 then io_calls else
  if q =? 3 then process_calls else [].

Lemma calls_of_bound q : Forall (fun u => (u.1 < SYSCALLS_PER_SUBSYS)%nat) (calls_of q).
Proof using Hs0 Hs1.
  unfold calls_of. destruct (q =? 0); [by repeat apply Forall_cons_2; try apply Forall_nil_2|].
  apply (bool_decide_unpack _). destruct (q =? 2); [by vm_compute|].
  destruct (q =? 3); by vm_compute.
Qed.
Lemma calls_of_nodup q : NoDup ((calls_of q).*1).
Proof using Hne.
  unfold calls_of. destruct (q =? 0).
  - apply NoDup_cons. split; [|apply NoDup_singleton]. by intros ?%list_elem_of_singleton.
  - apply (bool_decide_unpack _). destruct (q =? 2); [by vm_compute|].
    destruct (q =? 3); by vm_compute.
Qed.
Lemma calls_of_short q : (length (calls_of q) <= SYSCALLS_PER_SUBSYS)%nat.
Proof.
  apply (bool_decide_unpack _). unfold calls_of. destruct (q =? 0); [by vm_compute|].
  destruct (q =? 2); [by vm_compute|]. destruct (q =? 3); by vm_compute.
Qed.

Definition boot_tables : list SubsysInfo :=
  [base_info; thread_info; io_info; process_info; debug_info; kmgmt_info].

Definition booted : registry :=
  foldl (fun r p => reg_set r p.1 (apply_updates empty_table (calls_of (Z.of_nat p.1))) p.2 8)
        reg_init (zip (seq 0 6) boot_tables).

Lemma boot_ok : boot SYS_UnmanagedException SYS_GetSystemInfo reg_init = Ret booted.
Proof using Hs0 Hs1 Hne.
  assert (forall q info r, reg_ok r -> 0 <= q < 6 -> NEXT_DYN_SUBSYS r = 8 ->
    init_with q (calls_of q) info r =
      Ret (reg_set r (Z.to_nat q) (apply_updates empty_table (calls_of q)) info 8)) as H.
  { intros q info r Hok Hq Hn. rewrite <- Hn. apply init_with_ok; [done|unfold NSUBSYS; lia| |].
    - apply calls_of_bound.
    - apply calls_of_short. }
  unfold boot, init_base, init_thread, init_io, init_process, init_debug, init_kmgmt, booted.
  pose proof reg_init_ok as Hok.
  rewrite (H 0) by (done || lia). cbn [mbind outcome_bind].
  rewrite (H 1) by (done || lia || auto using reg_set_ok). cbn [mbind outcome_bind].
  rewrite (H 2) by (done || lia || auto using reg_set_ok). cbn [mbind outcome_bind].
  rewrite (H 3) by (done || lia || auto using reg_set_ok). cbn [mbind outcome_bind].
  rewrite (H 4) by (done || lia || auto 9 using reg_set_ok). cbn [mbind outcome_bind].
  rewrite (H 5) by (done || lia || auto 9 using reg_set_ok). done.
Qed.

Lemma booted_dispatch rax :
  0 <= rax ->
  handle_syscall booted rax =
  match assoc (Z.to_nat (rax mod 4096)) (calls_of (rax / 4096)) with
  | Some (Some f) => Jump f
  | _ => Unsupported
  end.
Proof using Hs0 Hs1 Hne.
  intros Hr. pose proof (Z.mod_pos_bound rax 4096 ltac:(lia)) as Hm.
  pose proof (Z.div_pos rax 4096 Hr ltac:(lia)) as Hq.
  pose proof (fun q => table_call_updates (calls_of q) _ (calls_of_bound q) (calls_of_nodup q) Hm) as Ht.
  pose proof reg_init_ok. unfold booted. cbn [foldl zip zip_with seq boot_tables fst snd].
  do 6 (rewrite handle_syscall_set by (unfold NSUBSYS; lia || auto 9 using reg_set_ok);
    case_decide as Hd; [by rewrite Ht, <- Hd, Z2Nat.id by lia|revert Hd]).
  intros.
  rewrite handle_syscall_split by done. cbn [reg_init SYSCALL_SUBSYS_ARRAY].
  assert (calls_of (rax / 4096) = []) as ->.
  { unfold calls_of. repeat (case_match; reflect_bools; [lia|]). done. }
  destruct (_ !! _) as [o|] eqn:E; [|done]. by apply lookup_replicate in E as [-> _].
Qed.

Lemma entries_of_calls rax :
  0 <= rax ->
  match assoc (Z.to_nat (rax mod 4096)) (calls_of (rax / 4096)) with
  | Some (Some f) => Jump f
  | _ => Unsupported
  end = lookup_entry (boot_entries SYS_UnmanagedException SYS_GetSystemInfo) rax.
Proof using Hs0 Hs1 Hne.
  intros Hr. assert (Z.of_nat SYSCALLS_PER_SUBSYS = 4096) as HS by done.
  remember (rax / 4096) as q eqn:Hq. symmetry in Hq.
  pose proof (fun a m => eqb_split a q m rax Hr Hq) as Hsame.
  pose proof (fun a => eqb_other a q rax Hq) as Hother.
  assert (forall s, (s < SYSCALLS_PER_SUBSYS)%nat -> Z.of_nat s / 4096 = 0) as Hdiv
    by (intros s Hs; apply Z.div_small; lia).
  unfold lookup_entry, assoc, calls_of, boot_entries, base_calls, io_calls, process_calls.
  destruct (Z.eqb_spec q 0) as [E|H0]; [|destruct (Z.eqb_spec q 2) as [E|H2];
    [|destruct (Z.eqb_spec q 3) as [E|H3]]]; clear Hq; subst; cbn [find fst snd].
  - rewrite (Hsame (Z.of_nat SYS_UnmanagedException) (Z.of_nat SYS_UnmanagedException)),
      (Hsame (Z.of_nat SYS_GetSystemInfo) (Z.of_nat SYS_GetSystemInfo)) by lia.
    rewrite !Nat2Z.id. rewrite !(Hother _) by done. by repeat case_match; simplify_eq/=.
  - rewrite !(Hother (Z.of_nat _)) by by rewrite Hdiv. rewrite (Hsame 0x2001 1) by lia.
    rewrite !(Hother _) by done. change (Z.to_nat 1) with 1%nat. by destruct (Nat.eqb 1 _).
  - rewrite !(Hother (Z.of_nat _)) by by rewrite Hdiv. rewrite (Hother 0x2001) by done.
    rewrite (Hsame 0x3000 0), (Hsame 0x3030 0x30), (Hsame 0x3031 0x31), (Hsame 0x3032 0x32),
      (Hsame 0x3033 0x33) by lia.
    change (Z.to_nat 0) with 0%nat. change (Z.to_nat 0x30) with 0x30%nat.
    change (Z.to_nat 0x31) with 0x31%nat. change (Z.to_nat 0x32) with 0x32%nat.
    change (Z.to_nat 0x33) with 0x33%nat.
    do 5 (destruct (Nat.eqb _ (Z.to_nat _)); [done|]). done.
  - assert (forall a, a / 4096 ∈ [0; 2; 3] -> (a =? rax) = false) as Ha.
    { intros a Hin. apply Hother. intros E. rewrite E in Hin.
      rewrite !elem_of_cons, elem_of_nil in Hin. tauto. }
    rewrite !(Ha (Z.of_nat _)) by (rewrite Hdiv by done; apply list_elem_of_here).
    by rewrite !(Ha _) by (apply (bool_decide_unpack _); by vm_compute).
Qed.

(** When the base call numbers are distinct and below 4096, booting the six
    default subsystems succeeds; afterwards the subsystems enumerate as base,
    thread, io, process, debug, kmgmt under numbers 0 to 5, and a trapped call
    number reaches exactly the function listed for it in [boot_entries], every
    other 64-bit number answering UNSUPPORTED_KERNEL_FUNCTION. *)
Theorem boot_dispatch :
  exists r, boot SYS_UnmanagedException SYS_GetSystemInfo reg_init = Ret r /\
    all_subsystems r = zip [0; 1; 2; 3; 4; 5]
      [base_info; thread_info; io_info; process_info; debug_info; kmgmt_info] /\
    forall rax, 0 <= rax < 2 ^ 64 ->
      handle_syscall r rax =
      lookup_entry (boot_entries SYS_UnmanagedException SYS_GetSystemInfo) rax.
Proof using Hs0 Hs1 Hne.
  exists booted. split; [apply boot_ok|]. split; [done|].
  intros rax [Hr _]. rewrite booted_dispatch by done. by apply entries_of_calls.
Qed.
End Boot.

(** ** Concrete inputs *)

Lemma insert_elems_table_witness :
  exists t, insert_elems empty_table process_calls = Ret t /\ length t = SYSCALLS_PER_SUBSYS /\
    forall i, (i < SYSCALLS_PER_SUBSYS)%nat ->
      t !! i = Some (match assoc i process_calls with Some v => v | None => None end).
Proof.
  apply insert_elems_table; apply (bool_decide_unpack _); vm_compute; exact I.
Defined.

Lemma register_subsys_correct_witness :
  exists r', register_subsys reg_init USIZE_MAX empty_table base_info = Ret r' /\ reg_ok r' /\
    NEXT_DYN_SUBSYS r' = 9 /\
    SUBSYS_REGISTRY r' = <[8%nat := Some base_info]> (SUBSYS_REGISTRY reg_init) /\
    forall rax, 0 <= rax -> handle_syscall r' rax =
      if rax / 4096 =? 8 then table_call empty_table (rax mod 4096) else handle_syscall reg_init rax.
Proof.
  exact (register_subsys_correct reg_init USIZE_MAX empty_table base_info reg_init_ok
           ltac:(unfold USIZE_MAX; lia) ltac:(unfold USIZE_MAX; simpl; lia)).
Defined.

Lemma boot_dispatch_witness :
  exists r, boot 0 1 reg_init = Ret r /\ handle_syscall r 0x3030 = Jump "CreateMapping".
Proof.
  destruct (boot_dispatch 0 1) as (r & Hb & _ & Hd);
    [apply (bool_decide_unpack _); by vm_compute..|done|].
  exists r. split; [exact Hb|]. rewrite (Hd 0x3030) by lia. reflexivity.
Defined.
