(* ===== verification/Registry.v ===== *)
(** * Registration by several threads (wl-impl/src/syscall_handler.rs)

    Subsystems can be loaded by any thread, and each registers itself.  [register_subsys]
    takes a number with [fetch_add] and then stores a table and a record, both relaxed,
    behind a release fence; system calls of other threads read the tables meanwhile.
    Here every atomic operation is a step, and the two relaxed stores of a thread become
    visible in any order and at any time after they are issued, as their ordering allows.
    (A thread is taken to make its next call once its stores are visible.)
    The file ends with the template of a subsystem (module-lib-templ). *)

From Stdlib Require Import ZArith Lia.
From stdpp Require Import base numbers list option strings.
From S2P Require Import Prelude.
From S2P Require Import Syscalls.

Local Open Scope Z_scope.

(** ** Threads *)

Inductive rpc : Type :=
| RIdle
| RFetch (arr : systable) (info : SubsysInfo)                        (** before [fetch_add] *)
| RStore (n : Z) (arr : systable) (info : SubsysInfo)                (** behind it, before the stores *)
| RIssued (n : Z) (arr : option systable) (info : option SubsysInfo). (** stores not yet visible *)

(** A call, a step of the program, or a store that becomes visible. *)
Inductive ract : Type :=
| CallRegister (subsys : Z) (arr : systable) (info : SubsysInfo)
| Run
| ShowTable
| ShowInfo.

(** [taken] lists the numbers handed to registrations, with what they register, and [dyns]
    those of them that [fetch_add] gave; [alive] is [false] once a thread has panicked. *)
Record rconf : Type := mkRc {
  reg : registry; rthreads : list rpc; taken : list (Z * (systable * SubsysInfo)); dyns : list Z; alive : bool }.

Definition rinitial (n : nat) : rconf := mkRc reg_init (replicate n RIdle) [] [] true.

Definition rstep (c : rconf) (i : nat) (p : rpc) (a : ract) : rconf :=
  let r := reg c in
  match a, p with
  | CallRegister subsys arr info, RIdle =>
    if subsys =? USIZE_MAX then mkRc r (<[i := RFetch arr info]> (rthreads c)) (taken c) (dyns c) true
    else mkRc r (<[i := RStore subsys arr info]> (rthreads c)) ((subsys, (arr, info)) :: taken c) (dyns c) true
  | Run, RFetch arr info =>
    let val := NEXT_DYN_SUBSYS r in
    let r' := mkReg (SYSCALL_SUBSYS_ARRAY r) (usize_wrap (val + 1)) (SUBSYS_REGISTRY r) in
    if val >? Z.of_nat (length (SYSCALL_SUBSYS_ARRAY r)) then mkRc r' (rthreads c) (taken c) (dyns c) false
    else mkRc r' (<[i := RStore val arr info]> (rthreads c)) ((val, (arr, info)) :: taken c) (val :: dyns c) true
  | Run, RStore n arr info =>
    if n <? Z.of_nat (length (SYSCALL_SUBSYS_ARRAY r)) then
      mkRc r (<[i := RIssued n (Some arr) (Some info)]> (rthreads c)) (taken c) (dyns c) true
    else mkRc r (rthreads c) (taken c) (dyns c) false
  | ShowTable, RIssued n (Some arr) info =>
    mkRc (mkReg (<[Z.to_nat n := Some arr]> (SYSCALL_SUBSYS_ARRAY r)) (NEXT_DYN_SUBSYS r) (SUBSYS_REGISTRY r))
      (<[i := RIssued n None info]> (rthreads c)) (taken c) (dyns c) true
  | ShowInfo, RIssued n arr (Some info) =>
    mkRc (mkReg (SYSCALL_SUBSYS_ARRAY r) (NEXT_DYN_SUBSYS r) (<[Z.to_nat n := Some info]> (SUBSYS_REGISTRY r)))
      (<[i := RIssued n arr None]> (rthreads c)) (taken c) (dyns c) true
  | Run, RIssued n None None => mkRc r (<[i := RIdle]> (rthreads c)) (taken c) (dyns c) true
  | _, _ => c
  end.

Definition rsched (c : rconf) (ia : nat * ract) : rconf :=
  if alive c then match rthreads c !! ia.1 with Some p => rstep c ia.1 p ia.2 | None => c end else c.
Definition rrun (c : rconf) (sched : list (nat * ract)) : rconf := foldl rsched c sched.

(** What the types of the parameters say: the number is any [usize], the table an array of
    4096 entries. *)
Definition call_typed (ia : nat * ract) : Prop :=
  match ia.2 with
  | CallRegister n arr info => 0 <= n < 2 ^ 64 /\ length arr = SYSCALLS_PER_SUBSYS
  | _ => True
  end.

Inductive rreach (n : nat) : rconf -> Prop :=
| RR_initial : rreach n (rinitial n)
| RR_step c ia : rreach n c -> call_typed ia -> rreach n (rsched c ia).

(** ** Invariant *)

(** What a thread is in the middle of belongs to a number that has been taken. *)
Definition rpc_ok (c : rconf) (p : rpc) : Prop :=
  match p with
  | RIdle => True
  | RFetch arr info => length arr = SYSCALLS_PER_SUBSYS
  | RStore n arr info => (n, (arr, info)) ∈ taken c
  | RIssued n ta ti => n < Z.of_nat NSUBSYS /\ exists arr info, (n, (arr, info)) ∈ taken c /\
      (ta = None \/ ta = Some arr) /\ (ti = None \/ ti = Some info)
  end.

(** A number that has been taken: something stands under it, or its stores are still to
    come. *)
Definition entry_ok (c : rconf) (n : Z) (arr : systable) (info : SubsysInfo) : Prop :=
  let pending (P : rpc -> Prop) := exists i p, rthreads c !! i = Some p /\ (p = RStore n arr info \/ P p) in
  0 <= n /\
  ((exists t, SYSCALL_SUBSYS_ARRAY (reg c) !! Z.to_nat n = Some (Some t)) \/ pending (fun p => exists ti, p = RIssued n (Some arr) ti)) /\
  ((exists x, SUBSYS_REGISTRY (reg c) !! Z.to_nat n = Some (Some x)) \/ pending (fun p => exists ta, p = RIssued n ta (Some info))).

Record rinv (c : rconf) : Prop := {
  ri_reg : reg_ok (reg c);
  ri_next : 8 <= NEXT_DYN_SUBSYS (reg c) <= 65;
  ri_dyns : dyns c = rev (seqZ 8 (NEXT_DYN_SUBSYS (reg c) - 8));
  ri_thread : forall i p, rthreads c !! i = Some p -> rpc_ok c p;
  ri_entry : forall n arr info, (n, (arr, info)) ∈ taken c -> entry_ok c n arr info;
  ri_table : forall n t, SYSCALL_SUBSYS_ARRAY (reg c) !! n = Some (Some t) -> exists info, (Z.of_nat n, (t, info)) ∈ taken c;
  ri_info : forall n x, SUBSYS_REGISTRY (reg c) !! n = Some (Some x) -> exists arr, (Z.of_nat n, (arr, x)) ∈ taken c }.

(** An entry when thread [i] goes from [p] to [p'] and no entry disappears. *)
Lemma entry_move c c' i p p' n arr info :
  rthreads c !! i = Some p -> rthreads c' = <[i := p']> (rthreads c) ->
  (forall k t, SYSCALL_SUBSYS_ARRAY (reg c) !! k = Some (Some t) -> exists t', SYSCALL_SUBSYS_ARRAY (reg c') !! k = Some (Some t')) ->
  (forall k x, SUBSYS_REGISTRY (reg c) !! k = Some (Some x) -> exists x', SUBSYS_REGISTRY (reg c') !! k = Some (Some x')) ->
  (p = RStore n arr info \/ (exists ti, p = RIssued n (Some arr) ti) ->
     (exists t, SYSCALL_SUBSYS_ARRAY (reg c') !! Z.to_nat n = Some (Some t)) \/ p' = RStore n arr info \/ exists ti, p' = RIssued n (Some arr) ti) ->
  (p = RStore n arr info \/ (exists ta, p = RIssued n ta (Some info)) ->
     (exists x, SUBSYS_REGISTRY (reg c') !! Z.to_nat n = Some (Some x)) \/ p' = RStore n arr info \/ exists ta, p' = RIssued n ta (Some info)) ->
  entry_ok c n arr info -> entry_ok c' n arr info.
Proof.
  intros Hi Ht HA HB Hp Hq (Hl & He & Hf). split; [done|].
  assert (Hlt := lookup_lt_Some _ _ _ Hi).
  assert (Hat : rthreads c' !! i = Some p') by (by rewrite Ht, list_lookup_insert_eq).
  assert (Hne : forall j q, j <> i -> rthreads c !! j = Some q -> rthreads c' !! j = Some q).
  { intros j q Hj Hq'. by rewrite Ht, list_lookup_insert_ne. }
  split.
  - destruct He as [[t He]|(j & q & Hj & Hq')]; [left; eauto|]. destruct (decide (j = i)) as [->|Hji]; [|right; exists j, q; auto].
    rewrite Hi in Hj. injection Hj as <-. destruct (Hp Hq') as [?|?]; [by left|right; by exists i, p'].
  - destruct Hf as [[x Hf]|(j & q & Hj & Hq')]; [left; eauto|]. destruct (decide (j = i)) as [->|Hji]; [|right; exists j, q; auto].
    rewrite Hi in Hj. injection Hj as <-. destruct (Hq Hq') as [?|?]; [by left|right; by exists i, p'].
Qed.

Lemma insert_keeps {A} (l : list (option A)) k j v y :
  l !! j = Some (Some y) -> exists y', <[k := Some v]> l !! j = Some (Some y').
Proof.
  intros Hj. destruct (decide (j = k)) as [->|Hne]; [|exists y; by rewrite list_lookup_insert_ne].
  exists v. apply list_lookup_insert_eq. by eapply lookup_lt_Some.
Qed.

Lemma rpc_ok_mono c c' p : (forall x, x ∈ taken c -> x ∈ taken c') -> rpc_ok c p -> rpc_ok c' p.
Proof.
  intros Hs. destruct p as [| |n arr info|n ta ti]; cbn; try done; [auto|].
  intros (Hn & arr & info & Hin & ?). split; [done|]. exists arr, info. auto.
Qed.

(** A thread moves and entries may become visible; the entries themselves are argued apart. *)
Lemma rinv_move c i p p' r tk dy :
  rinv c -> rthreads c !! i = Some p -> (forall x, x ∈ taken c -> x ∈ tk) ->
  reg_ok r -> 8 <= NEXT_DYN_SUBSYS r <= 65 -> dy = rev (seqZ 8 (NEXT_DYN_SUBSYS r - 8)) ->
  (forall n t, SYSCALL_SUBSYS_ARRAY r !! n = Some (Some t) ->
     SYSCALL_SUBSYS_ARRAY (reg c) !! n = Some (Some t) \/ exists info, (Z.of_nat n, (t, info)) ∈ tk) ->
  (forall n x, SUBSYS_REGISTRY r !! n = Some (Some x) ->
     SUBSYS_REGISTRY (reg c) !! n = Some (Some x) \/ exists arr, (Z.of_nat n, (arr, x)) ∈ tk) ->
  rpc_ok (mkRc r (rthreads c) tk dy true) p' ->
  (forall n arr info, (n, (arr, info)) ∈ tk -> entry_ok (mkRc r (<[i := p']> (rthreads c)) tk dy true) n arr info) ->
  rinv (mkRc r (<[i := p']> (rthreads c)) tk dy true).
Proof.
  intros [H1 H3 HD H4 H5 H6 H7] Hi Hsub Hr Hnx Hdy HT HI Hp He.
  split; cbn [reg taken rthreads dyns]; try done.
  - intros j q Hj. apply list_lookup_insert_Some in Hj as [(<- & <- & _)|[_ Hj]]; [by eapply rpc_ok_mono; [|exact Hp]|].
    eapply rpc_ok_mono; [|by eapply H4]. done.
  - intros n t Ht. destruct (HT _ _ Ht) as [Ht'|?]; [|done]. destruct (H6 _ _ Ht') as [info ?]. exists info. auto.
  - intros n x Hx. destruct (HI _ _ Hx) as [Hx'|?]; [|done]. destruct (H7 _ _ Hx') as [arr ?]. exists arr. auto.
Qed.

(** The entries of the others when only the threads and the numbers change. *)
Ltac other_entry c i q := eapply (entry_move c _ i q); [done|done|by eauto|by eauto| | |by apply ri_entry].

(** Calls. *)
Lemma rinv_call c i n arr info :
  rinv c -> rthreads c !! i = Some RIdle -> call_typed (i, CallRegister n arr info) ->
  rinv (rstep c i RIdle (CallRegister n arr info)).
Proof.
  intros Hc Hi [Hn Hl]. cbn [rstep]. destruct (Z.eqb_spec n USIZE_MAX) as [_|Hne].
  - apply (rinv_move c i RIdle); [done|done|done|apply Hc|apply Hc|apply Hc|by left|by left|done|].
    intros m t x Hm. other_entry c i RIdle; by intros [?|[? ?]].
  - apply (rinv_move c i RIdle); [done|done|by right|apply Hc|apply Hc|apply Hc|by left|by left|by left|].
    assert (Hlt := lookup_lt_Some _ _ _ Hi). intros m t x [[= -> -> ->]|Hm]%elem_of_cons.
    + split; [lia|]. split; right; exists i; eexists; cbn; (split; [by apply list_lookup_insert_eq|by left]).
    + other_entry c i RIdle; by intros [?|[? ?]].
Qed.

(** Why a process may have died: too many dynamic numbers, or a fixed number of 64 or more. *)
Definition dead_ok (c : rconf) : Prop :=
  65 <= NEXT_DYN_SUBSYS (reg c) \/ exists n x, (n, x) ∈ taken c /\ 64 <= n /\ n ∉ dyns c.

(** [fetch_add]. *)
Lemma rinv_fetch c i arr info :
  rinv c -> rthreads c !! i = Some (RFetch arr info) ->
  let c' := rstep c i (RFetch arr info) Run in
  if alive c' then rinv c' else dead_ok c'.
Proof.
  intros Hc Hi. cbn [rstep]. destruct (ri_reg _ Hc) as [HL1 HL2]. rewrite HL1, Z.gtb_ltb. pose proof (ri_next _ Hc) as Hnx.
  assert (Hw : usize_wrap (NEXT_DYN_SUBSYS (reg c) + 1) = NEXT_DYN_SUBSYS (reg c) + 1) by (apply wrap_small; lia).
  unfold NSUBSYS. destruct (Z.ltb_spec (Z.of_nat 64) (NEXT_DYN_SUBSYS (reg c))) as [H|H]; cbn [alive];
    rewrite Hw; [left; cbn; lia|].
  assert (Hlt := lookup_lt_Some _ _ _ Hi).
  apply (rinv_move c i (RFetch arr info)); [done|done|by right|done|cbn; lia| |by left|by left|by left|].
  - cbn [NEXT_DYN_SUBSYS]. rewrite (ri_dyns _ Hc).
    replace (NEXT_DYN_SUBSYS (reg c) + 1 - 8) with (Z.of_nat (S (Z.to_nat (NEXT_DYN_SUBSYS (reg c) - 8)))) by lia.
    rewrite seqZ_S, rev_app_distr, Z2Nat.id by lia. cbn [rev app]. f_equal. lia.
  - intros m t x [[= -> -> ->]|Hm]%elem_of_cons.
    + split; [lia|]. split; right; exists i; eexists; cbn; (split; [by apply list_lookup_insert_eq|by left]).
    + other_entry c i (RFetch arr info); by intros [?|[? ?]].
Qed.

(** The bounds check of the stores. *)
Lemma rinv_store c i n arr info :
  rinv c -> rthreads c !! i = Some (RStore n arr info) ->
  let c' := rstep c i (RStore n arr info) Run in
  if alive c' then rinv c' else dead_ok c'.
Proof.
  intros Hc Hi. cbn [rstep]. destruct (ri_reg _ Hc) as [HL1 HL2]. rewrite HL1. pose proof (ri_thread _ Hc _ _ Hi : _ ∈ _) as Hin.
  unfold NSUBSYS. destruct (Z.ltb_spec n (Z.of_nat 64)) as [H|H]; cbn [alive].
  - apply (rinv_move c i (RStore n arr info)); [done|done|done|apply Hc|apply Hc|apply Hc|by left|by left| |].
    + split; [done|]. exists arr, info. auto.
    + intros m t x Hm. other_entry c i (RStore n arr info).
      * intros [[= -> -> ->]|[? ?]]; [|done]. right; right. by eexists.
      * intros [[= -> -> ->]|[? ?]]; [|done]. right; right. by eexists.
  - unfold dead_ok. cbn [reg taken dyns]. destruct (decide (n ∈ dyns c)) as [Hd|Hd]; [left|right; exists n, (arr, info); split_and!; [done|lia|done]].
    rewrite (ri_dyns _ Hc) in Hd. apply list_elem_of_In, in_rev, list_elem_of_In, elem_of_seqZ in Hd. lia.
Qed.

(** A store becomes visible. *)
Lemma rinv_show_table c i n arr ti :
  rinv c -> rthreads c !! i = Some (RIssued n (Some arr) ti) -> rinv (rstep c i (RIssued n (Some arr) ti) ShowTable).
Proof.
  intros Hc Hi. destruct (ri_reg _ Hc) as [HL1 HL2]. destruct (ri_thread _ Hc _ _ Hi) as (Hn & arr' & info & Hin & [?|[= <-]] & Hti); [done|].
  destruct (ri_entry _ Hc _ _ _ Hin) as (Hpos & _). cbn [rstep].
  assert (Hat : <[Z.to_nat n := Some arr]> (SYSCALL_SUBSYS_ARRAY (reg c)) !! Z.to_nat n = Some (Some arr)).
  { apply list_lookup_insert_eq. rewrite HL1. unfold NSUBSYS in *. lia. }
  apply (rinv_move c i (RIssued n (Some arr) ti)); [done|done|done| |apply Hc|apply Hc| |by left| |].
  - split; cbn; [by rewrite length_insert|done].
  - intros m t Hm. cbn in Hm. apply list_lookup_insert_Some in Hm as [(<- & [= <-] & _)|[_ Hm]]; [right; exists info|by left].
    rewrite Z2Nat.id by lia. done.
  - split; [done|]. exists arr, info. auto.
  - intros m t x Hm. eapply (entry_move c _ i (RIssued n (Some arr) ti)); [done|done| |by eauto| | |by apply Hc]; cbn.
    + intros k t' Ht. by eapply insert_keeps.
    + intros [?|[ti' [= -> -> ->]]]; [done|]. left. by eexists.
    + intros [?|[ta [= -> <- ->]]]; [done|]. right; right. by eexists.
Qed.

Lemma rinv_show_info c i n ta info :
  rinv c -> rthreads c !! i = Some (RIssued n ta (Some info)) -> rinv (rstep c i (RIssued n ta (Some info)) ShowInfo).
Proof.
  intros Hc Hi. destruct (ri_reg _ Hc) as [HL1 HL2]. destruct (ri_thread _ Hc _ _ Hi) as (Hn & arr & info' & Hin & Hta & [?|[= <-]]); [done|].
  destruct (ri_entry _ Hc _ _ _ Hin) as (Hpos & _).
  assert (Hat : <[Z.to_nat n := Some info]> (SUBSYS_REGISTRY (reg c)) !! Z.to_nat n = Some (Some info)).
  { apply list_lookup_insert_eq. rewrite HL2. unfold NSUBSYS in *. lia. }
  assert (Hs : rstep c i (RIssued n ta (Some info)) ShowInfo =
    mkRc (mkReg (SYSCALL_SUBSYS_ARRAY (reg c)) (NEXT_DYN_SUBSYS (reg c)) (<[Z.to_nat n := Some info]> (SUBSYS_REGISTRY (reg c))))
      (<[i := RIssued n ta None]> (rthreads c)) (taken c) (dyns c) true) by by destruct ta.
  rewrite Hs. apply (rinv_move c i (RIssued n ta (Some info))); [done|done|done| |apply Hc|apply Hc|by left| | |].
  - split; cbn; [done|by rewrite length_insert].
  - intros m t Hm. cbn in Hm. apply list_lookup_insert_Some in Hm as [(<- & [= <-] & _)|[_ Hm]]; [right; exists arr|by left].
    rewrite Z2Nat.id by lia. done.
  - split; [done|]. exists arr, info. auto.
  - intros m t x Hm. eapply (entry_move c _ i (RIssued n ta (Some info))); [done|done|by eauto| | | |by apply Hc]; cbn.
    + intros k t' Ht. by eapply insert_keeps.
    + intros [?|[ti' [= -> -> <-]]]; [done|]. right; right. by eexists.
    + intros [?|[ta' [= -> -> ->]]]; [done|]. left. by eexists.
Qed.

Lemma rinv_step c ia :
  rinv c -> alive c = true -> call_typed ia ->
  if alive (rsched c ia) then rinv (rsched c ia) else dead_ok (rsched c ia).
Proof.
  intros Hc Ha Hf. destruct ia as [i a]. unfold rsched. rewrite Ha. cbn [fst snd].
  destruct (rthreads c !! i) as [p|] eqn:Hi; [|by rewrite Ha].
  destruct a as [n arr info| | |], p as [|arr' info'|n' arr' info'|n' ta ti]; try (cbn [rstep]; by rewrite Ha).
  - pose proof (rinv_call c i n arr info Hc Hi Hf) as H. revert H. cbn [rstep]. by destruct (n =? USIZE_MAX).
  - by apply rinv_fetch.
  - by apply rinv_store.
  - destruct ta, ti; try (cbn [rstep]; by rewrite Ha). cbn [rstep alive].
    apply (rinv_move c i (RIssued n' None None)); [done|done|done|apply Hc|apply Hc|apply Hc|by left|by left|done|].
    intros m t x Hm. other_entry c i (RIssued n' None None); by intros [?|[? ?]].
  - destruct ta; [|cbn [rstep]; by rewrite Ha]. by apply rinv_show_table.
  - destruct ti; [|destruct ta; cbn [rstep]; by rewrite Ha]. pose proof (rinv_show_info c i n' ta s Hc Hi) as H.
    revert H. by destruct ta.
Qed.

Lemma rinv_initial n : rinv (rinitial n).
Proof.
  split; cbn [rinitial reg taken rthreads]; [apply reg_init_ok|cbn; lia|done| | | |].
  - intros i p Hp. by apply lookup_replicate in Hp as [-> _].
  - intros m arr info Hm. by apply elem_of_nil in Hm.
  - intros m t Hm. by apply (lookup_replicate NSUBSYS) in Hm as [? _].
  - intros m t Hm. by apply (lookup_replicate NSUBSYS) in Hm as [? _].
Qed.

Lemma rreach_inv n c : rreach n c -> if alive c then rinv c else dead_ok c.
Proof.
  induction 1 as [|c ia Hr IH Hf]; [exact (rinv_initial n)|]. destruct (alive c) eqn:Ha; [by apply rinv_step|].
  assert (rsched c ia = c) as -> by (unfold rsched; by rewrite Ha). by rewrite Ha.
Qed.

(** All registrations under a number are of the same subsystem. *)
Definition sole (c : rconf) (n : Z) (x : systable * SubsysInfo) : Prop :=
  (n, x) ∈ taken c /\ forall y, (n, y) ∈ taken c -> y = x.

(** C16: however many threads register subsystems under whatever numbers, and in whatever
    order their stores become visible: the requests for a dynamic number get 8, 9, 10 and so
    on, never one twice; a table or a description that stands under a number was registered
    under it; under a number that only one subsystem uses, the table and the description are
    of that subsystem.  Once the stores of all threads are visible, the calls of each number
    in use dispatch to the table of a subsystem registered under it, of the one subsystem
    when there is only one, and the calls of all other numbers are unsupported.  Nothing
    stops two subsystems from using the same number.  The process only panics after more
    than 56 dynamic numbers were asked for, or a fixed number of 64 or more. *)
Theorem concurrent_registration n c :
  rreach n c ->
  if alive c then
    (dyns c = rev (seqZ 8 (NEXT_DYN_SUBSYS (reg c) - 8)) /\ NoDup (dyns c)) /\
    (forall k t, SYSCALL_SUBSYS_ARRAY (reg c) !! k = Some (Some t) -> exists x, (Z.of_nat k, (t, x)) ∈ taken c) /\
    (forall k x, SUBSYS_REGISTRY (reg c) !! k = Some (Some x) -> exists t, (Z.of_nat k, (t, x)) ∈ taken c) /\
    (forall k t x, sole c (Z.of_nat k) (t, x) ->
       (forall t', SYSCALL_SUBSYS_ARRAY (reg c) !! k = Some (Some t') -> t' = t) /\
       (forall x', SUBSYS_REGISTRY (reg c) !! k = Some (Some x') -> x' = x)) /\
    ((forall i p, rthreads c !! i = Some p -> p = RIdle) ->
       (forall m y, (m, y) ∈ taken c -> 0 <= m < 64 /\ exists t x, (m, (t, x)) ∈ taken c /\
          forall no, 0 <= no < 4096 -> handle_syscall (reg c) (4096 * m + no) = table_call t no) /\
       (forall m t x no, sole c m (t, x) -> 0 <= no < 4096 -> handle_syscall (reg c) (4096 * m + no) = table_call t no) /\
       (forall m no, 0 <= m -> m ∉ (taken c).*1 -> 0 <= no < 4096 -> handle_syscall (reg c) (4096 * m + no) = Unsupported))
  else 56 < NEXT_DYN_SUBSYS (reg c) - 8 \/ exists m x, (m, x) ∈ taken c /\ 64 <= m /\ m ∉ dyns c.
Proof.
  intros Hr. pose proof (rreach_inv n c Hr) as Hc. destruct (alive c); [|destruct Hc; [left; lia|by right]].
  pose proof (ri_reg _ Hc) as Hok.
  assert (Hdiv : forall m no, 0 <= no < 4096 -> (4096 * m + no) / 4096 = m /\ (4096 * m + no) mod 4096 = no).
  { intros m no Hno. rewrite Z.mul_comm, Z.add_comm, Z.div_add, Z.mod_add by lia. rewrite Z.div_small, Z.mod_small by lia. lia. }
  assert (Hat : (forall i p, rthreads c !! i = Some p -> p = RIdle) -> forall m y, (m, y) ∈ taken c ->
    0 <= m < 64 /\ exists t x, (m, (t, x)) ∈ taken c /\
      forall no, 0 <= no < 4096 -> handle_syscall (reg c) (4096 * m + no) = table_call t no).
  { intros Hq m [t0 x0] Hm. destruct (ri_entry _ Hc _ _ _ Hm) as (Hpos & [[t Ht]|(i & p & Hi & Hp)] & _).
    - pose proof (lookup_lt_Some _ _ _ Ht) as Hlt. rewrite (proj1 Hok) in Hlt. unfold NSUBSYS in Hlt. split; [lia|].
      destruct (ri_table _ Hc _ _ Ht) as [x Hx]. rewrite Z2Nat.id in Hx by lia. exists t, x. split; [done|].
      intros no Hno. rewrite handle_syscall_split by (done || lia). destruct (Hdiv m no Hno) as [-> ->]. by rewrite Ht.
    - rewrite (Hq _ _ Hi) in Hp. by destruct Hp as [?|[? ?]]. }
  split_and!; [apply Hc| |apply Hc|apply Hc| |].
  - rewrite (ri_dyns _ Hc). apply NoDup_ListNoDup, List.NoDup_rev, NoDup_ListNoDup, NoDup_seqZ.
  - intros k t x [_ Hs]. split; intros y Hy.
    + destruct (ri_table _ Hc _ _ Hy) as [x' Hx]. by specialize (Hs _ Hx) as [= -> _].
    + destruct (ri_info _ Hc _ _ Hy) as [t' Hx]. by specialize (Hs _ Hx) as [= _ ->].
  - intros Hq. split_and!; [by apply Hat| |].
    + intros m t x no [Hm Hs] Hno. destruct (Hat Hq m _ Hm) as (_ & t' & x' & Hx & Hcall).
      specialize (Hs _ Hx) as [= -> ->]. by apply Hcall.
    + intros m no Hm0 Hm Hno. rewrite handle_syscall_split by (done || lia). destruct (Hdiv m no Hno) as [-> ->].
      destruct (SYSCALL_SUBSYS_ARRAY (reg c) !! Z.to_nat m) as [[t|]|] eqn:Ht; [|done|done].
      destruct (ri_table _ Hc _ _ Ht) as [x Hx]. rewrite Z2Nat.id in Hx by lia. destruct Hm.
      apply list_elem_of_fmap. by exists (m, (t, x)).
Qed.

Lemma empty_table_call no : table_call empty_table no = Unsupported.
Proof.
  unfold table_call, empty_table. destruct (replicate _ _ !! _) as [v|] eqn:E; [|done].
  by apply lookup_replicate in E as [-> _].
Qed.

Lemma elem_of_all_subsystems_set r n t i next :
  reg_ok r -> (n < NSUBSYS)%nat -> (as_u16 (Z.of_nat n), i) ∈ all_subsystems (reg_set r n t i next).
Proof.
  intros [_ Hl] Hn. unfold all_subsystems. apply list_elem_of_omap. exists (n, Some i). split; [|done].
  apply list_elem_of_lookup. exists n. rewrite list_lookup_imap. cbn [reg_set SUBSYS_REGISTRY].
  by rewrite list_lookup_insert_eq by lia.
Qed.

(** ** The template of a subsystem *)

(** [erase!]: a function as an entry of a table, never null. *)
Definition erase (f : sysfn) : option sysfn := Some f.

(** [SYSCALLS], [INFO] and [init_subsystem] of the template.  The name and the UUID of
    [INFO] are constants to fill in; [todo!] stands for both. *)
Definition template_SYSCALLS : outcome systable := insert_elems empty_table [].
Definition template_INFO (name_ uuid_ : outcome string) : outcome SubsysInfo :=
  n ← name_; u ← uuid_; Ret (mkInfo n u 0 128).
Definition template_init (name_ uuid_ : outcome string) (r : registry) : outcome registry :=
  t ← template_SYSCALLS; i ← template_INFO name_ uuid_; register_subsys r USIZE_MAX t i.

(** As it is shipped the template cannot be evaluated; with the two constants filled in it
    registers, under the next dynamic number, a subsystem whose every call is
    unsupported, and leaves the other subsystems as they are. *)
Theorem template_behaviour r (n u : string) :
  reg_ok r -> 0 <= NEXT_DYN_SUBSYS r < Z.of_nat NSUBSYS ->
  template_init (Panic Todo) (Panic Todo) r = Panic Todo /\
  exists r', template_init (Ret n) (Ret u) r = Ret r' /\ reg_ok r' /\
    NEXT_DYN_SUBSYS r' = NEXT_DYN_SUBSYS r + 1 /\
    (as_u16 (NEXT_DYN_SUBSYS r), mkInfo n u 0 128) ∈ all_subsystems r' /\
    forall rax, 0 <= rax ->
      handle_syscall r' rax = if rax / 4096 =? NEXT_DYN_SUBSYS r then Unsupported else handle_syscall r rax.
Proof.
  intros Hok Hn. split; [reflexivity|]. unfold template_init.
  change template_SYSCALLS with (Ret empty_table). cbn [mbind outcome_bind template_INFO].
  rewrite register_subsys_dyn by done. eexists. split; [done|].
  split_and!; [by apply reg_set_ok|done| |].
  - rewrite <- (Z2Nat.id (NEXT_DYN_SUBSYS r)) at 1 by lia.
    apply elem_of_all_subsystems_set; [done|unfold NSUBSYS in *; lia].
  - intros rax Hr. rewrite handle_syscall_set by (done || unfold NSUBSYS in *; lia).
    pose proof (Z.div_pos rax 4096 Hr ltac:(lia)).
    case_decide as Hd; destruct (Z.eqb_spec (rax / 4096) (NEXT_DYN_SUBSYS r)); try done; try lia.
    apply empty_table_call.
Qed.

(** ** Executions *)

Definition one_call : systable := <[1%nat := Some "IOWrite"%string]> empty_table.

(** Two threads take dynamic numbers; the description of the first is visible before its
    table. *)
Definition reordered : list (nat * ract) :=
  [(0%nat, CallRegister USIZE_MAX one_call io_info); (1%nat, CallRegister USIZE_MAX one_call debug_info);
   (0%nat, Run); (1%nat, Run); (0%nat, Run); (0%nat, ShowInfo)].

Lemma reordered_reach : rreach 2 (rrun (rinitial 2) reordered).
Proof.
  assert (Hl : length one_call = SYSCALLS_PER_SUBSYS) by (unfold one_call; rewrite length_insert; apply length_replicate).
  do 4 (apply (RR_step 2); [|done]). do 2 (apply (RR_step 2); [|by split]). constructor.
Qed.

(** As the stores are relaxed and only the fence before them orders anything, another
    thread can find a subsystem among [all_subsystems] whose calls are still unsupported. *)
Theorem listed_before_callable :
  exists c, rreach 2 c /\ alive c = true /\ all_subsystems (reg c) = [(8, io_info)] /\
    handle_syscall (reg c) (4096 * 8 + 1) = Unsupported /\
    handle_syscall (reg (rrun c [(0%nat, ShowTable)])) (4096 * 8 + 1) = Jump "IOWrite"%string.
Proof.
  exists (rrun (rinitial 2) reordered). split; [apply reordered_reach|].
  split_and!; vm_compute; reflexivity.
Qed.

Lemma template_behaviour_witness :
  exists r', template_init (Ret "mine"%string) (Ret "11111111-2222-5333-8444-555555555555"%string) reg_init = Ret r' /\
    NEXT_DYN_SUBSYS r' = 9 /\ handle_syscall r' 32768 = Unsupported.
Proof.
  assert (Hn : 0 <= NEXT_DYN_SUBSYS reg_init < Z.of_nat NSUBSYS) by (vm_compute; split; congruence).
  destruct (proj2 (template_behaviour reg_init "mine" "11111111-2222-5333-8444-555555555555" reg_init_ok Hn))
    as (r' & H1 & _ & H2 & _ & H3).
  exists r'. split; [exact H1|]. split; [exact H2|]. rewrite (H3 32768) by lia. reflexivity.
Defined.

(** Two threads and a third registration under the number 8, which the first thread was
    given by [fetch_add]: the last table to become visible replaces the other. *)
Definition colliding : list (nat * ract) :=
  [(0%nat, CallRegister USIZE_MAX one_call io_info); (0%nat, Run); (0%nat, Run); (0%nat, ShowTable); (0%nat, ShowInfo); (0%nat, Run);
   (1%nat, CallRegister 8 empty_table debug_info); (1%nat, Run); (1%nat, ShowInfo); (1%nat, ShowTable); (1%nat, Run)].

Lemma colliding_reach : rreach 2 (rrun (rinitial 2) colliding).
Proof.
  assert (Hl : length one_call = SYSCALLS_PER_SUBSYS) by (unfold one_call; rewrite length_insert; apply length_replicate).
  assert (Hl' : length empty_table = SYSCALLS_PER_SUBSYS) by apply length_replicate.
  do 4 (apply (RR_step 2); [|done]). apply (RR_step 2); [|by split]. do 5 (apply (RR_step 2); [|done]).
  apply (RR_step 2); [constructor|by split].
Qed.

(** A number that is in use can be registered again, and its calls then change: the first
    subsystem is no longer reachable. *)
Theorem numbers_can_collide :
  exists c c', rreach 2 c' /\ c' = rrun c (drop 6 colliding) /\ alive c' = true /\
    handle_syscall (reg c) (4096 * 8 + 1) = Jump "IOWrite"%string /\ handle_syscall (reg c') (4096 * 8 + 1) = Unsupported.
Proof.
  exists (rrun (rinitial 2) (take 6 colliding)), (rrun (rinitial 2) colliding). split; [apply colliding_reach|].
  split_and!; [done|vm_compute; reflexivity..].
Qed.

Lemma colliding_end : alive (rrun (rinitial 2) colliding) = true /\ dyns (rrun (rinitial 2) colliding) = [8] /\
  (taken (rrun (rinitial 2) colliding)).*1 = [8; 8] /\ (8, (one_call, io_info)) ∈ taken (rrun (rinitial 2) colliding) /\
  (forall i p, rthreads (rrun (rinitial 2) colliding) !! i = Some p -> p = RIdle).
Proof.
  assert (rthreads (rrun (rinitial 2) colliding) = [RIdle; RIdle]) as -> by (vm_compute; reflexivity).
  assert (taken (rrun (rinitial 2) colliding) = [(8, (empty_table, debug_info)); (8, (one_call, io_info))]) as ->
    by (vm_compute; reflexivity).
  split_and!; [vm_compute; reflexivity|vm_compute; reflexivity|done|right; left|].
  intros [|[|i]] p [= <-]; done.
Qed.

Lemma concurrent_registration_witness :
  exists c, rreach 2 c /\ alive c = true /\ dyns c = [8] /\ (taken c).*1 = [8; 8] /\
    exists t x, (8, (t, x)) ∈ taken c /\ forall no, 0 <= no < 4096 -> handle_syscall (reg c) (4096 * 8 + no) = table_call t no.
Proof.
  exists (rrun (rinitial 2) colliding). destruct colliding_end as (Ha & Hd & Ht & Hin & Hq). split; [apply colliding_reach|].
  split_and!; [exact Ha|exact Hd|exact Ht|].
  pose proof (concurrent_registration 2 _ colliding_reach) as H. rewrite Ha in H. destruct H as (_ & _ & _ & _ & H).
  exact (proj2 (proj1 (H Hq) 8 _ Hin)).
Defined.
