(* ===== verification/OnceLock.v ===== *)
(** * One-time initialisation (wl-helpers/src/lib.rs, [OnceLock] and [LazyLock])

    The lock word, the slow path of [try_get_or_init] as a thread program over the
    shared word (one step per atomic operation), its sequential reading, the
    exclusive ([_mut]) operations and [LazyLock].  The interleaving semantics gives
    mutual exclusion and single initialisation for initialisers that do not fail,
    and shows what goes wrong for those that do and for waiting threads. *)

From Stdlib Require Import ZArith Lia.
From stdpp Require Import base numbers list option relations.
From S2P Require Import Prelude.

Local Open Scope Z_scope.

(** ** The lock word *)

Definition LOCK : Z := 0x0001.
Definition INIT : Z := 0x0002.
Definition POISONED : Z := Z.shiftl 1 (64 - 1).
(** [m & b != 0]. *)
Definition has (m b : Z) : bool := negb (Z.land m b =? 0).

(** [struct OnceLock<T>]; [None] is uninitialised memory. *)
Record once (T : Type) : Type := mkOnce { lock : Z; val : option T }.
Arguments mkOnce {T} lock val.
Arguments lock {T} o.
Arguments val {T} o.

Section OnceLock.
Context {T : Type}.
Implicit Types o : once T.

(** How an initialiser [f] ends: [Try::branch] of its result, or a panic. *)
Inductive init_result : Type :=
| Continue (v : T)
| Break
| Panics.

(** How a call ends for its caller. *)
Inductive tried : Type :=
| Got (v : T)       (** [Try::from_output], the value read through the reference *)
| Residual          (** [FromResidual::from_residual] *)
| Unwound (p : panic)
| Garbage.          (** a reference to memory that was never written *)

Definition new : once T := mkOnce 0 None.
Definition new_init (v : T) : once T := mkOnce INIT (Some v).
Definition is_init o : bool := has (lock o) INIT.
Definition is_poisoned o : bool := has (lock o) POISONED.

(** A reference to the contents. *)
Definition read_val o : tried := match val o with Some v => Got v | None => Garbage end.

(** [take], [into_inner], [force_unlock]; the memory is left as it was. *)
Definition take o : once T * option T :=
  if is_init o then (mkOnce 0 (val o), val o) else (o, None).
Definition into_inner o : option T := (take o).2.
Definition force_unlock o : once T := mkOnce (Z.land (lock o) (not_w 64 LOCK)) (val o).
(** [Drop]: the value that is dropped with the lock. *)
Definition drop_once o : option T := if is_init o then val o else None.

(** ** The shared path, one step per atomic operation *)

(** Program points of [try_get_or_init]; [m] is the local of that name. *)
Inductive pc : Type :=
| Start                 (** before [is_init_atomic] *)
| CheckPoison           (** before the first [check_poison_atomic] *)
| Spin                  (** before a [fetch_or] of the loop *)
| CheckPoison2 (m : Z)  (** before the second [check_poison_atomic] *)
| Call                  (** before [f()], the bomb is armed *)
| WriteVal (v : T)      (** before the write of the value, the bomb is forgotten *)
| StoreInit             (** before [store(INIT)] *)
| StoreZero             (** before [store(0)] of the [Break] arm *)
| DropBomb (r : tried)  (** before the [store(POISONED)] of the bomb's destructor *)
| Finished (r : tried).

(** One step of a thread whose initialiser ends as [f]. *)
Definition tstep (f : init_result) (o : once T) (p : pc) : once T * pc :=
  match p with
  | Start => (o, if is_init o then Finished (read_val o) else CheckPoison)
  | CheckPoison => (o, if is_poisoned o then Finished (Unwound Explicit) else Spin)
  | Spin =>
    let m := lock o in
    (mkOnce (Z.lor m LOCK) (val o), if has m LOCK then Spin else CheckPoison2 m)
  | CheckPoison2 m =>
    (o, if is_poisoned o then Finished (Unwound Explicit)
        else if has m INIT then Finished (read_val o) else Call)
  | Call =>
    (o, match f with
        | Continue v => WriteVal v
        | Break => StoreZero
        | Panics => DropBomb (Unwound Explicit)
        end)
  | WriteVal v => (mkOnce (lock o) (Some v), StoreInit)
  | StoreInit => (mkOnce INIT (val o), Finished (read_val o))
  | StoreZero => (mkOnce 0 (val o), DropBomb Residual)
  | DropBomb r => (mkOnce POISONED (val o), Finished r)
  | Finished r => (o, Finished r)
  end.

(** ** The shared path without interference *)

(** [None]: the call never returns. *)
Definition try_get_or_init (o : once T) (f : init_result) : option (once T * tried) :=
  if is_init o then Some (o, read_val o) else
  if is_poisoned o then Some (o, Unwound Explicit) else
  let m := lock o in
  let o := mkOnce (Z.lor m LOCK) (val o) in
  if has m LOCK then None else
  if is_poisoned o then Some (o, Unwound Explicit) else
  if has m INIT then Some (o, read_val o) else
  match f with
  | Continue v => Some (mkOnce INIT (Some v), Got v)
  | Break => Some (mkOnce POISONED (val o), Residual)
  | Panics => Some (mkOnce POISONED (val o), Unwound Explicit)
  end.

(** [try_get_or_init_mut]. *)
Definition try_get_or_init_mut (o : once T) (f : init_result) : once T * tried :=
  if is_poisoned o then (o, Unwound Explicit) else
  if has (lock o) INIT then (o, read_val o) else
  if has (lock o) LOCK then (o, Unwound Explicit) else
  match f with
  | Continue v => (mkOnce INIT (Some v), Got v)
  | Break => (mkOnce 0 (val o), Residual)
  | Panics => (mkOnce POISONED (val o), Unwound Explicit)
  end.

(** The public operations.  An infallible initialiser is a value or a panic. *)
Definition infallible (f : option T) : init_result :=
  match f with Some v => Continue v | None => Panics end.
Definition fallible (f : option T) : init_result :=
  match f with Some v => Continue v | None => Break end.
Definition get_or_init o (f : option T) := try_get_or_init o (infallible f).
Definition get_or_init_mut o (f : option T) := try_get_or_init_mut o (infallible f).
Definition get_or_try_init o (f : option T) := try_get_or_init o (fallible f).
Definition get_or_try_init_mut o (f : option T) := try_get_or_init_mut o (fallible f).
Definition get o := try_get_or_init o Break.
Definition get_mut o := try_get_or_init_mut o Break.

(** [set]: the closure takes the value out of the local; it ran exactly when the
    local is empty afterwards. *)
Definition set o (v : T) : option (once T * outcome (result unit T)) :=
  match try_get_or_init o (Continue v) with
  | None => None
  | Some (o', Unwound p) => Some (o', Panic p)
  | Some (o', _) => Some (o', Ret (if is_init o then Err v else Ok tt))
  end.
End OnceLock.
Arguments init_result T : clear implicits.
Arguments tried T : clear implicits.
Arguments pc T : clear implicits.

(** ** Lazy values *)

(** [struct LazyLock]; the stored function is the value it returns, or [None] when
    it panics. *)
Record lazy (T : Type) : Type := mkLazy { once_lock : once T; init_fn : option (option T) }.
Arguments mkLazy {T} once_lock init_fn.
Arguments once_lock {T} l.
Arguments init_fn {T} l.

Section LazyLock.
Context {T : Type}.
Implicit Types l : lazy T.

Definition lazy_new (f : option T) : lazy T := mkLazy new (Some f).
Definition lazy_new_init (v : T) : lazy T := mkLazy (new_init v) None.

(** The closure passed by [force]: take the function out of the cell, then call it. *)
Definition lazy_closure l : init_result T :=
  match init_fn l with Some f => infallible f | None => Panics end.
(** Whether the sequential call reaches its closure. *)
Definition runs_closure (o : once T) : bool :=
  negb (is_init o) && negb (is_poisoned o) && negb (has (lock o) LOCK).
Definition after_closure l : option (option T) :=
  if runs_closure (once_lock l) then None else init_fn l.

Definition force l : option (lazy T * tried T) :=
  '(o, r) ← try_get_or_init (once_lock l) (lazy_closure l); Some (mkLazy o (after_closure l), r).
Definition force_mut l : lazy T * tried T :=
  let '(o, r) := try_get_or_init_mut (once_lock l) (lazy_closure l) in (mkLazy o (after_closure l), r).
(** [Deref] and [DerefMut]. *)
Definition lazy_deref l : option (lazy T * tried T) := force l.
Definition lazy_deref_mut l : lazy T * tried T := force_mut l.
Definition lazy_get l : option (lazy T * tried T) :=
  '(o, r) ← get (once_lock l); Some (mkLazy o (init_fn l), r).
Definition lazy_get_mut l : lazy T * tried T :=
  let '(o, r) := get_mut (once_lock l) in (mkLazy o (init_fn l), r).
End LazyLock.

(** ** Threads *)

(** The shared lock, the threads calling [try_get_or_init] on it, and the threads
    whose initialiser has been called, most recent first. *)
Record config (T : Type) : Type := mkConf {
  shared : once T;
  threads : list (pc T);
  called : list nat }.
Arguments mkConf {T} shared threads called.
Arguments shared {T} c.
Arguments threads {T} c.
Arguments called {T} c.

Section Threads.
Context {T : Type}.
(** The end of each thread's initialiser. *)
Context (f : nat -> init_result T).

Definition is_call (p : pc T) : bool := match p with Call => true | _ => false end.

(** Thread [i] takes a step; a number without a thread changes nothing. *)
Definition sched_step (c : config T) (i : nat) : config T :=
  match threads c !! i with
  | Some p =>
    let '(o, p') := tstep (f i) (shared c) p in
    mkConf o (<[i := p']> (threads c)) (if is_call p then i :: called c else called c)
  | None => c
  end.
Definition run (c : config T) (sched : list nat) : config T := foldl sched_step c sched.
Definition initial (n : nat) : config T := mkConf new (replicate n Start) [].

(** States reached by some interleaving of [n] threads. *)
Definition reachable (n : nat) (c : config T) : Prop := exists sched, c = run (initial n) sched.

(** A thread between its successful [fetch_or] and its final store. *)
Definition owner (p : pc T) : bool :=
  match p with
  | CheckPoison2 m => m =? 0
  | Call | WriteVal _ | StoreInit | StoreZero | DropBomb _ => true
  | _ => false
  end.

(** ** The invariant for initialisers that never fail *)

Definition words : list Z :=
  [0; LOCK; INIT; Z.lor INIT LOCK; POISONED; Z.lor POISONED LOCK].

Definition shared_ok (o : once T) (cl : list nat) : Prop :=
  lock o ∈ words /\ (has (lock o) INIT -> exists v, val o = Some v) /\
  (forall v, val o = Some v -> exists j, f j = Continue v) /\
  (length cl <= 1)%nat /\ (lock o = 0 -> cl = []).

Definition thread_ok (o : once T) (cl : list nat) (i : nat) (p : pc T) : Prop :=
  match p with
  | Start | CheckPoison | Spin => True
  | CheckPoison2 m =>
    (m = 0 /\ lock o = LOCK /\ cl = []) \/ (m = INIT /\ has (lock o) INIT) \/
    (m = POISONED /\ has (lock o) POISONED)
  | Call => lock o = LOCK /\ cl = []
  | WriteVal v => lock o = LOCK /\ f i = Continue v
  | StoreInit => lock o = LOCK /\ exists v, val o = Some v
  | StoreZero => False
  | DropBomb r => lock o = LOCK /\ r = Unwound Explicit
  | Finished r =>
    match r with
    | Got v => has (lock o) INIT /\ val o = Some v
    | Unwound _ => has (lock o) POISONED
    | _ => False
    end
  end.

Record inv (c : config T) : Prop := mkInv {
  inv_shared : shared_ok (shared c) (called c);
  inv_threads : forall i p, threads c !! i = Some p -> thread_ok (shared c) (called c) i p;
  inv_owner : forall i j p q, threads c !! i = Some p -> threads c !! j = Some q ->
    owner p -> owner q -> i = j }.

Hypothesis Hf : forall i, f i <> Break.

Lemma owner_locked o cl i p : thread_ok o cl i p -> owner p -> lock o = LOCK.
Proof.
  destruct p; simpl; try tauto. intros [(-> & ? & _)|[[-> _]|[-> _]]] Hm; by vm_compute in Hm || done.
Qed.

(** The six words of the protocol, one by one. *)
Local Ltac word_cases H :=
  unfold words in H; rewrite !elem_of_cons, elem_of_nil in H; destruct H as [->|[->|[->|[->|[->|[->|[]]]]]]].

(** The effect of [fetch_or(LOCK)] on a word of the protocol. *)
Lemma fetch_or_word m :
  m ∈ words ->
  has (Z.lor m LOCK) INIT = has m INIT /\ has (Z.lor m LOCK) POISONED = has m POISONED /\
  Z.lor m LOCK ∈ words /\ Z.lor m LOCK <> 0 /\
  (if has m LOCK then Z.lor m LOCK = m else m ∈ [0; INIT; POISONED]).
Proof.
  intros H. word_cases H; split_and!;
    vm_compute; first [done | by repeat constructor].
Qed.

Lemma has_init_word m : m ∈ words -> has m INIT -> ~ has m POISONED /\ m <> 0 /\ m <> LOCK.
Proof.
  intros H. word_cases H; by vm_compute.
Qed.

Lemma has_poisoned_word m : m ∈ words -> has m POISONED -> ~ has m INIT /\ m <> 0 /\ m <> LOCK.
Proof.
  intros H. word_cases H; by vm_compute.
Qed.

(** The step of one thread keeps the shared part and that thread's own assertion. *)
Lemma tstep_ok o cl i p o' p' :
  shared_ok o cl -> thread_ok o cl i p -> tstep (f i) o p = (o', p') ->
  shared_ok o' (if is_call p then i :: cl else cl) /\
  thread_ok o' (if is_call p then i :: cl else cl) i p' /\
  (owner p' -> owner p \/ lock o = 0).
Proof using Hf.
  intros Hs Ht E. pose proof Hs as (Hw & Hinit & Hval & Hlen & Hzero).
  destruct p as [| | |m| |v| | |r|r]; simpl in *; injection E as <- <-.
  - split; [done|]. unfold is_init, read_val.
    destruct (has (lock o) INIT) eqn:Hi; simpl; [|tauto].
    destruct (Hinit Logic.I) as [v Hv]. rewrite Hv, Hi. simpl. split_and!; done || tauto.
  - split; [done|]. unfold is_poisoned. destruct (has _ POISONED) eqn:Hp; simpl; rewrite ?Hp; simpl; tauto.
  - destruct (fetch_or_word _ Hw) as (Ei & Ep & Hw' & Hne & Hm). unfold shared_ok. simpl. rewrite Ei.
    split_and!; try done. { destruct (has (lock o) LOCK); [done|]. simpl.
      rewrite !elem_of_cons, elem_of_nil in Hm. rewrite Ei, Ep. destruct Hm as [E|[E|[E|[]]]]; rewrite E; [left; auto|by right; left|by right; right]. }
    destruct (has (lock o) LOCK); [by intros []|]. intros H%Is_true_true. apply Z.eqb_eq in H. by right.
  - split; [done|]. unfold is_poisoned.
    destruct (has (lock o) POISONED) eqn:Hp; simpl; [by rewrite Hp; split; [|intros []]|].
    destruct Ht as [(-> & Hl & Hc)|[[-> Hi]|[-> Hi]]].
    + simpl. split; [done|]. by left.
    + change (has INIT INIT) with true. destruct (Hinit Hi) as [v Hv]. unfold read_val. rewrite Hv. simpl.
      split_and!; done || tauto.
    + done.
  - destruct Ht as [Hl ->]. unfold shared_ok. simpl. split; [|split; [|by left]].
    + split_and!; [done..|]. rewrite Hl. by intros [=].
    + destruct (f i) eqn:Ef; simpl; auto. by destruct (Hf i).
  - destruct Ht as [Hl Hv]. unfold shared_ok. simpl.
    split_and!; try done; eauto. intros w [= <-]. eauto.
  - destruct Ht as [Hl [v Hv]]. unfold shared_ok, read_val. simpl. rewrite Hv. simpl.
    split_and!; try done; eauto; try by apply (bool_decide_unpack _).
    intros w [= <-]. eauto.
  - done.
  - destruct Ht as [Hl ->]. unfold shared_ok. simpl.
    split_and!; try done; eauto; try by apply (bool_decide_unpack _).
  - split_and!; done || by intros [].
Qed.

(** It leaves the assertions of the other threads intact. *)
Lemma tstep_frame o cl i p o' p' j q :
  shared_ok o cl -> thread_ok o cl i p -> thread_ok o cl j q -> ~ (owner p /\ owner q) ->
  tstep (f i) o p = (o', p') ->
  thread_ok o' (if is_call p then i :: cl else cl) j q.
Proof using Hf.
  intros Hs Hp Hq Hex E. pose proof Hs as (Hw & Hinit & Hval & Hlen & Hzero).
  assert (owner p -> thread_ok o cl i p -> forall o' cl', thread_ok o' cl' j q) as Hown.
  { intros Hop _ o'' cl''. pose proof (owner_locked _ _ _ _ Hp Hop) as Hl.
    assert (~ owner q) as Hnq by tauto. clear Hp E Hex.
    destruct q as [| | |m| |v| | |r|r]; simpl in *; try tauto; rewrite Hl in Hq.
    - destruct Hq as [(-> & _)|[[-> ?]|[-> ?]]]; done.
    - destruct r; try tauto; by vm_compute in Hq. }
  destruct p as [| | |m| |v| | |r|r]; simpl in *; injection E as <- <-; auto.
  clear Hown. destruct (fetch_or_word _ Hw) as (Ei & Ep & Hw' & Hne & Hm).
  destruct (has (lock o) LOCK) eqn:Hl; [rewrite Hm; by destruct o|].
  assert (lock o <> LOCK) as Hnl by by intros H; rewrite H in Hl.
  destruct q as [| | |m| |v| | |r|r]; simpl in *; rewrite ?Ei, ?Ep; tauto.
Qed.

Lemma inv_initial n : inv (initial n).
Proof.
  split; simpl.
  - split_and!; [by left|done|done|simpl; lia|done].
  - by intros i p [-> _]%lookup_replicate.
  - by intros i j p q [-> _]%lookup_replicate.
Qed.

Lemma inv_step c i : inv c -> inv (sched_step c i).
Proof using Hf.
  intros [Hs Ht Ho]. unfold sched_step. destruct (threads c !! i) as [p|] eqn:Hi; [|done].
  destruct (tstep (f i) (shared c) p) as [o' p'] eqn:E.
  destruct (tstep_ok _ _ _ _ _ _ Hs (Ht i p Hi) E) as (Hs' & Hp' & Hown).
  assert (i < length (threads c))%nat as Hlt by by eapply lookup_lt_Some.
  split; simpl; [done| |].
  - intros j q Hj. destruct (decide (i = j)) as [<-|Hne].
    + rewrite list_lookup_insert_eq in Hj by done. by simplify_eq.
    + rewrite list_lookup_insert_ne in Hj by done. eapply tstep_frame; eauto.
      intros [H1 H2]. by destruct Hne; eapply Ho.
  - assert (forall j q, j <> i -> threads c !! j = Some q -> owner p' -> owner q -> False) as Hex.
    { intros j q Hne Hj Hp Hq. destruct (Hown Hp) as [H|H]; [by destruct Hne; eapply Ho|].
      rewrite (owner_locked _ _ _ _ (Ht j q Hj) Hq) in H. done. }
    intros j k q r Hj Hk Hq Hr.
    destruct (decide (i = j)) as [<-|Hj'], (decide (i = k)) as [<-|Hk']; [done|..];
      rewrite ?list_lookup_insert_eq in * by done; rewrite ?list_lookup_insert_ne in * by done;
      simplify_eq; [by destruct (Hex k r)|by destruct (Hex j q)|by eapply Ho].
Qed.

Lemma inv_run c sched : inv c -> inv (run c sched).
Proof using Hf.
  revert c. induction sched as [|i sched IH]; intros c Hc; [done|]. simpl. by apply IH, inv_step.
Qed.

Lemma reachable_inv n c : reachable n c -> inv c.
Proof using Hf. intros [sched ->]. apply inv_run, inv_initial. Qed.

(** Once the word holds an outcome together with the lock bit, no step changes it. *)
Definition spent (m : Z) : Prop := m = Z.lor INIT LOCK \/ m = Z.lor POISONED LOCK.

Lemma spent_step c i : inv c -> spent (lock (shared c)) ->
  lock (shared (sched_step c i)) = lock (shared c).
Proof.
  intros [_ Ht _] Hs. unfold sched_step. destruct (threads c !! i) as [p|] eqn:Hi; [|done].
  assert (~ owner p) as Hno.
  { intros Ho. rewrite (owner_locked _ _ _ _ (Ht i p Hi) Ho) in Hs. by destruct Hs. }
  specialize (Ht i p Hi). destruct p as [| | |m| |v| | |r|r]; simpl in *; try done.
  destruct Hs as [-> | ->]; reflexivity.
Qed.

Lemma spent_spins c i j :
  spent (lock (shared c)) -> threads c !! i = Some Spin -> threads (sched_step c j) !! i = Some Spin.
Proof.
  intros Hs Hi. unfold sched_step. destruct (threads c !! j) as [p|] eqn:Hj; [|done].
  destruct (tstep (f j) (shared c) p) as [o' p'] eqn:E. simpl.
  destruct (decide (i = j)) as [<-|Hne]; [|by rewrite list_lookup_insert_ne].
  rewrite list_lookup_insert_eq by by eapply lookup_lt_Some.
  rewrite Hi in Hj. injection Hj as <-. simpl in E. injection E as _ <-.
  by destruct Hs as [-> | ->].
Qed.

(** C8: when no initialiser fails with a residual (it returns a value or panics),
    under every interleaving of any number of threads at most one thread is between
    taking the lock and releasing it, at most one initialiser is ever called, and a
    finished thread either holds a reference to the one initialised value, which
    some thread's initialiser produced, or panicked because the lock is poisoned. *)
Theorem once_lock_single_init n c :
  reachable n c ->
  (forall i j p q, threads c !! i = Some p -> threads c !! j = Some q -> owner p -> owner q -> i = j) /\
  (length (called c) <= 1)%nat /\
  (forall i r, threads c !! i = Some (Finished r) ->
     (exists v j, r = Got v /\ val (shared c) = Some v /\ f j = Continue v) \/
     (exists p, r = Unwound p /\ is_poisoned (shared c))).
Proof using Hf.
  intros Hr. apply reachable_inv in Hr as [Hs Ht Ho]. pose proof Hs as (_ & _ & Hval & Hlen & _).
  split_and!; [done|done|]. intros i r Hi. specialize (Ht _ _ Hi). simpl in Ht.
  destruct r as [v| |p|]; try done; [|right; eauto].
  left. destruct Ht as [_ Hv]. destruct (Hval v Hv) as [j Hj]. eauto.
Qed.

(** The first waiting thread that finds the lock initialised (or poisoned)
    leaves the lock bit set, and nobody clears it: from such a state a thread still
    in the acquisition loop spins forever, whatever the scheduler does. *)
Theorem waiter_spins_forever n c i sched :
  reachable n c -> spent (lock (shared c)) -> threads c !! i = Some Spin ->
  threads (run c sched) !! i = Some Spin.
Proof using Hf.
  intros Hr%reachable_inv. revert c Hr. induction sched as [|j sched IH]; intros c Hc Hs Hi; [done|].
  simpl. apply IH; [by apply inv_step| |by apply spent_spins]. by rewrite spent_step.
Qed.
End Threads.

(** ** Sequential behaviour *)

Section Sequential.
Context {T : Type}.
Implicit Types o : once T.

(** A thread that runs alone. *)
Definition solo (fr : init_result T) (op : once T * pc T) : once T * pc T := tstep fr op.1 op.2.

Lemma lor_lock_idem m : Z.lor (Z.lor m LOCK) LOCK = Z.lor m LOCK.
Proof. rewrite <- Z.lor_assoc. reflexivity. Qed.
Lemma has_lock_lor m : has (Z.lor m LOCK) LOCK = true.
Proof.
  unfold has. apply negb_true_iff, Z.eqb_neq. rewrite Z.land_lor_distr_l. by intros [_ H]%Z.lor_eq_0_iff.
Qed.

Lemma solo_fixpoint fr op k : solo fr op = op -> Nat.iter k (solo fr) op = op.
Proof. intros H. induction k as [|k IH]; simpl; [done|]. by rewrite IH. Qed.

Lemma solo_result fr o :
  Nat.iter 9 (solo fr) (o, Start) =
  match try_get_or_init o fr with
  | Some (o', r) => (o', Finished r)
  | None => (mkOnce (Z.lor (lock o) LOCK) (val o), Spin)
  end.
Proof.
  assert (forall k o' r, Nat.iter k (solo fr) (o', Finished r) = (o', Finished r)) as Hfin
    by (intros; by apply solo_fixpoint).
  unfold try_get_or_init. rewrite Nat.iter_succ_r. unfold solo at 2. cbn [tstep fst snd].
  destruct (is_init o) eqn:Hi; [apply Hfin|]. rewrite Nat.iter_succ_r. unfold solo at 2. cbn [tstep fst snd].
  destruct (is_poisoned o) eqn:Hp; [apply Hfin|]. rewrite Nat.iter_succ_r. unfold solo at 2. cbn [tstep fst snd].
  destruct (has (lock o) LOCK) eqn:Hl.
  - apply solo_fixpoint. unfold solo. cbn [tstep fst snd lock val].
    by rewrite lor_lock_idem, has_lock_lor.
  - rewrite Nat.iter_succ_r. unfold solo at 2. cbn [tstep fst snd lock val].
    destruct (is_poisoned (mkOnce _ _)); [apply Hfin|]. destruct (has (lock o) INIT); [apply Hfin|].
    by destruct fr.
Qed.

(** Run alone, the thread program of [try_get_or_init] computes exactly the
    sequential definition: it finishes within nine steps with that result, or, when
    the definition says so, spins forever. *)
Theorem solo_refines_sequential o (fr : init_result T) k :
  Nat.iter (k + 9) (solo fr) (o, Start) =
  match try_get_or_init o fr with
  | Some (o', r) => (o', Finished r)
  | None => (mkOnce (Z.lor (lock o) LOCK) (val o), Spin)
  end.
Proof.
  rewrite Nat.iter_add, solo_result. apply solo_fixpoint. unfold solo.
  destruct (try_get_or_init o fr) as [[o' r]|]; cbn [tstep fst snd lock val]; [done|].
  by rewrite lor_lock_idem, has_lock_lor.
Qed.

(** The abstract states of a lock. *)
Inductive abs : Type := Uninit | Inited (v : T) | Poisoned | Busy.

Definition repr o (a : abs) : Prop :=
  match a with
  | Uninit => lock o = 0
  | Inited v => (lock o = INIT \/ lock o = Z.lor INIT LOCK) /\ val o = Some v
  | Poisoned => lock o = POISONED \/ lock o = Z.lor POISONED LOCK
  | Busy => lock o = LOCK
  end.

(** What the shared and the exclusive operations do to an abstract state. *)
Definition spec_shared (a : abs) (fr : init_result T) : option (abs * tried T) :=
  match a, fr with
  | Inited v, _ => Some (Inited v, Got v)
  | Poisoned, _ => Some (Poisoned, Unwound Explicit)
  | Busy, _ => None
  | Uninit, Continue v => Some (Inited v, Got v)
  | Uninit, Break => Some (Poisoned, Residual)
  | Uninit, Panics => Some (Poisoned, Unwound Explicit)
  end.
Definition spec_mut (a : abs) (fr : init_result T) : abs * tried T :=
  match a, fr with
  | Inited v, _ => (Inited v, Got v)
  | Poisoned, _ => (Poisoned, Unwound Explicit)
  | Busy, _ => (Busy, Unwound Explicit)
  | Uninit, Continue v => (Inited v, Got v)
  | Uninit, Break => (Uninit, Residual)
  | Uninit, Panics => (Poisoned, Unwound Explicit)
  end.
Definition spec_take (a : abs) : abs * option T :=
  match a with Inited v => (Uninit, Some v) | _ => (a, None) end.
Definition spec_set (a : abs) (v : T) : option (abs * outcome (result unit T)) :=
  match a with
  | Uninit => Some (Inited v, Ret (Ok tt))
  | Inited w => Some (Inited w, Ret (Err v))
  | Poisoned => Some (Poisoned, Panic Explicit)
  | Busy => None
  end.
Definition spec_force_unlock (a : abs) : abs :=
  match a with Busy => Uninit | _ => a end.

Local Ltac by_word :=
  unfold try_get_or_init, try_get_or_init_mut, set, take, force_unlock, is_init, is_poisoned, read_val;
  cbn [lock val].

(** The operations of [OnceLock] implement the four-state machine: an
    uninitialised lock takes the initialiser's value, an initialised one keeps it
    whatever the initialiser, a poisoned one panics, a locked one blocks shared
    callers and panics exclusive ones; a failing initialiser poisons on the shared
    path and leaves the lock uninitialised on the exclusive path; [take] empties
    only an initialised lock. *)
Theorem once_lock_refines_machine o a (fr : init_result T) v :
  repr o a ->
  match spec_shared a fr with
  | Some (a', r) => exists o', try_get_or_init o fr = Some (o', r) /\ repr o' a'
  | None => try_get_or_init o fr = None
  end /\
  (exists o', try_get_or_init_mut o fr = (o', (spec_mut a fr).2) /\ repr o' (spec_mut a fr).1) /\
  match spec_set a v with
  | Some (a', r) => exists o', set o v = Some (o', r) /\ repr o' a'
  | None => set o v = None
  end /\
  (exists o', take o = (o', (spec_take a).2) /\ repr o' (spec_take a).1) /\
  repr (force_unlock o) (spec_force_unlock a).
Proof.
  destruct o as [m x]. intros H.
  destruct a as [|w| |]; simpl in H;
    [subst m|destruct H as [[-> | ->] ->]|destruct H as [-> | ->]|subst m];
    by_word; destruct fr; simpl; split_and!; eauto.
Qed.
End Sequential.

Section LazyTheorems.
Context {T : Type}.

(** A value that was forced, or given at construction. *)
Definition forced (l : lazy T) (v : T) : Prop := once_lock l = mkOnce INIT (Some v) /\ init_fn l = None.

(** A lazy value is computed by its first [force] and never again: later
    calls of [force], [get] and their exclusive forms return that value and leave
    the lock as it is; a panicking function poisons it.  Asking with [get] before
    the first [force] answers nothing and poisons the lock, so that the later
    [force] panics instead of computing the value; [get_mut] does no such harm. *)
Theorem lazy_lock_behaviour (v : T) (f : option T) :
  (exists l, force (lazy_new (Some v)) = Some (l, Got v) /\ forced l v) /\
  (exists l, force_mut (lazy_new (Some v)) = (l, Got v) /\ forced l v) /\
  (forall l, forced l v -> force l = Some (l, Got v) /\ force_mut l = (l, Got v) /\
     lazy_get l = Some (l, Got v) /\ lazy_get_mut l = (l, Got v)) /\
  (exists l, force (lazy_new None) = Some (l, @Unwound T Explicit) /\
     force l = Some (l, Unwound Explicit)) /\
  (exists l, lazy_get (lazy_new f) = Some (l, Residual) /\ force l = Some (l, Unwound Explicit)) /\
  lazy_get_mut (lazy_new f) = (lazy_new f, Residual).
Proof.
  split_and!; [eexists; split; [reflexivity|by split]|eexists; split; [reflexivity|by split]| |
    eexists; split; reflexivity|eexists; split; reflexivity|reflexivity].
  intros [o g] [Ho Hg]. simpl in *. subst. split_and!; reflexivity.
Qed.
End LazyTheorems.

(** ** Schedules *)

(** Three threads with infallible initialisers: thread 0 initialises while threads
    1 and 2 wait. *)
Definition three_values (i : nat) : init_result Z := Continue (Z.of_nat i).
Definition two_waiters : list nat :=
  [0; 0; 0; 0; 1; 1; 2; 2; 1; 2; 0; 0; 0; 1; 1]%nat.

(** Thread 0 fails, thread 1 and 2 provide values. *)
Definition failing_first (i : nat) : init_result Z :=
  match i with O => Break | _ => Continue (Z.of_nat i) end.
Definition racing_bomb : list nat :=
  [0; 0; 2; 2; 0; 0; 0; 0; 1; 1; 1; 1; 0; 2; 1; 1; 1; 2; 2; 2; 2]%nat.

(** With a failing initialiser the lock does not guarantee a single
    initialisation: in this interleaving the first thread's closure fails, and the
    stale store of its bomb lets the two other threads both run theirs, each
    returning a reference to its own value, the second overwriting the first. *)
Theorem failing_initialiser_double_init :
  let c := run failing_first (initial 3) racing_bomb in
  called c = [2; 1; 0]%nat /\ val (shared c) = Some 2 /\
  threads c = [Finished Residual; Finished (Got 1); Finished (Got 2)].
Proof. vm_compute. split_and!; reflexivity. Qed.

Lemma once_lock_single_init_witness :
  (length (called (run three_values (initial 3) two_waiters)) <= 1)%nat.
Proof.
  apply (once_lock_single_init three_values (fun i => ltac:(discriminate)) 3).
  exists two_waiters. reflexivity.
Defined.

Lemma waiter_spins_forever_witness :
  threads (run three_values (run three_values (initial 3) two_waiters) [2; 0; 1; 2; 2]%nat) !! 2%nat =
  Some Spin.
Proof.
  apply (waiter_spins_forever three_values (fun i => ltac:(discriminate)) 3).
  - exists two_waiters. reflexivity.
  - left. vm_compute. reflexivity.
  - vm_compute. reflexivity.
Defined.

Lemma once_lock_refines_machine_witness :
  exists o', try_get_or_init (mkOnce 0 (@None Z)) Break = Some (o', Residual) /\ repr o' Poisoned.
Proof. apply (once_lock_refines_machine (mkOnce 0 None) Uninit Break 5). reflexivity. Defined.
