(* ===== verification/Futex.v ===== *)
(** * The futex lock (wl-helpers/src/sync.rs)

    A reader-writer lock on one 32-bit word: the top bit for a writer, the low bits
    for the number of readers.  Each thread is a small program over the word, one
    step per atomic operation or system call; weak compare-and-exchange may fail
    spuriously and [futex(2)] may return at any time, both chosen by the schedule.
    The mutex of the same file is the exclusive half of this lock. *)

From Stdlib Require Import ZArith Lia.
From stdpp Require Import base numbers list option.
From S2P Require Import Prelude.

Local Open Scope Z_scope.

Definition EXCLUSIVE : Z := 0x80000000.
(** [(w & 0x80000000) == 0]. *)
Definition no_writer (w : Z) : bool := Z.land w EXCLUSIVE =? 0.

(** ** Operations of one atomic step *)

Definition is_locked (w : Z) : bool := negb (w =? 0).
Definition is_locked_exclusive (w : Z) : bool := negb (no_writer w).
(** [compare_exchange]: the new word and [Ok]/[Err]; [weak_ok] is [false] when a
    weak exchange fails spuriously. *)
Definition compare_exchange_weak (weak_ok : bool) (w expected new : Z) : Z * result Z Z :=
  if (w =? expected) && weak_ok then (new, Ok w) else (w, Err w).
Definition try_lock_exclusive (w : Z) : Z * bool :=
  match compare_exchange_weak true w 0 EXCLUSIVE with
  | (w', Ok _) => (w', true)
  | (w', Err _) => (w', false)
  end.
Definition unlock_exclusive (w : Z) : Z := 0.
Definition unlock_shared (w : Z) : Z := as_u32 (w - 1).
Definition downgrade (w : Z) : Z := 1.

(** ** Threads *)

Inductive fpc : Type :=
| Idle
| LockX (step : Z)              (** the exchange of [lock_exclusive] *)
| WaitX (e step : Z)            (** before its [futex::wait(e)] *)
| SleepX (step : Z)             (** inside the wait *)
| LockS (load step : Z)         (** the loop head of [lock_shared] *)
| WaitS (load step : Z)
| SleepS (load step : Z)
| TryLoad                       (** the first load of [try_lock_shared] *)
| TryS (load : Z)               (** its loop *)
| HeldX
| HeldS.

(** What the schedule asks of a thread: begin or end a critical section, continue
    a pending operation, or return from the wait. *)
Inductive act : Type :=
| DoLock | DoLockShared | DoTryLock | DoTryLockShared
| DoUnlock | DoUnlockShared | DoDowngrade
| Go (weak_ok : bool)
| Wake.

#[export] Instance act_eq_dec : EqDecision act.
Proof. solve_decision. Defined.

(** [u16::saturating_add(1)]. *)
Definition bump (step : Z) : Z := Z.min (step + 1) (2 ^ 16 - 1).

(** [lock_exclusive]: one turn of its loop. *)
Definition lock_exclusive (weak_ok : bool) (w step : Z) : Z * fpc :=
  match compare_exchange_weak weak_ok w 0 EXCLUSIVE with
  | (w', Ok _) => (w', HeldX)
  | (w', Err e) =>
    (w', if e =? 0 then LockX step
         else if step <? 256 then LockX (bump step) else WaitX e step)
  end.

(** [lock_shared]: one turn of its loop. *)
Definition lock_shared (weak_ok : bool) (w load step : Z) : Z * fpc :=
  if no_writer load then
    match compare_exchange_weak weak_ok w load (load + 1) with
    | (w', Ok _) => (w', HeldS)
    | (w', Err e) => (w', LockS e step)
    end
  else (w, if step <? 256 then LockS load (bump step) else WaitS load step).

(** [try_lock_shared]: one turn of its loop. *)
Definition try_lock_shared (weak_ok : bool) (w load : Z) : Z * fpc :=
  if no_writer load then
    match compare_exchange_weak weak_ok w load (load + 1) with
    | (w', Ok _) => (w', HeldS)
    | (w', Err e) => (w', TryS e)
    end
  else (w, Idle).

(** A thread's step; [None] when the request does not fit its program point. *)
Definition fstep (w : Z) (p : fpc) (a : act) : option (Z * fpc) :=
  match a, p with
  | DoLock, Idle => Some (w, LockX 0)
  | DoLockShared, Idle => Some (w, LockS 0 0)
  | DoTryLock, Idle =>
    let '(w', b) := try_lock_exclusive w in Some (w', if b then HeldX else Idle)
  | DoTryLockShared, Idle => Some (w, TryLoad)
  | DoUnlock, HeldX => Some (unlock_exclusive w, Idle)
  | DoUnlockShared, HeldS => Some (unlock_shared w, Idle)
  | DoDowngrade, HeldX => Some (downgrade w, HeldS)
  | Go ok, LockX step => Some (lock_exclusive ok w step)
  | Go ok, LockS load step => Some (lock_shared ok w load step)
  | Go ok, TryLoad => Some (w, TryS w)
  | Go ok, TryS load => Some (try_lock_shared ok w load)
  | Go ok, WaitX e step => Some (w, if w =? e then SleepX step else LockX (bump step))
  | Go ok, WaitS e step => Some (w, if w =? e then SleepS e step else LockS e (bump step))
  | Wake, SleepX step => Some (w, LockX (bump step))
  | Wake, SleepS e step => Some (w, LockS e (bump step))
  | _, _ => None
  end.

Record fconf : Type := mkF { word : Z; fthreads : list fpc }.

Definition fsched (c : fconf) (ia : nat * act) : fconf :=
  match fthreads c !! ia.1 with
  | Some p =>
    match fstep (word c) p ia.2 with
    | Some (w, p') => mkF w (<[ia.1 := p']> (fthreads c))
    | None => c
    end
  | None => c
  end.
Definition frun (c : fconf) (sched : list (nat * act)) : fconf := foldl fsched c sched.
Definition finitial (n : nat) : fconf := mkF 0 (replicate n Idle).
Definition freachable (n : nat) (c : fconf) : Prop := exists sched, c = frun (finitial n) sched.

(** ** Exclusion *)

Definition holds_x (p : fpc) : bool := match p with HeldX => true | _ => false end.
Definition holds_s (p : fpc) : bool := match p with HeldS => true | _ => false end.

(** The word counts the readers, or is the writer bit alone. *)
Definition finv (c : fconf) : Prop :=
  let x := count holds_x (fthreads c) in
  let s := count holds_s (fthreads c) in
  (x = 0%nat /\ word c = Z.of_nat s) \/ (x = 1%nat /\ s = 0%nat /\ word c = EXCLUSIVE).

Lemma no_writer_small w : 0 <= w < 2 ^ 31 -> no_writer w = true.
Proof.
  intros Hw. unfold no_writer, EXCLUSIVE. apply Z.eqb_eq. change 0x80000000 with (1 * 2 ^ 31).
  pose proof (Z.add_lor_land (1 * 2 ^ 31) w) as H. rewrite (lor_low 1 w 31) in H by lia.
  rewrite Z.land_comm. lia.
Qed.

(** What a step can do to the word and to what the thread holds. *)
Inductive effect (w : Z) : Z -> fpc -> fpc -> Prop :=
| eff_none p p' : holds_x p = false -> holds_s p = false ->
    holds_x p' = false -> holds_s p' = false -> effect w w p p'
| eff_acquire p : holds_x p = false -> holds_s p = false -> w = 0 -> effect w EXCLUSIVE p HeldX
| eff_acquire_shared p : holds_x p = false -> holds_s p = false -> no_writer w = true ->
    effect w (w + 1) p HeldS
| eff_release : effect w 0 HeldX Idle
| eff_release_shared : effect w (as_u32 (w - 1)) HeldS Idle
| eff_downgrade : effect w 1 HeldX HeldS.

Lemma compare_exchange_cases ok w e n :
  (compare_exchange_weak ok w e n = (n, Ok w) /\ w = e) \/
  compare_exchange_weak ok w e n = (w, Err w).
Proof.
  unfold compare_exchange_weak. destruct (Z.eqb_spec w e); [|by right]. destruct ok; [by left|by right].
Qed.

Lemma fstep_effect w p a w' p' : fstep w p a = Some (w', p') -> effect w w' p p'.
Proof.
  intros H. destruct a as [| | | | | | |ok|], p; simpl in H; try discriminate H;
    try (injection H as <- <-; by constructor).
  - unfold try_lock_exclusive in H.
    destruct (compare_exchange_cases true w 0 EXCLUSIVE) as [[E Hw]|E]; rewrite E in H; simplify_eq;
      by constructor.
  - unfold lock_exclusive in H.
    destruct (compare_exchange_cases ok w 0 EXCLUSIVE) as [[E Hw]|E]; rewrite E in H; simplify_eq;
      constructor; try done; by repeat case_match.
  - injection H as <- <-. constructor; try done; by case_match.
  - unfold lock_shared in H. destruct (no_writer load) eqn:Hn.
    + destruct (compare_exchange_cases ok w load (load + 1)) as [[E Hw]|E]; rewrite E in H; simplify_eq;
        by constructor.
    + simplify_eq. constructor; try done; by case_match.
  - injection H as <- <-. constructor; try done; by case_match.
  - unfold try_lock_shared in H. destruct (no_writer load) eqn:Hn; [|by simplify_eq; constructor].
    destruct (compare_exchange_cases ok w load (load + 1)) as [[E Hw]|E]; rewrite E in H; simplify_eq;
      by constructor.
Qed.

Lemma fsched_threads c ia : length (fthreads (fsched c ia)) = length (fthreads c).
Proof. unfold fsched. repeat (case_match; try done). simpl. by rewrite length_insert. Qed.

Lemma finv_step c ia :
  Z.of_nat (length (fthreads c)) < 2 ^ 31 -> finv c -> finv (fsched c ia).
Proof.
  intros Hn Hi. destruct ia as [i a]. unfold fsched. simpl.
  destruct (fthreads c !! i) as [p|] eqn:Hp; [|done].
  destruct (fstep (word c) p a) as [[w' p']|] eqn:E; [|done]. apply fstep_effect in E.
  pose proof (count_insert holds_x _ _ _ p' Hp) as Hx. pose proof (count_insert holds_s _ _ _ p' Hp) as Hs.
  pose proof (count_le holds_s (fthreads c)) as Hle.
  pose proof (count_lookup holds_x _ _ _ Hp) as Lx. pose proof (count_lookup holds_s _ _ _ Hp) as Ls.
  unfold finv in *. simpl.
  destruct E as [p p' H1 H2 H3 H4|p H1 H2 Hw|p H1 H2 Hw| | |]; simpl in *;
    rewrite ?H1, ?H2, ?H3, ?H4 in *; simpl in *.
  - lia.
  - unfold EXCLUSIVE in *. lia.
  - destruct Hi as [[H0 Hi]|(H0 & _ & Hi)]; [left; lia|]. rewrite Hi in Hw. by vm_compute in Hw.
  - specialize (Lx eq_refl). lia.
  - specialize (Ls eq_refl). destruct Hi as [[H0 Hi]|(_ & H0 & _)]; [|lia]. left. split; [lia|].
    unfold as_u32. rewrite wrap_small; lia.
  - specialize (Lx eq_refl). lia.
Qed.

Lemma finv_reachable n c : Z.of_nat n < 2 ^ 31 -> freachable n c -> finv c.
Proof.
  intros Hn [sched ->].
  enough (forall c, length (fthreads c) = n -> finv c -> finv (frun c sched)) as H.
  { apply H; [apply length_replicate|]. left. unfold finitial, count. clear. simpl.
    induction n as [|n IH]; done. }
  induction sched as [|ia sched IH]; intros c Hl Hc; simpl; [done|].
  apply IH; [by rewrite fsched_threads|apply finv_step; [by rewrite Hl|done]].
Qed.

(** C10: with fewer than 2^31 threads, in every interleaving a thread that holds
    the lock exclusively is the only holder, and the word says who holds it: the
    writer bit alone for a writer, the number of readers otherwise. *)
Theorem futex_exclusion n c i :
  Z.of_nat n < 2 ^ 31 -> freachable n c -> fthreads c !! i = Some HeldX ->
  (forall j p, fthreads c !! j = Some p -> j <> i -> holds_x p = false /\ holds_s p = false) /\
  word c = EXCLUSIVE.
Proof.
  intros Hn Hr Hi. pose proof (finv_reachable n c Hn Hr) as Hinv.
  pose proof (count_lookup holds_x _ _ _ Hi eq_refl) as Hx. unfold finv in Hinv.
  destruct Hinv as [[H0 _]|(H1 & H0 & Hw)]; [lia|]. split; [|done]. intros j p Hj Hne. split.
  - destruct (holds_x p) eqn:E; [|done].
    pose proof (count_two holds_x _ i j _ _ Hi Hj eq_refl E ltac:(done)). lia.
  - destruct (holds_s p) eqn:E; [|done]. pose proof (count_lookup holds_s _ _ _ Hj E). lia.
Qed.

(** ** Threads that never get the lock *)

(** A reader that has once seen the writer bit. *)
Definition saw_writer (load : Z) (p : fpc) : Prop :=
  match p with
  | LockS l _ | WaitS l _ | SleepS l _ => l = load
  | _ => False
  end.

Lemma saw_writer_step w load p a w' p' :
  no_writer load = false -> saw_writer load p -> fstep w p a = Some (w', p') ->
  saw_writer load p' /\ w' = w.
Proof.
  intros Hn Hs E. destruct a as [| | | | | | |ok|], p; simpl in *; try done; subst.
  - unfold lock_shared in E. rewrite Hn in E. simplify_eq. by case_match.
  - simplify_eq. by case_match.
  - by simplify_eq.
Qed.

(** [lock_shared] does not look at the word again after it has once seen the
    writer bit: a reader that loses the race against a writer never acquires the
    lock, whatever the other threads, the scheduler and the kernel do afterwards. *)
Theorem reader_stuck_after_writer c i p load sched :
  fthreads c !! i = Some p -> saw_writer load p -> no_writer load = false ->
  exists p', fthreads (frun c sched) !! i = Some p' /\ saw_writer load p' /\ holds_s p' = false.
Proof.
  intros Hi Hs Hn. revert c p Hi Hs. induction sched as [|[j a] sched IH]; intros c p Hi Hs.
  - exists p. split_and!; [done..|]. by destruct p.
  - simpl. unfold fsched at 1. simpl. destruct (fthreads c !! j) as [q|] eqn:Hj; [|by eapply IH].
    destruct (fstep (word c) q a) as [[w' q']|] eqn:E; [|by eapply IH].
    destruct (decide (i = j)) as [<-|Hne].
    + rewrite Hi in Hj. injection Hj as <-. destruct (saw_writer_step _ _ _ _ _ _ Hn Hs E) as [Hs' _].
      eapply IH; [|exact Hs']. simpl. by rewrite list_lookup_insert_eq by by eapply lookup_lt_Some.
    + eapply IH; [|exact Hs]. simpl. by rewrite list_lookup_insert_ne.
Qed.

Definition asleep (p : fpc) : bool := match p with SleepX _ | SleepS _ _ => true | _ => false end.
Definition is_wake (a : act) : bool := match a with Wake => true | _ => false end.

Lemma asleep_step w p a w' p' : asleep p = true -> fstep w p a = Some (w', p') -> is_wake a = true.
Proof. by destruct p, a. Qed.

Lemma asleep_run c i p sched :
  fthreads c !! i = Some p -> asleep p = true -> (i, Wake) ∉ sched ->
  fthreads (frun c sched) !! i = Some p.
Proof.
  intros Hi Hs Hw. revert c Hi. induction sched as [|[j a] sched IH]; intros c Hi; [done|].
  apply not_elem_of_cons in Hw as [Hne Hw]. simpl. apply IH; [done|]. unfold fsched. simpl.
  destruct (fthreads c !! j) as [q|] eqn:Hj; [|done].
  destruct (fstep (word c) q a) as [[w' q']|] eqn:E; [|done]. simpl.
  destruct (decide (i = j)) as [<-|Hij]; [|by rewrite list_lookup_insert_ne].
  rewrite Hi in Hj. injection Hj as <-.
  pose proof (asleep_step _ _ _ _ _ Hs E) as Ha. by destruct a.
Qed.

(** Thread 0 takes the lock, thread 1 runs out of spins and goes to sleep on the
    word, thread 0 unlocks. *)
Definition sleepy : list (nat * act) :=
  [(0%nat, DoLock); (0%nat, Go true); (1%nat, DoLock)] ++ replicate 258 (1%nat, Go true) ++
  [(0%nat, DoUnlock)].

(** No operation of the lock wakes sleepers: two threads that lock once reach
    a state where the lock is free, its last owner is done, and the other thread
    sleeps on the word and stays asleep as long as the kernel does not end the wait
    on its own account. *)
Theorem unlock_loses_sleeper sched :
  (1%nat, Wake) ∉ sched ->
  let c := frun (finitial 2) sleepy in
  c = mkF 0 [Idle; SleepX 256] /\ fthreads (frun c sched) !! 1%nat = Some (SleepX 256).
Proof.
  intros Hw c. assert (c = mkF 0 [Idle; SleepX 256]) as E by (subst c; vm_compute; reflexivity).
  split; [done|]. rewrite E. by apply asleep_run.
Qed.

(** ** Concrete inputs *)

Definition one_writer : list (nat * act) :=
  [(0%nat, DoLock); (0%nat, Go true); (1%nat, DoLockShared); (1%nat, Go true)].

Lemma futex_exclusion_witness :
  (forall j p, fthreads (frun (finitial 2) one_writer) !! j = Some p -> j <> 0%nat ->
     holds_x p = false /\ holds_s p = false) /\ word (frun (finitial 2) one_writer) = EXCLUSIVE.
Proof. apply (futex_exclusion 2); [lia|exists one_writer; reflexivity|reflexivity]. Defined.

Lemma reader_stuck_after_writer_witness :
  exists p', fthreads (frun (frun (finitial 2) one_writer) [(0%nat, DoUnlock); (1%nat, Go true)]) !! 1%nat
             = Some p' /\ saw_writer EXCLUSIVE p' /\ holds_s p' = false.
Proof. apply (reader_stuck_after_writer _ _ (LockS EXCLUSIVE 0)); reflexivity. Defined.

Lemma unlock_loses_sleeper_witness :
  fthreads (frun (frun (finitial 2) sleepy) [(0%nat, DoLock); (0%nat, Go true)]) !! 1%nat =
  Some (SleepX 256).
Proof.
  apply (unlock_loses_sleeper [(0%nat, DoLock); (0%nat, Go true)]).
  apply (bool_decide_unpack _). vm_compute. exact I.
Defined.
