(* ===== verification/RwLocks.v ===== *)
(** * A reader-writer lock as its clients see it (wl-helpers/src/sync.rs)

    What code that runs between the guards of [RwLock] relies on, as a class of
    operations and their laws, and the futex lock as an instance.  [LoadLock] and
    [ShmemThreads] are proved against the class. *)

From Stdlib Require Import ZArith Lia.
From stdpp Require Import base numbers list option.
From S2P Require Import Prelude.
From S2P Require Import Futex.

Local Open Scope Z_scope.

(** ** The class *)

Inductive mode : Type := Free | Shared | Exclusive.

Class RwLock (L : Type) : Type := {
  rw_init : nat -> L;               (** a new lock, for [n] threads *)
  rw_step : L -> nat -> act -> L;   (** thread [i] makes a step of its operation *)
  rw_mode : L -> nat -> mode }.     (** what thread [i] holds *)

Class RwLockLaws (L : Type) `{RwLock L} (n : nat) (ok : L -> Prop) : Prop := {
  rw_init_ok : ok (rw_init n);
  rw_init_free i : rw_mode (rw_init n) i = Free;
  rw_step_ok l i a : ok l -> ok (rw_step l i a);
  rw_step_frame l i a j : i <> j -> rw_mode (rw_step l i a) j = rw_mode l j;
  rw_exclusive l i j : ok l -> rw_mode l i = Exclusive -> i <> j -> rw_mode l j = Free }.

(** The futex lock as such a lock. *)
Definition mode_of (p : fpc) : mode := match p with HeldX => Exclusive | HeldS => Shared | _ => Free end.

#[export] Instance futex_rwlock : RwLock fconf := {
  rw_init := finitial;
  rw_step c i a := fsched c (i, a);
  rw_mode c i := match fthreads c !! i with Some p => mode_of p | None => Free end }.

Definition futex_ok (n : nat) (c : fconf) : Prop := length (fthreads c) = n /\ finv c.

Lemma finv_initial n : finv (finitial n).
Proof. left. unfold finitial, count. simpl. induction n as [|n IH]; done. Qed.

Lemma futex_laws n : Z.of_nat n < 2 ^ 31 -> RwLockLaws fconf n (futex_ok n).
Proof.
  intros Hn. split.
  - split; [apply length_replicate|apply finv_initial].
  - intros i. simpl. destruct (replicate n Idle !! i) eqn:E; [|done]. by apply lookup_replicate in E as [-> _].
  - intros c i a [Hl Hi]. split; [by simpl; rewrite fsched_threads|]. apply finv_step; [by rewrite Hl|done].
  - intros c i a j Hij. simpl. unfold fsched. simpl. destruct (fthreads c !! i) as [p|]; [|done].
    destruct (fstep (word c) p a) as [[w q]|]; [|done]. simpl. by rewrite list_lookup_insert_ne.
  - intros c i j [Hl Hi] Hx Hij. simpl in *. destruct (fthreads c !! i) as [p|] eqn:Ei; [|done].
    destruct p; try done. destruct (fthreads c !! j) as [q|] eqn:Ej; [|done].
    pose proof (count_lookup holds_x _ _ _ Ei eq_refl) as Hc. unfold finv in Hi.
    destruct Hi as [[H0 _]|(H1 & H0 & _)]; [lia|]. destruct q; try done; exfalso.
    + pose proof (count_two holds_x _ i j _ _ Ei Ej eq_refl eq_refl Hij). lia.
    + pose proof (count_lookup holds_s _ _ _ Ej eq_refl). lia.
Qed.
