(* ===== verification/Features.v ===== *)
(** * CPU feature detection

    The loader fills an array of 48 words from [cpuid] once
    (wl-ld-lilium/src/detect/x86.rs); the macros of wl-helpers/src/detect/x86.rs
    map a feature name to a bit of that array and test it; the base subsystem
    derives the x86-64 level from such tests (wl-usi-base/src/info.rs).  The
    [cpuid] instruction and the compiler's list of enabled target features are
    parameters. *)

From Stdlib Require Import ZArith Lia.
From stdpp Require Import base numbers list option strings.
From S2P Require Import Prelude.
From S2P Require Import OnceLock.

Local Open Scope Z_scope.

(** ** The table of [__x86_feature_to_bit] *)

(** Lines 4 to 102 of the macro. *)
Definition features_leaf1 : list (string * (nat * Z)) :=
  [("x87", (1%nat, 0)); ("cmpxchg8b", (1%nat, 8)); ("cmpxchg16b", (0%nat, 16));
   ("rdrand", (0%nat, 30)); ("rdseed", (2%nat, 18)); ("tsc", (1%nat, 4)); ("msr", (1%nat, 5));
   ("apic", (1%nat, 9)); ("sep", (1%nat, 11)); ("mtrr", (1%nat, 12)); ("pge", (1%nat, 13));
   ("cmov", (1%nat, 15)); ("pat", (1%nat, 16)); ("mmx", (1%nat, 23)); ("fxsr", (1%nat, 24));
   ("sse", (1%nat, 25)); ("sse2", (1%nat, 26)); ("sse3", (0%nat, 0)); ("pclmulqdq", (0%nat, 1));
   ("monitor", (0%nat, 3)); ("vmx", (0%nat, 5)); ("smx", (0%nat, 6)); ("ssse3", (0%nat, 9));
   ("fma", (0%nat, 12)); ("pcid", (0%nat, 17)); ("sse4.1", (0%nat, 19)); ("sse4.2", (0%nat, 20));
   ("movbe", (0%nat, 22)); ("popcnt", (0%nat, 23)); ("aes", (0%nat, 25)); ("xsave", (0%nat, 26));
   ("avx", (0%nat, 28)); ("f16c", (0%nat, 29))]%string.
(** Lines 103 to 204 of the macro. *)
Definition features_leaf7_ecx_edx : list (string * (nat * Z)) :=
  [("pretetchwt1", (2%nat, 0)); ("avx512-vbmi", (2%nat, 1)); ("umip", (2%nat, 2));
   ("pku", (2%nat, 3)); ("waitpkg", (2%nat, 5)); ("avx512-vbmi2", (2%nat, 6));
   ("shstk", (2%nat, 7)); ("gfni", (2%nat, 8)); ("vaes", (2%nat, 9)); ("avx512-vnni", (2%nat, 11));
   ("avx512-bitalg", (2%nat, 12)); ("tme_en", (2%nat, 13)); ("avx512-vpopcntdq", (2%nat, 14));
   ("la57", (2%nat, 16)); ("rdpid", (2%nat, 22)); ("kl", (2%nat, 23)); ("movdiri", (2%nat, 27));
   ("movdir64b", (2%nat, 28)); ("enqcmd", (2%nat, 29)); ("sgx-lc", (2%nat, 30));
   ("pks", (2%nat, 31)); ("sgx-keys", (3%nat, 1)); ("avx512-4vnniw", (3%nat, 2));
   ("avx512-4fmaps", (3%nat, 3)); ("fsrm", (3%nat, 4)); ("uintr", (3%nat, 5));
   ("avx512-vp2intersect", (3%nat, 8)); ("serialize", (3%nat, 14)); ("pconfig", (3%nat, 18));
   ("cet-ibt", (3%nat, 20)); ("amx-bf16", (3%nat, 22)); ("avx512-fp16", (3%nat, 23));
   ("amx-tile", (3%nat, 24)); ("amx-int8", (3%nat, 25))]%string.
(** Lines 205 to 333 of the macro. *)
Definition features_leaf7_ebx_eax1 : list (string * (nat * Z)) :=
  [("fsgsbase", (4%nat, 0)); ("sgx", (4%nat, 2)); ("bmi1", (4%nat, 3)); ("hle", (4%nat, 4));
   ("avx2", (4%nat, 5)); ("smep", (4%nat, 7)); ("bmi2", (4%nat, 8)); ("erms", (4%nat, 9));
   ("invpcid", (4%nat, 10)); ("rtm", (4%nat, 11)); ("mpx", (4%nat, 14)); ("avx512f", (4%nat, 16));
   ("avx512dq", (4%nat, 17)); ("adx", (4%nat, 19)); ("smap", (4%nat, 20));
   ("avx512-ifma", (4%nat, 21)); ("clflushopt", (4%nat, 23)); ("clwb", (4%nat, 24));
   ("avx512pf", (4%nat, 26)); ("avx512er", (4%nat, 27)); ("avx512cd", (4%nat, 28));
   ("sha", (4%nat, 29)); ("avx512bw", (4%nat, 30)); ("avx512vl", (4%nat, 31));
   ("sha512", (5%nat, 0)); ("sm3", (5%nat, 1)); ("sm4", (5%nat, 2)); ("rao-int", (5%nat, 3));
   ("avx-vnni", (5%nat, 4)); ("avx512-bf16", (5%nat, 5)); ("lass", (5%nat, 6));
   ("cmpccxadd", (5%nat, 7)); ("fzrm", (5%nat, 11)); ("rsrcs", (5%nat, 12)); ("fred", (5%nat, 17));
   ("lkgs", (5%nat, 18)); ("wrmsrns", (5%nat, 19)); ("nmi_src", (5%nat, 20));
   ("amx-fp16", (5%nat, 21)); ("hreset", (5%nat, 22)); ("avx-ifma", (5%nat, 23));
   ("lam", (5%nat, 26)); ("msrlist", (5%nat, 27))]%string.
(** Lines 334 to 462 of the macro. *)
Definition features_extended : list (string * (nat * Z)) :=
  [("legacy_reduced_isa", (6%nat, 2)); ("sipi64", (6%nat, 4)); ("avx-vnni-int8", (7%nat, 4));
   ("avx-ne-convert", (7%nat, 5)); ("amx-complex", (7%nat, 8)); ("avx-vnni-int16", (7%nat, 10));
   ("utmr", (7%nat, 13)); ("prefetchi", (7%nat, 14)); ("user_msr", (7%nat, 15));
   ("cet-sss", (7%nat, 18)); ("avx10", (7%nat, 19)); ("apx", (7%nat, 21)); ("mwait", (7%nat, 23));
   ("pbndkb", (8%nat, 1)); ("lahf_lm", (14%nat, 0)); ("svm", (14%nat, 2));
   ("cr8_legacy", (14%nat, 4)); ("abm", (14%nat, 5)); ("sse4a", (14%nat, 6));
   ("3dnowprefetch", (14%nat, 8)); ("xop", (14%nat, 11)); ("skinit", (14%nat, 12));
   ("fma4", (14%nat, 16)); ("tbm", (14%nat, 21)); ("monitorx", (14%nat, 29));
   ("syscall", (15%nat, 11)); ("nx", (15%nat, 20)); ("mmxext", (15%nat, 22));
   ("fxsr_opt", (15%nat, 25)); ("pdpe1gb", (15%nat, 26)); ("rdtscp", (15%nat, 27));
   ("lm", (15%nat, 29)); ("3dnowext", (15%nat, 30)); ("3dnow", (15%nat, 31));
   ("avx10-128", (16%nat, 16)); ("avx10-256", (16%nat, 17)); ("avx10-512", (16%nat, 18));
   ("xsaveopt", (35%nat, 0)); ("xsavec", (35%nat, 1)); ("xgetbv_ecx1", (35%nat, 2));
   ("xss", (35%nat, 3)); ("xfd", (35%nat, 4)); ("osxsave", (0%nat, 27))]%string.

Definition features : list (string * (nat * Z)) :=
  features_leaf1 ++ features_leaf7_ecx_edx ++ features_leaf7_ebx_eax1 ++ features_extended.

(** [__x86_feature_to_bit!]; [None] is the compile error of the last arm. *)
Definition x86_feature_to_bit (f : string) : option (nat * Z) :=
  snd <$> find (fun e => bool_decide (e.1 = f)) features.

(** ** The feature array *)

Record CpuidResult : Type := mkCpuid { eax : Z; ebx : Z; ecx : Z; edx : Z }.

(** [init_cpuid_features] on a 64-bit target; [cpuid leaf sub] is the instruction,
    [__cpuid(leaf)] its sub-leaf 0. *)
Definition init_cpuid_features (cpuid : Z -> Z -> CpuidResult) : list Z :=
  let eax1 := cpuid 1 0 in
  let eax7_ecx0 := cpuid 7 0 in
  let eax7_ecx1 := cpuid 7 1 in
  let eax7_ecx2 := cpuid 7 2 in
  let eax80000001 := cpuid 0x80000001 0 in
  let eax80000001_ecx_val := Z.land (ecx eax80000001) (not_w 32 0x1BF5FF) in
  let zero := mkCpuid 0 0 0 0 in
  let eax24_ecx0 :=
    if negb (Z.land (edx eax7_ecx1) (Z.shiftl 1 19) =? 0) then cpuid 0x24 0 else zero in
  let eax0d :=
    if negb (Z.land (ecx eax1) (Z.shiftl 1 26) =? 0) then (cpuid 0x0D 0, cpuid 0x0D 1)
    else (zero, zero) in
  [ecx eax1; edx eax1; ecx eax7_ecx0; edx eax7_ecx1; ebx eax7_ecx0; eax eax7_ecx1; ecx eax7_ecx1;
   edx eax7_ecx1; ebx eax7_ecx1; eax eax7_ecx2; ecx eax7_ecx2; edx eax7_ecx2; 0; 0;
   eax80000001_ecx_val; edx eax80000001; eax eax24_ecx0] ++ replicate 15 0 ++
  [eax eax0d.1; edx eax0d.1; ecx eax0d.1; eax eax0d.2] ++ replicate 12 0.

(** [__wl_rtld_get_supported_feature_array]: the array is computed once. *)
Definition get_supported_feature_array (cpuid : Z -> Z -> CpuidResult) (o : once (list Z)) :
    option (once (list Z) * tried (list Z)) :=
  get_or_init o (Some (init_cpuid_features cpuid)).

(** ** Tests *)

Section Detection.
(** The target features enabled when the code was compiled. *)
Context (enabled : list string).

Definition is_x86_feature_enabled (f : string) : bool := bool_decide (f ∈ enabled).

(** [(arr[idx] & (1 << bit)) != 0]. *)
Definition test_bit (arr : list Z) (f : string) : outcome bool :=
  match x86_feature_to_bit f with
  | Some (idx, bit) => w ← index arr idx; Ret (negb (Z.land w (Z.shiftl 1 bit) =? 0))
  | None => Panic Explicit
  end.

Definition is_x86_feature_detected (arr : list Z) (f : string) : outcome bool :=
  if is_x86_feature_enabled f then Ret true else test_bit arr f.

(** The conjunction of the right operand of [test_x86_features!], left to right. *)
Fixpoint test_all (arr : list Z) (fs : list string) : outcome bool :=
  match fs with
  | [] => Ret true
  | f :: r => b ← is_x86_feature_detected arr f; if (b : bool) then test_all arr r else Ret false
  end.
Definition test_x86_features (arr : list Z) (fs : list string) : outcome bool :=
  if forallb is_x86_feature_enabled fs then Ret true else test_all arr fs.

Definition level2 : list string :=
  ["cmpxchg16b"; "lahf_lm"; "popcnt"; "sse3"; "sse4.1"; "sse4.2"; "ssse3"]%string.
Definition level3 : list string :=
  ["avx"; "avx2"; "bmi1"; "bmi2"; "f16c"; "fma"; "abm"; "movbe"; "osxsave"]%string.
Definition level4 : list string :=
  ["avx512f"; "avx512bw"; "avx512cd"; "avx512dq"; "avx512vl"]%string.

(** [march_ver] of [ARCH_TYPE_VERSION]. *)
Definition march_ver (arr : list Z) : outcome Z :=
  b2 ← test_x86_features arr level2;
  if (b2 : bool) then
    b3 ← test_x86_features arr level3;
    if (b3 : bool) then
      b4 ← test_x86_features arr level4;
      Ret (if (b4 : bool) then 4 else 3)
    else Ret 2
  else Ret 1.
End Detection.

(** ** Theorems *)

Lemma land_bit w b : 0 <= b -> negb (Z.land w (Z.shiftl 1 b) =? 0) = Z.testbit w b.
Proof.
  intros Hb. rewrite Z.shiftl_1_l. destruct (Z.testbit w b) eqn:E.
  - apply negb_true_iff, Z.eqb_neq. intros H. apply (f_equal (fun z => Z.testbit z b)) in H.
    rewrite Z.land_spec, Z.pow2_bits_true, Z.bits_0, E in H by lia. done.
  - apply negb_false_iff, Z.eqb_eq, Z.bits_inj'. intros i Hi.
    rewrite Z.land_spec, Z.bits_0. destruct (Z.eq_dec i b) as [->|]; [by rewrite E|].
    by rewrite Z.pow2_bits_false, andb_false_r by lia.
Qed.

(** Every entry of the table names a bit of a word of the array. *)
Definition entry_ok (e : string * (nat * Z)) : bool :=
  bool_decide (e.2.1 < 48)%nat && bool_decide (0 <= e.2.2 < 32).
Lemma features_ok : forallb entry_ok features = true.
Proof. by vm_compute. Qed.

Lemma feature_to_bit_elem f e : x86_feature_to_bit f = Some e -> (f, e) ∈ features.
Proof.
  unfold x86_feature_to_bit. destruct (find _ features) as [[g e']|] eqn:E; [|done]. intros [= <-].
  apply find_some in E as [Hin Hg]. simpl in Hg. apply bool_decide_eq_true in Hg as ->.
  by apply list_elem_of_In.
Qed.
Lemma feature_to_bit_ok f idx bit : x86_feature_to_bit f = Some (idx, bit) -> (idx < 48)%nat /\ 0 <= bit < 32.
Proof.
  intros H%feature_to_bit_elem. pose proof features_ok as Hok. rewrite forallb_forall in Hok.
  specialize (Hok _ (proj1 (list_elem_of_In _ _) H)). unfold entry_ok in Hok.
  apply andb_true_iff in Hok as [H1%bool_decide_eq_true H2%bool_decide_eq_true]. done.
Qed.

Lemma length_init_cpuid_features cpuid : length (init_cpuid_features cpuid) = 48%nat.
Proof. done. Qed.

Lemma detected_spec enabled cpuid f idx bit :
  x86_feature_to_bit f = Some (idx, bit) ->
  exists w, init_cpuid_features cpuid !! idx = Some w /\
    is_x86_feature_detected enabled (init_cpuid_features cpuid) f =
      Ret (is_x86_feature_enabled enabled f || Z.testbit w bit).
Proof.
  intros H. destruct (feature_to_bit_ok _ _ _ H) as [Hi Hb].
  rewrite <- (length_init_cpuid_features cpuid) in Hi. apply lookup_lt_is_Some_2 in Hi as [w Hw].
  exists w. split; [done|]. unfold is_x86_feature_detected, test_bit, index. rewrite H, Hw.
  destruct (is_x86_feature_enabled enabled f); [done|]. cbn [mbind outcome_bind orb].
  by rewrite land_bit by lia.
Qed.

(** The layout the comment on [CPU_FEATURE_INFO] documents; leaf 0x0D exists when
    the processor has [xsave], leaf 0x24 when it has [avx10]. *)
Definition documented (cpuid : Z -> Z -> CpuidResult) (idx : nat) : Z :=
  let xsave := Z.testbit (ecx (cpuid 1 0)) 26 in
  let avx10 := Z.testbit (edx (cpuid 7 1)) 19 in
  match idx with
  | 0%nat => ecx (cpuid 1 0) | 1%nat => edx (cpuid 1 0)
  | 2%nat => ecx (cpuid 7 0) | 3%nat => edx (cpuid 7 0) | 4%nat => ebx (cpuid 7 0)
  | 5%nat => eax (cpuid 7 1) | 6%nat => ecx (cpuid 7 1) | 7%nat => edx (cpuid 7 1) | 8%nat => ebx (cpuid 7 1)
  | 9%nat => eax (cpuid 7 2) | 10%nat => ecx (cpuid 7 2) | 11%nat => edx (cpuid 7 2)
  | 14%nat => Z.land (ecx (cpuid 0x80000001 0)) (not_w 32 0x183F7FF)
  | 15%nat => edx (cpuid 0x80000001 0)
  | 16%nat => if avx10 then ebx (cpuid 0x24 0) else 0
  | 32%nat => if xsave then eax (cpuid 0x0D 0) else 0
  | 33%nat => if xsave then edx (cpuid 0x0D 0) else 0
  | 34%nat => if xsave then ecx (cpuid 0x0D 0) else 0
  | 35%nat => if xsave then eax (cpuid 0x0D 1) else 0
  | _ => 0
  end.

(** The array has 48 words laid out as documented, except for three of them:
    word 3 repeats the value of word 7, word 16 holds another register of its leaf,
    and word 14 clears another set of bits than the comment names. *)
Theorem feature_array_layout cpuid idx :
  (idx < 48)%nat ->
  init_cpuid_features cpuid !! idx = Some (
    if decide (idx = 3%nat) then documented cpuid 7
    else if decide (idx = 14%nat) then Z.land (ecx (cpuid 0x80000001 0)) (not_w 32 0x1BF5FF)
    else if decide (idx = 16%nat) then (if Z.testbit (edx (cpuid 7 1)) 19 then eax (cpuid 0x24 0) else 0)
    else documented cpuid idx).
Proof.
  intros Hi. unfold init_cpuid_features. rewrite !land_bit by lia.
  do 48 (destruct idx as [|idx]; [cbn; by repeat case_match|]). lia.
Qed.

(** The features whose bits the mask on word 14 clears. *)
Definition undetectable : list string :=
  ["lahf_lm"; "svm"; "cr8_legacy"; "abm"; "sse4a"; "3dnowprefetch"; "skinit"; "fma4"]%string.

Definition masked (e : nat * Z) : bool := Nat.eqb e.1 14 && Z.testbit 0x1BF5FF e.2.
Lemma masked_undetectable :
  forallb (fun e => eqb (masked e.2) (bool_decide (e.1 ∈ undetectable))) features = true.
Proof. by vm_compute. Qed.

Definition all_ones : Z -> Z -> CpuidResult := fun _ _ =>
  mkCpuid (Z.ones 32) (Z.ones 32) (Z.ones 32) (Z.ones 32).
Lemma all_ones_detects :
  forallb (fun e => eqb (masked e.2)
     (negb (Z.testbit (default 0 (init_cpuid_features all_ones !! e.2.1)) e.2.2))) features = true.
Proof. by vm_compute. Qed.

Lemma masked_iff f e : x86_feature_to_bit f = Some e -> masked e = bool_decide (f ∈ undetectable).
Proof.
  intros H%feature_to_bit_elem. pose proof masked_undetectable as Hm. rewrite forallb_forall in Hm.
  specialize (Hm _ (proj1 (list_elem_of_In _ _) H)). by apply eqb_prop in Hm.
Qed.

(** The mask clears the bit whatever [cpuid] answers. *)
Lemma masked_bit cpuid idx bit w :
  masked (idx, bit) = true -> 0 <= bit < 32 -> init_cpuid_features cpuid !! idx = Some w ->
  Z.testbit w bit = false.
Proof.
  unfold masked. simpl. intros [E Hb]%andb_true_iff Hr Hw. apply Nat.eqb_eq in E as ->.
  unfold init_cpuid_features in Hw. cbn in Hw. injection Hw as <-.
  change (not_w 32 0x1BF5FF) with (Z.lxor 0x1BF5FF (Z.ones 32)).
  rewrite Z.land_spec, Z.lxor_spec, Hb, Z.ones_spec_low by lia. by rewrite andb_false_r.
Qed.

(** The features that can be detected at run time, on some processor, are
    exactly those of the table outside the eight that the mask on word 14 clears:
    [lahf_lm], [abm], [sse4a] and five others are never reported unless the
    compiler enabled them. *)
Theorem detectable_features enabled f e :
  x86_feature_to_bit f = Some e -> f ∉ enabled ->
  ((exists cpuid, is_x86_feature_detected enabled (init_cpuid_features cpuid) f = Ret true) <->
   f ∉ undetectable).
Proof.
  intros H Hf. destruct e as [idx bit]. pose proof (feature_to_bit_ok _ _ _ H) as [Hi Hb].
  assert (is_x86_feature_enabled enabled f = false) as He by by apply bool_decide_eq_false.
  pose proof (masked_iff _ _ H) as Hm. split.
  - intros [cpuid Hd] Hu. destruct (detected_spec enabled cpuid _ _ _ H) as (w & Hw & E).
    rewrite Hd, He in E. rewrite bool_decide_eq_true_2 in Hm by done.
    by rewrite (masked_bit _ _ _ _ Hm Hb Hw) in E.
  - intros Hu. exists all_ones. destruct (detected_spec enabled all_ones _ _ _ H) as (w & Hw & ->).
    rewrite bool_decide_eq_false_2 in Hm by done. rewrite He. simpl. f_equal.
    pose proof all_ones_detects as Ha. rewrite forallb_forall in Ha.
    specialize (Ha _ (proj1 (list_elem_of_In _ _) (feature_to_bit_elem _ _ H))).
    apply eqb_prop in Ha. cbn [fst snd] in Ha. rewrite Hm, Hw in Ha. simpl in Ha.
    by destruct (Z.testbit w bit).
Qed.

(** A conjunction with an undetectable feature is false. *)
Lemma test_all_undetectable enabled cpuid fs f :
  f ∈ fs -> f ∈ undetectable -> f ∉ enabled -> Forall (fun g => is_Some (x86_feature_to_bit g)) fs ->
  test_x86_features enabled (init_cpuid_features cpuid) fs = Ret false.
Proof.
  intros Hin Hu He Hall. assert (is_x86_feature_enabled enabled f = false) as Hf
    by by apply bool_decide_eq_false.
  unfold test_x86_features. replace (forallb _ fs) with false.
  2:{ symmetry. apply not_true_is_false. rewrite forallb_forall. intros H.
      rewrite H in Hf; [done|]. by apply list_elem_of_In. }
  induction Hall as [|g fs [[idx bit] Hg] Hall IH]; [by apply elem_of_nil in Hin|].
  simpl. destruct (detected_spec enabled cpuid _ _ _ Hg) as (w & Hw & ->). cbn [mbind outcome_bind].
  destruct (decide (g = f)) as [->|Hne].
  - destruct (feature_to_bit_ok _ _ _ Hg) as [_ Hb]. pose proof (masked_iff _ _ Hg) as Hm.
    rewrite bool_decide_eq_true_2 in Hm by done. by rewrite Hf, (masked_bit _ _ _ _ Hm Hb Hw).
  - case_match; [|done]. apply IH. by apply elem_of_cons in Hin as [->|].
Qed.

Lemma test_x86_features_total enabled cpuid fs :
  Forall (fun g => is_Some (x86_feature_to_bit g)) fs ->
  exists b, test_x86_features enabled (init_cpuid_features cpuid) fs = Ret b.
Proof.
  intros Hall. unfold test_x86_features. destruct (forallb _ fs); [by eexists|].
  induction Hall as [|g fs [[idx bit] Hg] Hall IH]; [by eexists|].
  simpl. destruct (detected_spec enabled cpuid _ _ _ Hg) as (w & Hw & ->). cbn [mbind outcome_bind].
  case_match; [done|by eexists].
Qed.

(** The x86-64 level reported by the base subsystem never exceeds 1 unless
    [lahf_lm] was enabled at compile time, and never exceeds 2 unless [abm] was,
    on any processor. *)
Theorem march_ver_stuck enabled cpuid :
  ("lahf_lm"%string ∉ enabled -> march_ver enabled (init_cpuid_features cpuid) = Ret 1) /\
  ("abm"%string ∉ enabled -> exists v, march_ver enabled (init_cpuid_features cpuid) = Ret v /\ 1 <= v <= 2).
Proof.
  split; intros H; unfold march_ver.
  - by rewrite (test_all_undetectable _ _ level2 "lahf_lm") by (done || by apply (bool_decide_unpack _)).
  - destruct (test_x86_features_total enabled cpuid level2) as [b2 ->];
      [by apply (bool_decide_unpack _)|].
    rewrite (test_all_undetectable _ _ level3 "abm") by (done || by apply (bool_decide_unpack _)).
    destruct b2; cbn [mbind outcome_bind]; eexists; (split; [done|lia]).
Qed.

(** ** Concrete inputs *)

Lemma feature_array_layout_witness : init_cpuid_features all_ones !! 14%nat = Some 0xFFE40A00.
Proof.
  rewrite (feature_array_layout all_ones 14) by lia. vm_compute. reflexivity.
Defined.

Lemma detectable_features_witness :
  (exists cpuid, is_x86_feature_detected [] (init_cpuid_features cpuid) "avx2" = Ret true) <->
  "avx2"%string ∉ undetectable.
Proof.
  apply (detectable_features [] "avx2" (4%nat, 5)); [vm_compute; reflexivity|].
  apply (bool_decide_unpack _). vm_compute. exact I.
Defined.

Lemma march_ver_stuck_witness : march_ver [] (init_cpuid_features all_ones) = Ret 1.
Proof. apply march_ver_stuck. apply (bool_decide_unpack _). vm_compute. exact I. Defined.
