(* ===== verification/CheckedMem.v ===== *)
(** * Checked access to the caller's memory

    System calls copy from and to pointers the program passes.  The copies go
    through the assembly routine [__memcpy_explicit] (wl-impl/src/libc/libc_defs.rs),
    called by the C wrapper [__checked_memcpy_impl] with a fault handler
    (wl-impl/c/signal_support/x86_64.c), and the checked operations of
    wl-impl/src/helpers.rs.  Memory is a finite map from mapped addresses to bytes
    with a set of writable addresses; an access outside it is a fault. *)

From Stdlib Require Import ZArith Lia.
From stdpp Require Import base numbers list option gmap.
From S2P Require Import Prelude.
From S2P Require Import Utf8.
From S2P Require Import Errors.

Local Open Scope Z_scope.

(** ** Memory *)

Record mem : Type := mkMem { cells : gmap Z Z; writable : Z -> bool }.

Fixpoint load_bytes (m : mem) (a : Z) (n : nat) : outcome (list Z) :=
  match n with
  | O => Ret []
  | S k =>
    match cells m !! a with
    | Some b => bs ← load_bytes m (a + 1) k; Ret (b :: bs)
    | None => Panic Fault
    end
  end.

Fixpoint insert_bytes (c : gmap Z Z) (a : Z) (bs : list Z) : gmap Z Z :=
  match bs with
  | [] => c
  | b :: r => insert_bytes (<[a := b]> c) (a + 1) r
  end.
Definition write_bytes (m : mem) (a : Z) (bs : list Z) : mem :=
  mkMem (insert_bytes (cells m) a bs) (writable m).
Fixpoint can_write (m : mem) (a : Z) (n : nat) : bool :=
  match n with
  | O => true
  | S k => writable m a && bool_decide (is_Some (cells m !! a)) && can_write m (a + 1) k
  end.
Definition store_bytes (m : mem) (a : Z) (bs : list Z) : outcome mem :=
  if can_write m a (length bs) then Ret (write_bytes m a bs) else Panic Fault.

(** ** [__memcpy_explicit] *)

(** The registers [rdi], [rsi], [rdx] and the memory. *)
Record regs : Type := mkRegs { rmem : mem; rdi : Z; rsi : Z; rdx : Z }.

(** A load and a store of [w] bytes and the pointer and counter updates. *)
Definition move (w : nat) (r : regs) : outcome regs :=
  bs ← load_bytes (rmem r) (rsi r) w;
  m ← store_bytes (rmem r) (rdi r) bs;
  Ret (mkRegs m (rdi r + Z.of_nat w) (rsi r + Z.of_nat w) (rdx r - Z.of_nat w)).

(** The 16-byte loop: at least one turn, then while [rdx >= 16]. *)
Fixpoint loop16 (fuel : nat) (r : regs) : outcome regs :=
  match fuel with
  | O => Panic Explicit   (** not reached: see [loop16_ok] *)
  | S k => r ← move 16 r; if 16 <=? rdx r then loop16 k r else Ret r
  end.

(** [cmp rdx, n; j.. 2f] around one move. *)
Definition unless (skip : bool) (w : nat) (r : regs) : outcome regs :=
  if skip then Ret r else move w r.

Definition memcpy_explicit (m : mem) (dest src len : Z) : outcome mem :=
  let r := mkRegs m dest src len in
  r ← (if len <=? 16 then Ret r else loop16 (Z.to_nat len) r);
  r ← unless (rdx r <=? 8) 8 r;
  r ← unless (rdx r <? 4) 4 r;
  r ← unless (rdx r <? 2) 2 r;
  r ← unless (rdx r <? 1) 1 r;
  Ret (rmem r).

(** ** The checked copy *)

(** [sa_handler_impl] on a memory fault: jump back when the return buffer is set,
    and otherwise the exception path, which ends the process. *)
Inductive fault_action : Type := LongJump | Crash.
Definition sa_handler_fault (CHECKED_ACCESS_RETBUF : bool) : fault_action :=
  if CHECKED_ACCESS_RETBUF then LongJump else Crash.

(** [__checked_memcpy_impl]: 0, or -1 after a jump back.  The return buffer is
    stored as NULL on entry, so it is not set during the copy. *)
Definition checked_memcpy_impl (m : mem) (dest src len : Z) : outcome (mem * Z) :=
  let CHECKED_ACCESS_RETBUF := false in
  match memcpy_explicit m dest src len with
  | Ret m' => Ret (m', 0)
  | Panic Fault =>
    match sa_handler_fault CHECKED_ACCESS_RETBUF with
    | LongJump => Ret (m, -1)
    | Crash => Panic Fault
    end
  | Panic p => Panic p
  end.

(** [struct CheckedAccessError]; the overlap case names the offending pointer. *)
Inductive CheckedAccessError : Type :=
| Overlap (ptr : Z)
| Access (ptr : Z).

(** [(a..b).contains(p)] on pointers. *)
Definition contains (a b p : Z) : bool := (a <=? p) && (p <? b).

(** [copy_nonoverlapping_checked] on elements of [size] bytes: the ends of the ranges wrap
    around, the number of bytes is computed with a check for overflow. *)
Definition copy_nonoverlapping_checked (m : mem) (size src dest elems : Z) :
    outcome (mem * result unit CheckedAccessError) :=
  if contains src (usize_wrap (src + elems * size)) dest then Ret (m, Err (Overlap dest))
  else if contains dest (usize_wrap (dest + elems * size)) src then Ret (m, Err (Overlap src))
  else if 2 ^ 64 <=? elems * size then Panic Overflow
  else
    '(m', r) ← checked_memcpy_impl m dest src (elems * size);
    Ret (m', if r <? 0 then Err (Access 0) else Ok tt).

(** ** [check_utf8] *)

Inductive CheckUtfError : Type := AccessError (e : CheckedAccessError) | InvalidUtf8.

Definition CHUNK : Z := 32.

(** The [while] loop; [buf_addr] is the address of the local buffer. *)
Fixpoint check_utf8_loop (fuel : nat) (m : mem) (buf_addr str_ptr len : Z) (st : utf8_state) :
    outcome (result unit CheckUtfError) :=
  match fuel with
  | O => Panic Explicit   (** not reached: see [check_utf8_loop_ok] *)
  | S k =>
    if 0 <? len then
      let tlen := Z.min len CHUNK in
      let m := write_bytes m buf_addr (replicate 32 0) in
      '(m, r) ← copy_nonoverlapping_checked m 1 str_ptr buf_addr tlen;
      match r with
      | Err e => Ret (Err (AccessError e))
      | Ok _ =>
        buf ← load_bytes m buf_addr (Z.to_nat tlen);
        match utf8_run st buf with
        | None => Ret (Err InvalidUtf8)
        | Some st' => check_utf8_loop k m buf_addr (str_ptr + tlen) (len - tlen) st'
        end
      end
    else Ret (Ok tt)
  end.

(** [check_utf8]: on success, the string slice (pointer and length) as given. *)
Definition check_utf8 (m : mem) (buf_addr str_ptr len : Z) : outcome (result (Z * Z) CheckUtfError) :=
  r ← check_utf8_loop (S (Z.to_nat len)) m buf_addr str_ptr len utf8_init;
  Ret (match r with Ok _ => Ok (str_ptr, len) | Err e => Err e end).

(** An aligned machine word in memory. *)
Definition load_word (m : mem) (a : Z) : outcome Z := bs ← load_bytes m a 8; Ret (le_value bs).
Definition store_word (m : mem) (a v : Z) : outcome mem := store_bytes m a (le_bytes 8 v).

(** [fill_str] on the descriptor whose fields [str_ptr] and [len] are at the addresses
    [pstr] and [plen]: the copied length is read before the copy; the length is read again
    when it is replaced by the full length of the string, and a shorter buffer is an error
    after the copied prefix. *)
Definition fill_str (m : mem) (pstr plen st_ptr st_len : Z) : outcome (mem * result unit SysError) :=
  klen ← load_word m plen;
  let len := Z.min klen st_len in
  str_ptr ← load_word m pstr;
  '(m, r) ← copy_nonoverlapping_checked m 1 st_ptr str_ptr len;
  match r with
  | Err _ => Ret (m, Err InvalidMemory)
  | Ok _ =>
    old ← load_word m plen;
    m ← store_word m plen st_len;
    Ret (m, if old <? st_len then Err InsufficientLength else Ok tt)
  end.

(** ** Bytes in memory *)

(** The bytes [bs] are stored from address [a] on. *)
Definition bytes_at (m : mem) (a : Z) (bs : list Z) : Prop :=
  forall i b, bs !! i = Some b -> cells m !! (a + Z.of_nat i) = Some b.
(** [n] bytes from [a] on are mapped and writable. *)
Definition writable_at (m : mem) (a : Z) (n : nat) : Prop :=
  forall i, (i < n)%nat -> writable m (a + Z.of_nat i) = true /\ is_Some (cells m !! (a + Z.of_nat i)).
(** The regions of [n] bytes at [a] and [b] do not meet. *)
Definition disjoint_at (a b : Z) (n : nat) : Prop := a + Z.of_nat n <= b \/ b + Z.of_nat n <= a.

Lemma insert_bytes_lookup c a bs x :
  insert_bytes c a bs !! x =
  if decide (a <= x < a + Z.of_nat (length bs)) then bs !! Z.to_nat (x - a) else c !! x.
Proof.
  revert c a. induction bs as [|b bs IH]; intros c a; cbn [insert_bytes length].
  - rewrite decide_False by lia. done.
  - rewrite IH. destruct (decide (x = a)) as [->|Hne].
    + rewrite decide_False, decide_True, lookup_insert_eq by lia. by rewrite Z.sub_diag.
    + rewrite lookup_insert_ne by lia.
      case_decide; case_decide; try lia; [|done].
      replace (Z.to_nat (x - a)) with (S (Z.to_nat (x - (a + 1)))) by lia. done.
Qed.

Lemma write_bytes_app m a bs1 bs2 :
  write_bytes (write_bytes m a bs1) (a + Z.of_nat (length bs1)) bs2 = write_bytes m a (bs1 ++ bs2).
Proof.
  unfold write_bytes. simpl. f_equal. apply map_eq. intros x. rewrite !insert_bytes_lookup, length_app.
  repeat case_decide; try lia; [|by rewrite lookup_app_l by lia|done].
  rewrite lookup_app_r by lia. f_equal. lia.
Qed.

Lemma write_bytes_nil m a : write_bytes m a [] = m.
Proof. by destruct m. Qed.

Lemma load_bytes_ok m a bs : bytes_at m a bs -> load_bytes m a (length bs) = Ret bs.
Proof.
  revert a. induction bs as [|b bs IH]; intros a H; [done|]. simpl.
  pose proof (H 0%nat b eq_refl) as H0. rewrite Z.add_0_r in H0. rewrite H0.
  rewrite IH; [done|]. intros i c Hi. replace (a + 1 + Z.of_nat i) with (a + Z.of_nat (S i)) by lia.
  by apply H.
Qed.

Lemma load_bytes_take m a bs n :
  bytes_at m a bs -> (n <= length bs)%nat -> load_bytes m a n = Ret (take n bs).
Proof.
  intros H Hn. replace n with (length (take n bs)) at 1 by (rewrite length_take; lia).
  apply load_bytes_ok. intros i b Hi. apply lookup_take_Some in Hi as [Hi _]. by apply H.
Qed.

Lemma can_write_ok m a n : writable_at m a n -> can_write m a n = true.
Proof.
  revert a. induction n as [|n IH]; intros a H; [done|]. simpl.
  destruct (H 0%nat ltac:(lia)) as [Hw Hc]. rewrite Z.add_0_r in *.
  rewrite Hw, bool_decide_eq_true_2 by done. simpl. apply IH. intros i Hi.
  replace (a + 1 + Z.of_nat i) with (a + Z.of_nat (S i)) by lia. apply H. lia.
Qed.

Lemma writable_at_write m a n b bs : writable_at m a n -> writable_at (write_bytes m b bs) a n.
Proof.
  intros H i Hi. destruct (H i Hi) as [Hw Hc]. split; [done|]. simpl. rewrite insert_bytes_lookup.
  case_decide; [|done]. apply lookup_lt_is_Some_2. lia.
Qed.

Lemma bytes_at_write m a bs b cs :
  bytes_at m a bs ->
  a + Z.of_nat (length bs) <= b \/ b + Z.of_nat (length cs) <= a ->
  bytes_at (write_bytes m b cs) a bs.
Proof.
  intros H Hd i x Hi. simpl. rewrite insert_bytes_lookup.
  assert (i < length bs)%nat by by eapply lookup_lt_Some. rewrite decide_False by lia. by apply H.
Qed.

Lemma bytes_at_drop m a bs n : (n <= length bs)%nat -> bytes_at m a bs -> bytes_at m (a + Z.of_nat n) (drop n bs).
Proof.
  intros Hn H i b Hi. rewrite lookup_drop in Hi. replace (a + Z.of_nat n + Z.of_nat i) with (a + Z.of_nat (n + i)) by lia.
  by apply H.
Qed.
Lemma bytes_at_take m a bs n : bytes_at m a bs -> bytes_at m a (take n bs).
Proof. intros H i b Hi. apply lookup_take_Some in Hi as [Hi _]. by apply H. Qed.

Lemma bytes_at_written m a bs : bytes_at (write_bytes m a bs) a bs.
Proof.
  intros i b Hi. simpl. rewrite insert_bytes_lookup.
  assert (i < length bs)%nat by by eapply lookup_lt_Some. rewrite decide_True by lia. by replace (Z.to_nat _) with i by lia.
Qed.

(** ** The copy routine *)

(** How many bytes [__memcpy_explicit] copies: the two comparisons with [jbe] lose
    the last byte of an 8-byte remainder, and of a 16-byte copy. *)
Definition copied (len : Z) : Z :=
  if (len =? 16) || (len mod 16 =? 8) then len - 1 else len.

Section Copy.
Context (m : mem) (dest src : Z) (bs : list Z).
Hypothesis Hsrc : bytes_at m src bs.
Hypothesis Hdest : writable_at m dest (length bs).
Hypothesis Hdisj : disjoint_at src dest (length bs).

(** The registers after [o] bytes. *)
Definition after (o : nat) (c : Z) : regs :=
  mkRegs (write_bytes m dest (take o bs)) (dest + Z.of_nat o) (src + Z.of_nat o) c.

Lemma move_ok w o c :
  (o + w <= length bs)%nat -> move w (after o c) = Ret (after (o + w) (c - Z.of_nat w)).
Proof using Hsrc Hdest Hdisj.
  intros Hw. unfold move, after. cbn [rmem rdi rsi rdx].
  assert (length (take w (drop o bs)) = w) as Hl by (rewrite length_take, length_drop; lia).
  assert (load_bytes (write_bytes m dest (take o bs)) (src + Z.of_nat o) w = Ret (take w (drop o bs))) as ->.
  { rewrite <- Hl at 1. apply load_bytes_ok, bytes_at_take, bytes_at_drop; [lia|].
    apply bytes_at_write; [done|]. rewrite length_take. unfold disjoint_at in Hdisj. lia. }
  cbn [mbind outcome_bind]. unfold store_bytes. rewrite Hl, can_write_ok.
  2:{ apply writable_at_write. intros i Hi. replace (dest + Z.of_nat o + Z.of_nat i)
        with (dest + Z.of_nat (o + i)) by lia. apply Hdest. lia. }
  cbn [mbind outcome_bind]. f_equal. f_equal; [|lia|lia].
  replace o with (length (take o bs)) at 2 by (rewrite length_take; lia).
  rewrite write_bytes_app. f_equal. apply take_take_drop.
Qed.

Lemma loop16_ok fuel o c :
  c = Z.of_nat (length bs) - Z.of_nat o -> 16 <= c -> (Z.to_nat c <= fuel)%nat ->
  loop16 fuel (after o c) = Ret (after (o + 16 * Z.to_nat (c / 16)) (c mod 16)).
Proof using Hsrc Hdest Hdisj.
  revert o c. induction fuel as [|fuel IH]; intros o c Hc H16 Hf; [lia|]. cbn [loop16].
  rewrite move_ok by lia. cbn [mbind outcome_bind rdx after]. change (Z.of_nat 16) with 16.
  destruct (Z.leb_spec 16 (c - 16)).
  - rewrite IH by lia.
    assert ((c - 16) / 16 = c / 16 - 1) as ->
      by (replace (c - 16) with (c + (-1) * 16) by lia; rewrite Z.div_add by lia; lia).
    assert ((c - 16) mod 16 = c mod 16) as ->
      by (replace (c - 16) with (c + (-1) * 16) by lia; by rewrite Z.mod_add by lia).
    pose proof (Z.div_le_lower_bound c 16 1 ltac:(lia) ltac:(lia)). do 2 f_equal. lia.
  - assert (c / 16 = 1) as -> by (symmetry; apply (Z.div_unique _ _ 1 (c - 16)); lia).
    assert (c mod 16 = c - 16) as -> by (symmetry; apply (Z.mod_unique _ _ 1); lia). done.
Qed.

(** The final moves on a remainder of at most 16 bytes. *)
Definition tail_moves (r : regs) : outcome regs :=
  r ← unless (rdx r <=? 8) 8 r;
  r ← unless (rdx r <? 4) 4 r;
  r ← unless (rdx r <? 2) 2 r;
  unless (rdx r <? 1) 1 r.

Lemma tail_moves_ok o (k : nat) :
  (o + k = length bs)%nat -> (k <= 16)%nat ->
  exists c, tail_moves (after o (Z.of_nat k)) =
    Ret (after (o + (if decide (k = 8 \/ k = 16)%nat then k - 1 else k)) c).
Proof using Hsrc Hdest Hdisj.
  intros Hk H16.
  assert (exists o' c, tail_moves (after o (Z.of_nat k)) = Ret (after o' c) /\
    o' = (o + if decide (k = 8 \/ k = 16)%nat then k - 1 else k)%nat) as (o' & c & -> & ->); [|by exists c].
  unfold tail_moves, unless. cbn [rdx after].
  destruct (Z.leb_spec (Z.of_nat k) 8); [|rewrite move_ok by lia]; cbn [mbind outcome_bind rdx after];
    case_goal; reflect_bools; try rewrite move_ok by lia; cbn [mbind outcome_bind rdx after];
    case_goal; reflect_bools; try rewrite move_ok by lia; cbn [mbind outcome_bind rdx after];
    case_goal; reflect_bools; try rewrite move_ok by lia;
    (eexists _, _; split; [reflexivity|case_decide; lia]).
Qed.

Lemma memcpy_explicit_ok :
  memcpy_explicit m dest src (Z.of_nat (length bs)) =
    Ret (write_bytes m dest (take (Z.to_nat (copied (Z.of_nat (length bs)))) bs)).
Proof using Hsrc Hdest Hdisj.
  set (n := Z.of_nat (length bs)). unfold memcpy_explicit.
  assert (mkRegs m dest src n = after 0 n) as ->.
  { unfold after. rewrite take_0, write_bytes_nil. f_equal; lia. }
  assert (exists o k, (if n <=? 16 then Ret (after 0 n) else loop16 (Z.to_nat n) (after 0 n)) =
      Ret (after o (Z.of_nat k)) /\ (o + k = length bs)%nat /\ (k <= 16)%nat /\
      (o + (if decide (k = 8 \/ k = 16)%nat then k - 1 else k))%nat = Z.to_nat (copied n))
    as (o & k & -> & Hk & H16 & Hc).
  { unfold copied. destruct (Z.leb_spec n 16).
    - exists 0%nat, (length bs). split_and!; [done|lia|lia|]. fold n.
      destruct (Z.eqb_spec n 16); [rewrite decide_True by lia; simpl; lia|].
      rewrite Z.mod_small by lia. destruct (Z.eqb_spec n 8); case_decide; simpl; lia.
    - rewrite loop16_ok by lia.
      pose proof (Z.div_mod n 16 ltac:(lia)). pose proof (Z.mod_pos_bound n 16 ltac:(lia)).
      pose proof (Z.div_pos n 16 ltac:(lia) ltac:(lia)).
      exists (0 + 16 * Z.to_nat (n / 16))%nat, (Z.to_nat (n mod 16)).
      split_and!; [by rewrite Z2Nat.id by lia|lia|lia|].
      rewrite (proj2 (Z.eqb_neq n 16)) by lia.
      destruct (Z.eqb_spec (n mod 16) 8); case_decide; simpl; lia. }
  cbn [mbind outcome_bind]. destruct (tail_moves_ok o k Hk H16) as [c Ht].
  rewrite Hc in Ht. unfold tail_moves in Ht.
  destruct (unless _ 8 _) as [r1|]; cbn [mbind outcome_bind] in *; [|done].
  destruct (unless _ 4 _) as [r2|]; cbn [mbind outcome_bind] in *; [|done].
  destruct (unless _ 2 _) as [r3|]; cbn [mbind outcome_bind] in *; [|done].
  rewrite Ht. done.
Qed.
End Copy.

(** Addresses that can hold an array. *)
Definition in_address_space (a : Z) (n : nat) : Prop := 0 <= a /\ a + Z.of_nat n < 2 ^ 64.

Lemma contains_disjoint a b n :
  in_address_space a n ->
  contains a (usize_wrap (a + Z.of_nat n * 1)) b = bool_decide (a <= b < a + Z.of_nat n).
Proof.
  intros [H1 H2]. unfold contains, usize_wrap. rewrite wrap_small by lia. rewrite Z.mul_1_r.
  rewrite bool_decide_decide. case_decide; [apply andb_true_iff|apply andb_false_iff];
    rewrite ?Z.leb_le, ?Z.ltb_lt, ?Z.leb_gt, ?Z.ltb_ge; lia.
Qed.

Lemma copy_bytes_ok m src dest bs :
  bytes_at m src bs -> writable_at m dest (length bs) -> disjoint_at src dest (length bs) ->
  in_address_space src (length bs) -> in_address_space dest (length bs) ->
  copy_nonoverlapping_checked m 1 src dest (Z.of_nat (length bs)) =
    Ret (write_bytes m dest (take (Z.to_nat (copied (Z.of_nat (length bs)))) bs), Ok tt).
Proof.
  intros Hs Hd Hdisj Hsa Hda. unfold copy_nonoverlapping_checked.
  rewrite !contains_disjoint, !bool_decide_eq_false_2 by (done || unfold disjoint_at in Hdisj; lia).
  rewrite Z.mul_1_r, (proj2 (Z.leb_gt _ _)) by (unfold in_address_space in *; lia).
  unfold checked_memcpy_impl. by rewrite memcpy_explicit_ok by done.
Qed.

(** C37: the checked copy of a byte string between disjoint mapped regions
    succeeds and copies it in full, except that the last byte is left out when the
    length is 16 or leaves a remainder of 8 modulo 16; overlapping regions are
    refused without any access. *)
Theorem checked_copy_spec m src dest bs :
  bytes_at m src bs -> writable_at m dest (length bs) ->
  in_address_space src (length bs) -> in_address_space dest (length bs) ->
  exists m' r, copy_nonoverlapping_checked m 1 src dest (Z.of_nat (length bs)) = Ret (m', r) /\
    if decide (disjoint_at src dest (length bs)) then
      r = Ok tt /\ m' = write_bytes m dest
        (if (Z.of_nat (length bs) =? 16) || (Z.of_nat (length bs) mod 16 =? 8)
         then take (length bs - 1) bs else bs)
    else m' = m /\ exists p, r = Err (Overlap p).
Proof.
  intros Hs Hd Hsa Hda. case_decide as Hdisj.
  - eexists _, _. split; [by apply copy_bytes_ok|]. split; [done|]. f_equal. unfold copied.
    case_match; [f_equal; lia|]. rewrite Nat2Z.id. by rewrite firstn_all.
  - unfold copy_nonoverlapping_checked, disjoint_at in *. rewrite !contains_disjoint by done.
    rewrite !bool_decide_decide. repeat case_decide; try lia; eexists _, _; (split; [done|]); eauto.
Qed.

(** ** Validation of a string argument *)

(** What [check_utf8] sees of a string: its bytes, read in chunks of 32 into a
    zeroed buffer. *)
Definition seen (bs : list Z) : list Z :=
  let r := (length bs mod 32)%nat in
  if bool_decide (r = 8 \/ r = 16 \/ r = 24)%nat then take (length bs - 1) bs ++ [0] else bs.

Lemma seen_chunk bs : (32 < length bs)%nat -> seen bs = take 32 bs ++ seen (drop 32 bs).
Proof.
  intros H. unfold seen. rewrite length_drop.
  assert (length bs mod 32 = (length bs - 32) mod 32)%nat as ->.
  { replace (length bs) with ((length bs - 32) + 1 * 32)%nat at 1 by lia. by rewrite Nat.Div0.mod_add. }
  case_bool_decide; [|by rewrite take_drop]. rewrite app_assoc. f_equal.
  replace (length bs - 1)%nat with (32 + (length bs - 32 - 1))%nat by lia. by rewrite <- take_take_drop.
Qed.

Lemma utf8_run_app st bs1 bs2 :
  utf8_run st (bs1 ++ bs2) =
  match utf8_run st bs1 with Some st' => utf8_run st' bs2 | None => None end.
Proof. revert st. induction bs1 as [|b bs1 IH]; intros st; simpl; [done|]. by case_match. Qed.

(** The buffer after copying a chunk of [1..32] bytes over zeros. *)
Lemma bytes_at_over m a zs xs :
  (length xs <= length zs)%nat ->
  bytes_at (write_bytes (write_bytes m a zs) a xs) a (xs ++ drop (length xs) zs).
Proof.
  intros Hl i b Hi. simpl. rewrite !insert_bytes_lookup.
  assert (i < length zs)%nat.
  { apply lookup_lt_Some in Hi. rewrite length_app, length_drop in Hi. lia. }
  replace (Z.to_nat (a + Z.of_nat i - a)) with i by lia.
  case_decide; [by rewrite lookup_app_l in Hi by lia|].
  rewrite lookup_app_r, lookup_drop in Hi by lia. rewrite decide_True by lia. rewrite <- Hi. f_equal. lia.
Qed.

Lemma seen_short bs :
  (1 <= length bs <= 32)%nat ->
  let c := Z.to_nat (copied (Z.of_nat (length bs))) in
  (c <= length bs)%nat /\ take (length bs) (take c bs ++ drop c (replicate 32 0)) = seen bs.
Proof.
  intros Hl c. assert ((c = length bs /\ seen bs = bs) \/
    (c = (length bs - 1)%nat /\ seen bs = take (length bs - 1) bs ++ [0])) as [[Hc ->]|[Hc ->]].
  { subst c. unfold copied, seen. remember (length bs) as n eqn:Hn. clear Hn.
    do 33 (destruct n as [|n]; [first [lia | left; split; reflexivity | right; split; reflexivity]|]). lia. }
  - rewrite Hc. split; [lia|]. rewrite firstn_all. by rewrite take_app_length.
  - rewrite Hc. split; [lia|]. rewrite drop_replicate. replace (32 - (length bs - 1))%nat with (S (32 - length bs)) by lia.
    cbn [replicate]. rewrite (app_assoc _ [_]) || rewrite cons_middle, app_assoc.
    rewrite take_app_length'; [done|]. rewrite length_app, length_take. simpl. lia.
Qed.

Section CheckUtf8.
Context (buf_addr : Z).
Hypothesis Hbuf : in_address_space buf_addr 32.

(** One turn of the loop on a chunk at hand. *)
Lemma chunk_read m ptr chunk :
  (1 <= length chunk <= 32)%nat -> bytes_at m ptr chunk -> writable_at m buf_addr 32 ->
  in_address_space ptr (length chunk) ->
  ptr + Z.of_nat (length chunk) <= buf_addr \/ buf_addr + 32 <= ptr ->
  exists m', copy_nonoverlapping_checked (write_bytes m buf_addr (replicate 32 0)) 1 ptr buf_addr
               (Z.of_nat (length chunk)) = Ret (m', Ok tt) /\
    load_bytes m' buf_addr (length chunk) = Ret (seen chunk) /\ writable_at m' buf_addr 32 /\
    forall a bs, bytes_at m a bs -> a + Z.of_nat (length bs) <= buf_addr \/ buf_addr + 32 <= a ->
      bytes_at m' a bs.
Proof using Hbuf.
  intros Hl Hb Hw Ha Hd. eexists. split; [apply copy_bytes_ok|].
  - apply bytes_at_write; [done|]. rewrite length_replicate. lia.
  - apply writable_at_write. intros i Hi. apply Hw. lia.
  - unfold disjoint_at. lia.
  - done.
  - unfold in_address_space in *. lia.
  - destruct (seen_short chunk Hl) as [Hc Hseen]. split_and!.
    + rewrite <- Hseen.
      apply load_bytes_take.
      2:{ rewrite length_app, length_take, length_drop, length_replicate. lia. }
      set (xs := take _ chunk). replace (Z.to_nat (copied _)) with (length xs) at 1
        by (subst xs; rewrite length_take; lia).
      apply bytes_at_over. subst xs. rewrite length_take, length_replicate. lia.
    + by do 2 apply writable_at_write.
    + intros a bs Hab Hda. apply bytes_at_write; [apply bytes_at_write; [done|]|];
        rewrite ?length_replicate, ?length_take; lia.
Qed.

Lemma check_utf8_loop_ok fuel m ptr bs st :
  (length bs < fuel)%nat -> bytes_at m ptr bs -> writable_at m buf_addr 32 ->
  in_address_space ptr (length bs) ->
  ptr + Z.of_nat (length bs) <= buf_addr \/ buf_addr + 32 <= ptr ->
  check_utf8_loop fuel m buf_addr ptr (Z.of_nat (length bs)) st =
    Ret (match utf8_run st (seen bs) with Some _ => Ok tt | None => Err InvalidUtf8 end).
Proof using Hbuf.
  revert m ptr bs st. induction fuel as [|fuel IH]; intros m ptr bs st Hf Hb Hw Ha Hd; [lia|].
  cbn [check_utf8_loop]. destruct (Z.ltb_spec 0 (Z.of_nat (length bs))) as [Hpos|Hz].
  2:{ destruct bs; [done|simpl in Hz; lia]. }
  set (chunk := take 32 bs).
  assert (Z.min (Z.of_nat (length bs)) CHUNK = Z.of_nat (length chunk)) as ->
    by (subst chunk; rewrite length_take; unfold CHUNK; lia).
  assert (length chunk = Nat.min 32 (length bs)) as Hcl by (subst chunk; apply length_take).
  destruct (chunk_read m ptr chunk) as (m' & -> & Hload & Hw' & Hframe);
    [lia|by apply bytes_at_take|done|unfold in_address_space in *; lia|lia|].
  cbn [mbind outcome_bind]. rewrite Nat2Z.id, Hload. cbn [mbind outcome_bind].
  assert (seen bs = seen chunk ++ seen (drop 32 bs)) as Hsplit.
  { destruct (decide (32 < length bs)%nat) as [Hlt|Hge].
    - rewrite seen_chunk by done. f_equal. unfold seen. subst chunk. rewrite length_take.
      replace (Nat.min 32 (length bs)) with 32%nat by lia. done.
    - subst chunk. rewrite firstn_all2, drop_ge by lia. by rewrite app_nil_r. }
  rewrite Hsplit, utf8_run_app. destruct (utf8_run st (seen chunk)) as [st'|]; [|done].
  replace (Z.of_nat (length bs) - Z.of_nat (length chunk)) with (Z.of_nat (length (drop 32 bs)))
    by (rewrite length_drop; lia).
  apply IH; rewrite ?length_drop; [lia| |done| |].
  - apply Hframe; [|rewrite length_drop; lia].
    destruct (decide (32 <= length bs)%nat).
    + rewrite Hcl, Nat.min_l by lia. by apply bytes_at_drop.
    + rewrite drop_ge by lia. by intros i b Hi%lookup_nil_Some || intros ? ? ?.
  - unfold in_address_space in *. lia.
  - lia.
Qed.
End CheckUtf8.

(** C19: on a mapped string away from the local buffer, [check_utf8] always
    returns: it accepts the string, as passed, exactly when the automaton accepts
    the bytes it sees, which are the string's own bytes except that the last byte
    reads as 0 when the length leaves 8, 16 or 24 modulo 32. *)
Theorem check_utf8_decides m buf_addr ptr bs :
  in_address_space buf_addr 32 -> writable_at m buf_addr 32 ->
  bytes_at m ptr bs -> in_address_space ptr (length bs) ->
  ptr + Z.of_nat (length bs) <= buf_addr \/ buf_addr + 32 <= ptr ->
  check_utf8 m buf_addr ptr (Z.of_nat (length bs)) =
    Ret (if utf8_accepts (seen bs) then Ok (ptr, Z.of_nat (length bs)) else Err InvalidUtf8).
Proof.
  intros Hb Hw Hs Ha Hd. unfold check_utf8, utf8_accepts.
  rewrite (check_utf8_loop_ok buf_addr Hb) by (done || lia). cbn [mbind outcome_bind].
  by destruct (utf8_run utf8_init (seen bs)).
Qed.

(** ** Reads, writes and probes of single values *)

(** [read_checked::<T>]: through a local of [size] bytes at address [local]. *)
Definition read_checked (m : mem) (local size src : Z) :
    outcome (mem * result (list Z) CheckedAccessError) :=
  '(m, r) ← copy_nonoverlapping_checked m size src local 1;
  match r with
  | Ok _ => bs ← load_bytes m local (Z.to_nat size); Ret (m, Ok bs)
  | Err e => Ret (m, Err e)
  end.

(** [write_checked::<T>]: the value [val] is a local at address [local]. *)
Definition write_checked (m : mem) (local size dest : Z) (val : list Z) :
    outcome (mem * result unit CheckedAccessError) :=
  copy_nonoverlapping_checked (write_bytes m local val) size local dest 1.

(** One access of [probe_checked]: a byte read, and written back for [Write]. *)
Definition probe_byte (do_writeback : bool) (m : mem) (local ptr : Z) :
    outcome (mem * result unit CheckedAccessError) :=
  '(m, r) ← read_checked m local 1 ptr;
  match r with
  | Err e => Ret (m, Err e)
  | Ok b => if do_writeback then write_checked m local 1 ptr b else Ret (m, Ok tt)
  end.

(** The [for] loop: turn [i] probes [ptr] and then advances it by [i * 4096]. *)
Fixpoint probe_loop (wb : bool) (n : nat) (i : Z) (m : mem) (local ptr : Z) :
    outcome (mem * result unit CheckedAccessError) :=
  match n with
  | O => Ret (m, Ok tt)
  | S k =>
    '(m, r) ← probe_byte wb m local ptr;
    match r with
    | Err e => Ret (m, Err e)
    | Ok _ => probe_loop wb k (i + 1) m local (ptr + i * 4096)
    end
  end.
Definition probe_checked (wb : bool) (m : mem) (local size src count : Z) :
    outcome (mem * result unit CheckedAccessError) :=
  if count =? 0 then Ret (m, Ok tt) else
  let total := size * count in
  '(m, r) ← probe_loop wb (Z.to_nat ((4095 + total) / 4096)) 0 m local src;
  match r with
  | Err e => Ret (m, Err e)
  | Ok _ => probe_byte wb m local (src + size * (count - 1))
  end.

(** ** Slice iterators *)

(** [struct RawCheckedSliceIter]; [T] has [size] bytes, not 0. *)
Record slice_iter : Type := mkIter { pos : Z; end_ : Z }.

Section Iter.
Context (wb : bool) (local size : Z).

(** [new_unchecked]. *)
Definition iter_new (base len : Z) : slice_iter := mkIter base (base + len * size).
Definition iter_len (it : slice_iter) : Z := (end_ it - pos it) / size.
Definition iter_is_empty (it : slice_iter) : bool := pos it =? end_ it.
Definition iter_advance_by (it : slice_iter) (n : Z) : slice_iter * result unit Z :=
  let len := iter_len it in
  if n <=? len then (mkIter (pos it + n * size) (end_ it), Ok tt) else (it, Err (n - len)).

(** The pointer on success, the error of the probe otherwise. *)
Definition probed (p : Z) (x : mem * result unit CheckedAccessError) : mem * result Z CheckedAccessError :=
  (x.1, match x.2 with Ok _ => Ok p | Err e => Err e end).

Definition iter_step_next (m : mem) (it : slice_iter) :
    outcome (mem * slice_iter * option (result Z CheckedAccessError)) :=
  if pos it =? end_ it then Ret (m, it, None) else
  x ← probe_checked wb m local size (pos it) 1;
  let y := probed (pos it) x in
  Ret (y.1, mkIter (pos it + size) (end_ it), Some y.2).

Definition iter_next_back (m : mem) (it : slice_iter) :
    outcome (mem * slice_iter * option (result Z CheckedAccessError)) :=
  if pos it =? end_ it then Ret (m, it, None) else
  let p := end_ it - size in
  x ← probe_checked wb m local size p 1;
  let y := probed p x in
  Ret (y.1, mkIter (pos it) p, Some y.2).

(** [next_chunk::<N>]: [Ok] with [N] items, or [Err] with those that are left; the
    position advances by [N] machine words. *)
Definition iter_next_chunk (m : mem) (it : slice_iter) (N : nat) :
    outcome (mem * slice_iter * result (list (result Z CheckedAccessError))
                                       (list (result Z CheckedAccessError))) :=
  let items k (r : result unit CheckedAccessError) :=
    (fun i => match r with Ok _ => Ok (pos it + Z.of_nat i * size) | Err e => Err e end) <$> seq 0 k in
  if Z.of_nat N <=? iter_len it then
    '(m, r) ← probe_checked wb m local size (pos it) (Z.of_nat N);
    Ret (m, mkIter (pos it + Z.of_nat N * 8) (end_ it), Ok (items N r))
  else
    let len := iter_len it in
    '(m, r) ← probe_checked wb m local size (pos it) len;
    Ret (m, mkIter (end_ it) (end_ it), Err (items (Z.to_nat len) r)).

(** A [for] loop over the iterator. *)
Fixpoint iter_run (fuel : nat) (m : mem) (it : slice_iter) :
    outcome (list (result Z CheckedAccessError)) :=
  match fuel with
  | O => Panic Explicit   (** not reached: see [iter_run_ok] *)
  | S k =>
    '(m, it, x) ← iter_step_next m it;
    match x with None => Ret [] | Some p => r ← iter_run k m it; Ret (p :: r) end
  end.
End Iter.

(** ** Theorems on probes and iterators *)

Section Probes.
Context (local : Z).
Hypothesis Hlocal : in_address_space local 1.

(** A byte that may be probed: mapped, writable for a write probe, and apart from
    the local. *)
Definition probeable (wb : bool) (m : mem) (p : Z) : Prop :=
  is_Some (cells m !! p) /\ (wb = true -> writable m p = true) /\ p <> local /\ 0 <= p < 2 ^ 64 - 1.

(** The memories a sequence of probes passes through: only the local changes. *)
Definition probe_eq (m m' : mem) : Prop :=
  writable m' = writable m /\ (forall a, a <> local -> cells m' !! a = cells m !! a) /\
  is_Some (cells m' !! local).

Lemma probeable_eq wb m m' p : probe_eq m m' -> probeable wb m p -> probeable wb m' p.
Proof. intros (Hw & Hc & _) (H1 & H2 & H3 & H4). unfold probeable. by rewrite Hw, (Hc p H3). Qed.

Lemma probe_byte_ok wb m p :
  writable_at m local 1 -> probeable wb m p ->
  exists m', probe_byte wb m local p = Ret (m', Ok tt) /\ probe_eq m m'.
Proof using Hlocal.
  intros Hw ([b Hb] & Hwb & Hne & Hr). unfold probe_byte, read_checked.
  pose proof (copy_bytes_ok m p local [b]) as Hc. cbn [length] in Hc. change (Z.of_nat 1) with 1 in Hc.
  rewrite Hc; clear Hc; [|by intros [|i] c Hi; simplify_eq/=; rewrite Z.add_0_r|done|
    unfold disjoint_at; lia|unfold in_address_space; lia|done].
  cbn [mbind outcome_bind]. change (take (Z.to_nat (copied 1)) [b]) with [b].
  rewrite (load_bytes_ok _ local [b]) by apply bytes_at_written. cbn [mbind outcome_bind].
  assert (probe_eq m (write_bytes m local [b])) as Heq.
  { split_and!; [done| |]; simpl; intros; [by rewrite lookup_insert_ne|]. rewrite lookup_insert_eq. done. }
  destruct wb; [|by eexists].
  unfold write_checked. set (m1 := write_bytes (write_bytes m local [b]) local [b]).
  pose proof (copy_bytes_ok m1 local p [b]) as Hc. cbn [length] in Hc. change (Z.of_nat 1) with 1 in Hc.
  rewrite Hc; clear Hc; [|apply bytes_at_written| |unfold disjoint_at; lia|done|unfold in_address_space; lia].
  - eexists. split; [done|]. change (take (Z.to_nat (copied 1)) [b]) with [b].
    split_and!; [done| |]; simpl.
    + intros a Ha. destruct (decide (a = p)) as [->|]; [by rewrite lookup_insert_eq|].
      by rewrite !lookup_insert_ne.
    + rewrite lookup_insert_ne by done. by rewrite lookup_insert_eq.
  - apply writable_at_write, writable_at_write. intros [|i] Hi; [|lia]. rewrite Z.add_0_r. rewrite Hb. auto.
Qed.

Lemma probe_eq_trans m1 m2 m3 : probe_eq m1 m2 -> probe_eq m2 m3 -> probe_eq m1 m3.
Proof.
  intros (H1 & H2 & H3) (H4 & H5 & H6). split_and!; [congruence| |done].
  intros a Ha. by rewrite H5, H2.
Qed.
Lemma probe_eq_local m m' : probe_eq m m' -> writable_at m local 1 -> writable_at m' local 1.
Proof.
  intros (Hw & _ & Hl) H [|i] Hi; [|lia]. destruct (H 0%nat ltac:(lia)) as [H1 _].
  rewrite Z.add_0_r in *. by rewrite Hw.
Qed.

(** A probe of one element of at most a page reads its first byte (twice). *)
Lemma probe_one wb m size p :
  1 <= size <= 4096 -> writable_at m local 1 -> probeable wb m p ->
  exists m', probe_checked wb m local size p 1 = Ret (m', Ok tt) /\ probe_eq m m'.
Proof using Hlocal.
  intros Hs Hw Hp. unfold probe_checked. change (1 =? 0) with false. cbv beta iota zeta.
  assert ((4095 + size * 1) / 4096 = 1) as ->
    by (symmetry; apply (Z.div_unique _ _ 1 (size - 1)); lia).
  change (Z.to_nat 1) with 1%nat. cbn [probe_loop].
  destruct (probe_byte_ok wb m p Hw Hp) as (m1 & -> & H1). cbn [mbind outcome_bind].
  replace (p + size * (1 - 1)) with p by lia.
  destruct (probe_byte_ok wb m1 p) as (m2 & -> & H2);
    [by eapply probe_eq_local|by eapply probeable_eq|]. exists m2. split; [done|]. by eapply probe_eq_trans.
Qed.

Lemma iter_run_ok wb size len fuel m base :
  1 <= size <= 4096 -> (len < fuel)%nat -> writable_at m local 1 ->
  (forall i, (i < len)%nat -> probeable wb m (base + Z.of_nat i * size)) ->
  iter_run wb local size fuel m (iter_new size base (Z.of_nat len)) =
    Ret ((fun i => Ok (base + Z.of_nat i * size)) <$> seq 0 len).
Proof using Hlocal.
  intros Hs. revert fuel m base. induction len as [|len IH]; intros fuel m base Hf Hw Hp;
    (destruct fuel as [|fuel]; [lia|]); cbn [iter_run]; unfold iter_step_next, iter_new; cbn [pos end_].
  - rewrite (proj2 (Z.eqb_eq _ _)) by lia. done.
  - rewrite (proj2 (Z.eqb_neq _ _)) by nia.
    destruct (probe_one wb m size base) as (m' & -> & Heq); [done|done| |].
    { specialize (Hp 0%nat ltac:(lia)). by rewrite Z.add_0_r in Hp. }
    cbn [mbind outcome_bind probed fst snd].
    specialize (IH fuel m' (base + size)).
    unfold iter_new in IH. replace (base + size + Z.of_nat len * size) with (base + Z.of_nat (S len) * size) in IH by lia.
    rewrite IH; [|lia|by eapply probe_eq_local|].
    + cbn [mbind outcome_bind seq fmap list_fmap]. f_equal. rewrite Z.add_0_r. f_equal.
      rewrite <- fmap_S_seq, <- list_fmap_compose. apply list_fmap_ext. intros _ i _. simpl. f_equal. lia.
    + intros i Hi. eapply probeable_eq; [done|].
      replace (base + size + Z.of_nat i * size) with (base + Z.of_nat (S i) * size) by lia. apply Hp. lia.
Qed.
End Probes.

(** A loop over a checked slice of elements of at most a page, all mapped (and
    writable, for the mutable iterator's probe), visits every element exactly once
    in order and then ends. *)
Theorem checked_iter_visits_all wb local size len m base :
  in_address_space local 1 -> 1 <= size <= 4096 -> writable_at m local 1 ->
  (forall i, (i < len)%nat -> probeable local wb m (base + Z.of_nat i * size)) ->
  iter_run wb local size (S len) m (iter_new size base (Z.of_nat len)) =
    Ret ((fun i => Ok (base + Z.of_nat i * size)) <$> seq 0 len).
Proof. intros. apply iter_run_ok; [done|done|lia|done|done]. Qed.

(** ** Option headers and numbers *)

Definition STANDARD_OPTION_MASK : Z := 0x0001.
(** [struct ExtendedOptionHead]: type, flags and the bytes that must be zero. *)
Record ExtendedOptionHead : Type := mkHead { oty : Z; flags : Z; reserved : list Z }.

Definition validate_option_head (head : ExtendedOptionHead) (tbits : Z) : result unit SysError :=
  if negb (bool_decide (reserved head = replicate (length (reserved head)) 0)) then Err InvalidOption
  else
    let flags_mask := Z.lor STANDARD_OPTION_MASK (Z.shiftl tbits 16) in
    if negb (Z.land (flags head) (not_w 32 flags_mask) =? 0) then Err InvalidOption else Ok tt.

(** [const_parse_u32], on the bytes of the string. *)
Definition digit (b : Z) : outcome Z :=
  if (48 <=? b) && (b <=? 57) then Ret (b - 48)
  else if (65 <=? b) && (b <=? 90) then Ret (b - 65 + 10)
  else if (97 <=? b) && (b <=? 122) then Ret (b - 97 + 10)
  else Panic Explicit.
Fixpoint parse_loop (radix val : Z) (bs : list Z) : outcome Z :=
  match bs with
  | [] => Ret val
  | b :: r =>
    d ← digit b;
    if d <? radix then
      if (val * radix <? 2 ^ 32) && (val * radix + d <? 2 ^ 32)
      then parse_loop radix (val * radix + d) r
      else Panic Explicit
    else Panic Explicit
  end.
Definition const_parse_u32 (bs : list Z) (radix : Z) : outcome Z :=
  if (radix <? 2) || (36 <? radix) then Panic Explicit else parse_loop radix 0 bs.

(** The number a digit string denotes. *)
Definition numeral (radix : Z) (ds : list Z) : Z := foldl (fun v d => v * radix + d) 0 ds.
Definition digits_of (bs ds : list Z) : Prop := Forall2 (fun b d => digit b = Ret d) bs ds.

Lemma foldl_numeral_ge radix ds v :
  2 <= radix -> Forall (fun d => 0 <= d) ds -> 0 <= v -> v <= foldl (fun v d => v * radix + d) v ds.
Proof.
  intros Hr Hd. revert v. induction Hd as [|d ds Hd _ IH]; intros v Hv; simpl; [lia|].
  etrans; [|apply IH; nia]. nia.
Qed.

Lemma digit_nonneg b d : digit b = Ret d -> 0 <= d.
Proof. unfold digit. intros H. repeat case_hyp H; reflect_bools; simplify_eq; lia. Qed.

Lemma parse_loop_spec radix bs v n :
  2 <= radix -> 0 <= v < 2 ^ 32 ->
  parse_loop radix v bs = Ret n <->
  exists ds, digits_of bs ds /\ Forall (fun d => d < radix) ds /\
    n = foldl (fun v d => v * radix + d) v ds /\ n < 2 ^ 32.
Proof.
  intros Hr. revert v. induction bs as [|b bs IH]; intros v Hv; simpl.
  - split; [intros [= <-]; exists []; split_and!; [constructor|constructor|done|lia]|].
    intros (ds & Hds & _ & -> & _). by apply Forall2_nil_inv_l in Hds as ->.
  - split.
    + destruct (digit b) as [d|] eqn:Hd; [|done]. cbn [mbind outcome_bind].
      destruct (Z.ltb_spec d radix); [|done]. destruct (_ && _) eqn:E; [|done]. reflect_bools.
      pose proof (digit_nonneg _ _ Hd). intros H'. apply IH in H' as (ds & Hds & Hl & Hn & Hb); [|nia].
      exists (d :: ds). split_and!; [by constructor|by constructor|done|done].
    + intros (ds & Hds & Hl & Hn & Hb). apply Forall2_cons_inv_l in Hds as (d & ds' & Hd & Hds' & ->).
      apply Forall_cons_1 in Hl as [Hl Hl'].
      rewrite Hd. cbn [mbind outcome_bind]. rewrite (proj2 (Z.ltb_lt _ _)) by done.
      pose proof (digit_nonneg _ _ Hd) as Hd0. simpl in Hn.
      assert (Forall (fun d => 0 <= d) ds') as Hpos.
      { clear -Hds'. induction Hds'; constructor; [by eapply digit_nonneg|done]. }
      pose proof (foldl_numeral_ge radix ds' (v * radix + d) Hr Hpos ltac:(nia)).
      rewrite !(proj2 (Z.ltb_lt _ _)) by lia. cbn [andb]. apply IH; [nia|]. by exists ds'.
Qed.

(** [const_parse_u32] succeeds exactly on radix 2 to 36 and strings of digits
    below the radix whose numeral fits 32 bits, and returns that number; anything
    else (a bad radix, a bad digit, an overflow anywhere) panics. *)
Theorem const_parse_u32_spec bs radix n :
  const_parse_u32 bs radix = Ret n <->
  2 <= radix <= 36 /\
  exists ds, digits_of bs ds /\ Forall (fun d => d < radix) ds /\ n = numeral radix ds /\ n < 2 ^ 32.
Proof.
  unfold const_parse_u32, numeral.
  destruct (Z.ltb_spec radix 2); [split; [done|intros [? _]; lia]|].
  destruct (Z.ltb_spec 36 radix); [split; [done|intros [? _]; lia]|]. cbn [orb].
  rewrite parse_loop_spec by lia. split; [intros Hp; split; [lia|done]|by intros [_ Hp]].
Qed.

(** ** Concrete inputs *)

Lemma writable_at_written m a bs :
  (forall x, writable m x = true) -> writable_at (write_bytes m a bs) a (length bs).
Proof.
  intros H i Hi. split; [apply H|]. simpl. rewrite insert_bytes_lookup, decide_True by lia.
  replace (Z.to_nat _) with i by lia. by apply lookup_lt_is_Some_2.
Qed.

(** 40 bytes at 200 and a 24-byte string of As at 100. *)
Definition blank : mem := mkMem ∅ (fun _ => true).
Definition sample_string : list Z := replicate 23 65 ++ [0xFF].
Definition sample_mem : mem := write_bytes (write_bytes blank 100 sample_string) 200 (replicate 40 0).

Lemma sample_string_at : bytes_at sample_mem 100 sample_string.
Proof. apply bytes_at_write; [apply bytes_at_written|]. vm_compute. by left. Qed.
Lemma sample_room : writable_at sample_mem 200 40.
Proof. exact (writable_at_written (write_bytes blank 100 sample_string) 200 (replicate 40 0) (fun _ => eq_refl)). Qed.

Lemma checked_copy_spec_witness :
  exists m' r, copy_nonoverlapping_checked sample_mem 1 100 200 24 = Ret (m', r) /\
    r = Ok tt /\ m' = write_bytes sample_mem 200 (replicate 23 65).
Proof.
  destruct (checked_copy_spec sample_mem 100 200 sample_string sample_string_at) as (m' & r & E & H);
    [intros i Hi; apply sample_room; vm_compute in Hi |- *; lia|
     unfold in_address_space; vm_compute; split; done|unfold in_address_space; vm_compute; split; done|].
  exists m', r. split; [exact E|]. rewrite decide_True in H by (left; vm_compute; discriminate). exact H.
Defined.

(** The 24-byte string ends in the byte 0xFF, which no UTF-8 text contains, and is
    accepted. *)
Lemma check_utf8_decides_witness :
  check_utf8 sample_mem 200 100 24 = Ret (Ok (100, 24)) /\ utf8_accepts sample_string = false.
Proof.
  split; [|reflexivity].
  apply (check_utf8_decides sample_mem 200 100 sample_string);
    [split; lia|intros i Hi; apply sample_room; lia|exact sample_string_at|split; vm_compute; done|].
  left. vm_compute. discriminate.
Defined.

Lemma checked_iter_visits_all_witness :
  iter_run true 239 8 5 sample_mem (iter_new 8 200 4) = Ret [Ok 200; Ok 208; Ok 216; Ok 224].
Proof.
  apply (checked_iter_visits_all true 239 8 4 sample_mem 200); [split; lia|lia| |].
  - intros [|i] Hi; [|lia]. apply (sample_room 39%nat). lia.
  - intros i Hi. destruct (sample_room (8 * i)%nat) as [H1 H2]; [lia|].
    replace (200 + Z.of_nat i * 8) with (200 + Z.of_nat (8 * i)) by lia. split_and!; done || lia.
Defined.
