(* ===== verification/Bytes.v ===== *)
(** * Byte strings in the loader (wl-ld-lilium/src/helpers.rs, env.rs)

    NUL-terminated strings, splitting at an ASCII separator, prefix and suffix
    tests, the C memory functions the loader provides, and the lookup of
    environment variables built on them. *)

From Stdlib Require Import ZArith Lia.
From stdpp Require Import base numbers list option.
From S2P Require Import Prelude.
From S2P Require Import Utf8.

Local Open Scope Z_scope.

(** ** NUL-terminated data *)

(** [NullTerm::as_slice]: the bytes before the first zero of a memory region; past
    the end of the region is a fault. *)
Fixpoint as_slice (region : list Z) : outcome (list Z) :=
  match region with
  | [] => Panic Fault
  | b :: r => if b =? 0 then Ret [] else s ← as_slice r; Ret (b :: s)
  end.

(** [NullTerm::next] on an array of pointers: the elements before the null one. *)
Fixpoint null_term {A} (arr : list (option A)) : outcome (list A) :=
  match arr with
  | [] => Panic Fault
  | None :: _ => Ret []
  | Some p :: r => l ← null_term r; Ret (p :: l)
  end.

(** [copy_to_slice_head]: the overwritten slice; the returned rest is its part
    after [length src]. *)
Definition copy_to_slice_head (dest src : list Z) : outcome (list Z * list Z) :=
  if decide (length dest < length src)%nat then Panic Explicit
  else Ret (overwrite dest 0 src, drop (length src) dest).

Definition has_prefix (long prefix : list Z) : bool :=
  if decide (length long < length prefix)%nat then false
  else bool_decide (take (length prefix) long = prefix).
Definition has_suffix (long suffix : list Z) : bool :=
  if decide (length long < length suffix)%nat then false
  else bool_decide (drop (length long - length suffix) long = suffix).

(** ** [SplitAscii] *)

(** [SplitAscii::new] and [find]; the iterator is the remaining bytes. *)
Definition split_new (v : list Z) (sep : Z) : outcome (list Z) :=
  if 0x80 <? sep then Panic Explicit else Ret v.
Definition split_find (s : list Z) (sep : Z) : option nat := find_index (fun b => b =? sep) s.

(** [next]. *)
Definition split_next (sep : Z) (s : list Z) : option (list Z) * list Z :=
  match s with
  | [] => (None, s)
  | _ =>
    match split_find s sep with
    | Some i => (Some (take i s), drop (i + 1) s)
    | None => (Some s, drop (length s) s)
    end
  end.

(** The last position of the separator, from [enumerate().rev()]. *)
Definition rfind (s : list Z) (sep : Z) : option nat :=
  match find_index (fun b => b =? sep) (rev s) with
  | Some j => Some (length s - 1 - j)%nat
  | None => None
  end.

(** [next_back]: without a separator the iterator keeps the first byte. *)
Definition split_next_back (sep : Z) (s : list Z) : option (list Z) * list Z :=
  match s with
  | [] => (None, s)
  | _ =>
    match rfind s sep with
    | Some i => (Some (drop (i + 1) s), take i s)
    | None => (Some s, take 1 s)
    end
  end.

Definition split_once (sep : Z) (s : list Z) : list Z * list Z :=
  let '(v, rest) := split_next sep s in (default [] v, rest).
Definition rsplit_once (sep : Z) (s : list Z) : list Z * list Z :=
  let '(v, rest) := split_next_back sep s in (rest, default [] v).

(** Collecting the iterator. *)
Fixpoint split_collect (fuel : nat) (sep : Z) (s : list Z) : list (list Z) :=
  match fuel with
  | O => []   (** not reached: see [split_collect_ok] *)
  | S k =>
    match split_next sep s with
    | (None, _) => []
    | (Some v, rest) => v :: split_collect k sep rest
    end
  end.

(** ** Environment lookup *)

Definition EQ : Z := 61.

(** [get_env] over the entries (regions after each pointer of [__environ]). *)
Fixpoint get_env_loop (var : list Z) (ents : list (list Z)) : outcome (option (list Z)) :=
  match ents with
  | [] => Ret None
  | region :: r =>
    st ← as_slice region;
    let '(key, val) := split_once EQ st in
    if bool_decide (key = var) then Ret (Some val) else get_env_loop var r
  end.
Definition get_env (environ : option (list (option (list Z)))) (var : list Z) :
    outcome (option (list Z)) :=
  match environ with
  | None => Ret None
  | Some arr => ents ← null_term arr; get_env_loop var ents
  end.

(** [get_cenv]: an entry that is not UTF-8 ends the search; the result is the
    string after the [=], read from the entry itself. *)
Fixpoint get_cenv_loop (var : list Z) (ents : list (list Z)) : outcome (option (list Z)) :=
  match ents with
  | [] => Ret None
  | region :: r =>
    bytes ← as_slice region;
    if utf8_ok bytes then
      let '(key, _) := split_once EQ bytes in
      if bool_decide (key = var) then
        rest ← slice_from bytes (length key + 1); Ret (Some rest)
      else get_cenv_loop var r
    else Ret None
  end.
Definition get_cenv (environ : option (list (option (list Z)))) (var : list Z) :
    outcome (option (list Z)) :=
  match environ with
  | None => Ret None
  | Some arr => ents ← null_term arr; get_cenv_loop var ents
  end.

(** ** The C memory functions *)

(** [memcmp]: the [i8] difference wraps (the loader is built without overflow
    checks). *)
Fixpoint memcmp (a b : list Z) : Z :=
  match a, b with
  | x :: a', y :: b' =>
    let d := swrap 8 (swrap 8 x - swrap 8 y) in
    if d =? 0 then memcmp a' b' else if d <? 0 then -1 else 1
  | _, _ => 0
  end.

(** [memset], [memmove], [memcpy] within one object, by offsets. *)
Fixpoint memset (l : list Z) (off : nat) (b : Z) (len : nat) : outcome (list Z) :=
  match len with
  | O => Ret l
  | S k => l ← store l off (as_u8 b); memset l (S off) b k
  end.
Fixpoint memmove (l : list Z) (dest src len : nat) : outcome (list Z) :=
  match len with
  | O => Ret l
  | S k => x ← index l src; l ← store l dest x; memmove l (S dest) (S src) k
  end.
Definition memcpy : list Z -> nat -> nat -> nat -> outcome (list Z) := memmove.

(** ** Splitting *)

Definition without (x : Z) (l : list Z) : Prop := Forall (fun b => (b =? x) = false) l.

Lemma split_find_stop s sep a r :
  s = a ++ sep :: r -> without sep a -> split_find s sep = Some (length a).
Proof. intros -> Ha. apply find_index_app_stop; [done|apply Z.eqb_refl]. Qed.
Lemma split_find_none s sep : without sep s -> split_find s sep = None.
Proof. apply find_index_none. Qed.

Lemma split_next_sep sep a r :
  without sep a -> split_next sep (a ++ sep :: r) = (Some a, r).
Proof.
  intros Ha. unfold split_next. rewrite (split_find_stop _ _ a r) by done.
  destruct (a ++ sep :: r) eqn:E; [by destruct a|]. rewrite <- E. f_equal; [by rewrite take_app_length|].
  rewrite drop_app_ge by lia. by replace (length a + 1 - length a)%nat with 1%nat by lia.
Qed.
Lemma split_next_last sep s : without sep s -> s <> [] -> split_next sep s = (Some s, []).
Proof. intros Hs Hne. unfold split_next. rewrite split_find_none by done. destruct s; [done|]. by rewrite drop_all. Qed.

Lemma split_once_sep sep a r : without sep a -> split_once sep (a ++ sep :: r) = (a, r).
Proof. intros. unfold split_once. by rewrite split_next_sep. Qed.

(** Fields joined by a separator. *)
Fixpoint join (sep : Z) (fs : list (list Z)) : list Z :=
  match fs with
  | [] => []
  | [f] => f
  | f :: r => f ++ sep :: join sep r
  end.
(** The fields without an empty last one. *)
Fixpoint trim (fs : list (list Z)) : list (list Z) :=
  match fs with
  | [] => []
  | [f] => match f with [] => [] | _ => [f] end
  | f :: r => f :: trim r
  end.

Lemma split_collect_ok sep fs fuel :
  Forall (without sep) fs -> (length (join sep fs) < fuel)%nat ->
  split_collect fuel sep (join sep fs) = trim fs.
Proof.
  intros Hfs. revert fuel. induction Hfs as [|f fs Hf Hfs IH]; intros fuel Hl;
    (destruct fuel as [|fuel]; [lia|]); [done|]. destruct fs as [|g fs].
  - cbn [split_collect join trim] in *. destruct f as [|b f]; [done|].
    rewrite split_next_last by done. by destruct fuel.
  - change (join sep (f :: g :: fs)) with (f ++ sep :: join sep (g :: fs)) in *.
    change (trim (f :: g :: fs)) with (f :: trim (g :: fs)).
    cbn [split_collect]. rewrite split_next_sep by done. f_equal. apply IH.
    rewrite length_app in Hl. simpl in Hl. simpl. lia.
Qed.

(** Iterating [SplitAscii] over fields joined by its separator gives back
    exactly the fields, in order, except that an empty last field is dropped. *)
Theorem split_collect_join sep fs :
  Forall (without sep) fs ->
  split_collect (S (length (join sep fs))) sep (join sep fs) = trim fs.
Proof. intros H. apply split_collect_ok; [done|lia]. Qed.

(** [rsplit_once] splits at the last separator; without one it should leave
    nothing on the left, but keeps the first byte there. *)
Theorem rsplit_once_spec sep a b :
  without sep b ->
  rsplit_once sep (a ++ sep :: b) = (a, b) /\ rsplit_once sep b = (take 1 b, b).
Proof.
  intros Hb. assert (without sep (rev b)) as Hrev.
  { by apply Forall_rev. }
  unfold rsplit_once, split_next_back, rfind. split.
  - rewrite rev_app_distr. cbn [rev]. rewrite <- app_assoc. cbn [app].
    rewrite find_index_app_stop by (done || apply Z.eqb_refl). rewrite length_rev, length_app. cbn [length].
    destruct (a ++ sep :: b) eqn:E; [by destruct a|]. rewrite <- E. cbn [default].
    replace (length a + S (length b) - 1 - length b)%nat with (length a) by lia.
    rewrite take_app_length. f_equal. simpl. rewrite drop_app_ge by lia.
    by replace (length a + 1 - length a)%nat with 1%nat by lia.
  - rewrite find_index_none by done. by destruct b.
Qed.

(** ** Environment *)

Lemma as_slice_ok s junk : without 0 s -> as_slice (s ++ 0 :: junk) = Ret s.
Proof. induction 1 as [|b s Hb _ IH]; simpl; [done|]. by rewrite Hb, IH. Qed.

Lemma null_term_ok {A} (l : list A) junk : null_term ((Some <$> l) ++ None :: junk) = Ret l.
Proof. induction l as [|a l IH]; [done|]. rewrite fmap_cons. cbn [app null_term]. by rewrite IH. Qed.

(** A variable setting in memory: the key has no [=], neither part a NUL. *)
Record setting : Type := mkSetting { s_name : list Z; s_value : list Z; s_junk : list Z }.
Definition setting_text (s : setting) : list Z := s_name s ++ EQ :: s_value s.
Definition setting_region (s : setting) : list Z := setting_text s ++ 0 :: s_junk s.
Definition setting_ok (s : setting) : Prop :=
  without EQ (s_name s) /\ without 0 (s_name s) /\ without 0 (s_value s) /\
  utf8_ok (setting_text s) = true.
Definition environ_of (ss : list setting) (junk : list (option (list Z))) :
    option (list (option (list Z))) :=
  Some ((Some <$> (setting_region <$> ss)) ++ None :: junk).
(** The value of the first setting of a name. *)
Definition first_value (var : list Z) (ss : list setting) : option (list Z) :=
  s_value <$> find (fun s => bool_decide (s_name s = var)) ss.

Lemma setting_slice s : setting_ok s -> as_slice (setting_region s) = Ret (setting_text s).
Proof.
  intros (_ & H1 & H2 & _). apply as_slice_ok. unfold setting_text.
  apply Forall_app. split; [done|]. by constructor.
Qed.

(** On an environment of well-formed UTF-8 settings, [get_env] and [get_cenv]
    agree: both return the value of the first setting with exactly that name, or
    nothing. *)
Theorem env_lookup_spec ss junk var :
  Forall setting_ok ss ->
  get_env (environ_of ss junk) var = Ret (first_value var ss) /\
  get_cenv (environ_of ss junk) var = Ret (first_value var ss).
Proof.
  intros Hss. unfold get_env, get_cenv, environ_of. rewrite !null_term_ok. cbn [mbind outcome_bind].
  unfold first_value. induction Hss as [|s ss Hs _ [IH1 IH2]]; [done|].
  cbn [fmap list_fmap get_env_loop get_cenv_loop find]. rewrite setting_slice by done.
  cbn [mbind outcome_bind]. destruct Hs as (Heq & _ & _ & Hu). rewrite Hu. unfold setting_text.
  rewrite split_once_sep by done. case_bool_decide; [|done]. split; [done|].
  rewrite slice_from_ok by (rewrite length_app; simpl; lia). cbn [mbind outcome_bind fmap option_fmap option_map].
  do 2 f_equal. rewrite drop_app_ge by lia. by replace (_ + 1 - _)%nat with 1%nat by lia.
Qed.

(** ** Memory functions *)

(** The order of the C standard: the first differing byte, as unsigned. *)
Fixpoint cmp_ref (a b : list Z) : Z :=
  match a, b with
  | x :: a', y :: b' => if x <? y then -1 else if y <? x then 1 else cmp_ref a' b'
  | _, _ => 0
  end.

Definition byte_range (b : Z) : Prop := 0 <= b < 256.

Lemma swrap_shift w z k : 0 <= w -> swrap w (z + k * 2 ^ w) = swrap w z.
Proof. intros Hw. unfold swrap, wrap. by rewrite Z.mod_add by lia. Qed.

Lemma swrap8_diff x y :
  byte_range x -> byte_range y -> swrap 8 (swrap 8 x - swrap 8 y) = swrap 8 (x - y).
Proof.
  assert (forall z, byte_range z -> exists k, swrap 8 z = z + k * 2 ^ 8) as H.
  { intros z Hz. unfold swrap. rewrite wrap_small by done. case_match; [exists 0|exists (-1)]; lia. }
  intros Hx Hy. destruct (H x Hx) as [i ->], (H y Hy) as [j ->].
  replace (x + i * 2 ^ 8 - (y + j * 2 ^ 8)) with (x - y + (i - j) * 2 ^ 8) by lia. by apply swrap_shift.
Qed.

(** The sign of the wrapped difference. *)
Lemma swrap8_sub x y :
  byte_range x -> byte_range y ->
  swrap 8 (x - y) = if 128 <=? x - y then x - y - 256 else if x - y <? -128 then x - y + 256 else x - y.
Proof.
  intros Hx Hy. unfold byte_range in *. unfold swrap, wrap. change (2 ^ 8) with 256. change (2 ^ (8 - 1)) with 128.
  destruct (Z.le_gt_cases 0 (x - y)).
  - rewrite Z.mod_small by lia. repeat case_match; reflect_bools; lia.
  - assert ((x - y) mod 256 = x - y + 256) as -> by (symmetry; apply (Z.mod_unique _ _ (-1)); lia).
    repeat case_match; reflect_bools; lia.
Qed.

(** The loader's [memcmp] answers 0 exactly on equal strings, and orders ASCII
    strings as C does; on bytes more than 127 apart its sign is inverted. *)
Theorem memcmp_spec a b :
  length a = length b -> Forall byte_range a -> Forall byte_range b ->
  (memcmp a b = 0 <-> a = b) /\
  (Forall (fun x => x < 128) a -> Forall (fun x => x < 128) b -> memcmp a b = cmp_ref a b) /\
  (forall x y r s, a = x :: r -> b = y :: s -> 128 < Z.abs (x - y) -> memcmp a b = - cmp_ref a b).
Proof.
  revert b. induction a as [|x a IH]; intros [|y b] Hl Ha Hb; try done.
  apply Forall_cons_1 in Ha as [Hx Ha], Hb as [Hy Hb]. cbn [memcmp cmp_ref].
  rewrite swrap8_diff, swrap8_sub by done. destruct (IH b) as (IH1 & IH2 & _); [by injection Hl|done|done|].
  unfold byte_range in *. split_and!.
  - destruct (Z.eq_dec x y) as [->|Hne].
    + rewrite Z.sub_diag. simpl. rewrite IH1. split; [by intros ->|by intros [= ->]].
    + repeat case_match; reflect_bools; split; intros ?; simplify_eq; lia.
  - intros [Ha' Ha'']%Forall_cons_1 [Hb' Hb'']%Forall_cons_1.
    repeat case_match; reflect_bools; lia || auto.
  - intros ? ? ? ? [= <- <-] [= <- <-] Hd. repeat case_match; reflect_bools; lia.
Qed.

Lemma store_overwrite (l : list Z) d x k ys :
  (d < length l)%nat -> (S d + length ys <= length l)%nat -> k = length ys ->
  overwrite (<[d := x]> l) (S d) ys = overwrite l d (x :: ys).
Proof.
  intros Hd Hl ->. apply list_eq. intros j.
  rewrite !overwrite_lookup by (rewrite ?length_insert; simpl; lia). simpl.
  repeat case_decide; try lia.
  - by replace (j - d)%nat with (S (j - S d)) by lia.
  - assert (j = d) as -> by lia. by rewrite list_lookup_insert_eq, Nat.sub_diag.
  - by rewrite list_lookup_insert_ne by lia.
Qed.

(** [memmove] (and [memcpy]) copies [len] bytes within an object when the
    destination does not lie strictly inside the source range; when it does, the
    forward loop reads bytes it has already overwritten. *)
Theorem memmove_spec l dest src len :
  (src + len <= length l)%nat -> (dest + len <= length l)%nat ->
  (dest <= src \/ src + len <= dest)%nat ->
  memmove l dest src len = Ret (overwrite l dest (take len (drop src l))).
Proof.
  revert l dest src. induction len as [|len IH]; intros l dest src Hs Hd Ho.
  - rewrite take_0. unfold overwrite. simpl. rewrite Nat.add_0_r. by rewrite take_drop.
  - cbn [memmove]. destruct (lookup_lt_is_Some_2 l src ltac:(lia)) as [x Hx].
    unfold index. rewrite Hx. cbn [mbind outcome_bind]. rewrite store_ok by lia. cbn [mbind outcome_bind].
    rewrite IH by (rewrite ?length_insert; lia). f_equal.
    assert (take len (drop (S src) (<[dest := x]> l)) = take len (drop (S src) l)) as ->.
    { destruct (decide (dest <= src)%nat).
      - by rewrite drop_insert_lt by lia.
      - rewrite drop_insert_ge by lia. by rewrite take_insert_ge by lia. }
    rewrite (store_overwrite _ _ _ len); [|lia|rewrite length_take, length_drop; lia|
      rewrite length_take, length_drop; lia].
    f_equal. by rewrite (drop_S _ _ _ Hx).
Qed.

(** ** Concrete inputs *)

Local Ltac no_sep := apply (bool_decide_unpack _); vm_compute; exact I.

(** Splitting at a comma. *)
Lemma split_collect_join_witness :
  split_collect 6 44 [97; 44; 98; 99; 44] = [[97]; [98; 99]].
Proof. apply (split_collect_join 44 [[97]; [98; 99]; []]). no_sep. Defined.

(** A path without a slash: the directory part is its first letter. *)
Lemma rsplit_once_spec_witness :
  rsplit_once 47 [102; 47; 111] = ([102], [111]) /\ rsplit_once 47 [111] = ([111], [111]).
Proof. apply (rsplit_once_spec 47 [102] [111]). no_sep. Defined.

Lemma env_lookup_spec_witness :
  get_env (environ_of [mkSetting [65] [49] []; mkSetting [66] [50] [7]] []) [66] = Ret (Some [50]) /\
  get_cenv (environ_of [mkSetting [65] [49] []; mkSetting [66] [50] [7]] []) [66] = Ret (Some [50]).
Proof.
  apply (env_lookup_spec [mkSetting [65] [49] []; mkSetting [66] [50] [7]] [] [66]).
  repeat constructor.
Defined.

Lemma memcmp_spec_witness : memcmp [0; 1] [255; 1] = 1.
Proof.
  apply (memcmp_spec [0; 1] [255; 1]) with (x := 0) (y := 255) (r := [1]) (s := [1]); try reflexivity;
    repeat constructor; unfold byte_range; lia.
Defined.

Lemma memmove_spec_witness : memmove [1; 2; 3; 4] 0 1 3 = Ret [2; 3; 4; 4].
Proof. apply (memmove_spec [1; 2; 3; 4] 0 1 3); simpl; lia. Defined.

(** One byte forward within the same object: every byte becomes the first. *)
Example memmove_overlap : memmove [1; 2; 3; 4] 1 0 3 = Ret [1; 1; 1; 1].
Proof. reflexivity. Qed.
