(* ===== verification/BufReader.v ===== *)
(** * Buffered input and formatted output of the loader (wl-ld-lilium/src/io.rs)

    [BufFdReader] over a descriptor whose [read(2)] results are given as a script:
    the bytes of each successful call, or its error; an exhausted script is the end
    of the file.  Also [pread_exact] (helpers.rs) and the formatter that writes to
    a descriptor. *)

From Stdlib Require Import ZArith Lia.
From stdpp Require Import base numbers list option.
From S2P Require Import Prelude.
From S2P Require Import Errors.
From S2P Require Import Bytes.

Local Open Scope Z_scope.

Definition BUF_SIZE : nat := 128%nat.
Definition NL : Z := 10.

(** [struct BufFdReader] and the future of its descriptor. *)
Record reader : Type := mkReader {
  buf : list Z;
  pos : nat;
  len : nat;
  input : list (result (list Z) errno) }.

Definition reader_new (input : list (result (list Z) errno)) : reader :=
  mkReader (replicate BUF_SIZE 0) 0 0 input.

(** [&self.buf[self.pos..self.len]]. *)
Definition buffered (r : reader) : list Z := drop (pos r) (take (len r) (buf r)).

(** [fill_buf]. *)
Definition fill_buf (r : reader) : reader * result (list Z) errno :=
  if decide (pos r = len r) then
    match input r with
    | [] => let r' := mkReader (buf r) 0 0 [] in (r', Ok (buffered r'))
    | Ok chunk :: rest =>
      let r' := mkReader (overwrite (buf r) 0 chunk) 0 (length chunk) rest in (r', Ok (buffered r'))
    | Err e :: rest => (mkReader (buf r) (pos r) (len r) rest, Err e)
    end
  else (r, Ok (buffered r)).

(** [consume]. *)
Definition consume (r : reader) (amt : nat) : outcome reader :=
  if decide (len r < pos r + amt)%nat then Panic Explicit
  else Ret (mkReader (buf r) (pos r + amt) (len r) (input r)).

(** [read]: the reader, the destination and the number of bytes. *)
Definition read (r : reader) (dest : list Z) : outcome (reader * list Z * result nat errno) :=
  let '(r, b) := fill_buf r in
  match b with
  | Err e => Ret (r, dest, Err e)
  | Ok this_buf =>
    let n := Nat.min (length dest) (length this_buf) in
    r ← consume r n; Ret (r, overwrite dest 0 (take n this_buf), Ok n)
  end.

(** [read_exact] into the bytes of [dest] from [off] on. *)
Fixpoint read_exact_loop (fuel : nat) (r : reader) (dest : list Z) (off : nat) :
    outcome (reader * list Z * result unit errno) :=
  match fuel with
  | O => Panic Explicit   (** not reached: see [read_exact_ok] *)
  | S k =>
    if decide (off = length dest) then Ret (r, dest, Ok tt) else
    '(r, tail, x) ← read r (drop off dest);
    let dest := take off dest ++ tail in
    match x with
    | Ok O => Ret (r, dest, Err ENODATA)
    | Ok n => read_exact_loop k r dest (off + n)
    | Err EINTR => read_exact_loop k r dest off
    | Err e => Ret (r, dest, Err e)
    end
  end.
Definition read_exact (r : reader) (dest : list Z) : outcome (reader * list Z * result unit errno) :=
  read_exact_loop (length dest + length (input r) + 2) r dest 0.

(** [read_line_static] into [n]; the returned slice is the head of [n]. *)
Fixpoint read_line_loop (fuel : nat) (r : reader) (n : list Z) (p : nat) :
    outcome (reader * list Z * result (option (list Z)) errno) :=
  match fuel with
  | O => Panic Explicit   (** not reached: see [read_line_ok] *)
  | S k =>
    let tail := drop p n in
    let '(r, b) := fill_buf r in
    match b with
    | Err e => Ret (r, n, Err e)
    | Ok b =>
      if decide (length b = 0%nat) then Ret (r, n, Ok None) else
      let '(found, max_len) :=
        match find_index (fun c => c =? NL) b with Some idx => (true, idx) | None => (false, length b) end in
      let real_len := Nat.min max_len (length tail) in
      '(tail', _) ← copy_to_slice_head tail (take real_len b);
      let n := take p n ++ tail' in
      r ← consume r (real_len + Nat.b2n found);
      let p := (p + real_len)%nat in
      if bool_decide (length tail < max_len)%nat || found then Ret (r, n, Ok (Some (take p n)))
      else read_line_loop k r n p
    end
  end.
Definition read_line_static (r : reader) (n : list Z) :
    outcome (reader * list Z * result (option (list Z)) errno) :=
  read_line_loop (length (input r) + 2) r n 0.

(** [seek]: the buffered bytes are dropped, whatever the result of the call. *)
Definition seek (lseek : result Z errno) (r : reader) : reader * result Z errno :=
  (mkReader (buf r) (len r) (len r) (input r), lseek).

(** [FdFormatter::write_str] with the results of [write(2)]: the bytes that reach
    the descriptor.  Every call passes the whole string. *)
Fixpoint write_str_loop (fuel : nat) (s b : list Z) (writes : list (result nat errno)) :
    outcome (list Z * result unit unit) :=
  match fuel with
  | O => Panic Explicit
  | S k =>
    match b, writes with
    | [], _ => Ret ([], Ok tt)
    | _, [] => Panic Explicit   (** the script of the descriptor ends *)
    | _, Err _ :: _ => Ret ([], Err tt)
    | _, Ok n :: ws =>
      b ← slice_from b n;
      '(out, x) ← write_str_loop k s b ws; Ret (take n s ++ out, x)
    end
  end.
Definition write_str (s : list Z) (writes : list (result nat errno)) :
    outcome (list Z * result unit unit) :=
  write_str_loop (S (length writes)) s s writes.

(** [pread_exact]: each call reads a prefix of what was asked at the offset. *)
Fixpoint pread_exact_loop (fuel : nat) (file : Z -> nat -> list Z) (calls : list (result nat errno))
    (offset : Z) (want : nat) : outcome (list Z * result unit errno) :=
  match fuel with
  | O => Panic Explicit
  | S k =>
    match want, calls with
    | O, _ => Ret ([], Ok tt)
    | _, [] => Panic Explicit
    | _, Ok O :: _ => Ret ([], Err ENODATA)
    | _, Ok n :: cs =>
      if decide (want < n)%nat then Panic OutOfBounds else
      let got := file offset n in
      '(rest, x) ← pread_exact_loop k file cs (offset + Z.of_nat n) (want - n); Ret (got ++ rest, x)
    | _, Err EINTR :: cs => pread_exact_loop k file cs offset want
    | _, Err e :: _ => Ret ([], Err e)
    end
  end.
Definition pread_exact (file : Z -> nat -> list Z) (calls : list (result nat errno))
    (offset : Z) (want : nat) : outcome (list Z * result unit errno) :=
  pread_exact_loop (S (length calls)) file calls offset want.

(** ** The stream behind a reader *)

(** A reader as its operations leave it, on a descriptor whose reads succeed with 1
    to 128 bytes until the end of the file, or are interrupted if [intr]. *)
Definition chunk_ok (intr : bool) (x : result (list Z) errno) : Prop :=
  match x with Ok c => (1 <= length c <= BUF_SIZE)%nat | Err e => intr = true /\ e = EINTR end.
Record reader_ok (intr : bool) (r : reader) : Prop := mkReaderOk {
  ro_size : length (buf r) = BUF_SIZE;
  ro_pos : (pos r <= len r <= BUF_SIZE)%nat;
  ro_input : Forall (chunk_ok intr) (input r) }.

Definition chunk_bytes (x : result (list Z) errno) : list Z := match x with Ok c => c | Err _ => [] end.
(** The bytes a client has not seen yet. *)
Definition stream (r : reader) : list Z := buffered r ++ (input r ≫= chunk_bytes).

Lemma reader_new_ok intr script : Forall (chunk_ok intr) script -> reader_ok intr (reader_new script).
Proof. intros H. split; [apply length_replicate|unfold BUF_SIZE; simpl; lia|done]. Qed.

Lemma length_buffered intr r : reader_ok intr r -> length (buffered r) = (len r - pos r)%nat.
Proof. intros [H1 H2 _]. unfold buffered. rewrite length_drop, length_take. lia. Qed.

(** [fill_buf]: the head of the stream, empty only at its end; an interrupted call
    changes nothing but the script. *)
Lemma fill_buf_ok intr r :
  reader_ok intr r ->
  exists r' x, fill_buf r = (r', x) /\ reader_ok intr r' /\ stream r' = stream r /\
    match x with
    | Ok b => b = buffered r' /\ (b = [] -> stream r = []) /\
              (length (input r') <= length (input r))%nat /\
              (pos r = len r -> input r <> [] -> length (input r') < length (input r))%nat
    | Err e => intr = true /\ e = EINTR /\ (length (input r') < length (input r))%nat
    end.
Proof.
  intros Hr. pose proof Hr as [H1 H2 H3]. unfold fill_buf. case_decide as Hp.
  - assert (buffered r = []) as Hb by (apply nil_length_inv; rewrite (length_buffered intr) by done; lia).
    destruct (input r) as [|[c|e] rest] eqn:Hi.
    + eexists _, _. split; [done|]. split; [split; simpl; [done|unfold BUF_SIZE; lia|constructor]|].
      unfold stream. rewrite Hb, Hi. split_and!; [done|done|done|simpl; lia|done].
    + apply Forall_cons_1 in H3 as [Hc H3]. simpl in Hc.
      assert (buffered (mkReader (overwrite (buf r) 0 c) 0 (length c) rest) = c) as Hbc.
      { unfold buffered, overwrite. simpl. rewrite drop_0. by rewrite take_app_length. }
      eexists _, _. split; [done|]. split.
      { split; simpl; [rewrite length_overwrite; lia|lia|done]. }
      unfold stream. rewrite Hbc, Hb, Hi. simpl. split_and!; [done|done| |lia|lia].
      intros ->. simpl in Hc. lia.
    + apply Forall_cons_1 in H3 as [[Hin He] H3]. eexists _, _. split; [done|]. split; [by split|].
      unfold stream, buffered. simpl. rewrite Hi. simpl. split_and!; [done|done|done|lia].
  - eexists _, _. split; [done|]. split_and!; [done|done|done| |lia|done].
    intros Hb. apply (f_equal length) in Hb. rewrite (length_buffered intr) in Hb by done. simpl in Hb. lia.
Qed.

Lemma consume_ok intr r n :
  reader_ok intr r -> (n <= length (buffered r))%nat ->
  exists r', consume r n = Ret r' /\ reader_ok intr r' /\ stream r' = drop n (stream r) /\
    buffered r' = drop n (buffered r) /\ input r' = input r.
Proof.
  intros Hr Hn. pose proof Hr as [H1 H2 H3]. rewrite (length_buffered intr) in Hn by done.
  unfold consume. rewrite decide_False by lia. eexists. split; [done|].
  assert (buffered (mkReader (buf r) (pos r + n) (len r) (input r)) = drop n (buffered r)) as Hb.
  { unfold buffered. simpl. by rewrite drop_drop. }
  split_and!; [by split; simpl; [|lia|]| |done|done].
  unfold stream. rewrite Hb. rewrite drop_app_le by (rewrite (length_buffered intr); lia || done). done.
Qed.

(** Copying a piece of the stream into the destination at [p]. *)
Lemma copy_tail (n : list Z) p b :
  (p + length b <= length n)%nat ->
  exists rest, copy_to_slice_head (drop p n) b = Ret (overwrite (drop p n) 0 b, rest) /\
    take p n ++ overwrite (drop p n) 0 b = overwrite n p b.
Proof.
  intros H. unfold copy_to_slice_head. rewrite decide_False by (rewrite length_drop; lia).
  eexists. split; [done|]. unfold overwrite. simpl. rewrite drop_drop. done.
Qed.

Lemma overwrite_twice (n : list Z) p a b :
  (p + length a + length b <= length n)%nat ->
  overwrite (overwrite n p a) (p + length a) b = overwrite n p (a ++ b).
Proof.
  intros H. apply list_eq. intros j.
  rewrite !overwrite_lookup by (rewrite ?length_overwrite, ?length_app; lia). rewrite length_app.
  repeat case_decide; try lia.
  - rewrite lookup_app_r by lia. f_equal. lia.
  - by rewrite lookup_app_l by lia.
  - done.
Qed.

Lemma take_overwrite (n : list Z) p a : (p + length a <= length n)%nat ->
  take (p + length a) (overwrite n p a) = take p n ++ a.
Proof.
  intros H. unfold overwrite. rewrite app_assoc, take_app_length'; [done|].
  rewrite length_app, length_take. lia.
Qed.

Lemma no_nl_find b : without NL b -> find_index (fun c => c =? NL) b = None.
Proof. apply find_index_none. Qed.

(** A head of the stream against its first line. *)
Lemma head_of_line b more l (tl : list Z) :
  b ++ more = l ++ tl ->
  (exists l', l = b ++ l' /\ more = l' ++ tl) \/
  (exists b', b = l ++ b' /\ b' <> [] /\ b' ++ more = tl).
Proof.
  intros H. destruct (decide (length b <= length l)%nat) as [Hle|Hgt].
  - left. apply (f_equal (take (length b))) in H as Ht. apply (f_equal (drop (length b))) in H as Hd.
    rewrite take_app_length, take_app_le in Ht by done. rewrite drop_app_length, drop_app_le in Hd by done.
    exists (drop (length b) l). split; [|done]. rewrite Ht at 1. by rewrite take_drop.
  - right. apply (f_equal (take (length l))) in H as Ht. apply (f_equal (drop (length l))) in H as Hd.
    rewrite take_app_length, take_app_le in Ht by lia. rewrite drop_app_length, drop_app_le in Hd by lia.
    exists (drop (length l) b). split_and!; [rewrite <- Ht at 1; by rewrite take_drop| |done].
    intros E%(f_equal length). rewrite length_drop in E. simpl in E. lia.
Qed.

(** Turns left for the loop. *)
Definition turns (r : reader) : nat := (length (input r) + (if decide (pos r = len r) then 1 else 2))%nat.

Lemma turns_next intr r r1 r2 :
  reader_ok intr r2 -> buffered r2 = [] -> input r2 = input r1 ->
  (length (input r1) <= length (input r))%nat ->
  (pos r = len r -> input r <> [] -> length (input r1) < length (input r))%nat ->
  (pos r = len r -> input r <> []) -> (S (turns r2) <= turns r)%nat.
Proof.
  intros Hr2 Hb E Hle Hlt Hne. unfold turns.
  apply (f_equal length) in Hb. rewrite (length_buffered intr) in Hb by done.
  pose proof (ro_pos _ _ Hr2). simpl in Hb. rewrite decide_True by lia. rewrite E.
  case_decide as Hp; [|lia]. specialize (Hlt Hp (Hne Hp)). lia.
Qed.

(** Nothing is buffered and nothing is left to read. *)
Lemma drained_stream intr r : reader_ok intr r -> pos r = len r -> input r = [] -> stream r = [].
Proof.
  intros Hr Hp Hin. unfold stream. rewrite Hin. simpl. rewrite app_nil_r. apply nil_length_inv.
  rewrite (length_buffered intr) by done. lia.
Qed.

(** The loop from position [p]: a line, or the end of the file. *)
Lemma read_line_ok fuel r n p l rest (closed : bool) :
  reader_ok false r -> without NL l ->
  stream r = l ++ (if closed then NL :: rest else []) -> (p + length l <= length n)%nat ->
  (turns r <= fuel)%nat ->
  exists r', reader_ok false r' /\
    read_line_loop fuel r n p =
      Ret (r', overwrite n p l, Ok (if closed then Some (take p n ++ l) else None)) /\
    stream r' = if closed then rest else [].
Proof.
  revert r n p l. induction fuel as [|fuel IH]; intros r n p l Hr Hnl Hst Hlen Hfuel;
    [unfold turns in *; case_decide; lia|].
  cbn [read_line_loop].
  destruct (fill_buf_ok false r Hr) as (r1 & [b|e] & -> & Hr1 & Hs1 & Hx); [|by destruct Hx].
  destruct Hx as (Hb & Hend & Hle & Hlt). subst b. case_decide as Hb0.
  { assert (stream r = []) as Hs by by apply Hend, nil_length_inv.
    rewrite Hs in Hst. destruct l as [|x l]; [|done]. destruct closed; [done|].
    exists r1. split; [done|]. rewrite Hs1, Hs. unfold overwrite. simpl. rewrite Nat.add_0_r.
    by rewrite take_drop. }
  rewrite <- Hs1 in Hst. unfold stream in Hst at 1.
  destruct (head_of_line _ _ _ _ Hst) as [(l' & -> & Hmore)|(b' & Eb & Hne & Hmore)].
  - apply Forall_app in Hnl as [Hnb Hnl']. rewrite length_app in Hlen.
    rewrite no_nl_find by done. cbv beta iota zeta. rewrite length_drop, Nat.min_l by lia.
    rewrite firstn_all. destruct (copy_tail n p (buffered r1)) as (tl & -> & E); [lia|].
    cbn [mbind outcome_bind Nat.b2n]. rewrite Nat.add_0_r, E.
    destruct (consume_ok false r1 (length (buffered r1))) as (r2 & -> & Hr2 & Hs2 & Hb2 & Hi2); [done|lia|].
    cbn [mbind outcome_bind]. rewrite bool_decide_eq_false_2 by lia. cbn [orb].
    rewrite drop_all in Hb2.
    assert (S (turns r2) <= turns r)%nat as Ht.
    { eapply (turns_next false r r1); try done. intros Hp Hin. destruct Hb0.
      pose proof (drained_stream false r Hr Hp Hin) as Hs0. rewrite <- Hs1 in Hs0. unfold stream in Hs0.
      by apply app_eq_nil in Hs0 as [-> _]. }
    destruct (IH r2 (overwrite n p (buffered r1)) (p + length (buffered r1))%nat l') as (r' & Hr' & El & Hs');
      [done|done| |rewrite length_overwrite; lia|lia|].
    { rewrite Hs2. unfold stream. rewrite drop_app_length. done. }
    exists r'. split; [done|]. rewrite El. split; [|done].
    rewrite overwrite_twice by lia. rewrite take_overwrite by lia. by rewrite app_assoc.
  - destruct closed; [|by apply app_eq_nil in Hmore as [-> _]].
    destruct b' as [|c b']; [done|]. simpl in Hmore. injection Hmore as -> Hrest. rewrite Eb.
    assert (find_index (fun c => c =? NL) (l ++ NL :: b') = Some (length l)) as ->
      by by apply find_index_app_stop.
    cbv beta iota zeta. rewrite length_drop, Nat.min_l by lia. rewrite take_app_length.
    destruct (copy_tail n p l) as (tl & -> & E); [lia|]. cbn [mbind outcome_bind Nat.b2n]. rewrite E.
    destruct (consume_ok false r1 (length l + 1)) as (r2 & -> & Hr2 & Hs2 & _ & _); [done| |].
    { rewrite Eb, length_app. simpl. lia. }
    cbn [mbind outcome_bind]. rewrite orb_true_r. exists r2. split; [done|].
    rewrite take_overwrite by lia. split; [done|]. rewrite Hs2. unfold stream. rewrite Eb.
    rewrite <- app_assoc, drop_app_ge by lia. replace (length l + 1 - length l)%nat with 1%nat by lia.
    simpl. done.
Qed.

Lemma turns_start r : (turns r <= length (input r) + 2)%nat.
Proof. unfold turns. case_decide; lia. Qed.

(** However the file arrives in chunks, [read_line_static] returns the next
    line (without its newline) when it fits the buffer, in the head of the buffer,
    and leaves the reader at the byte after the newline; a last line that is not
    ended by a newline is consumed and reported as no line at all. *)
Theorem read_line_spec r n l rest (closed : bool) :
  reader_ok false r -> without NL l -> stream r = l ++ (if closed then NL :: rest else []) ->
  (length l <= length n)%nat ->
  exists r', reader_ok false r' /\
    read_line_static r n = Ret (r', overwrite n 0 l, Ok (if closed then Some l else None)) /\
    stream r' = if closed then rest else [].
Proof.
  intros Hr Hl Hs Hn.
  destruct (read_line_ok (length (input r) + 2) r n 0 l rest closed) as (r' & Hr' & E & Hs');
    [done|done|done|lia|apply turns_start|]. exists r'. by rewrite take_0 in E.
Qed.

(** ** [read_exact] *)

(** One [read]: a head of the stream of the size that fits, or an interruption. *)
Lemma read_ok r dest :
  reader_ok true r -> dest <> [] ->
  exists r', reader_ok true r' /\
    ((exists k, read r dest = Ret (r', overwrite dest 0 (take k (stream r)), Ok k) /\
        (k <= length dest)%nat /\ (k <= length (stream r))%nat /\ (k = 0%nat -> stream r = []) /\
        stream r' = drop k (stream r) /\ (length (input r') <= length (input r))%nat) \/
     (read r dest = Ret (r', dest, Err EINTR) /\ stream r' = stream r /\
        (length (input r') < length (input r))%nat)).
Proof.
  intros Hr Hd. unfold read. destruct (fill_buf_ok true r Hr) as (r1 & [b|e] & -> & Hr1 & Hs1 & Hx).
  - destruct Hx as (-> & Hend & Hle & _). set (k := Nat.min (length dest) (length (buffered r1))).
    destruct (consume_ok true r1 k) as (r2 & -> & Hr2 & Hs2 & _ & Hi2); [done|lia|].
    exists r2. split; [done|]. left. exists k. cbn [mbind outcome_bind].
    assert (take k (buffered r1) = take k (stream r)) as ->.
    { rewrite <- Hs1. unfold stream. rewrite take_app_le by lia. done. }
    assert (length (buffered r1) <= length (stream r))%nat
      by (rewrite <- Hs1; unfold stream; rewrite length_app; lia).
    split_and!; [done|lia|lia| |by rewrite Hs2, Hs1|by rewrite Hi2].
    intros Hk. apply Hend, nil_length_inv.
    assert (length dest <> 0)%nat by (intros E; by apply nil_length_inv in E). subst k. lia.
  - destruct Hx as (_ & -> & Hlt). exists r1. split; [done|]. by right.
Qed.

Lemma read_exact_ok fuel r dest off :
  reader_ok true r -> (off <= length dest)%nat -> (length dest - off + length (input r) < fuel)%nat ->
  let m := (length dest - off)%nat in
  exists r', reader_ok true r' /\
    if decide (m <= length (stream r))%nat then
      read_exact_loop fuel r dest off = Ret (r', overwrite dest off (take m (stream r)), Ok tt) /\
      stream r' = drop m (stream r)
    else exists d, read_exact_loop fuel r dest off = Ret (r', d, Err ENODATA) /\ stream r' = [].
Proof.
  revert r dest off. induction fuel as [|fuel IH]; intros r dest off Hr Hoff Hf m; [lia|].
  cbn [read_exact_loop]. subst m. destruct (decide (off = length dest)) as [Heq|Heq].
  - exists r. split; [done|]. replace (length dest - off)%nat with 0%nat by lia.
    rewrite decide_True by lia. rewrite take_0, drop_0. split; [|done].
    unfold overwrite. simpl. rewrite Nat.add_0_r. by rewrite take_drop.
  - assert (drop off dest <> []) as Hne.
    { intros E%(f_equal length). rewrite length_drop in E. simpl in E. lia. }
    destruct (read_ok r (drop off dest) Hr Hne) as (r1 & Hr1 & [(k & -> & Hk & Hk' & Hz & Hs & Hi)|(-> & Hs & Hi)]);
      cbn [mbind outcome_bind].
    + rewrite length_drop in Hk. assert (length (take k (stream r)) = k) as Hlk by (rewrite length_take; lia).
      destruct k as [|k].
      * exists r1. split; [done|]. specialize (Hz eq_refl). rewrite Hz. simpl. rewrite decide_False by lia.
        eexists. split; [done|]. by rewrite Hs, Hz.
      * assert (take off dest ++ overwrite (drop off dest) 0 (take (S k) (stream r)) =
                overwrite dest off (take (S k) (stream r))) as ->.
        { unfold overwrite at 1. simpl take at 2. rewrite drop_drop. done. }
        destruct (IH r1 (overwrite dest off (take (S k) (stream r))) (off + S k)%nat) as (r' & Hr' & H);
          [done|rewrite length_overwrite; lia|rewrite length_overwrite; lia|].
        rewrite length_overwrite in H by lia. rewrite Hs, length_drop in H.
        exists r'. split; [done|]. case_decide; case_decide; try lia; [|done].
        destruct H as [-> ->].
        pose proof (overwrite_twice dest off (take (S k) (stream r))
          (take (length dest - (off + S k)) (drop (S k) (stream r)))) as E. rewrite Hlk in E.
        rewrite E by (rewrite length_take, length_drop; lia). rewrite drop_drop, take_take_drop.
        replace (S k + (length dest - (off + S k)))%nat with (length dest - off)%nat by lia. done.
    + destruct (IH r1 dest off) as (r' & Hr' & H); [done|lia|lia|]. rewrite Hs in H.
      exists r'. split; [done|]. by rewrite take_drop.
Qed.

(** C32: [read_exact] fills the whole buffer with the next bytes of the stream,
    across chunk boundaries and interrupted calls, and leaves the reader after
    them; on a stream that is too short it fails with ENODATA at its end. *)
Theorem read_exact_spec r dest :
  reader_ok true r ->
  exists r', reader_ok true r' /\
    if decide (length dest <= length (stream r))%nat then
      read_exact r dest = Ret (r', take (length dest) (stream r), Ok tt) /\
      stream r' = drop (length dest) (stream r)
    else exists d, read_exact r dest = Ret (r', d, Err ENODATA) /\ stream r' = [].
Proof.
  intros Hr. destruct (read_exact_ok (length dest + length (input r) + 2) r dest 0) as (r' & Hr' & H);
    [done|lia|lia|]. rewrite Nat.sub_0_r in H. exists r'. split; [done|].
  case_decide; [|done]. destruct H as [H Hs]. split; [|done]. unfold read_exact. rewrite H. do 3 f_equal.
  unfold overwrite. rewrite length_take, Nat.min_l by done. simpl. by rewrite drop_all, app_nil_r.
Qed.

(** ** Positioned reads and formatted writes *)

(** Whatever the sizes of the partial reads, a successful [pread_exact] returns the
    bytes of the file at the offset. *)
Lemma pread_exact_bytes content calls fuel offset want out :
  let file o n := take n (drop (Z.to_nat o) content) in
  0 <= offset ->
  pread_exact_loop fuel file calls offset want = Ret (out, Ok tt) ->
  out = take want (drop (Z.to_nat offset) content).
Proof.
  intros file. revert calls offset want out. induction fuel as [|fuel IH]; intros calls offset want out Ho H; [done|].
  cbn [pread_exact_loop] in H. destruct want as [|want]; [by injection H as <-; rewrite take_0|].
  destruct calls as [|[[|n]|[]] calls]; try done; [|by apply IH in H].
  case_decide; [done|].
  destruct (pread_exact_loop fuel file calls (offset + Z.of_nat (S n)) (S want - S n)) as [[rest x]|] eqn:E;
    cbn [mbind outcome_bind] in H; [|done]. injection H as <- ->. apply IH in E; [|lia]. subst rest file.
  cbv beta. replace (Z.to_nat (offset + Z.of_nat (S n))) with (Z.to_nat offset + S n)%nat by lia.
  rewrite <- drop_drop, take_take_drop. f_equal. lia.
Qed.

(** A write that the kernel accepts in full prints the string; a partial first
    write is followed by the whole string again, and when that one is accepted in
    full the slice of what is left panics. *)
Theorem write_str_spec s n ws :
  s <> [] -> (n < length s)%nat -> n <> 0%nat ->
  write_str s (Ok (length s) :: ws) = Ret (s, Ok tt) /\
  write_str s (Ok n :: Ok (length s) :: ws) = Panic OutOfBounds.
Proof.
  intros Hs Hn Hz. unfold write_str. destruct s as [|c s]; [done|]. split.
  - cbn [write_str_loop length]. rewrite slice_from_ok by (simpl; lia). cbn [mbind outcome_bind].
    rewrite drop_ge by (simpl; lia). cbn [mbind outcome_bind]. rewrite app_nil_r.
    do 2 f_equal. change (S (length s)) with (length (c :: s)). apply firstn_all.
  - cbn [write_str_loop length]. rewrite slice_from_ok by (simpl in *; lia). cbn [mbind outcome_bind].
    destruct (drop n (c :: s)) as [|d t] eqn:E.
    { apply (f_equal length) in E. rewrite length_drop in E. simpl in E, Hn. lia. }
    unfold slice_from. rewrite decide_False; [done|].
    apply (f_equal length) in E. rewrite length_drop in E. simpl in E |- *. lia.
Qed.

(** ** Concrete inputs *)

(** "ab", newline, "cd", in two chunks. *)
Definition two_chunks : reader := reader_new [Ok [97]; Ok [98; 10; 99; 100]].
Lemma two_chunks_ok : reader_ok false two_chunks.
Proof. apply reader_new_ok. repeat constructor; simpl; unfold BUF_SIZE; lia. Qed.

Lemma read_line_spec_witness :
  exists r', reader_ok false r' /\
    read_line_static two_chunks [0; 0; 0; 0] = Ret (r', [97; 98; 0; 0], Ok (Some [97; 98])) /\
    stream r' = [99; 100].
Proof.
  apply (read_line_spec two_chunks [0; 0; 0; 0] [97; 98] [99; 100] true two_chunks_ok);
    [repeat constructor|reflexivity|simpl; lia].
Defined.

Lemma read_exact_spec_witness :
  exists r', reader_ok true r' /\
    read_exact (reader_new [Ok [1]; Err EINTR; Ok [2; 3; 4]]) [0; 0; 0] = Ret (r', [1; 2; 3], Ok tt) /\
    stream r' = [4].
Proof.
  apply (read_exact_spec (reader_new [Ok [1]; Err EINTR; Ok [2; 3; 4]]) [0; 0; 0]).
  apply reader_new_ok. repeat constructor; simpl; unfold BUF_SIZE; lia.
Defined.

Lemma write_str_spec_witness :
  write_str [104; 105] [Ok 2%nat] = Ret ([104; 105], Ok tt) /\
  write_str [104; 105] [Ok 1%nat; Ok 2%nat] = Panic OutOfBounds.
Proof. apply (write_str_spec [104; 105] 1 []); [discriminate|simpl; lia|discriminate]. Defined.
