(* ===== verification/ProcMem.v ===== *)
(** * Memory mappings of the process subsystem (wl-usi-process/src/mem.rs)

    The four system calls translate Lilium mapping attributes to Linux protections
    and call [mmap], [munmap], [mremap] or [mprotect].  The attribute constants
    (lilium_sys) and the Linux constants are parameters, the results of the Linux
    calls too; a definition returns the call it makes. *)

From Stdlib Require Import ZArith Lia.
From stdpp Require Import base numbers list option gmap.
From S2P Require Import Prelude.
From S2P Require Import Errors.
From S2P Require Import CheckedMem.

Local Open Scope Z_scope.

(** The constants the code uses. *)
Record map_consts : Type := mkConsts {
  MAP_ATTR_READ : Z; MAP_ATTR_WRITE : Z; MAP_ATTR_EXEC : Z;
  MAP_ATTR_THREAD_PRIVATE : Z; MAP_ATTR_PROC_PRIVATE : Z; MAP_ATTR_RESERVE : Z;
  MAP_KIND_NORMAL : Z; MAP_KIND_RESIDENT : Z; MAP_KIND_SECURE : Z; MAP_KIND_ENCRYPTED : Z;
  PROT_NONE : Z; PROT_READ : Z; PROT_WRITE : Z; PROT_EXEC : Z;
  MAP_PRIVATE : Z; MAP_ANONYMOUS : Z; MREMAP_MAYMOVE : Z }.

Inductive linux_call : Type :=
| CallMmap (addr len prot flags fd off : Z)
| CallMunmap (addr len : Z)
| CallMremap (addr old_len new_len flags : Z)
| CallMprotect (addr len prot : Z).

(** [isize] multiplication with overflow checks, then [as usize]. *)
Definition isize_mul (a b : Z) : outcome Z :=
  let p := a * b in
  if (- 2 ^ 63 <=? p) && (p <? 2 ^ 63) then Ret (usize_wrap p) else Panic Overflow.

(** [x & m != 0]. *)
Definition any_bit (x m : Z) : bool := negb (Z.land x m =? 0).

Section Calls.
Context (c : map_consts).

Definition lor_all (l : list Z) : Z := foldl Z.lor 0 l.

Definition create_attrs : Z :=
  lor_all [MAP_ATTR_READ c; MAP_ATTR_WRITE c; MAP_ATTR_EXEC c; MAP_ATTR_THREAD_PRIVATE c;
           MAP_ATTR_PROC_PRIVATE c; MAP_ATTR_RESERVE c].
Definition change_attrs : Z :=
  lor_all [MAP_ATTR_READ c; MAP_ATTR_WRITE c; MAP_ATTR_EXEC c; MAP_ATTR_RESERVE c].
Definition kind_ok (k : Z) : bool :=
  (k =? MAP_KIND_NORMAL c) || (k =? MAP_KIND_RESIDENT c) || (k =? MAP_KIND_SECURE c) ||
  (k =? MAP_KIND_ENCRYPTED c).
(** [(attrs & (WRITE | EXEC)) == (WRITE | EXEC)]. *)
Definition write_and_exec (attrs : Z) : bool :=
  let we := Z.lor (MAP_ATTR_WRITE c) (MAP_ATTR_EXEC c) in Z.land attrs we =? we.

(** The sequence of [if]s that builds [linux_prot]. *)
Definition linux_prot (attrs : Z) : Z :=
  let p := 0 in
  let p := if any_bit attrs (MAP_ATTR_READ c) then Z.lor p (PROT_READ c) else p in
  let p := if any_bit attrs (MAP_ATTR_WRITE c) then Z.lor p (PROT_WRITE c) else p in
  let p := if any_bit attrs (MAP_ATTR_EXEC c) then Z.lor p (PROT_EXEC c) else p in
  if any_bit attrs (MAP_ATTR_RESERVE c) then Z.lor p (PROT_NONE c) else p.

(** [CreateMapping]: the call made, and the address to store through [base_addr]. *)
Definition CreateMapping (mmap : linux_call -> result Z errno) (hint page_count attrs kind : Z) :
    outcome (option linux_call * result Z SysError) :=
  if any_bit attrs (not_w 32 create_attrs) || negb (kind_ok kind) then Ret (None, Err InvalidOperation)
  else if write_and_exec attrs then Ret (None, Err InvalidOperation)
  else
    let flags := Z.lor (MAP_PRIVATE c) (MAP_ANONYMOUS c) in
    let flags := if any_bit attrs (MAP_ATTR_PROC_PRIVATE c) then Z.lor flags (MAP_PRIVATE c) else flags in
    len ← isize_mul page_count 4095;
    let call := CallMmap hint len (linux_prot attrs) flags (-1) 0 in
    Ret (Some call, map_err linux_error_to_lilium (mmap call)).

(** [RemoveMapping]. *)
Definition RemoveMapping (munmap : linux_call -> result unit errno) (base_addr page_count : Z) :
    outcome (option linux_call * result unit SysError) :=
  len ← isize_mul page_count 4096;
  let call := CallMunmap base_addr len in
  Ret (Some call, map_err linux_error_to_lilium (munmap call)).

(** [ResizeMapping]: on success the new address is written through [new_addr], a
    pointer that is 0 when null; [local] is the address of the call's own copy. *)
Definition ResizeMapping (mremap : linux_call -> result Z errno) (m : mem) (local : Z)
    (base_addr old_page_count new_addr new_page_count : Z) :
    outcome (option linux_call * mem * result unit SysError) :=
  let flags := if negb (new_addr =? 0) then Z.lor 0 (MREMAP_MAYMOVE c) else 0 in
  old_len ← isize_mul old_page_count 4096;
  new_len ← isize_mul new_page_count 4096;
  let call := CallMremap base_addr old_len new_len flags in
  match mremap call with
  | Err e => Ret (Some call, m, Err (linux_error_to_lilium e))
  | Ok ptr =>
    if negb (new_addr =? 0) then
      '(m', r) ← write_checked m local 8 new_addr (le_bytes 8 ptr);
      Ret (Some call, m', match r with Ok _ => Ok tt | Err _ => Err InvalidMemory end)
    else Ret (Some call, m, Ok tt)
  end.

(** [ChangeMappingAttributes]. *)
Definition ChangeMappingAttributes (mprotect : linux_call -> result unit errno)
    (base_addr page_count attrs : Z) : outcome (option linux_call * result unit SysError) :=
  if any_bit attrs (not_w 32 change_attrs) then Ret (None, Err InvalidOperation)
  else if write_and_exec attrs then Ret (None, Err InvalidOperation)
  else
    len ← isize_mul page_count 4096;
    let call := CallMprotect base_addr len (linux_prot attrs) in
    Ret (Some call, map_err linux_error_to_lilium (mprotect call)).
End Calls.

(** ** Protections *)

(** The constants as documented: each attribute and protection is one bit, all
    different, and [PROT_NONE] is 0. *)
Record consts_ok (c : map_consts) : Prop := {
  co_write : exists i, 0 <= i < 32 /\ MAP_ATTR_WRITE c = 2 ^ i;
  co_exec : exists i, 0 <= i < 32 /\ MAP_ATTR_EXEC c = 2 ^ i;
  co_none : PROT_NONE c = 0;
  co_pw : Z.land (PROT_WRITE c) (Z.lor (PROT_READ c) (PROT_EXEC c)) = 0;
  co_pe : Z.land (PROT_EXEC c) (Z.lor (PROT_READ c) (PROT_WRITE c)) = 0 }.

Lemma any_bit_pow x i : 0 <= i -> any_bit x (2 ^ i) = Z.testbit x i.
Proof.
  intros Hi. unfold any_bit. destruct (Z.testbit x i) eqn:E.
  - apply negb_true_iff, Z.eqb_neq. intros H. apply (f_equal (fun z => Z.testbit z i)) in H.
    rewrite Z.land_spec, Z.pow2_bits_true, Z.bits_0, E in H by lia. done.
  - apply negb_false_iff, Z.eqb_eq, Z.bits_inj'. intros j Hj.
    rewrite Z.land_spec, Z.bits_0. destruct (Z.eq_dec j i) as [->|]; [by rewrite E|].
    by rewrite Z.pow2_bits_false, andb_false_r by lia.
Qed.

(** The test refuses exactly the requests that ask for both. *)
Lemma write_and_exec_iff c attrs :
  consts_ok c ->
  write_and_exec c attrs = any_bit attrs (MAP_ATTR_WRITE c) && any_bit attrs (MAP_ATTR_EXEC c).
Proof.
  intros H. destruct (co_write c H) as (i & Hi & Ei), (co_exec c H) as (j & Hj & Ej).
  unfold write_and_exec. rewrite Ei, Ej, !any_bit_pow by lia. apply eq_true_iff_eq.
  rewrite Z.eqb_eq, andb_true_iff. split.
  - intros E. split; [apply (f_equal (fun z => Z.testbit z i)) in E|apply (f_equal (fun z => Z.testbit z j)) in E];
      rewrite Z.land_spec, Z.lor_spec in E; rewrite ?(Z.pow2_bits_true i), ?(Z.pow2_bits_true j) in E by lia.
    + by rewrite orb_true_l, andb_true_r in E.
    + by rewrite orb_true_r, andb_true_r in E.
  - intros [E1 E2]. apply Z.bits_inj'. intros k Hk. rewrite Z.land_spec, Z.lor_spec.
    destruct (Z.eq_dec k i) as [->|]; [by rewrite E1, andb_true_l|].
    destruct (Z.eq_dec k j) as [->|]; [by rewrite E2, andb_true_l|].
    by rewrite !Z.pow2_bits_false, andb_false_r by lia.
Qed.

Definition prot_of (call : linux_call) : option Z :=
  match call with
  | CallMmap _ _ prot _ _ _ | CallMprotect _ _ prot => Some prot
  | _ => None
  end.

Lemma linux_prot_exclusive c attrs :
  consts_ok c -> write_and_exec c attrs = false ->
  Z.land (linux_prot c attrs) (PROT_WRITE c) = 0 \/ Z.land (linux_prot c attrs) (PROT_EXEC c) = 0.
Proof.
  intros H. rewrite write_and_exec_iff by done. unfold linux_prot. rewrite (co_none c H), !Z.lor_0_l.
  pose proof (co_pw c H) as Hw. pose proof (co_pe c H) as He. rewrite Z.land_lor_distr_r in Hw, He.
  apply Z.lor_eq_0_iff in Hw as [Hwr Hwe], He as [Her Hew].
  destruct (any_bit attrs (MAP_ATTR_WRITE c)), (any_bit attrs (MAP_ATTR_EXEC c)); try done; intros _;
    destruct (any_bit attrs (MAP_ATTR_READ c)), (any_bit attrs (MAP_ATTR_RESERVE c));
    rewrite ?Z.lor_0_r, ?Z.lor_0_l, ?Z.land_0_l, ?Z.land_lor_distr_l; auto;
    first [ right; rewrite (Z.land_comm (PROT_READ c)), Her, (Z.land_comm (PROT_WRITE c)), Hew; done
          | left; rewrite (Z.land_comm (PROT_READ c)), Hwr, (Z.land_comm (PROT_EXEC c)), Hwe; done
          | right; rewrite (Z.land_comm (PROT_WRITE c)), Hew; done
          | left; rewrite (Z.land_comm (PROT_EXEC c)), Hwe; done
          | left; rewrite (Z.land_comm (PROT_READ c)), Hwr; done ].
Qed.

(** C36: no mapping is ever created, nor changed to be, both writable and
    executable: a request for both is refused before any Linux call, and every call
    that is made lacks one of the two protections. *)
Theorem no_writable_text c attrs :
  consts_ok c ->
  (forall mmap hint n kind o r, CreateMapping c mmap hint n attrs kind = Ret (o, r) ->
     match o with
     | Some call => exists p, prot_of call = Some p /\
         (Z.land p (PROT_WRITE c) = 0 \/ Z.land p (PROT_EXEC c) = 0)
     | None => r = Err InvalidOperation
     end) /\
  (forall mprotect base n o r, ChangeMappingAttributes c mprotect base n attrs = Ret (o, r) ->
     match o with
     | Some call => exists p, prot_of call = Some p /\
         (Z.land p (PROT_WRITE c) = 0 \/ Z.land p (PROT_EXEC c) = 0)
     | None => r = Err InvalidOperation
     end) /\
  (any_bit attrs (MAP_ATTR_WRITE c) && any_bit attrs (MAP_ATTR_EXEC c) = true ->
     (forall mmap hint n kind, CreateMapping c mmap hint n attrs kind = Ret (None, Err InvalidOperation)) /\
     (forall mprotect base n, ChangeMappingAttributes c mprotect base n attrs = Ret (None, Err InvalidOperation))).
Proof.
  intros H. split_and!.
  - intros mmap hint n kind o r E. unfold CreateMapping in E. case_match; [by simplify_eq|].
    destruct (write_and_exec c attrs) eqn:Hwe; [by simplify_eq|].
    destruct (isize_mul n 4095) as [len|]; cbn [mbind outcome_bind] in E; [|done]. simplify_eq.
    eexists. split; [done|]. by apply linux_prot_exclusive.
  - intros mprotect base n o r E. unfold ChangeMappingAttributes in E. case_match; [by simplify_eq|].
    destruct (write_and_exec c attrs) eqn:Hwe; [by simplify_eq|].
    destruct (isize_mul n 4096) as [len|]; cbn [mbind outcome_bind] in E; [|done]. simplify_eq.
    eexists. split; [done|]. by apply linux_prot_exclusive.
  - rewrite <- write_and_exec_iff by done. intros Hwe. unfold CreateMapping, ChangeMappingAttributes.
    rewrite Hwe. split; intros; by case_match.
Qed.

(** Pages covered by a request of [len] bytes. *)
Definition pages (len : Z) : Z := (len + 4095) / 4096.

Lemma isize_mul_ok n k len : 0 <= n -> 0 <= k -> isize_mul n k = Ret len -> len = n * k /\ 0 <= len < 2 ^ 63.
Proof.
  unfold isize_mul. intros Hn Hk H. destruct (_ && _) eqn:E; [|done]. reflect_bools. simplify_eq.
  unfold usize_wrap. rewrite wrap_small by nia. nia.
Qed.

(** [CreateMapping] asks for 4095 bytes per page: the mapping has
    [n - n / 4096] pages, which is the number requested exactly when fewer than
    4096 pages are, while the other three calls count pages of 4096 bytes. *)
Theorem create_mapping_pages c mmap hint n attrs kind call r :
  0 <= n -> CreateMapping c mmap hint n attrs kind = Ret (Some call, r) ->
  exists len prot flags, call = CallMmap hint len prot flags (-1) 0 /\
    pages len = n - n / 4096 /\ (pages len = n <-> n < 4096).
Proof.
  intros Hn E. unfold CreateMapping in E. case_match; [done|]. case_match; [done|].
  destruct (isize_mul n 4095) as [len|] eqn:Hm; cbn [mbind outcome_bind] in E; [|done].
  injection E as <- _. apply isize_mul_ok in Hm as [-> _]; [|lia..].
  eexists _, _, _. split; [done|].
  assert (pages (n * 4095) = n - n / 4096) as ->.
  { unfold pages. pose proof (Z.div_mod n 4096 ltac:(lia)). pose proof (Z.mod_pos_bound n 4096 ltac:(lia)).
    symmetry. apply (Z.div_unique _ _ _ (4095 - n mod 4096)); lia. }
  split; [done|]. pose proof (Z.div_small n 4096). pose proof (Z.div_str_pos n 4096).
  destruct (Z_lt_le_dec n 4096); [lia|].
  assert (0 < n / 4096) by (apply Z.div_str_pos; lia). lia.
Qed.

(** Writing a prefix leaves the rest of what was there. *)
Lemma bytes_at_prefix m a old xs :
  bytes_at m a old -> (length xs <= length old)%nat ->
  bytes_at (write_bytes m a xs) a (xs ++ drop (length xs) old).
Proof.
  intros H Hl i b Hi. simpl. rewrite insert_bytes_lookup. case_decide.
  - replace (Z.to_nat _) with i by lia. by rewrite lookup_app_l in Hi by lia.
  - rewrite lookup_app_r, lookup_drop in Hi by lia.
    apply H. by replace (length xs + (i - length xs))%nat with i in Hi by lia.
Qed.

(** A successful [ResizeMapping] stores the new address through a checked
    write of 8 bytes, of which the last one is not written: the pointer that
    arrives keeps the old top byte of the caller's variable. *)
Theorem resize_mapping_writes_seven c mremap m local base n_old new_addr n_new call ptr old :
  mremap call = Ok ptr -> call = CallMremap base (n_old * 4096) (n_new * 4096) (Z.lor 0 (MREMAP_MAYMOVE c)) ->
  0 <= n_old < 2 ^ 40 -> 0 <= n_new < 2 ^ 40 -> new_addr <> 0 ->
  bytes_at m new_addr old -> length old = 8%nat -> writable_at m new_addr 8 ->
  disjoint_at local new_addr 8 -> in_address_space local 8 -> in_address_space new_addr 8 ->
  exists m', ResizeMapping c mremap m local base n_old new_addr n_new = Ret (Some call, m', Ok tt) /\
    bytes_at m' new_addr (take 7 (le_bytes 8 ptr) ++ drop 7 old).
Proof.
  intros Hcall Hc Ho Hn Hne Hold Hlen Hw Hd Hl Ha. unfold ResizeMapping.
  rewrite (proj2 (Z.eqb_neq new_addr 0)) by done. cbn [negb].
  assert (forall n, 0 <= n < 2 ^ 40 -> isize_mul n 4096 = Ret (n * 4096)) as Hmul.
  { intros n H. unfold isize_mul. rewrite (proj2 (Z.leb_le _ _)), (proj2 (Z.ltb_lt _ _)) by lia. simpl.
    unfold usize_wrap. by rewrite wrap_small by lia. }
  rewrite !Hmul by done. cbn [mbind outcome_bind]. rewrite <- Hc, Hcall.
  unfold write_checked. set (bs := le_bytes 8 ptr). set (m1 := write_bytes m local bs).
  assert (length bs = 8%nat) as Hbs by apply length_le_bytes.
  pose proof (copy_bytes_ok m1 local new_addr bs) as Hcopy. rewrite Hbs in Hcopy.
  change (copy_nonoverlapping_checked m1 8 local new_addr 1)
    with (copy_nonoverlapping_checked m1 1 local new_addr (Z.of_nat 8)).
  rewrite Hcopy; [|apply bytes_at_written|by apply writable_at_write|done|done|done].
  cbn [mbind outcome_bind]. eexists. split; [done|]. change (Z.to_nat (copied (Z.of_nat 8))) with 7%nat.
  assert (length (take 7 bs) = 7%nat) as H7 by (rewrite length_take; lia).
  rewrite <- H7 at 3. apply bytes_at_prefix; [|lia].
  apply bytes_at_write; [done|]. unfold disjoint_at in Hd. lia.
Qed.

(** ** Concrete inputs *)

Definition sample_consts : map_consts :=
  mkConsts 1 2 4 8 16 32 0 1 2 3 0 1 2 4 2 32 1.
Lemma sample_consts_ok : consts_ok sample_consts.
Proof. split; [exists 1|exists 2|..]; simpl; done || (split; [lia|done]). Qed.

Lemma no_writable_text_witness :
  CreateMapping sample_consts (fun _ => Ok 4096) 0 1 6 0 = Ret (None, Err InvalidOperation).
Proof. apply (no_writable_text sample_consts 6 sample_consts_ok). reflexivity. Defined.

Lemma create_mapping_pages_witness :
  exists len prot flags, CallMmap 0 16773120 1 34 (-1) 0 = CallMmap 0 len prot flags (-1) 0 /\
    pages len = 4096 - 4096 / 4096 /\ (pages len = 4096 <-> 4096 < 4096).
Proof.
  apply (create_mapping_pages sample_consts (fun _ => Ok 8192) 0 4096 1 0 _ (Ok 8192)); [lia|reflexivity].
Defined.

Definition resize_mem : mem := write_bytes (write_bytes blank 100 (replicate 8 0)) 200 (replicate 8 255).

Lemma resize_mapping_writes_seven_witness :
  exists m', ResizeMapping sample_consts (fun _ => Ok 4096) resize_mem 100 65536 1 200 2 =
      Ret (Some (CallMremap 65536 4096 8192 1), m', Ok tt) /\
    bytes_at m' 200 [0; 16; 0; 0; 0; 0; 0; 255].
Proof.
  apply (resize_mapping_writes_seven sample_consts (fun _ => Ok 4096) resize_mem 100 65536 1 200 2
           (CallMremap 65536 4096 8192 1) 4096 (replicate 8 255)); try reflexivity; try lia.
  - apply bytes_at_written.
  - exact (writable_at_written (write_bytes blank 100 (replicate 8 0)) 200 (replicate 8 255) (fun _ => eq_refl)).
  - left. simpl. lia.
  - split; simpl; lia.
  - split; simpl; lia.
Defined.
