(* ===== verification/Signals.v ===== *)
(** * Signals, exceptions and trapped system calls

    The translation of signals to exception identifiers and the dispatch in the
    signal handler (wl-impl/src/catch_signals.rs), the names of exceptions
    (wl-impl/src/helpers/strexcept.rs), and the register moves between a trapped
    context and the system call handler.  Exception identifiers are UUIDs, kept as
    their text; the signal numbers are those of Linux on x86-64. *)

From Stdlib Require Import ZArith Lia.
From stdpp Require Import base numbers list option strings.
From S2P Require Import Prelude.
From S2P Require Import Syscalls.

Local Open Scope Z_scope.

(** The signals the code names; the others by number. *)
Definition SIGINT : Z := 2.
Definition SIGQUIT : Z := 3.
Definition SIGILL : Z := 4.
Definition SIGTRAP : Z := 5.
Definition SIGABRT : Z := 6.
Definition SIGBUS : Z := 7.
Definition SIGFPE : Z := 8.
Definition SIGKILL : Z := 9.
Definition SIGSEGV : Z := 11.
Definition SIGCHLD : Z := 17.
Definition SIGSYS : Z := 31.

(** [sig_to_except]. *)
Definition sig_to_except (signo : Z) : option string :=
  if signo =? SIGABRT then Some "466fbae6-be8b-5525-bd04-ee7153b74f55"%string
  else if signo =? SIGBUS then Some "ef1d81bc-58d9-5779-a4c7-540b9163cdf1"%string
  else if signo =? SIGSEGV then Some "fcf8d451-89e6-50b5-b2e6-396aec58a74a"%string
  else if signo =? SIGILL then Some "9dc46cba-85a4-5b94-be24-03717a40c72b"%string
  else if signo =? SIGFPE then Some "5c91c672-f971-5b6b-a806-d6a6d2c8eb8a"%string
  else if signo =? SIGKILL then Some "f2520097-7a84-54f6-baf6-380242841fe9"%string
  else if signo =? SIGINT then Some "255f142a-31da-53d6-8667-a69cd7c2ab12"%string
  else if signo =? SIGTRAP then Some "df1ddb62-49c5-560f-86ab-1910471570b1"%string
  else if signo =? SIGQUIT then None
  else Some "79a90b8e-8f4b-5134-8aa2-ff68877017db"%string.

(** [strexcept]: a name, or the UUID itself. *)
Inductive StrExcept : Type := Named (n : string) | Unknown (u : string).

Definition EMUL_ERROR : string := "05e3080f-ded6-54a7-acfd-afec3d7e93cb".
Definition SYSV_EXCEPTION : string := "4c0c6658-59ae-5675-90c3-ffcc0a7219ad".
Definition except_names : list (string * string) :=
  [(EMUL_ERROR, "Emulation Error (winter-lily Interal Error)");
   (SYSV_EXCEPTION, "Uncaught Runtime Exception");
   ("466fbae6-be8b-5525-bd04-ee7153b74f55", "Aborted");
   ("fcf8d451-89e6-50b5-b2e6-396aec58a74a", "Memory Access Violation");
   ("ef1d81bc-58d9-5779-a4c7-540b9163cdf1", "Memory Access Error");
   ("f2520097-7a84-54f6-baf6-380242841fe9", "Killed (Kernel)");
   ("79a90b8e-8f4b-5134-8aa2-ff68877017db", "Killed (Remote Process)");
   ("255f142a-31da-53d6-8667-a69cd7c2ab12", "User Interrupt");
   ("df1ddb62-49c5-560f-86ab-1910471570b1", "Breakpoint Trap");
   ("9dc46cba-85a4-5b94-be24-03717a40c72b", "Illegal Instruction");
   ("5c91c672-f971-5b6b-a806-d6a6d2c8eb8a", "Floating-point Exception")]%string.
Definition strexcept (u : string) : StrExcept :=
  match find (fun e => bool_decide (e.1 = u)) except_names with
  | Some e => Named e.2
  | None => Unknown u
  end.

(** ** The trapped context *)

Record mcontext : Type := mkCtx {
  c_rax : Z; c_rdi : Z; c_rsi : Z; c_rdx : Z; c_r10 : Z; c_r8 : Z; c_r9 : Z; c_others : list Z }.

Section Handler.
(** What a system call reads and changes apart from the registers: memory, the kernel, the
    tables of the subsystems. *)
Context {W : Type}.

(** The end of a call: a result and the world it leaves, or [Gone] when control never comes
    back to the caller (the functions of type [!], and a call that ends the thread or the
    process or waits for ever). *)
Inductive call_result : Type := Returned (rax : Z) (w : W) | Gone (w : W).

(** A system call implementation on its six register arguments. *)
Definition sysimpl : Type := sysfn -> Z -> Z -> Z -> Z -> Z -> Z -> W -> call_result.

(** The end of a trap: the program resumes with a context, or the call did not come back. *)
Inductive trap_result : Type := Resumed (c : mcontext) (w : W) | NotBack (w : W).

Definition set_rax (v : Z) (c : mcontext) : mcontext :=
  mkCtx v (c_rdi c) (c_rsi c) (c_rdx c) (c_r10 c) (c_r8 c) (c_r9 c) (c_others c).

(** [invoke_syscall_uctx]: the arguments are moved to the C calling convention (the
    fourth from [r10] to [rcx]), and [rax] receives the result. *)
Definition invoke_syscall_uctx (UNSUPPORTED : Z) (impl : sysimpl) (r : registry) (c : mcontext) (w : W) : trap_result :=
  match handle_syscall r (c_rax c) with
  | Jump f =>
    match impl f (c_rdi c) (c_rsi c) (c_rdx c) (c_r10 c) (c_r8 c) (c_r9 c) w with
    | Returned v w' => Resumed (set_rax v c) w'
    | Gone w' => NotBack w'
    end
  | Unsupported => Resumed (set_rax UNSUPPORTED c) w
  end.

(** [__sa_handler_seh_impl]: resume with a context, end the process with an exception
    ([exit_unrecoverably]), or stay in the system call. *)
Inductive sig_action : Type :=
| Resume (c : mcontext) (w : W)
| ExitWith (except : option string)
| StayInCall (w : W).
Definition sa_handler_seh (UNSUPPORTED : Z) (impl : sysimpl) (r : registry) (signo : Z) (c : mcontext) (w : W) : sig_action :=
  if signo =? SIGSYS then
    match invoke_syscall_uctx UNSUPPORTED impl r c w with
    | Resumed c' w' => Resume c' w'
    | NotBack w' => StayInCall w'
    end
  else if signo =? SIGCHLD then Resume c w
  else ExitWith (sig_to_except signo).
End Handler.
Arguments call_result : clear implicits.
Arguments sysimpl : clear implicits.
Arguments trap_result : clear implicits.
Arguments sig_action : clear implicits.

(** ** Theorems *)

Definition except_codes : list string :=
  ["466fbae6-be8b-5525-bd04-ee7153b74f55"; "ef1d81bc-58d9-5779-a4c7-540b9163cdf1";
   "fcf8d451-89e6-50b5-b2e6-396aec58a74a"; "9dc46cba-85a4-5b94-be24-03717a40c72b";
   "5c91c672-f971-5b6b-a806-d6a6d2c8eb8a"; "f2520097-7a84-54f6-baf6-380242841fe9";
   "255f142a-31da-53d6-8667-a69cd7c2ab12"; "df1ddb62-49c5-560f-86ab-1910471570b1";
   "79a90b8e-8f4b-5134-8aa2-ff68877017db"]%string.

Lemma sig_to_except_code signo e : sig_to_except signo = Some e -> e ∈ except_codes.
Proof.
  unfold sig_to_except. intros H. repeat case_hyp H; try done; injection H as <-;
    apply (bool_decide_unpack _); by vm_compute.
Qed.
Lemma codes_named : Forall (fun e => exists n, strexcept e = Named n) except_codes.
Proof. repeat constructor; eexists; by vm_compute. Qed.

(** The handler resumes the program only on the trap of a system call that returns, where
    it changes no register but [rax], and on a child's death, where it changes none;
    a call that does not return keeps the handler, and every other signal ends the process,
    with an exception that has a name, except for SIGQUIT, which has none. *)
Theorem signal_handler_spec {W} UNSUPPORTED (impl : sysimpl W) r signo c w :
  match sa_handler_seh UNSUPPORTED impl r signo c w with
  | Resume c' w' =>
    (signo = SIGSYS \/ signo = SIGCHLD /\ c' = c /\ w' = w) /\
    (c_rdi c', c_rsi c', c_rdx c', c_r10 c', c_r8 c', c_r9 c', c_others c') =
    (c_rdi c, c_rsi c, c_rdx c, c_r10 c, c_r8 c, c_r9 c, c_others c)
  | StayInCall w' => signo = SIGSYS /\ exists f, handle_syscall r (c_rax c) = Jump f /\
    impl f (c_rdi c) (c_rsi c) (c_rdx c) (c_r10 c) (c_r8 c) (c_r9 c) w = Gone w'
  | ExitWith None => signo = SIGQUIT
  | ExitWith (Some e) => signo <> SIGQUIT /\ exists n, strexcept e = Named n
  end.
Proof.
  unfold sa_handler_seh. destruct (Z.eqb_spec signo SIGSYS) as [->|].
  { unfold invoke_syscall_uctx. destruct (handle_syscall r (c_rax c)) as [f|]; [|split; [by left|done]].
    destruct (impl _ _ _ _ _ _ _ _) as [v w'|w'] eqn:E; split; try done; [by left|by exists f]. }
  destruct (Z.eqb_spec signo SIGCHLD) as [->|]; [split; [by right|done]|].
  destruct (sig_to_except signo) as [e|] eqn:E.
  - pose proof codes_named as Hn. rewrite Forall_forall in Hn.
    split; [by intros ->|apply Hn, (sig_to_except_code _ _ E)].
  - unfold sig_to_except in E. repeat case_hyp E; try done. reflect_bools. done.
Qed.
