(* ===== verification/IoCalls.v ===== *)
(** * System calls on handles

    [IOWrite], [IORead] (wl-usi-io/src/basic.rs), [OpenFile] (fs.rs), [OpenDevice]
    (dev.rs), [CreateProcess] and [JoinProcess] (wl-usi-process/src/proc.rs),
    written and proved against the interface [HandleTable]: they hold for any
    table that keeps its promises, and for the thread-local one of [Handles] by its
    instance.  Constants of lilium_sys and of the operating system and the results
    of Linux calls are parameters. *)

From Stdlib Require Import ZArith Lia.
From stdpp Require Import base numbers list option strings.
From S2P Require Import Prelude.
From S2P Require Import Errors.
From S2P Require Import Handles.
From S2P Require Import Signals.

Local Open Scope Z_scope.

(** The constants the calls use. *)
Record io_consts : Type := mkIoConsts {
  HANDLE_TYPE_IO : Z; HANDLE_SUBTYPE_IO_FILE : Z; HANDLE_TYPE_PROC : Z;
  OP_NO_ACCESS : Z; OP_ACL_ACCESS : Z; OP_DIRECTORY_ACCESS : Z;
  ACCESS_READ : Z; ACCESS_WRITE : Z; ACCESS_CREATE : Z; ACCESS_CREATE_EXCLUSIVE : Z;
  ACCESS_LINK_STREAM_DIRECT : Z; ACCESS_TRUNCATE : Z; ACCESS_START_END : Z;
  O_CLOEXEC : Z; O_PATH : Z; O_RDWR : Z; O_RDONLY : Z; O_WRONLY : Z; O_CREATE : Z; O_EXCL : Z;
  O_NOFOLLOW : Z; O_TRUNC : Z; O_APPEND : Z; O_DIRECTORY : Z; AT_FDCWD : Z;
  OPTION_FLAG_IGNORE : Z }.

(** [struct FileOpenOptions], the fields that are read. *)
Record FileOpenOptions : Type := mkOpts { op_mode : Z; access_mode : Z }.

(** One of the options of [CreateProcess]: arguments, or another kind with flags. *)
Inductive CreateProcessOption : Type :=
| OptArgs (args : list (list Z))
| OptOther (flags : Z).

(** What [waitid] reports of an exited process. *)
Inductive wait_status : Type := Signaled (sig : Z) | Exited (code : Z).

(** [union JoinStatus], as written to the caller. *)
Inductive JoinStatus : Type :=
| ExitException (except_code : string)
| ExitCodeDiscr (discriminant : Z)
| ExitCode (exit_code : Z).

Section Calls.
Context {T : Type} `{HandleTable T} (c : io_consts).

Definition has_bits (x m : Z) : bool := negb (Z.land x m =? 0).

(** The common head of [IOWrite] and [IORead]: the descriptor of an I/O handle. *)
Definition io_fd (t : T) (hdl : Z) : outcome (result Z SysError) :=
  match ht_deref t hdl with
  | Err e => Ret (Err e)
  | Ok h =>
    match check_type h (HANDLE_TYPE_IO c) 0xF0000000 with
    | Err e => Ret (Err e)
    | Ok _ => fd ← expect (borrow_fd h); Ret (Ok fd)
    end
  end.

(** [IOWrite] and [IORead]: the descriptor used, if any, and the result. *)
Definition IOWrite (write : Z -> result Z errno) (t : T) (hdl : Z) :
    outcome (option Z * result Z SysError) :=
  x ← io_fd t hdl;
  match x with
  | Err e => Ret (None, Err e)
  | Ok fd => Ret (Some fd, map_err linux_error_to_lilium (write fd))
  end.
Definition IORead (read : Z -> result Z errno) (t : T) (hdl : Z) :
    outcome (option Z * result Z SysError) :=
  x ← io_fd t hdl;
  match x with
  | Err e => Ret (None, Err e)
  | Ok fd => Ret (Some fd, map_err linux_error_to_lilium (read fd))
  end.

(** [OpenDevice]. *)
Definition OpenDevice (id : string) : result unit SysError := Err UnknownDevice.

(** The open flags of [OpenFile]. *)
Definition open_flags (o : FileOpenOptions) : Z :=
  let f := O_CLOEXEC c in
  let f :=
    if (op_mode o =? OP_NO_ACCESS c) || (op_mode o =? OP_ACL_ACCESS c) then Z.lor f (O_PATH c)
    else if Z.land (access_mode o) (Z.lor (ACCESS_READ c) (ACCESS_WRITE c)) =? Z.lor (ACCESS_READ c) (ACCESS_WRITE c)
    then Z.lor f (O_RDWR c)
    else if has_bits (access_mode o) (ACCESS_READ c) then Z.lor f (O_RDONLY c)
    else if has_bits (access_mode o) (ACCESS_WRITE c) then Z.lor f (O_WRONLY c) else f in
  let f := if has_bits (access_mode o) (ACCESS_CREATE c) then Z.lor f (O_CREATE c) else f in
  let f := if has_bits (access_mode o) (ACCESS_CREATE_EXCLUSIVE c) then Z.lor f (O_EXCL c) else f in
  let f := if has_bits (access_mode o) (ACCESS_LINK_STREAM_DIRECT c) then Z.lor f (O_NOFOLLOW c) else f in
  let f := if has_bits (access_mode o) (ACCESS_TRUNCATE c) then Z.lor f (O_TRUNC c) else f in
  let f := if has_bits (access_mode o) (ACCESS_START_END c) then Z.lor f (O_APPEND c) else f in
  if op_mode o =? OP_DIRECTORY_ACCESS c then Z.lor f (O_DIRECTORY c) else f.

(** The directory a path is resolved against. *)
Definition resolve_dir (t : T) (resolution_base : Z) : result Z SysError :=
  if resolution_base =? 0 then Ok (AT_FDCWD c)
  else
    match ht_deref t resolution_base with
    | Err e => Err e
    | Ok h =>
      match check_type h (HANDLE_SUBTYPE_IO_FILE c) 0 with
      | Err e => Err e
      | Ok _ => match borrow_fd h with Some fd => Ok fd | None => Err UnsupportedOperation end
      end
    end.

(** [CString::new]: fails on a NUL byte. *)
Definition has_nul (s : list Z) : bool := existsb (Z.eqb 0) s.

(** [OpenFile]: the new table, the pointer stored through [ohdl]. *)
Definition OpenFile (openat : Z -> list Z -> Z -> Z -> result Z errno) (t : T)
    (resolution_base : Z) (path : list Z) (o : FileOpenOptions) : outcome (T * result Z SysError) :=
  match resolve_dir t resolution_base with
  | Err e => Ret (t, Err e)
  | Ok dirfd =>
    let oflags := open_flags o in
    if has_nul path then Ret (t, Err (ErrorCode (-0x801))) else
    match openat dirfd path oflags 0x1B6 with
    | Err e => Ret (t, Err (linux_error_to_lilium e))
    | Ok fd => ht_insert t (mkHandle (HANDLE_SUBTYPE_IO_FILE c) 0 0 fd)
    end
  end.

(** [JoinProcess]: the new table, the closed descriptors, the status written. *)
Definition join_status (s : wait_status) : JoinStatus :=
  match s with
  | Signaled sig =>
    match sig_to_except sig with
    | Some e => ExitException e
    | None => ExitCodeDiscr USIZE_MAX
    end
  | Exited code => ExitCode (usize_wrap code)
  end.
Definition JoinProcess (waitid : Z -> result wait_status errno) (t : T) (hdl : Z) :
    outcome (T * list Z * result JoinStatus SysError) :=
  match ht_deref t hdl with
  | Err e => Ret (t, [], Err e)
  | Ok h =>
    match check_type h (HANDLE_TYPE_PROC c) 0 with
    | Err e => Ret (t, [], Err e)
    | Ok _ =>
      fd ← expect (borrow_fd h);
      match waitid fd with
      | Err e => Ret (t, [], Err (linux_error_to_lilium e))
      | Ok status =>
        '(t', closed) ← ht_close t hdl; Ret (t', closed, Ok (join_status status))
      end
    end
  end.

(** ** [CreateProcess], in the parent *)

(** The path passed to [execve]: relative to the handle's descriptor when one is
    given and the path is not absolute; [show_fd] prints a descriptor. *)
Definition starts_with_slash (p : list Z) : bool := match p with b :: _ => b =? 47 | [] => false end.
Definition exec_path (show_fd : Z -> list Z) (proc_self_fd : list Z) (t : T) (resolution_base : Z) (path : list Z) :
    result (list Z) SysError :=
  if (resolution_base =? 0) || starts_with_slash path then Ok path
  else match resolve_dir t resolution_base with
       | Ok fd => Ok (proc_self_fd ++ show_fd fd ++ 47 :: path)
       | Err e => Err e
       end.

(** The loop over the options: the arguments, and whether any were given. *)
Fixpoint read_options (opts : list CreateProcessOption) (args : list (list Z)) (given : bool) :
    result (list (list Z) * bool) SysError :=
  match opts with
  | [] => Ok (args, given)
  | OptArgs a :: r => if existsb has_nul a then Err InvalidString else read_options r (args ++ a) true
  | OptOther flags :: r =>
    if Z.land flags (OPTION_FLAG_IGNORE c) =? 0 then Err InvalidOption else read_options r args given
  end.

(** The results of the Linux calls: whether [socketpair] succeeds, [fork] in the parent, the received descriptor
    if any, and the error number the child reports before [execve] succeeds. *)
Record spawn_env : Type := mkSpawn {
  socketpair_ok : bool;
  fork_res : result Z errno;
  recv_res : result (option Z) errno;
  child_error : option (option errno) }.

(** The parent after the handle at [ptr] was inserted. *)
Definition spawn_parent (env : spawn_env) (t : T) (ptr : Z) : outcome (T * list Z * result Z SysError) :=
  match fork_res env with
  | Err e => Ret (t, [], Err (linux_error_to_lilium e))
  | Ok pid =>
    match recv_res env with
    | Err e => '(t', cl) ← ht_close t ptr; Ret (t', cl, Err (linux_error_to_lilium e))
    | Ok None => '(t', cl) ← ht_close t ptr; Ret (t', cl, Err (ErrorCode (-0x802)))
    | Ok (Some rawfd) =>
      let t := ht_update t ptr (mkHandle (HANDLE_TYPE_PROC c) 0 (usize_wrap pid) rawfd) in
      match child_error env with
      | Some n =>
        '(t', cl) ← ht_close t ptr;
        Ret (t', cl, Err (match n with Some e => linux_error_to_lilium e | None => ResourceLimitExhausted end))
      | None => Ret (t, [], Ok ptr)
      end
    end
  end.

(** [CreateProcess]: the arguments given to [execve] are not part of the result;
    the handle stored through [hdl_out], the table and the closed descriptors are. *)
Definition CreateProcess (show_fd : Z -> list Z) (proc_self_fd : list Z) (env : spawn_env) (t : T)
    (resolution_base : Z) (path : list Z) (opts : list CreateProcessOption) :
    outcome (T * list Z * result Z SysError) :=
  match exec_path show_fd proc_self_fd t resolution_base path with
  | Err e => Ret (t, [], Err e)
  | Ok ep =>
    if has_nul ep then Ret (t, [], Err InvalidString) else
    match read_options opts [] false with
    | Err e => Ret (t, [], Err e)
    | Ok (args, given) =>
      if negb given && has_nul path then Panic Explicit
      else if negb (socketpair_ok env) then Panic Explicit else
      '(t, r) ← ht_insert t (mkHandle (HANDLE_TYPE_PROC c) 0 0 (-1));
      match r with
      | Err e => Ret (t, [], Err e)
      | Ok ptr => spawn_parent env t ptr
      end
    end
  end.
End Calls.

(** ** Theorems, for any handle table *)

Section Theorems.
Context {T : Type} `{HandleTable T} (c : io_consts).
Implicit Types t : T.

(** [t'] has one more handle than [t], at [p]. *)
Definition added t t' (p : Z) (h : Handle) : Prop :=
  ht_get t p = None /\ ht_get t' p = Some h /\ forall q, q <> p -> ht_get t' q = ht_get t q.
(** The two tables answer alike. *)
Definition same_handles t t' : Prop := forall q, ht_get t' q = ht_get t q.

(** [IOWrite] and [IORead] reach a descriptor only through a live handle whose
    type, up to its top four bits, is the I/O type, and then exactly its own
    descriptor; every other pointer is InvalidHandle without a Linux call, and an
    I/O handle without a descriptor panics. *)
Theorem io_calls_authorised t hdl (linux : Z -> result Z errno) :
  let expected :=
    match ht_get t hdl with
    | Some h =>
      if Z.land (ty h) (not_w 64 0xF0000000) =? HANDLE_TYPE_IO c then
        if 0 <=? fd h then Ret (Some (as_i32 (fd h)), map_err linux_error_to_lilium (linux (as_i32 (fd h))))
        else Panic Explicit
      else Ret (None, Err InvalidHandle)
    | None => Ret (None, Err InvalidHandle)
    end in
  IOWrite c linux t hdl = expected /\ IORead c linux t hdl = expected.
Proof.
  unfold IOWrite, IORead, io_fd, check_type, borrow_fd. rewrite ht_deref_spec. simpl.
  destruct (ht_get t hdl) as [h|]; [|done]. destruct (_ =? HANDLE_TYPE_IO c); [|done].
  by destruct (0 <=? fd h).
Qed.

(** [OpenFile] never panics on a sound table; on success the returned pointer
    is new and refers to a file handle for the descriptor [openat] gave for the
    resolved directory, the path and the translated flags, every other handle being
    untouched; on failure the table is unchanged, also when the file was already
    opened and only the table is full. *)
Theorem open_file_correct openat t resolution_base path o :
  ht_ok t -> HANDLE_SUBTYPE_IO_FILE c <> 0 ->
  exists t' r, OpenFile c openat t resolution_base path o = Ret (t', r) /\ ht_ok t' /\
    match r with
    | Ok p => exists dirfd fd, resolve_dir c t resolution_base = Ok dirfd /\ has_nul path = false /\
        openat dirfd path (open_flags c o) 0x1B6 = Ok fd /\
        added t t' p (mkHandle (HANDLE_SUBTYPE_IO_FILE c) 0 0 fd)
    | Err e => t' = t
    end.
Proof.
  intros Hok Hty. unfold OpenFile.
  destruct (resolve_dir c t resolution_base) as [dirfd|e] eqn:Hd; [|by eexists _, _].
  destruct (has_nul path) eqn:Hp; [by eexists _, _|].
  destruct (openat dirfd path (open_flags c o) 0x1B6) as [fd|e] eqn:Ho; [|by eexists _, _].
  destruct (ht_insert_spec t (mkHandle (HANDLE_SUBTYPE_IO_FILE c) 0 0 fd) Hok Hty) as (t' & r & E & Hok' & Hr).
  exists t', r. split_and!; [done|done|]. destruct r as [p|e]; [|by destruct Hr as (_ & -> & _)].
  exists dirfd, fd. done.
Qed.

(** [JoinProcess] on a live process handle whose process has exited closes the
    handle and its descriptor and reports its status; in every other case that
    returns, the table is unchanged and nothing is closed. *)
Theorem join_process_correct waitid t hdl h :
  ht_ok t -> ht_get t hdl = Some h -> Z.land (ty h) (not_w 64 0) = HANDLE_TYPE_PROC c -> 0 <= fd h ->
  match waitid (as_i32 (fd h)) with
  | Ok status => exists t', JoinProcess c waitid t hdl = Ret (t', [as_i32 (fd h)], Ok (join_status status)) /\
      ht_ok t' /\ added t' t hdl h
  | Err e => JoinProcess c waitid t hdl = Ret (t, [], Err (linux_error_to_lilium e))
  end.
Proof.
  intros Hok Hget Hty Hfd. unfold JoinProcess, check_type, borrow_fd. rewrite ht_deref_spec, Hget.
  rewrite (proj2 (Z.eqb_eq _ _) Hty), (proj2 (Z.leb_le _ _) Hfd). cbn [expect mbind outcome_bind].
  destruct (waitid (as_i32 (fd h))) as [status|e]; [|done].
  destruct (ht_close_spec t hdl h Hok Hget) as (t' & E & Hok' & Hnone & Hframe).
  rewrite (proj2 (Z.leb_le _ _) Hfd) in E. rewrite E. exists t'. split_and!; [done|done|].
  split_and!; [done|done|]. intros q Hq. by rewrite Hframe.
Qed.

Lemma exec_path_nul show pre t base path ep :
  exec_path c show pre t base path = Ok ep -> has_nul ep = false -> has_nul path = false.
Proof.
  unfold exec_path. destruct (_ || _); [by intros [= <-]|].
  destruct (resolve_dir c t base) as [fd|]; [|done]. intros [= <-]. unfold has_nul.
  rewrite !existsb_app. simpl. intros Hx. repeat (apply orb_false_iff in Hx as [? Hx]). done.
Qed.

(** Closing a handle that was just added gives back the old table. *)
Lemma close_added t t1 p h :
  ht_ok t1 -> added t t1 p h ->
  exists t2, ht_close t1 p = Ret (t2, if 0 <=? fd h then [as_i32 (fd h)] else []) /\ ht_ok t2 /\
    same_handles t t2.
Proof.
  intros Hok (Hnone & Hget & Hframe). destruct (ht_close_spec t1 p h Hok Hget) as (t2 & E & Hok2 & Hn2 & Hf2).
  exists t2. split_and!; [done|done|]. intros q. destruct (decide (q = p)) as [->|Hq]; [by rewrite Hn2|].
  by rewrite Hf2, Hframe.
Qed.

Lemma update_added t t1 p h h' :
  ht_ok t1 -> added t t1 p h -> ty h' <> 0 -> ht_ok (ht_update t1 p h') /\ added t (ht_update t1 p h') p h'.
Proof.
  intros Hok (Hnone & Hget & Hframe) Hty. destruct (ht_update_spec t1 p h h' Hok Hget Hty) as (H1 & H2 & H3).
  split; [done|]. split_and!; [done|done|]. intros q Hq. by rewrite H3, Hframe.
Qed.

(** [CreateProcess] never panics on a sound table when its socket can be
    created.  On success the returned pointer is new and holds the child's pid and descriptor; on failure the table
    answers as before, so that no handle is lost, with one exception: when [fork]
    itself fails the slot reserved for the child is never released. *)
Theorem create_process_correct show pre env t base path opts :
  ht_ok t -> HANDLE_TYPE_PROC c <> 0 -> socketpair_ok env = true ->
  exists t' cl r, CreateProcess c show pre env t base path opts = Ret (t', cl, r) /\ ht_ok t' /\
    match r with
    | Ok p => exists pid fd, fork_res env = Ok pid /\ recv_res env = Ok (Some fd) /\ cl = [] /\
        added t t' p (mkHandle (HANDLE_TYPE_PROC c) 0 (usize_wrap pid) fd)
    | Err e => same_handles t t' \/
        exists ef p, fork_res env = Err ef /\ e = linux_error_to_lilium ef /\
          added t t' p (mkHandle (HANDLE_TYPE_PROC c) 0 0 (-1))
    end.
Proof.
  intros Hok Hty Hsock. unfold CreateProcess.
  assert (same_handles t t) as Hsame by done.
  destruct (exec_path c show pre t base path) as [ep|e] eqn:Hep; [|eexists _, _, _; eauto].
  destruct (has_nul ep) eqn:Hn; [eexists _, _, _; eauto|].
  destruct (read_options c opts [] false) as [[args given]|e]; [|eexists _, _, _; eauto].
  rewrite (exec_path_nul _ _ _ _ _ _ Hep Hn), andb_false_r, Hsock. cbn [negb].
  destruct (ht_insert_spec t (mkHandle (HANDLE_TYPE_PROC c) 0 0 (-1)) Hok Hty) as (t1 & r & -> & Hok1 & Hr).
  cbn [mbind outcome_bind]. destruct r as [p|e]; [|destruct Hr as (_ & -> & _); eexists _, _, _; eauto].
  fold (added t t1 p (mkHandle (HANDLE_TYPE_PROC c) 0 0 (-1))) in Hr. unfold spawn_parent.
  destruct (fork_res env) as [pid|ef] eqn:Hfork; [|eexists _, _, _; split; [done|]; split; [done|]; eauto 6].
  destruct (recv_res env) as [[rawfd|]|e] eqn:Hrecv.
  - destruct (update_added t t1 p _ (mkHandle (HANDLE_TYPE_PROC c) 0 (usize_wrap pid) rawfd) Hok1 Hr Hty) as [Hok2 Hadd].
    destruct (child_error env) as [n|].
    + destruct (close_added _ _ _ _ Hok2 Hadd) as (t2 & -> & Hok3 & Hs). cbn [mbind outcome_bind].
      eexists _, _, _. split; [done|]. eauto.
    + eexists _, _, _. split; [done|]. split; [done|]. eauto 7.
  - destruct (close_added _ _ _ _ Hok1 Hr) as (t2 & -> & Hok3 & Hs). cbn [mbind outcome_bind].
    eexists _, _, _. split; [done|]. eauto.
  - destruct (close_added _ _ _ _ Hok1 Hr) as (t2 & -> & Hok3 & Hs). cbn [mbind outcome_bind].
    eexists _, _, _. split; [done|]. eauto.
Qed.
End Theorems.

(** ** Concrete inputs: the thread-local table of [Handles] *)

Definition sample_base : table_base := {| tb_addr := 4096; tb_aligned := eq_refl |}.
Definition sample_io : io_consts :=
  mkIoConsts 7 7 9 0 1 2 1 2 4 8 16 32 64 1 2 4 0 8 16 32 64 128 256 512 (-100) 1.

Lemma open_file_correct_witness :
  exists t' r, OpenFile (H := hstate_table sample_base) sample_io (fun _ _ _ _ => Ok 5) hinit 0 [97]
                 (mkOpts 3 1) = Ret (t', r) /\ ht_ok (HandleTable := hstate_table sample_base) t' /\
    match r with
    | Ok p => exists dirfd fd, resolve_dir (H := hstate_table sample_base) sample_io hinit 0 = Ok dirfd /\
        has_nul [97] = false /\ Ok 5 = @Ok Z errno fd /\
        added (H := hstate_table sample_base) hinit t' p (mkHandle 7 0 0 fd)
    | Err e => t' = hinit
    end.
Proof.
  apply (open_file_correct (H := hstate_table sample_base) sample_io (fun _ _ _ _ => Ok 5) hinit 0 [97] (mkOpts 3 1));
    [exact hinit_wf|discriminate].
Defined.

Definition proc_table : hstate := mkH (<[0%nat := mkHandle 9 0 77 5]> fresh_array) 0 1.
Lemma proc_table_wf : hwf proc_table.
Proof. split; [done|simpl; unfold NHANDLES; lia|by vm_compute]. Qed.

Lemma join_process_correct_witness :
  exists t', JoinProcess (H := hstate_table sample_base) sample_io (fun _ => Ok (Signaled SIGSEGV)) proc_table 4096 =
      Ret (t', [5], Ok (ExitException "fcf8d451-89e6-50b5-b2e6-396aec58a74a")) /\
    ht_ok (HandleTable := hstate_table sample_base) t' /\
    added (H := hstate_table sample_base) t' proc_table 4096 (mkHandle 9 0 77 5).
Proof.
  apply (join_process_correct (H := hstate_table sample_base) sample_io (fun _ => Ok (Signaled SIGSEGV)) proc_table 4096
           (mkHandle 9 0 77 5)); [exact proc_table_wf|vm_compute; reflexivity|reflexivity|simpl; lia].
Defined.

(** [fork] fails: the handle stays. *)
Lemma create_process_correct_witness :
  exists t' cl r, CreateProcess (H := hstate_table sample_base) sample_io (fun _ => []) []
      (mkSpawn true (Err ENOMEM) (Err EBADF) None) hinit 0 [97] [] = Ret (t', cl, r) /\
    ht_ok (HandleTable := hstate_table sample_base) t' /\
    match r with
    | Ok p => exists pid fd, Err ENOMEM = @Ok Z errno pid /\ Err EBADF = @Ok (option Z) errno (Some fd) /\ cl = [] /\
        added (H := hstate_table sample_base) hinit t' p (mkHandle 9 0 (usize_wrap pid) fd)
    | Err e => same_handles (H := hstate_table sample_base) hinit t' \/
        exists ef p, Err ENOMEM = @Err Z errno ef /\ e = linux_error_to_lilium ef /\
          added (H := hstate_table sample_base) hinit t' p (mkHandle 9 0 0 (-1))
    end.
Proof.
  apply (create_process_correct (H := hstate_table sample_base) sample_io (fun _ => []) []
    (mkSpawn true (Err ENOMEM) (Err EBADF) None) hinit 0 [97] []); [exact hinit_wf|discriminate|reflexivity].
Defined.
