(* ===== verification/Alloc.v ===== *)
(** * The page allocator (wl-helpers/src/lib.rs, [MmapAllocator])

    An [Allocator] that maps whole pages for every block.  The kernel is its map of
    regions (start to length in bytes); which address a call answers with is the
    kernel's choice, [None] being a failure. *)

From Stdlib Require Import ZArith Lia.
From stdpp Require Import base numbers list option gmap.
From S2P Require Import Prelude.

Local Open Scope Z_scope.

Record Layout : Type := mkLayout { size : Z; align : Z }.
Definition PAGE : Z := 4096.

(** [size.next_multiple_of(4096)]. *)
Definition round_up (n : Z) : Z := (n + (PAGE - 1)) / PAGE * PAGE.
(** [layout.dangling()]. *)
Definition dangling (l : Layout) : Z := align l.

(** ** The kernel *)

Abbreviation regions := (gmap Z Z).
Definition k_mmap (k : regions) (choice : option Z) (len : Z) : regions * option Z :=
  match choice with Some a => (<[a := len]> k, Some a) | None => (k, None) end.
(** Unmapping the head of a region leaves its tail mapped. *)
Definition k_munmap (k : regions) (a len : Z) : regions :=
  match k !! a with
  | Some l => if len <? l then <[a + len := l - len]> (delete a k) else delete a k
  | None => k
  end.
Definition k_mremap (k : regions) (choice : option Z) (a old new : Z) : regions * option Z :=
  match choice with Some b => (<[b := new]> (k_munmap k a old), Some b) | None => (k, None) end.

(** ** The allocator: a block is a pointer and a length, [None] is [AllocError] *)

(** [struct MmapAllocator] and [new_with_hint]; the kernel is free to ignore the hint, so
    that below it is part of [choice]. *)
Record MmapAllocator : Type := mkAllocator { hint_base_addr : Z }.
Definition new_with_hint (hint : Z) : MmapAllocator := mkAllocator hint.

Definition allocate_zeroed (k : regions) (choice : option Z) (l : Layout) : regions * option (Z * Z) :=
  if 4096 <? align l then (k, None) else
  let sz := round_up (size l) in
  if sz =? 0 then (k, Some (dangling l, 0)) else
  let '(k', res) := k_mmap k choice sz in
  match res with
  | None => (k', None)
  | Some ptr => (k', if ptr =? 0 then None else Some (ptr, sz))
  end.
Definition allocate : regions -> option Z -> Layout -> regions * option (Z * Z) := allocate_zeroed.

Definition deallocate (k : regions) (ptr : Z) (l : Layout) : regions :=
  let sz := round_up (size l) in if negb (sz =? 0) then k_munmap k ptr sz else k.

Definition shrink (k : regions) (choice : option Z) (ptr : Z) (old new : Layout) :
    regions * option (Z * Z) :=
  if 4096 <? align new then (k, None) else
  let new_size := round_up (size new) in
  let old_size := round_up (size old) in
  if new_size =? 0 then (deallocate k ptr old, Some (dangling new, 0)) else
  if new_size =? old_size then (k, Some (ptr, new_size)) else
  let '(k', res) := k_mremap k choice ptr old_size new_size in
  match res with
  | None => (k', None)
  | Some p => (k', if p =? 0 then None else Some (p, new_size))
  end.

Definition grow_zeroed (k : regions) (choice : option Z) (ptr : Z) (old new : Layout) :
    regions * option (Z * Z) :=
  if 4096 <? align new then (k, None) else
  let new_size := round_up (size new) in
  let old_size := round_up (size old) in
  if old_size =? 0 then allocate_zeroed k choice new else
  if new_size =? old_size then (k, Some (ptr, new_size)) else
  let '(k', res) := k_mremap k choice ptr old_size new_size in
  match res with
  | None => (k', None)
  | Some p => (k', if p =? 0 then None else Some (p, new_size))
  end.
Definition grow : regions -> option Z -> Z -> Layout -> Layout -> regions * option (Z * Z) := grow_zeroed.

(** ** One block's life *)

Inductive op : Type := Grow (new : Layout) | Shrink (new : Layout).
Definition op_layout (o : op) : Layout := match o with Grow l | Shrink l => l end.

(** A resizing request; a failed one leaves the block with its old layout. *)
Definition resize (k : regions) (ptr : Z) (l : Layout) (o : op * option Z) : regions * Z * Layout :=
  let '(k', r) := match o.1 with
    | Grow new => grow k o.2 ptr l new
    | Shrink new => shrink k o.2 ptr l new
    end in
  match r with Some (p, _) => (k', p, op_layout o.1) | None => (k', ptr, l) end.
Fixpoint life (k : regions) (ptr : Z) (l : Layout) (ops : list (op * option Z)) : regions * Z * Layout :=
  match ops with
  | [] => (k, ptr, l)
  | o :: r => let '(k, ptr, l) := resize k ptr l o in life k ptr l r
  end.

(** Valid layouts, and kernel answers: page-aligned, not null, not in use by others. *)
Definition layout_ok (l : Layout) : Prop := 0 <= size l /\ 0 < align l /\ (align l | PAGE).
Definition choice_ok (k0 : regions) (c : option Z) : Prop :=
  match c with Some a => a mod PAGE = 0 /\ a <> 0 /\ k0 !! a = None | None => True end.

(** The kernel has exactly the block's pages beyond the regions of others. *)
Definition owns (k0 k : regions) (ptr : Z) (l : Layout) : Prop :=
  layout_ok l /\ ptr mod align l = 0 /\
  if round_up (size l) =? 0 then k = k0
  else k = <[ptr := round_up (size l)]> k0 /\ k0 !! ptr = None /\ ptr mod PAGE = 0.

Lemma round_up_spec n : 0 <= n -> n <= round_up n < n + PAGE /\ (round_up n = 0 <-> n = 0).
Proof.
  intros Hn. unfold round_up, PAGE. pose proof (Z.div_mod (n + (4096 - 1)) 4096 ltac:(lia)).
  pose proof (Z.mod_pos_bound (n + (4096 - 1)) 4096 ltac:(lia)). lia.
Qed.

Lemma munmap_own k0 ptr n : k0 !! ptr = None -> k_munmap (<[ptr := n]> k0) ptr n = k0.
Proof.
  intros H. unfold k_munmap. rewrite lookup_insert_eq, Z.ltb_irrefl. by apply delete_insert_id.
Qed.

Lemma aligned_ptr p l : layout_ok l -> p mod PAGE = 0 -> p mod align l = 0.
Proof.
  intros (_ & Ha & Hd) Hp. apply Z.mod_divide; [lia|]. etrans; [done|]. apply Z.mod_divide; [unfold PAGE; lia|done].
Qed.

Lemma dangling_aligned l : layout_ok l -> dangling l mod align l = 0.
Proof. intros (_ & Ha & _). apply Z_mod_same_full. Qed.

Lemma allocate_owns k0 c l k' p n :
  layout_ok l -> choice_ok k0 c -> allocate_zeroed k0 c l = (k', Some (p, n)) ->
  owns k0 k' p l /\ n = round_up (size l).
Proof.
  intros Hl Hc E. unfold allocate_zeroed in E. case_match; [done|].
  unfold owns. destruct (Z.eqb_spec (round_up (size l)) 0) as [Hz|Hz].
  - injection E as <- <- <-. split; [|done]. split_and!; [done|by apply dangling_aligned|done].
  - destruct c as [a|]; simpl in E; [|done]. destruct Hc as (Ha & Hne & Hk).
    rewrite (proj2 (Z.eqb_neq a 0)) in E by done. injection E as <- <- <-.
    split; [|done]. split_and!; [done|by apply aligned_ptr|done|done|done].
Qed.

Lemma allocate_fails k0 c l k' : choice_ok k0 c -> allocate_zeroed k0 c l = (k', None) -> k' = k0.
Proof.
  intros Hc E. unfold allocate_zeroed in E. case_match; [by injection E|]. case_match; [done|].
  destruct c as [a|]; simpl in E; [|by injection E]. destruct Hc as (_ & Hne & _).
  by rewrite (proj2 (Z.eqb_neq a 0)) in E.
Qed.

Lemma deallocate_owned k0 k ptr l : owns k0 k ptr l -> deallocate k ptr l = k0.
Proof.
  intros (_ & _ & H). unfold deallocate. destruct (_ =? 0); [done|]. destruct H as (-> & H & _).
  simpl. by apply munmap_own.
Qed.

(** The common tail of [grow_zeroed] and [shrink]: remapping to another size. *)
Lemma remap_owns k0 k ptr l new c :
  owns k0 k ptr l -> layout_ok new -> choice_ok k0 c ->
  round_up (size l) <> 0 -> round_up (size new) <> 0 ->
  match k_mremap k c ptr (round_up (size l)) (round_up (size new)) with
  | (k', Some p) => p <> 0 /\ owns k0 k' p new
  | (k', None) => k' = k
  end.
Proof.
  intros (Hl & Hp & Ho) Hn Hc Hz Hz'. unfold k_mremap. destruct c as [a|]; [|done].
  destruct Hc as (Ha & Hne & Hk). rewrite (proj2 (Z.eqb_neq _ 0) Hz) in Ho. destruct Ho as (-> & H0 & _).
  rewrite munmap_own by done. split; [done|]. unfold owns. rewrite (proj2 (Z.eqb_neq _ 0) Hz').
  split_and!; [done|by apply aligned_ptr|done|done|done].
Qed.

(** Keeping the pages under another layout of the same rounded size. *)
Lemma same_pages_owns k0 k ptr l new :
  owns k0 k ptr l -> layout_ok new -> round_up (size new) = round_up (size l) ->
  round_up (size l) <> 0 -> owns k0 k ptr new.
Proof.
  intros (Hl & Hp & Ho) Hn E Hz. unfold owns. rewrite E. rewrite (proj2 (Z.eqb_neq _ 0) Hz) in *.
  destruct Ho as (-> & H0 & Ha). split_and!; [done|by apply aligned_ptr|done|done|done].
Qed.

(** The contract of the trait: growing does not shrink, shrinking does not grow. *)
Definition op_ok (l : Layout) (o : op) : Prop :=
  layout_ok (op_layout o) /\
  match o with Grow new => size l <= size new | Shrink new => size new <= size l end.

Lemma resize_owns k0 k ptr l o :
  owns k0 k ptr l -> op_ok l o.1 -> choice_ok k0 o.2 ->
  let '(k', ptr', l') := resize k ptr l o in owns k0 k' ptr' l'.
Proof.
  intros Ho [Hn Hsz] Hc. pose proof (round_up_spec (size l)) as Hrl.
  pose proof (round_up_spec (size (op_layout o.1))) as Hrn.
  assert (0 <= size l /\ 0 <= size (op_layout o.1)) as [H1 H2] by (destruct Ho as (Hl & _); split; [apply Hl|apply Hn]).
  specialize (Hrl H1). specialize (Hrn H2).
  destruct o as [[new|new] c]; unfold resize; simpl in *.
  - unfold grow, grow_zeroed. destruct (4096 <? align new); [done|].
    destruct (Z.eqb_spec (round_up (size l)) 0) as [Hz|Hz].
    + assert (k = k0) as -> by (destruct Ho as (_ & _ & Ho); by rewrite Hz in Ho).
      destruct (allocate_zeroed k0 c new) as [k' [[p n]|]] eqn:E.
      * by apply allocate_owns in E as [? _].
      * by apply allocate_fails in E as ->.
    + destruct (Z.eqb_spec (round_up (size new)) (round_up (size l))); [by eapply same_pages_owns|].
      pose proof (remap_owns k0 k ptr l new c Ho Hn Hc Hz ltac:(lia)) as Hr.
      destruct (k_mremap _ _ _ _ _) as [k' [p|]]; [|by subst k'].
      destruct Hr as [Hp Hr]. by rewrite (proj2 (Z.eqb_neq p 0)).
  - unfold shrink. destruct (4096 <? align new); [done|].
    destruct (Z.eqb_spec (round_up (size new)) 0) as [Hz|Hz].
    + rewrite (deallocate_owned k0) by done. unfold owns. rewrite Hz.
      split_and!; [done|by apply dangling_aligned|done].
    + destruct (Z.eqb_spec (round_up (size new)) (round_up (size l))) as [E|E];
        [eapply same_pages_owns; [done|done|done|lia]|].
      pose proof (remap_owns k0 k ptr l new c Ho Hn Hc ltac:(lia) Hz) as Hr.
      destruct (k_mremap _ _ _ _ _) as [k' [p|]]; [|by subst k'].
      destruct Hr as [Hp Hr]. by rewrite (proj2 (Z.eqb_neq p 0)).
Qed.

(** A sequence of requests that respects the contract as the layout evolves. *)
Fixpoint life_ok (k0 k : regions) (ptr : Z) (l : Layout) (ops : list (op * option Z)) : Prop :=
  match ops with
  | [] => True
  | o :: r => op_ok l o.1 /\ choice_ok k0 o.2 /\
              let '(k', ptr', l') := resize k ptr l o in life_ok k0 k' ptr' l' r
  end.

Lemma life_owns k0 k ptr l ops :
  owns k0 k ptr l -> life_ok k0 k ptr l ops ->
  let '(k', ptr', l') := life k ptr l ops in owns k0 k' ptr' l'.
Proof.
  revert k ptr l. induction ops as [|o ops IH]; intros k ptr l Ho Hok; [done|].
  destruct Hok as (Hop & Hc & Hrest). pose proof (resize_owns k0 k ptr l o Ho Hop Hc) as Hr.
  simpl. destruct (resize k ptr l o) as [[k1 p1] l1]. by apply IH.
Qed.

(** C35: a block that is allocated, grown and shrunk any number of times (with any
    of these calls failing) is at every point backed by exactly the pages of its
    current layout, suitably aligned, at the pointer last returned; freeing it then
    gives the kernel back precisely what was taken, no page more or less. *)
Theorem mmap_allocator_balanced k0 c l k1 p n ops :
  layout_ok l -> choice_ok k0 c -> allocate k0 c l = (k1, Some (p, n)) -> life_ok k0 k1 p l ops ->
  n = round_up (size l) /\
  let '(k2, p2, l2) := life k1 p l ops in
  owns k0 k2 p2 l2 /\ size l2 <= round_up (size l2) < size l2 + PAGE /\ deallocate k2 p2 l2 = k0.
Proof.
  intros Hl Hc E Hok. apply allocate_owns in E as [Ho ->]; [|done|done]. split; [done|].
  pose proof (life_owns k0 k1 p l ops Ho Hok) as H. destruct (life k1 p l ops) as [[k2 p2] l2].
  split_and!; [done|apply round_up_spec; apply H|apply round_up_spec; apply H|by apply deallocate_owned].
Qed.

(** ** Concrete inputs *)

Lemma layout8 n : 0 <= n -> layout_ok (mkLayout n 8).
Proof. intros. split_and!; [done|simpl; lia|by exists 512]. Qed.

Lemma mmap_allocator_balanced_witness :
  let '(k2, p2, l2) := life {[ 8192 := 4096 ]} 8192 (mkLayout 10 8) [(Grow (mkLayout 5000 8), Some 16384)] in
  deallocate k2 p2 l2 = ∅.
Proof.
  destruct (mmap_allocator_balanced ∅ (Some 8192) (mkLayout 10 8) {[ 8192 := 4096 ]} 8192 4096
    [(Grow (mkLayout 5000 8), Some 16384)]) as [_ H];
    [apply layout8; lia|split_and!; reflexivity || discriminate|reflexivity| |].
  - split; [split; [apply layout8; lia|simpl; lia]|]. split; [split_and!; reflexivity || discriminate|].
    destruct (resize _ _ _ _) as [[? ?] ?]. exact I.
  - destruct (life _ _ _ _) as [[k2 p2] l2]. apply H.
Defined.
