(* ===== verification/Tls.v ===== *)
(** * Thread-local storage and load addresses (wl-ld-lilium/src/loader.rs, iface.rs)

    The loader keeps a master copy of the thread-local block; modules get offsets in
    it ([alloc_tls]), and a thread catches up with the master copy in [update_tls],
    on demand from [__tls_get_addr].  Addresses for modules are handed out by a
    bump pointer ([alloc_base_addr]).  Control blocks are records here and blocks are bytes
    by offset, which is what the threads of [LoadLock] and the assembly of [Routines] are
    compared with; [TlsMem] runs the update on one memory of bytes and proves that it has
    this result.  The loader is built without overflow checks:
    [usize] arithmetic wraps. *)

From Stdlib Require Import ZArith Lia Sorted.
From stdpp Require Import base numbers list option.
From S2P Require Import Prelude.

Local Open Scope Z_scope.

Definition TLS_BLOCK_SIZE : Z := 4096 * 4096 * 4.
(** [size_of::<Tcb>()]. *)
Definition TCB_SIZE : Z := 32.

(** The fields of a [Tcb] that change. *)
Record Tcb : Type := mkTcb { load_size : Z; dyn_size : Z; version : Z }.
Definition tcb_init : Tcb := mkTcb TCB_SIZE 0 0.

(** [FdLoader::tls_off] and the master [Tcb] ([setup_tls_mc]). *)
Record tls_state : Type := mkTls { tls_off : Z; master : Tcb }.
Definition setup_tls_mc : tls_state := mkTls TCB_SIZE tcb_init.

Inductive LoadError : Type := AllocError.

(** [(v + (a - 1)) & !(a - 1)] on [usize]. *)
Definition align_up (v a : Z) : Z := Z.land (usize_wrap (v + (a - 1))) (not_w 64 (a - 1)).

(** [alloc_tls]; [mprotect_ok] is the result of the system call.  The offset
    counter advances before the call, whatever its result. *)
Definition alloc_tls (mprotect_ok : bool) (s : tls_state) (tls_size tls_align : Z) (exec_tls : bool) :
    tls_state * result Z LoadError :=
  if negb exec_tls then
    let v := tls_off s in
    let next := usize_wrap (align_up v tls_align + tls_size) in
    if Z.shiftr TLS_BLOCK_SIZE 1 <? next then (s, Err AllocError)
    else
      let s := mkTls next (master s) in
      let aligned_val := align_up v tls_align in
      if negb mprotect_ok then (s, Err AllocError)
      else
        let m := master s in
        (mkTls (tls_off s)
           (mkTcb (usize_wrap (load_size m + usize_wrap (tls_size + (aligned_val - v))))
                  (dyn_size m) (usize_wrap (version m + 1))),
         Ok (as_isize aligned_val))
  else
    let val := as_isize (Z.land (usize_wrap (- tls_size)) (not_w 64 (tls_align - 1))) in
    let aligned_val := as_isize (align_up (usize_wrap val) tls_align) in
    if negb mprotect_ok then (s, Err AllocError)
    else
      let m := master s in
      (mkTls (tls_off s) (mkTcb (load_size m) (usize_wrap (- aligned_val)) (usize_wrap (version m + 1))),
       Ok aligned_val).

(** A block: the bytes at each offset from the thread pointer. *)
Definition block : Type := Z -> Z.
Definition copy_range (src dst : block) (lo hi : Z) : block :=
  fun x => if (lo <=? x) && (x <? hi) then src x else dst x.

(** [load_tls]: a module's initial image into the master block. *)
Definition load_tls (mb : block) (tls_module : Z) (image : list Z) : block :=
  fun x => if (tls_module <=? x) && (x <? tls_module + Z.of_nat (length image))
           then default 0 (image !! Z.to_nat (x - tls_module)) else mb x.

(** [update_tls] of a thread with control block [t] and bytes [b]; a failing
    [mprotect] ends the process. *)
Definition update_tls (mprotect_ok : bool) (m : Tcb) (mb : block) (t : Tcb) (b : block) : outcome (Tcb * block) :=
  '(t, b) ← (if load_size t <? load_size m then
      if negb mprotect_ok then Panic Explicit
      else Ret (mkTcb (load_size m) (dyn_size t) (version t), copy_range mb b (load_size t) (load_size m))
    else Ret (t, b));
  '(t, b) ← (if dyn_size t <? dyn_size m then
      if negb mprotect_ok then Panic Explicit
      else Ret (mkTcb (load_size t) (dyn_size m) (version t), copy_range mb b (- dyn_size m) (- dyn_size t))
    else Ret (t, b));
  Ret (mkTcb (load_size t) (dyn_size t) (version m), b).

(** [__tls_get_addr]: update when the versions differ, then the offset from the
    thread pointer. *)
Definition tls_get_addr (mprotect_ok : bool) (m : Tcb) (mb : block) (t : Tcb) (b : block) (tp md offset : Z) :
    outcome (Tcb * block * Z) :=
  '(t, b) ← (if version m =? version t then Ret (t, b) else update_tls mprotect_ok m mb t b);
  Ret (t, b, usize_wrap (usize_wrap (md + offset) + tp)).

(** [alloc_base_addr]: the bump pointer advances whether or not [mmap] succeeds. *)
Definition alloc_base_addr (mmap : Z -> Z -> option Z) (base max_pma : Z) : Z * result Z LoadError :=
  let length := Z.land (usize_wrap (max_pma + 4095)) (not_w 64 4095) in
  (usize_wrap (base + length),
   match mmap base length with Some a => Ok a | None => Err AllocError end).

(** ** Alignment *)

Lemma align_up_spec v k :
  0 <= k <= 32 -> 0 <= v < 2 ^ 62 ->
  v <= align_up v (2 ^ k) < v + 2 ^ k /\ align_up v (2 ^ k) mod 2 ^ k = 0.
Proof.
  intros Hk Hv. assert (0 < 2 ^ k <= 2 ^ 32) by (split; [lia|apply Z.pow_le_mono_r; lia]).
  unfold align_up, usize_wrap. rewrite wrap_small by lia. rewrite land_not_ones by lia.
  pose proof (Z.div_mod (v + (2 ^ k - 1)) (2 ^ k) ltac:(lia)).
  pose proof (Z.mod_pos_bound (v + (2 ^ k - 1)) (2 ^ k) ltac:(lia)).
  split; [lia|]. apply Z.mod_mul. lia.
Qed.

(** ** Allocation *)

(** The state while no [mprotect] has failed. *)
Definition tls_ok (s : tls_state) : Prop :=
  load_size (master s) = tls_off s /\ TCB_SIZE <= tls_off s <= TLS_BLOCK_SIZE / 2.

Record request : Type := mkReq { r_size : Z; r_log_align : Z }.
Definition request_ok (r : request) : Prop := 0 <= r_size r < 2 ^ 62 /\ 0 <= r_log_align r <= 32.

Lemma alloc_tls_step s r :
  tls_ok s -> request_ok r ->
  match alloc_tls true s (r_size r) (2 ^ r_log_align r) false with
  | (s', Ok off) => tls_ok s' /\ tls_off s <= off /\ off + r_size r = tls_off s' /\
                    off mod 2 ^ r_log_align r = 0 /\ dyn_size (master s') = dyn_size (master s)
  | (s', Err _) => s' = s /\ TLS_BLOCK_SIZE / 2 < align_up (tls_off s) (2 ^ r_log_align r) + r_size r
  end.
Proof.
  intros [Hl Hb] [Hs Hk]. unfold TLS_BLOCK_SIZE, TCB_SIZE in *.
  change (4096 * 4096 * 4 / 2) with 33554432 in *.
  destruct (align_up_spec (tls_off s) (r_log_align r)) as [Hup Hmod]; [lia|lia|].
  assert (2 ^ r_log_align r <= 2 ^ 32) by (apply Z.pow_le_mono_r; lia).
  unfold alloc_tls. cbn [negb]. change (Z.shiftr TLS_BLOCK_SIZE 1) with 33554432.
  assert (usize_wrap (align_up (tls_off s) (2 ^ r_log_align r) + r_size r) =
          align_up (tls_off s) (2 ^ r_log_align r) + r_size r) as -> by (apply wrap_small; lia).
  destruct (Z.ltb_spec 33554432 (align_up (tls_off s) (2 ^ r_log_align r) + r_size r)); [by split|].
  assert (as_isize (align_up (tls_off s) (2 ^ r_log_align r)) = align_up (tls_off s) (2 ^ r_log_align r)) as ->.
  { unfold as_isize, swrap. rewrite wrap_small by lia. by rewrite (proj2 (Z.ltb_lt _ _)) by lia. }
  unfold tls_ok, usize_wrap, TLS_BLOCK_SIZE, TCB_SIZE. cbn [tls_off master load_size dyn_size].
  change (4096 * 4096 * 4 / 2) with 33554432.
  rewrite (wrap_small 64 (r_size r + _)) by lia. rewrite wrap_small by lia. split_and!; done || lia.
Qed.

(** The modules of a program, loaded one after another: the offsets granted. *)
Fixpoint alloc_all (s : tls_state) (reqs : list request) : tls_state * list (Z * request) :=
  match reqs with
  | [] => (s, [])
  | r :: rest =>
    match alloc_tls true s (r_size r) (2 ^ r_log_align r) false with
    | (s', Ok off) => let '(s'', l) := alloc_all s' rest in (s'', (off, r) :: l)
    | (s', Err _) => alloc_all s' rest
    end
  end.

Definition before (a b : Z * request) : Prop := a.1 + r_size a.2 <= b.1.

Lemma alloc_all_ok s reqs :
  tls_ok s -> Forall request_ok reqs ->
  let '(s', l) := alloc_all s reqs in
  tls_ok s' /\ tls_off s <= tls_off s' /\ StronglySorted before l /\
  Forall (fun a => tls_off s <= a.1 /\ a.1 + r_size a.2 <= tls_off s' /\
                   a.1 mod 2 ^ r_log_align a.2 = 0 /\ 0 <= r_size a.2) l.
Proof.
  intros Hs Hr. revert s Hs. induction Hr as [|r reqs Hr _ IH]; intros s Hs; simpl.
  { split_and!; [done|lia|constructor|constructor]. }
  pose proof (alloc_tls_step s r Hs Hr) as Hstep.
  destruct (alloc_tls true s (r_size r) (2 ^ r_log_align r) false) as [s1 [off|e]].
  - destruct Hstep as (Hs1 & Hlo & Hhi & Hal & _). specialize (IH s1 Hs1).
    destruct (alloc_all s1 reqs) as [s2 l]. destruct IH as (Hs2 & Hle & Hsort & Hall).
    destruct Hr as [[Hsz _] _]. split_and!; [done|lia| |].
    + constructor; [done|]. eapply Forall_impl; [|exact Hall]. unfold before. simpl. intros a Ha. lia.
    + constructor; [simpl; split_and!; done || lia|]. eapply Forall_impl; [|exact Hall]. simpl. intros a Ha.
      split_and!; lia || apply Ha.
  - destruct Hstep as [-> _]. apply IH. done.
Qed.


(** ** Catching up *)

(** [update_tls] brings a thread level with the master block: the bytes of
    modules loaded since the last update get their initial image, the thread's own
    bytes of the modules it already had are kept, and a second update, or a lookup
    through [__tls_get_addr], changes nothing more. *)
Theorem update_tls_correct m mb t b :
  load_size t <= load_size m -> 0 <= dyn_size t <= dyn_size m ->
  exists b', update_tls true m mb t b = Ret (m, b') /\
    (forall x, load_size t <= x < load_size m -> b' x = mb x) /\
    (forall x, - dyn_size m <= x < - dyn_size t -> - dyn_size t <= load_size t -> b' x = mb x) /\
    (forall x, - dyn_size t <= x < load_size t -> b' x = b x) /\
    update_tls true m mb m b' = Ret (m, b') /\
    (forall ok tp md off, tls_get_addr ok m mb m b' tp md off =
       Ret (m, b', usize_wrap (usize_wrap (md + off) + tp))).
Proof.
  intros Hl Hd. destruct m as [ml mdn mv], t as [tl td tv]. simpl in *.
  assert (forall b0, update_tls true (mkTcb ml mdn mv) mb (mkTcb ml mdn mv) b0 = Ret (mkTcb ml mdn mv, b0)) as Hidem.
  { intros b0. unfold update_tls. cbn [load_size dyn_size version]. rewrite Z.ltb_irrefl.
    cbn [mbind outcome_bind load_size dyn_size version]. by rewrite Z.ltb_irrefl. }
  assert (exists b', update_tls true (mkTcb ml mdn mv) mb (mkTcb tl td tv) b = Ret (mkTcb ml mdn mv, b') /\
    (forall x, b' x = if ((- mdn <=? x) && (x <? - td)) || ((tl <=? x) && (x <? ml)) then mb x else b x))
    as (b' & E & Hb').
  { unfold update_tls. cbn [load_size dyn_size version negb].
    destruct (Z.ltb_spec tl ml); cbn [mbind outcome_bind load_size dyn_size version];
      destruct (Z.ltb_spec td mdn); cbn [mbind outcome_bind load_size dyn_size version];
      eexists; (split; [repeat f_equal; lia|]); intros x; unfold copy_range;
      repeat (case_match; reflect_bools); try done; exfalso;
      repeat match goal with
      | H : _ && _ = false |- _ => apply andb_false_iff in H as [H|H]; reflect_bools
      | H : _ || _ = true |- _ => apply orb_true_iff in H as [H|H]; reflect_bools
      end; lia. }
  exists b'. split_and!; [done| | | |apply Hidem|].
  - intros x Hx. rewrite Hb'. case_match; [done|]. reflect_bools.
    match goal with H : (tl <=? x) && _ = false |- _ => apply andb_false_iff in H as [H|H]; reflect_bools; lia end.
  - intros x Hx _. rewrite Hb'. case_match; [done|]. reflect_bools.
    match goal with H : (- mdn <=? x) && _ = false |- _ => apply andb_false_iff in H as [H|H]; reflect_bools; lia end.
  - intros x Hx. rewrite Hb'. case_match; [|done]. exfalso.
    match goal with H : _ || _ = true |- _ => apply orb_true_iff in H as [H|H]; reflect_bools; lia end.
  - intros ok tp md off. unfold tls_get_addr. cbn [version]. by rewrite Z.eqb_refl.
Qed.

(** ** Load addresses *)

(** Successive load addresses: the next one starts at the page boundary after the
    requested size. *)
Lemma alloc_base_addr_next mmap base max_pma :
  base mod 4096 = 0 -> 0 <= base -> 0 <= max_pma -> base + max_pma + 4096 < 2 ^ 64 ->
  let '(next, _) := alloc_base_addr mmap base max_pma in
  base + max_pma <= next < base + max_pma + 4096 /\ next mod 4096 = 0.
Proof.
  intros Hb H0 Hm Hr. unfold alloc_base_addr, usize_wrap. rewrite (wrap_small 64 (max_pma + 4095)) by lia.
  pose proof (land_not_ones (max_pma + 4095) 12 ltac:(lia) ltac:(lia)) as E.
  change (2 ^ 12 - 1) with 4095 in E. change (2 ^ 12) with 4096 in E. rewrite E.
  pose proof (Z.div_mod (max_pma + 4095) 4096 ltac:(lia)).
  pose proof (Z.mod_pos_bound (max_pma + 4095) 4096 ltac:(lia)).
  rewrite wrap_small by lia. split; [lia|]. rewrite Z.add_mod, Hb, Z.mod_mul by lia. done.
Qed.

(** ** Concrete inputs *)


Lemma update_tls_correct_witness :
  exists b', update_tls true (mkTcb 64 16 2) (fun x => x) (mkTcb 32 0 0) (fun _ => 7) = Ret (mkTcb 64 16 2, b') /\
    (forall x, 32 <= x < 64 -> b' x = x).
Proof.
  destruct (update_tls_correct (mkTcb 64 16 2) (fun x => x) (mkTcb 32 0 0) (fun _ => 7)) as (b' & E & H & _);
    [simpl; lia|simpl; lia|]. exists b'. split; [exact E|exact H].
Defined.
