(* ===== verification/TlsMem.v ===== *)
(** * Thread-local storage in memory (wl-ld-lilium/src/loader.rs, iface.rs)

    [Tls] describes a control block as a record and a block as bytes by offset.  Here both
    are one memory of bytes: the control block is the 32 bytes at the thread pointer
    ([tls_base], [load_size], [dyn_size], [version], each a little-endian word), the master
    block is in the same memory, a page that was not made accessible faults, and the thread
    pointer is the word at [fs:0].  [update_tls], [set_tp] and [get_tp] run on it access by
    access; the theorems say what they write, and that the result is the one of [Tls]. *)

From Stdlib Require Import ZArith Lia.
From stdpp Require Import base numbers list option.
From S2P Require Import Prelude.
From S2P Require Import Tls.

Local Open Scope Z_scope.

(** ** Memory *)

(** The register [fs], the bytes, and the addresses that can be read and written. *)
Record tstate : Type := mkTs { fs_base : Z; byte : Z -> Z; acc : Z -> bool }.

Abbreviation tm := (stm tstate Empty_set).

Definition load8 (b : Z -> Z) (a : Z) : Z := le_value (b <$> seqZ a 8).
Definition store8 (b : Z -> Z) (a v : Z) : Z -> Z := fun x =>
  if (a <=? x) && (x <? a + 8) then default 0 (le_bytes 8 v !! Z.to_nat (x - a)) else b x.
Definition copyb (b : Z -> Z) (src dst len : Z) : Z -> Z := fun x =>
  if (dst <=? x) && (x <? dst + len) then b (src + (x - dst)) else b x.

(** The [n] addresses from [a] on are accessible. *)
Definition accessible (s : tstate) (a n : Z) : bool := forallb (fun x => acc s x) (seqZ a n).

Definition read_word (a : Z) : tm Z := fun s =>
  if accessible s a 8 then Ret (s, Ok (load8 (byte s) a)) else Panic Fault.
Definition write_word (a v : Z) : tm unit := fun s =>
  if accessible s a 8 then Ret (mkTs (fs_base s) (store8 (byte s) a v) (acc s), Ok tt) else Panic Fault.
(** [copy_nonoverlapping]. *)
Definition copy (src dst len : Z) : tm unit := fun s =>
  if accessible s src len && accessible s dst len
  then Ret (mkTs (fs_base s) (copyb (byte s) src dst len) (acc s), Ok tt) else Panic Fault.

Definition page_end (a : Z) : Z := 4096 * ((a + 4095) / 4096).

Section Update.
(** Whether [mprotect] accepts an address and a length, and [TLS_MC]. *)
Context (mprotect_ok : Z -> Z -> bool) (mc : Z).

(** [mprotect(pg, len, PROT_READ | PROT_WRITE)] works on whole pages; when it fails the
    loader prints a message and crashes. *)
Definition sys_mprotect (pg len : Z) : tm unit := fun s =>
  if mprotect_ok pg len
  then Ret (mkTs (fs_base s) (byte s) (fun x => acc s x || ((pg <=? x) && (x <? page_end (pg + len)))), Ok tt)
  else Panic Explicit.

(** The fields of a [Tcb] by offset. *)
Definition OFF_load_size : Z := 8.
Definition OFF_dyn_size : Z := 16.
Definition OFF_version : Z := 24.

(** [get_tp]: the word at [fs:0]. *)
Definition get_tp : tm Z := fun s => read_word (fs_base s) s.

(** [!4095]. *)
Definition PAGE_MASK : Z := not_w 64 4095.
(** The ranges passed to [mprotect], address and length, from the sizes of the thread and
    of the master block. *)
Definition static_range (tp tl ml : Z) : Z * Z :=
  (usize_wrap (tp + Z.land tl PAGE_MASK), usize_wrap (ml - Z.land tl PAGE_MASK)).
Definition dyn_range (tp td md : Z) : Z * Z :=
  let up := Z.land (usize_wrap (md + 4095)) PAGE_MASK in (usize_wrap (tp - up), usize_wrap (up - td)).

(** The first [if] of [update_tls], for the modules behind the thread pointer, and the
    second, for those in front of it. *)
Definition update_static (tp : Z) : tm unit :=
  tl ← read_word (tp + OFF_load_size);
  ml ← read_word (mc + OFF_load_size);
  if tl <? ml then
    let r := static_range tp tl ml in
    sys_mprotect r.1 r.2 ≫= fun _ =>
    copy (usize_wrap (mc + tl)) (usize_wrap (tp + tl)) (usize_wrap (ml - tl)) ≫= fun _ =>
    ml ← read_word (mc + OFF_load_size);
    write_word (tp + OFF_load_size) ml
  else mret tt.
Definition update_dyn (tp : Z) : tm unit :=
  td ← read_word (tp + OFF_dyn_size);
  md ← read_word (mc + OFF_dyn_size);
  if td <? md then
    let r := dyn_range tp td md in
    sys_mprotect r.1 r.2 ≫= fun _ =>
    copy (usize_wrap (mc - md)) (usize_wrap (tp - md)) (usize_wrap (md - td)) ≫= fun _ =>
    md ← read_word (mc + OFF_dyn_size);
    write_word (tp + OFF_dyn_size) md
  else mret tt.

(** [update_tls], under the read lock of [LoadLock]. *)
Definition update_tls_mem : tm unit :=
  tp ← get_tp;
  update_static tp ≫= fun _ =>
  update_dyn tp ≫= fun _ =>
  v ← read_word (mc + OFF_version);
  write_word (tp + OFF_version) v.

(** [set_tp]: a new control block at [ptr], then the register, by the instruction or by
    [arch_prctl], whose result is ignored, then [update_tls]. *)
Definition set_fs (v : Z) : tm unit := fun s => Ret (mkTs v (byte s) (acc s), Ok tt).
Definition set_tp (fsgsbase prctl_ok : bool) (ptr : Z) : tm unit :=
  write_word ptr ptr ≫= fun _ =>
  write_word (ptr + OFF_load_size) TCB_SIZE ≫= fun _ =>
  write_word (ptr + OFF_dyn_size) 0 ≫= fun _ =>
  write_word (ptr + OFF_version) 0 ≫= fun _ =>
  (if fsgsbase || prctl_ok then set_fs ptr else mret tt) ≫= fun _ =>
  update_tls_mem.

(** [__rtld_get_thread_ptr] and [__rtld_update_global_tcb]. *)
Definition rtld_get_thread_ptr : tm Z := update_tls_mem ≫= fun _ => get_tp.
Definition rtld_update_global_tcb : tm unit := update_tls_mem.
End Update.

(** ** Words and ranges *)

Lemma accessible_spec s a n : accessible s a n = true <-> forall x, a <= x < a + n -> acc s x = true.
Proof.
  unfold accessible. rewrite forallb_forall. split.
  - intros H x Hx. apply H, list_elem_of_In, elem_of_seqZ. lia.
  - intros H x Hx%list_elem_of_In%elem_of_seqZ. apply H. lia.
Qed.

Lemma load8_ext b b' a : (forall x, a <= x < a + 8 -> b x = b' x) -> load8 b a = load8 b' a.
Proof.
  intros H. unfold load8. f_equal. apply list_fmap_ext. intros i x Hx. apply H.
  apply lookup_seqZ in Hx. lia.
Qed.

Lemma load8_store8 b a v : 0 <= v < 2 ^ 64 -> load8 (store8 b a v) a = v.
Proof.
  intros Hv. unfold load8. transitivity (le_value (le_bytes 8 v)); [f_equal|by apply le_value_le_bytes].
  apply list_eq_same_length with (n := 8%nat); [by rewrite length_le_bytes|by rewrite length_fmap, length_seqZ|].
  intros i x y Hi Hx Hy. rewrite list_lookup_fmap, lookup_seqZ_lt in Hx by lia. cbn in Hx. injection Hx as <-.
  unfold store8. rewrite (proj2 (Z.leb_le _ _)), (proj2 (Z.ltb_lt _ _)) by lia. cbn [andb].
  replace (Z.to_nat (a + Z.of_nat i - a)) with i by lia. rewrite Hy. done.
Qed.

Lemma store8_out b a v x : ~ (a <= x < a + 8) -> store8 b a v x = b x.
Proof. intros H. unfold store8. case_match eqn:E; [|done]. reflect_bools. lia. Qed.
Lemma load8_store8_ne b a v a' : a' + 8 <= a \/ a + 8 <= a' -> load8 (store8 b a v) a' = load8 b a'.
Proof. intros H. apply load8_ext. intros x Hx. apply store8_out. lia. Qed.
Lemma copyb_in b src dst len x : dst <= x < dst + len -> copyb b src dst len x = b (src + (x - dst)).
Proof. intros H. unfold copyb. rewrite (proj2 (Z.leb_le _ _)), (proj2 (Z.ltb_lt _ _)) by lia. done. Qed.
Lemma copyb_out b src dst len x : ~ (dst <= x < dst + len) -> copyb b src dst len x = b x.
Proof. intros H. unfold copyb. case_match eqn:E; [|done]. reflect_bools. lia. Qed.

Lemma le_value_range l : Forall (fun x => 0 <= x < 256) l -> 0 <= le_value l < 256 ^ Z.of_nat (length l).
Proof.
  induction 1 as [|x l Hx _ IH]; [cbn; lia|]. cbn [le_value length]. rewrite Nat2Z.inj_succ, Z.pow_succ_r by lia. lia.
Qed.
Lemma load8_range b a : (forall x, a <= x < a + 8 -> 0 <= b x < 256) -> 0 <= load8 b a < 2 ^ 64.
Proof.
  intros H. pose proof (le_value_range (b <$> seqZ a 8)) as R. rewrite length_fmap, length_seqZ in R. apply R.
  apply Forall_fmap, list.Forall_forall. intros x Hx%elem_of_seqZ. apply H. lia.
Qed.

Lemma page_mask_spec x : 0 <= x < 2 ^ 64 -> Z.land x PAGE_MASK = 4096 * (x / 4096).
Proof.
  intros Hx. pose proof (land_not_ones x 12 ltac:(lia) Hx) as E. change (2 ^ 12 - 1) with 4095 in E. change (2 ^ 12) with 4096 in E.
  unfold PAGE_MASK. rewrite E. lia.
Qed.
Lemma page_end_ge a : a <= page_end a.
Proof. unfold page_end. pose proof (Z.div_mod (a + 4095) 4096 ltac:(lia)). pose proof (Z.mod_pos_bound (a + 4095) 4096 ltac:(lia)). lia. Qed.

Lemma read_word_ok {B} a (f : Z -> tm B) s : accessible s a 8 = true -> (read_word a ≫= f) s = f (load8 (byte s) a) s.
Proof. intros H. unfold mbind, stm_bind, read_word. by rewrite H. Qed.
Lemma write_word_ok {B} a v (f : unit -> tm B) s : accessible s a 8 = true ->
  (write_word a v ≫= f) s = f tt (mkTs (fs_base s) (store8 (byte s) a v) (acc s)).
Proof. intros H. unfold mbind, stm_bind, write_word. by rewrite H. Qed.
Lemma copy_ok {B} src dst len (f : unit -> tm B) s : accessible s src len = true -> accessible s dst len = true ->
  (copy src dst len ≫= f) s = f tt (mkTs (fs_base s) (copyb (byte s) src dst len) (acc s)).
Proof. intros H1 H2. unfold mbind, stm_bind, copy. by rewrite H1, H2. Qed.

(** ** An update *)

(** Half of a reserved block. *)
Definition HALF : Z := TLS_BLOCK_SIZE / 2.

Section Theorems.
Context (mprotect_ok : Z -> Z -> bool) (mc : Z).

(** The blocks of the thread and of the master: 64 MiB each, around [tp] and [mc], apart
    from each other; the thread's is aligned to pages. *)
Record geometry (tp : Z) : Prop := {
  ge_tp : HALF <= tp /\ tp + HALF < 2 ^ 64 /\ tp mod 4096 = 0;
  ge_mc : HALF <= mc /\ mc + HALF < 2 ^ 64;
  ge_apart : tp + TLS_BLOCK_SIZE <= mc \/ mc + TLS_BLOCK_SIZE <= tp }.

(** Linux makes pages inside the reserved block accessible. *)
Definition kernel_ok (tp : Z) : Prop :=
  forall a n, a mod 4096 = 0 -> 0 < n -> tp - HALF <= a -> a + n <= tp + HALF -> mprotect_ok a n = true.

(** The control block at an address, and the bytes by offset from it, as [Tls] has them. *)
Definition tcb_at (b : Z -> Z) (a : Z) : Tcb := mkTcb (load8 b (a + OFF_load_size)) (load8 b (a + OFF_dyn_size)) (load8 b (a + OFF_version)).
Definition block_at (b : Z -> Z) (a : Z) : block := fun x => b (a + x).

(** The running thread is on the block at [tp]: [fs] points there, and so does the first
    word of the control block. *)
Record thread_ok (s : tstate) (tp : Z) : Prop := {
  th_fs : fs_base s = tp;
  th_base : load8 (byte s) tp = tp;
  th_sizes : TCB_SIZE <= load_size (tcb_at (byte s) tp) <= HALF /\ 0 <= dyn_size (tcb_at (byte s) tp) <= HALF;
  th_acc : forall x, tp <= x < tp + TCB_SIZE -> acc s x = true }.

(** The master block: its sizes, and that everything inside of them is accessible. *)
Record master_ok (s : tstate) : Prop := {
  ma_sizes : TCB_SIZE <= load_size (tcb_at (byte s) mc) <= HALF /\ 0 <= dyn_size (tcb_at (byte s) mc) <= HALF;
  ma_bytes : forall x, mc <= x < mc + TCB_SIZE -> 0 <= byte s x < 256;
  ma_acc : forall x, mc - dyn_size (tcb_at (byte s) mc) <= x < mc + load_size (tcb_at (byte s) mc) -> acc s x = true }.

Ltac consts := unfold TCB_SIZE, OFF_load_size, OFF_dyn_size, OFF_version, HALF in *; change TLS_BLOCK_SIZE with 67108864 in *;
  change (67108864 / 2) with 33554432 in *.
Ltac reach := apply accessible_spec; intros; cbn [acc]; rewrite ?orb_true_iff.

Lemma update_static_ok s tp tl ml :
  geometry tp -> kernel_ok tp -> load8 (byte s) (tp + OFF_load_size) = tl -> load8 (byte s) (mc + OFF_load_size) = ml ->
  TCB_SIZE <= tl <= HALF -> TCB_SIZE <= ml <= HALF -> (forall x, tp <= x < tp + TCB_SIZE -> acc s x = true) ->
  (forall x, mc <= x < mc + ml -> acc s x = true) ->
  exists s', update_static mprotect_ok mc tp s = Ret (s', Ok tt) /\ fs_base s' = fs_base s /\
    (forall x, acc s x = true -> acc s' x = true) /\
    (forall x, acc s' x = true -> acc s x = true \/
       (tl < ml /\ (static_range tp tl ml).1 <= x < page_end ((static_range tp tl ml).1 + (static_range tp tl ml).2))) /\
    load8 (byte s') (tp + OFF_load_size) = Z.max tl ml /\
    (forall x, tp + tl <= x < tp + ml -> byte s' x = byte s (mc + (x - tp))) /\
    (forall x, ~ (tp + tl <= x < tp + ml) -> ~ (tp + OFF_load_size <= x < tp + OFF_load_size + 8) -> byte s' x = byte s x).
Proof.
  intros [(G1 & G2 & G3) (G4 & G5) G6] Hk Htl Hml Bt Bm At Am. unfold update_static. consts.
  rewrite read_word_ok by (reach; apply At; consts; lia). rewrite Htl.
  rewrite read_word_ok by (reach; apply Am; consts; lia). rewrite Hml.
  destruct (Z.ltb_spec tl ml) as [Hlt|Hge].
  2:{ exists s. split; [done|]. split_and!; [done|auto|auto| |lia|auto]. rewrite Htl. lia. }
  pose proof (Z.div_mod tl 4096 ltac:(lia)). pose proof (Z.mod_pos_bound tl 4096 ltac:(lia)).
  assert (R : static_range tp tl ml = (tp + 4096 * (tl / 4096), ml - 4096 * (tl / 4096))).
  { unfold static_range. rewrite page_mask_spec by lia. unfold usize_wrap. rewrite !wrap_small by lia. done. }
  rewrite R. cbn [fst snd]. unfold usize_wrap. rewrite (wrap_small 64 (mc + tl)), (wrap_small 64 (tp + tl)), (wrap_small 64 (ml - tl)) by lia.
  unfold mbind at 1, stm_bind at 1, sys_mprotect.
  rewrite (Hk (tp + 4096 * (tl / 4096)) (ml - 4096 * (tl / 4096))); [|rewrite Z.mul_comm, Z_mod_plus_full; done|lia|consts; lia|consts; lia].
  set (acc' := fun x => acc s x || _).
  assert (Hg : forall x, acc s x = true -> acc' x = true) by (intros x Hx; unfold acc'; by rewrite Hx).
  assert (Ht : forall x, tp + tl <= x < tp + ml -> acc' x = true).
  { intros x Hx. unfold acc'. pose proof (page_end_ge (tp + 4096 * (tl / 4096) + (ml - 4096 * (tl / 4096)))).
    rewrite (proj2 (Z.leb_le _ _)), (proj2 (Z.ltb_lt _ _)) by lia. apply orb_true_r. }
  rewrite copy_ok; [|reach; apply Hg, Am; lia|reach; apply Ht; lia]. cbn [fs_base byte acc].
  rewrite read_word_ok by (reach; apply Hg, Am; consts; lia). cbn [byte].
  assert (Hml' : load8 (copyb (byte s) (mc + tl) (tp + tl) (ml - tl)) (mc + 8) = ml).
  { rewrite <- Hml at 2. apply load8_ext. intros x Hx. apply copyb_out. lia. }
  rewrite Hml'. unfold write_word.
  rewrite (proj2 (accessible_spec _ _ _)) by (intros x Hx; cbn [acc]; apply Hg, At; consts; lia).
  eexists. split; [reflexivity|]. cbn [fs_base byte acc]. split_and!; [done|exact Hg| |rewrite load8_store8; lia| |].
  - intros x Hx. unfold acc' in Hx. apply orb_true_iff in Hx as [Hx|Hx]; [by left|right]. reflect_bools. lia.
  - intros x Hx. rewrite store8_out by lia. rewrite copyb_in by lia. f_equal. lia.
  - intros x Hx1 Hx2. rewrite store8_out, copyb_out by lia. done.
Qed.

Lemma update_dyn_ok s tp td md :
  geometry tp -> kernel_ok tp -> load8 (byte s) (tp + OFF_dyn_size) = td -> load8 (byte s) (mc + OFF_dyn_size) = md ->
  0 <= td <= HALF -> 0 <= md <= HALF -> (forall x, tp <= x < tp + TCB_SIZE -> acc s x = true) ->
  (forall x, mc - md <= x < mc + TCB_SIZE -> acc s x = true) ->
  exists s', update_dyn mprotect_ok mc tp s = Ret (s', Ok tt) /\ fs_base s' = fs_base s /\
    (forall x, acc s x = true -> acc s' x = true) /\
    (forall x, acc s' x = true -> acc s x = true \/
       (td < md /\ (dyn_range tp td md).1 <= x < page_end ((dyn_range tp td md).1 + (dyn_range tp td md).2))) /\
    load8 (byte s') (tp + OFF_dyn_size) = Z.max td md /\
    (forall x, tp - md <= x < tp - td -> byte s' x = byte s (mc + (x - tp))) /\
    (forall x, ~ (tp - md <= x < tp - td) -> ~ (tp + OFF_dyn_size <= x < tp + OFF_dyn_size + 8) -> byte s' x = byte s x).
Proof.
  intros [(G1 & G2 & G3) (G4 & G5) G6] Hk Htd Hmd Bt Bm At Am. unfold update_dyn. consts.
  rewrite read_word_ok by (reach; apply At; consts; lia). rewrite Htd.
  rewrite read_word_ok by (reach; apply Am; consts; lia). rewrite Hmd.
  destruct (Z.ltb_spec td md) as [Hlt|Hge].
  2:{ exists s. split; [done|]. split_and!; [done|auto|auto| |lia|auto]. rewrite Htd. lia. }
  pose proof (Z.div_mod (md + 4095) 4096 ltac:(lia)). pose proof (Z.mod_pos_bound (md + 4095) 4096 ltac:(lia)).
  assert ((md + 4095) / 4096 <= 8192) by (apply Z.lt_succ_r, Z.div_lt_upper_bound; lia).
  set (up := 4096 * ((md + 4095) / 4096)) in *.
  assert (R : dyn_range tp td md = (tp - up, up - td)).
  { unfold dyn_range, usize_wrap. rewrite (wrap_small 64 (md + 4095)), page_mask_spec by lia. fold up.
    rewrite !wrap_small by lia. done. }
  rewrite R. cbn [fst snd]. unfold usize_wrap. rewrite (wrap_small 64 (mc - md)), (wrap_small 64 (tp - md)), (wrap_small 64 (md - td)) by lia.
  unfold mbind at 1, stm_bind at 1, sys_mprotect.
  rewrite (Hk (tp - up) (up - td)); [|unfold up; replace (tp - 4096 * _) with (tp + (- ((md + 4095) / 4096)) * 4096) by lia; by rewrite Z_mod_plus_full|lia|consts; lia|consts; lia].
  set (acc' := fun x => acc s x || _).
  assert (Hg : forall x, acc s x = true -> acc' x = true) by (intros x Hx; unfold acc'; by rewrite Hx).
  assert (Ht : forall x, tp - md <= x < tp - td -> acc' x = true).
  { intros x Hx. unfold acc'. pose proof (page_end_ge (tp - up + (up - td))).
    rewrite (proj2 (Z.leb_le _ _)), (proj2 (Z.ltb_lt _ _)) by lia. apply orb_true_r. }
  rewrite copy_ok; [|reach; apply Hg, Am; lia|reach; apply Ht; lia]. cbn [fs_base byte acc].
  rewrite read_word_ok by (reach; apply Hg, Am; consts; lia). cbn [byte].
  assert (Hmd' : load8 (copyb (byte s) (mc - md) (tp - md) (md - td)) (mc + 16) = md).
  { rewrite <- Hmd at 4. apply load8_ext. intros x Hx. apply copyb_out. lia. }
  rewrite Hmd'. unfold write_word.
  rewrite (proj2 (accessible_spec _ _ _)) by (intros x Hx; cbn [acc]; apply Hg, At; consts; lia).
  eexists. split; [reflexivity|]. cbn [fs_base byte acc]. split_and!; [done|exact Hg| |rewrite load8_store8; lia| |].
  - intros x Hx. unfold acc' in Hx. apply orb_true_iff in Hx as [Hx|Hx]; [by left|right]. reflect_bools. lia.
  - intros x Hx. rewrite store8_out by lia. rewrite copyb_in by lia. f_equal. lia.
  - intros x Hx1 Hx2. rewrite store8_out, copyb_out by lia. done.
Qed.

(** What an update leaves, from the control blocks [t] and [m] it finds. *)
Record updated (s s' : tstate) (tp : Z) (t m : Tcb) : Prop := {
  up_thread : thread_ok s' tp;
  up_master : master_ok s';
  up_tcb : tcb_at (byte s') tp = mkTcb (Z.max (load_size t) (load_size m)) (Z.max (dyn_size t) (dyn_size m)) (version m);
  up_static : forall x, tp + load_size t <= x < tp + load_size m -> byte s' x = byte s (mc + (x - tp));
  up_dyn : forall x, tp - dyn_size m <= x < tp - dyn_size t -> byte s' x = byte s (mc + (x - tp));
  up_rest : forall x, ~ (tp + load_size t <= x < tp + load_size m) -> ~ (tp - dyn_size m <= x < tp - dyn_size t) ->
    ~ (tp + OFF_load_size <= x < tp + TCB_SIZE) -> byte s' x = byte s x;
  up_acc : forall x, acc s' x = true -> acc s x = true \/
    (load_size t < load_size m /\ let r := static_range tp (load_size t) (load_size m) in r.1 <= x < page_end (r.1 + r.2)) \/
    (dyn_size t < dyn_size m /\ let r := dyn_range tp (dyn_size t) (dyn_size m) in r.1 <= x < page_end (r.1 + r.2));
  up_grows : forall x, acc s x = true -> acc s' x = true }.

Lemma update_mem_ok s tp :
  geometry tp -> kernel_ok tp -> thread_ok s tp -> master_ok s ->
  exists s', update_tls_mem mprotect_ok mc s = Ret (s', Ok tt) /\ updated s s' tp (tcb_at (byte s) tp) (tcb_at (byte s) mc).
Proof.
  intros G Hk [F B [St Sd] At] [[Ml Md] Mb Ma]. pose proof G as [(G1 & G2 & G3) (G4 & G5) G6].
  remember (tcb_at (byte s) tp) as t eqn:Et. remember (tcb_at (byte s) mc) as m eqn:Em.
  destruct t as [tl td tv], m as [ml md mv]. unfold tcb_at in Et, Em. injection Et as Etl Etd Etv. injection Em as Eml Emd Emv.
  cbn [load_size dyn_size version] in *. unfold update_tls_mem, get_tp.
  unfold mbind at 1, stm_bind at 1. unfold read_word at 1. rewrite F.
  rewrite (proj2 (accessible_spec _ _ _)) by (intros x Hx; apply At; consts; lia). rewrite B.
  destruct (update_static_ok s tp tl ml G Hk) as (s1 & E1 & F1 & A1 & A1' & L1 & C1 & K1);
    [by symmetry|by symmetry|done|done|done|intros x Hx; apply Ma; lia|].
  rewrite (stm_bind_ok _ _ _ _ _ E1).
  assert (K1m : forall x, mc - HALF <= x < mc + HALF -> byte s1 x = byte s x) by (intros x Hx; apply K1; consts; lia).
  destruct (update_dyn_ok s1 tp td md G Hk) as (s2 & E2 & F2 & A2 & A2' & L2 & C2 & K2).
  { rewrite Etd. apply load8_ext. intros x Hx. apply K1; consts; lia. }
  { rewrite Emd. apply load8_ext. intros x Hx. apply K1m; consts; lia. }
  { done. } { done. } { intros x Hx. by apply A1, At. } { intros x Hx. apply A1, Ma. consts. lia. }
  rewrite (stm_bind_ok _ _ _ _ _ E2).
  assert (K2m : forall x, mc - HALF <= x < mc + HALF -> byte s2 x = byte s x).
  { intros x Hx. rewrite K2 by (consts; lia). by apply K1m. }
  assert (Ev : load8 (byte s2) (mc + OFF_version) = mv).
  { rewrite Emv. apply load8_ext. intros x Hx. apply K2m; consts; lia. }
  rewrite read_word_ok by (apply accessible_spec; intros x Hx; apply A2, A1, Ma; consts; lia). rewrite Ev.
  unfold write_word. rewrite (proj2 (accessible_spec _ _ _)) by (intros x Hx; apply A2, A1, At; consts; lia).
  assert (Rv : 0 <= mv < 2 ^ 64) by (rewrite Emv; apply load8_range; intros x Hx; apply Mb; consts; lia).
  eexists. split; [reflexivity|].
  assert (Hm : forall x, mc - HALF <= x < mc + HALF -> store8 (byte s2) (tp + OFF_version) mv x = byte s x).
  { intros x Hx. rewrite store8_out by (consts; lia). by apply K2m. }
  assert (Ht : tcb_at (store8 (byte s2) (tp + OFF_version) mv) tp = mkTcb (Z.max tl ml) (Z.max td md) mv).
  { unfold tcb_at. f_equal; [| |by apply load8_store8].
    - rewrite load8_store8_ne by (consts; lia). etrans; [|exact L1]. apply load8_ext. intros x Hx. apply K2; consts; lia.
    - by rewrite load8_store8_ne by (consts; lia). }
  assert (Hmt : tcb_at (store8 (byte s2) (tp + OFF_version) mv) mc = mkTcb ml md mv).
  { transitivity (tcb_at (byte s) mc); [|unfold tcb_at; congruence].
    unfold tcb_at. f_equal; apply load8_ext; intros x Hx; apply Hm; consts; lia. }
  split; cbn [fs_base byte acc load_size dyn_size version].
  - split; cbn [fs_base byte acc]; [congruence| | |].
    + rewrite load8_store8_ne by (consts; lia). etrans; [|exact B]. apply load8_ext. intros x Hx.
      rewrite K2, K1 by (consts; lia). done.
    + rewrite Ht. cbn [load_size dyn_size]. lia.
    + intros x Hx. by apply A2, A1, At.
  - split; cbn [byte acc]; rewrite ?Hmt; cbn [load_size dyn_size].
    + by split.
    + intros x Hx. rewrite Hm by (consts; lia). by apply Mb.
    + intros x Hx. by apply A2, A1, Ma.
  - done.
  - intros x Hx. rewrite store8_out by (consts; lia). rewrite K2 by (consts; lia). by apply C1.
  - intros x Hx. rewrite store8_out by (consts; lia). rewrite C2 by done. apply K1m. consts. lia.
  - intros x H1 H2 H3. rewrite store8_out by (consts; lia). rewrite K2, K1 by (consts; lia). done.
  - intros x Hx. destruct (A2' x Hx) as [H2|H2]; [|by right; right]. destruct (A1' x H2) as [H1|H1]; [by left|by right; left].
  - intros x Hx. by apply A2, A1.
Qed.

(** [Tls.update_tls] as one expression. *)
Lemma update_tls_value m mb t b : exists b',
  update_tls true m mb t b = Ret (mkTcb (Z.max (load_size t) (load_size m)) (Z.max (dyn_size t) (dyn_size m)) (version m), b') /\
  forall x, b' x = if (- dyn_size m <=? x) && (x <? - dyn_size t) then mb x
                   else if (load_size t <=? x) && (x <? load_size m) then mb x else b x.
Proof.
  unfold update_tls. cbn [negb]. destruct t as [tl td tv], m as [ml md mv]. cbn [load_size dyn_size version].
  destruct (Z.ltb_spec tl ml); cbn [mbind outcome_bind load_size dyn_size version];
    destruct (Z.ltb_spec td md); cbn [mbind outcome_bind load_size dyn_size version]; eexists;
    (split; [repeat f_equal; lia|]); intros x; unfold copy_range; try done.
  - destruct (Z.leb_spec (- md) x), (Z.ltb_spec x (- td)); cbn [andb]; try done; lia.
  - destruct (Z.leb_spec tl x), (Z.ltb_spec x ml); cbn [andb]; try done; lia.
  - destruct (Z.leb_spec tl x), (Z.ltb_spec x ml), (Z.leb_spec (- md) x), (Z.ltb_spec x (- td)); cbn [andb]; try done; lia.
Qed.

Definition within (r : Z * Z) (x : Z) : Prop := r.1 <= x < r.1 + r.2.

(** The ranges when they are used: page-aligned, inside the block, around the copies. *)
Lemma static_range_ok tp tl ml :
  geometry tp -> TCB_SIZE <= tl -> ml <= HALF -> tl < ml ->
  let r := static_range tp tl ml in
  r.1 mod 4096 = 0 /\ tp <= r.1 /\ r.1 + r.2 = tp + ml /\ forall x, tp + tl <= x < tp + ml -> within r x.
Proof.
  intros [(G1 & G2 & G3) _ _] Ht Hm Hlt. pose proof (Z.div_mod tl 4096 ltac:(lia)). pose proof (Z.mod_pos_bound tl 4096 ltac:(lia)).
  consts. assert (static_range tp tl ml = (tp + 4096 * (tl / 4096), ml - 4096 * (tl / 4096))) as ->.
  { unfold static_range. rewrite page_mask_spec by lia. unfold usize_wrap. rewrite !wrap_small by lia. done. }
  unfold within. cbn [fst snd]. split_and!; [rewrite Z.mul_comm, Z_mod_plus_full; done|lia..].
Qed.
Lemma dyn_range_ok tp td md :
  geometry tp -> 0 <= td -> md <= HALF -> td < md ->
  let r := dyn_range tp td md in
  r.1 mod 4096 = 0 /\ tp - HALF <= r.1 /\ r.1 + r.2 = tp - td /\ forall x, tp - md <= x < tp - td -> within r x.
Proof.
  intros [(G1 & G2 & G3) _ _] Ht Hm Hlt. pose proof (Z.div_mod (md + 4095) 4096 ltac:(lia)). pose proof (Z.mod_pos_bound (md + 4095) 4096 ltac:(lia)).
  consts. assert ((md + 4095) / 4096 <= 8192) by (apply Z.lt_succ_r, Z.div_lt_upper_bound; lia).
  set (up := 4096 * ((md + 4095) / 4096)) in *.
  assert (dyn_range tp td md = (tp - up, up - td)) as ->.
  { unfold dyn_range, usize_wrap. rewrite (wrap_small 64 (md + 4095)), page_mask_spec by lia. fold up. rewrite !wrap_small by lia. done. }
  unfold within. cbn [fst snd]. split_and!; [|lia..].
  unfold up. replace (tp - 4096 * _) with (tp + (- ((md + 4095) / 4096)) * 4096) by lia. by rewrite Z_mod_plus_full.
Qed.

(** C29: what [update_tls] does to the memory, access by access.  It returns without a
    fault, having written only the bytes of the modules that are new to the thread, all of
    them in one of the two ranges it passed to [mprotect], and the words [load_size],
    [dyn_size] and [version] of the control block at the thread pointer; [tls_base], the word
    in front of them, keeps its value.  The ranges start at pages and stay within the
    reserved block, and no other page becomes accessible.  The control block and the bytes
    are those of the update defined on records ([Tls.update_tls]). *)
Theorem update_tls_in_bounds s tp :
  geometry tp -> kernel_ok tp -> thread_ok s tp -> master_ok s ->
  let t := tcb_at (byte s) tp in let m := tcb_at (byte s) mc in
  let r1 := static_range tp (load_size t) (load_size m) in let r2 := dyn_range tp (dyn_size t) (dyn_size m) in
  exists s', update_tls_mem mprotect_ok mc s = Ret (s', Ok tt) /\
    (forall x, byte s' x <> byte s x ->
       (load_size t < load_size m /\ tp + load_size t <= x < tp + load_size m /\ within r1 x) \/
       (dyn_size t < dyn_size m /\ tp - dyn_size m <= x < tp - dyn_size t /\ within r2 x) \/
       tp + OFF_load_size <= x < tp + TCB_SIZE) /\
    (forall x, acc s' x <> acc s x ->
       (load_size t < load_size m /\ r1.1 <= x < page_end (r1.1 + r1.2)) \/
       (dyn_size t < dyn_size m /\ r2.1 <= x < page_end (r2.1 + r2.2))) /\
    (load_size t < load_size m -> r1.1 mod 4096 = 0 /\ tp <= r1.1 /\ r1.1 + r1.2 <= tp + HALF) /\
    (dyn_size t < dyn_size m -> r2.1 mod 4096 = 0 /\ tp - HALF <= r2.1 /\ r2.1 + r2.2 <= tp) /\
    load8 (byte s') tp = tp /\
    exists b', update_tls true m (block_at (byte s) mc) t (block_at (byte s) tp) = Ret (tcb_at (byte s') tp, b') /\
      forall x, ~ (OFF_load_size <= x < TCB_SIZE) -> block_at (byte s') tp x = b' x.
Proof.
  intros G Hk Ht Hm t m r1 r2. destruct (update_mem_ok s tp G Hk Ht Hm) as (s' & E & [U1 U2 U3 U4 U5 U6 U7 U8]).
  fold t m in U3, U4, U5, U6, U7.
  pose proof (th_sizes _ _ Ht) as [St Sd]. pose proof (ma_sizes _ Hm) as [Sm Smd]. fold t in St, Sd. fold m in Sm, Smd.
  exists s'. split; [done|]. split_and!.
  - intros x Hx. destruct (decide (tp + OFF_load_size <= x < tp + TCB_SIZE)); [by right; right|].
    destruct (decide (tp + load_size t <= x < tp + load_size m)) as [H1|H1].
    { left. split_and!; [lia..|apply static_range_ok]; done || lia. }
    destruct (decide (tp - dyn_size m <= x < tp - dyn_size t)) as [H2|H2].
    { right; left. split_and!; [lia..|apply dyn_range_ok]; done || lia. }
    by rewrite U6 in Hx.
  - intros x Hx. destruct (acc s' x) eqn:Ea; [destruct (U7 x Ea) as [Ha|Ha]; [congruence|exact Ha]|].
    destruct (acc s x) eqn:Eb; [|done]. rewrite (U8 x Eb) in Ea. done.
  - intros Hlt. destruct (static_range_ok tp (load_size t) (load_size m)) as (H1 & H2 & H3 & _); [done|lia..|].
    split_and!; [done|done|]. fold r1 in H3. lia.
  - intros Hlt. destruct (dyn_range_ok tp (dyn_size t) (dyn_size m)) as (H1 & H2 & H3 & _); [done|lia..|].
    split_and!; [done|done|]. fold r2 in H3. lia.
  - apply U1.
  - destruct (update_tls_value m (block_at (byte s) mc) t (block_at (byte s) tp)) as (b' & -> & Hb'). exists b'.
    split; [by rewrite U3|]. intros x Hx. rewrite Hb'. unfold block_at.
    destruct (decide (- dyn_size m <= x < - dyn_size t)) as [H1|H1].
    { rewrite (proj2 (Z.leb_le _ _)), (proj2 (Z.ltb_lt _ _)) by lia. cbn [andb]. rewrite U5 by lia. f_equal. lia. }
    replace ((- dyn_size m <=? x) && (x <? - dyn_size t)) with false by (symmetry; apply andb_false_iff; lia).
    destruct (decide (load_size t <= x < load_size m)) as [H2|H2].
    { rewrite (proj2 (Z.leb_le _ _)), (proj2 (Z.ltb_lt _ _)) by lia. cbn [andb]. rewrite U4 by lia. f_equal. lia. }
    replace ((load_size t <=? x) && (x <? load_size m)) with false by (symmetry; apply andb_false_iff; lia).
    apply U6; lia.
Qed.

(** ** The thread pointer *)

Lemma query_ok s tp :
  geometry tp -> kernel_ok tp -> thread_ok s tp -> master_ok s ->
  exists s', rtld_get_thread_ptr mprotect_ok mc s = Ret (s', Ok tp) /\ updated s s' tp (tcb_at (byte s) tp) (tcb_at (byte s) mc).
Proof.
  intros G Hk Ht Hm. destruct (update_mem_ok s tp G Hk Ht Hm) as (s' & E & U). exists s'. split; [|done].
  unfold rtld_get_thread_ptr. rewrite (stm_bind_ok _ _ _ _ _ E). destruct (up_thread _ _ _ _ _ U) as [F B _ A].
  unfold get_tp, read_word. rewrite F, (proj2 (accessible_spec _ _ _)) by (intros x Hx; apply A; consts; lia). by rewrite B.
Qed.

Lemma get_tp_ok s tp : thread_ok s tp -> get_tp s = Ret (s, Ok tp).
Proof.
  intros [F B _ A]. unfold get_tp, read_word.
  rewrite F, (proj2 (accessible_spec _ _ _)) by (intros x Hx; apply A; consts; lia). by rewrite B.
Qed.

Lemma set_tp_ok fsgsbase prctl_ok ptr s :
  geometry ptr -> kernel_ok ptr -> master_ok s -> (forall x, ptr <= x < ptr + TCB_SIZE -> acc s x = true) ->
  fsgsbase || prctl_ok = true ->
  exists s', set_tp mprotect_ok mc fsgsbase prctl_ok ptr s = Ret (s', Ok tt) /\ thread_ok s' ptr /\ master_ok s'.
Proof.
  intros G Hk [[M1 M2] Mb Ma] A Hr. pose proof G as [(G1 & G2 & G3) (G4 & G5) G6]. unfold set_tp.
  do 4 (rewrite write_word_ok by (apply accessible_spec; intros x Hx; cbn [acc]; apply A; consts; lia); cbn [fs_base byte acc]).
  rewrite Hr. unfold mbind at 1, stm_bind at 1, set_fs. cbn [fs_base byte acc].
  set (b' := store8 _ (ptr + OFF_version) 0).
  assert (Kb : forall x, ~ (ptr <= x < ptr + TCB_SIZE) -> b' x = byte s x).
  { intros x Hx. unfold b'. rewrite !store8_out by (consts; lia). done. }
  assert (Tb : tcb_at b' ptr = mkTcb TCB_SIZE 0 0).
  { unfold tcb_at, b'. f_equal.
    - rewrite 2 load8_store8_ne by (consts; lia). apply load8_store8. consts; lia.
    - rewrite load8_store8_ne by (consts; lia). apply load8_store8. lia.
    - apply load8_store8. lia. }
  assert (Mt : tcb_at b' mc = tcb_at (byte s) mc).
  { unfold tcb_at. f_equal; apply load8_ext; intros x Hx; apply Kb; consts; lia. }
  destruct (update_mem_ok (mkTs ptr b' (acc s)) ptr G Hk) as (s' & E & U).
  - split; cbn [fs_base byte acc]; [done| |rewrite Tb; consts; cbn [load_size dyn_size]; lia|done].
    unfold b'. rewrite 3 load8_store8_ne by (consts; lia). apply load8_store8. consts; lia.
  - split; cbn [byte acc]; rewrite ?Mt; [done| |done]. intros x Hx. rewrite Kb by (consts; lia). by apply Mb.
  - exists s'. split; [exact E|]. split; [apply U|apply U].
Qed.

(** What the rest of the program may do between two queries: anything that leaves [fs] and
    the control block of the thread alone and keeps a well-formed master block; in
    particular modules may be loaded. *)
Definition others (ptr : Z) (s s' : tstate) : Prop :=
  fs_base s' = fs_base s /\ master_ok s' /\
  forall x, ptr <= x < ptr + TCB_SIZE -> byte s' x = byte s x /\ (acc s x = true -> acc s' x = true).

(** The states of a thread from its [set_tp] on. *)
Inductive session (fsgsbase prctl_ok : bool) (ptr : Z) (s0 : tstate) : tstate -> Prop :=
| S_start s : set_tp mprotect_ok mc fsgsbase prctl_ok ptr s0 = Ret (s, Ok tt) -> session fsgsbase prctl_ok ptr s0 s
| S_others s s' : session fsgsbase prctl_ok ptr s0 s -> others ptr s s' -> session fsgsbase prctl_ok ptr s0 s'
| S_query s s' p : session fsgsbase prctl_ok ptr s0 s -> rtld_get_thread_ptr mprotect_ok mc s = Ret (s', Ok p) ->
    session fsgsbase prctl_ok ptr s0 s'.

Lemma others_thread ptr s s' : others ptr s s' -> thread_ok s ptr -> thread_ok s' ptr.
Proof.
  intros (F & _ & K) [Hf Hb Hs Ha].
  assert (L : forall o, 0 <= o <= 24 -> load8 (byte s') (ptr + o) = load8 (byte s) (ptr + o)).
  { intros o Ho. apply load8_ext. intros x Hx. apply K. consts. lia. }
  split; [congruence| | |].
  - rewrite <- (Z.add_0_r ptr) at 1. rewrite L by lia. by rewrite Z.add_0_r.
  - unfold tcb_at in *. by rewrite !L by (consts; lia).
  - intros x Hx. by apply K, Ha.
Qed.

(** C30: the thread pointer that is set is the one that is read back.  [set_tp] returns, and
    in every later state of the thread, however many updates and queries were made and
    whatever modules were loaded meanwhile (as long as nobody else writes the control
    block), the thread pointer is [ptr], and a query returns it.  The query also brings the
    thread level with the master block it finds: the sizes are those of the master where
    they were smaller, the version is the master's, the bytes of the modules that are new to
    the thread are the master's, and all other bytes of the block but those of the control
    block are as they were. *)
Theorem thread_pointer_roundtrip fsgsbase prctl_ok ptr s0 :
  geometry ptr -> kernel_ok ptr -> master_ok s0 -> (forall x, ptr <= x < ptr + TCB_SIZE -> acc s0 x = true) ->
  fsgsbase || prctl_ok = true ->
  (exists s, set_tp mprotect_ok mc fsgsbase prctl_ok ptr s0 = Ret (s, Ok tt)) /\
  forall s, session fsgsbase prctl_ok ptr s0 s ->
    get_tp s = Ret (s, Ok ptr) /\
    let t := tcb_at (byte s) ptr in let m := tcb_at (byte s) mc in
    exists s', rtld_get_thread_ptr mprotect_ok mc s = Ret (s', Ok ptr) /\
      tcb_at (byte s') ptr = mkTcb (Z.max (load_size t) (load_size m)) (Z.max (dyn_size t) (dyn_size m)) (version m) /\
      (forall x, load_size t <= x < load_size m -> block_at (byte s') ptr x = block_at (byte s) mc x) /\
      (forall x, - dyn_size m <= x < - dyn_size t -> block_at (byte s') ptr x = block_at (byte s) mc x) /\
      (forall x, - dyn_size t <= x < load_size t -> ~ (0 <= x < TCB_SIZE) -> block_at (byte s') ptr x = block_at (byte s) ptr x).
Proof.
  intros G Hk Hm A Hr. destruct (set_tp_ok fsgsbase prctl_ok ptr s0 G Hk Hm A Hr) as (s1 & E1 & T1 & M1).
  split; [by exists s1|]. intros s Hs.
  assert (thread_ok s ptr /\ master_ok s) as [T M].
  { induction Hs as [s E|s s' _ [T M] Ho|s s' p _ [T M] E].
    - rewrite E1 in E. injection E as <-. done.
    - split; [by eapply others_thread|apply Ho].
    - destruct (query_ok s ptr G Hk T M) as (s2 & E2 & U). rewrite E2 in E. injection E as <- <-. split; apply U. }
  split; [by apply get_tp_ok|]. cbn zeta. destruct (query_ok s ptr G Hk T M) as (s' & E & [_ _ U3 U4 U5 U6 _ _]).
  exists s'. split; [exact E|]. pose proof (th_sizes _ _ T) as [S1 S2]. pose proof (ma_sizes _ M) as [S3 S4].
  unfold block_at. split_and!; [exact U3| | |].
  - intros x Hx. rewrite U4 by lia. f_equal. lia.
  - intros x Hx. rewrite U5 by lia. f_equal. lia.
  - intros x Hx Hc. apply U6; consts; lia.
Qed.
End Theorems.

(** ** Concrete inputs *)

(** The master block at 2^28 with 64 bytes of modules, version 1, every byte behind the
    control block 7; the thread's block at 2^27, of which one page is accessible. *)
Definition sample_mc : Z := 2 ^ 28.
Definition sample_tp : Z := 2 ^ 27.
Definition sample_bytes (x : Z) : Z :=
  if x =? sample_mc + 8 then 64 else if x =? sample_mc + 24 then 1
  else if (sample_mc + 32 <=? x) && (x <? sample_mc + 64) then 7 else 0.
Definition sample_acc (x : Z) : bool :=
  ((sample_mc <=? x) && (x <? sample_mc + 4096)) || ((sample_tp <=? x) && (x <? sample_tp + 4096)).
Definition sample_start : tstate := mkTs 0 sample_bytes sample_acc.
Definition any_pages (_ _ : Z) : bool := true.

Lemma sample_geometry : geometry sample_mc sample_tp.
Proof. split; unfold HALF, TLS_BLOCK_SIZE, sample_mc, sample_tp; [split_and!; [done..|reflexivity]|done|left; done]. Qed.
Lemma sample_kernel : kernel_ok any_pages sample_tp.
Proof. done. Qed.

Lemma sample_master s :
  (forall x, sample_mc <= x < sample_mc + 4096 -> byte s x = sample_bytes x /\ acc s x = true) -> master_ok sample_mc s.
Proof.
  intros H. assert (tcb_at (byte s) sample_mc = mkTcb 64 0 1) as E.
  { transitivity (tcb_at sample_bytes sample_mc); [|by vm_compute].
    unfold tcb_at. f_equal; apply load8_ext; intros x Hx; apply H; unfold OFF_load_size, OFF_dyn_size, OFF_version in *; lia. }
  split; rewrite ?E; cbn [load_size dyn_size]; [by vm_compute| |].
  - unfold TCB_SIZE. intros x Hx. rewrite (proj1 (H x ltac:(lia))). unfold sample_bytes. repeat case_match; lia.
  - intros x Hx. apply H. lia.
Qed.
Lemma sample_start_master : master_ok sample_mc sample_start.
Proof.
  apply sample_master. intros x Hx. split; [done|]. cbn [acc sample_start]. unfold sample_acc.
  rewrite (proj2 (Z.leb_le _ _)), (proj2 (Z.ltb_lt _ _)) by lia. done.
Qed.
Lemma sample_start_acc x : sample_tp <= x < sample_tp + TCB_SIZE -> acc sample_start x = true.
Proof.
  unfold TCB_SIZE. intros Hx. cbn [acc sample_start]. unfold sample_acc.
  rewrite (proj2 (Z.leb_le sample_tp _)), (proj2 (Z.ltb_lt _ (sample_tp + 4096))) by lia. apply orb_true_r.
Qed.

Lemma thread_pointer_roundtrip_witness :
  exists s, set_tp any_pages sample_mc true false sample_tp sample_start = Ret (s, Ok tt) /\
    get_tp s = Ret (s, Ok sample_tp) /\ exists s', rtld_get_thread_ptr any_pages sample_mc s = Ret (s', Ok sample_tp).
Proof.
  destruct (thread_pointer_roundtrip any_pages sample_mc true false sample_tp sample_start sample_geometry sample_kernel
    sample_start_master sample_start_acc eq_refl) as [[s E] H].
  exists s. split; [exact E|]. destruct (H s) as [G (s' & Q & _)]; [by constructor|]. split; [exact G|]. exists s'. exact Q.
Defined.

(** A thread with a fresh control block. *)
Definition sample_thread : tstate :=
  mkTs sample_tp (fun x => if x =? sample_tp + 3 then 8 else if x =? sample_tp + 8 then 32 else sample_bytes x) sample_acc.

Lemma sample_thread_ok : thread_ok sample_thread sample_tp.
Proof. split; [done|by vm_compute|by vm_compute|apply sample_start_acc]. Qed.
Lemma sample_thread_master : master_ok sample_mc sample_thread.
Proof.
  apply sample_master. intros x Hx. cbn [byte acc sample_thread]. split.
  - rewrite !(proj2 (Z.eqb_neq x _)) by (unfold sample_mc, sample_tp in *; lia). done.
  - unfold sample_acc. rewrite (proj2 (Z.leb_le _ _)), (proj2 (Z.ltb_lt _ _)) by lia. done.
Qed.

Lemma update_tls_in_bounds_witness :
  exists s', update_tls_mem any_pages sample_mc sample_thread = Ret (s', Ok tt) /\
    load8 (byte s') sample_tp = sample_tp /\ tcb_at (byte s') sample_tp = mkTcb 64 0 1.
Proof.
  destruct (update_tls_in_bounds any_pages sample_mc sample_thread sample_tp sample_geometry sample_kernel sample_thread_ok
    sample_thread_master) as (s' & E & _ & _ & _ & _ & B & b' & U & _).
  exists s'. split; [exact E|]. split; [exact B|].
  assert (tcb_at (byte sample_thread) sample_tp = mkTcb 32 0 0) as Et by (vm_compute; reflexivity).
  assert (tcb_at (byte sample_thread) sample_mc = mkTcb 64 0 1) as Em by (vm_compute; reflexivity).
  rewrite Et, Em in U. destruct (update_tls_value (mkTcb 64 0 1) (block_at (byte sample_thread) sample_mc) (mkTcb 32 0 0)
    (block_at (byte sample_thread) sample_tp)) as (b2 & E2 & _).
  change (mkTcb _ _ _) with (mkTcb 64 0 1) in E2 at 3. congruence.
Defined.
