(* ===== verification/LoadLock.v ===== *)
(** * Loading modules while threads run (wl-ld-lilium/src/loader.rs, ldso.rs)

    [load_subsystem] loads modules under the write half of [LOAD_LOCK], [update_tls]
    reads the master block under its read half.  Here both are programs with one step
    per access to shared memory, interleaved by an arbitrary schedule and stopped only
    by the lock, of which they need the laws of [RwLocks].  The theorems: the steps of a load are never seen half done, an update
    is the atomic [update_tls] of [Tls], and what becomes of a thread whose update meets
    a load. *)

From Stdlib Require Import ZArith Lia Sorted.
From stdpp Require Import base numbers list option.
From S2P Require Import Prelude.
From S2P Require Import Futex.
From S2P Require Import RwLocks.
From S2P Require Import Tls.

Local Open Scope Z_scope.

(** ** The programs *)

(** A module with a thread-local segment: size, alignment and initial image. *)
Record module : Type := mkModule { m_req : request; m_image : list Z }.
Definition module_ok (m : module) : Prop :=
  request_ok (m_req m) /\ Z.of_nat (length (m_image m)) <= r_size (m_req m).

(** The master block: [LOADER.tls_off], the [Tcb] at [TLS_MC] and the bytes around it. *)
Record shared : Type := mkShared { sh_tls : tls_state; sh_bytes : block }.

Definition store_byte (b : block) (a v : Z) : block := fun x => if x =? a then v else b x.

(** Program points, with the values read so far.  [W] is [load_subsystem] under the write
    guard, where the resolver calls [alloc_tls] and [load_tls] for each module with a
    thread-local segment; [U] is [update_tls] under the read guard. *)
Inductive lpc : Type :=
| Outside
| WantLoad (ms : list module)                  (** in [LOAD_LOCK.write()] *)
| WNext (ms : list module)
| WProtect (v : Z) (m : module) (ms : list module)
| WSizeR (v : Z) (m : module) (ms : list module)
| WSizeW (v ls : Z) (m : module) (ms : list module)
| WVerR (v : Z) (m : module) (ms : list module)
| WVerW (v ver : Z) (m : module) (ms : list module)
| WImage (off : Z) (k : nat) (m : module) (ms : list module)
| ThenUpdate                                   (** the guard is dropped, [update_tls] is called *)
| WantUpdate                                   (** in [LOAD_LOCK.read()] *)
| UStart
| ULen
| UMapLen (len : Z)
| UProtect (len : Z)
| UCopy (k : nat) (len : Z)
| USize
| UDyn
| UDLen
| UDMapLen (len : Z)
| UDProtect (len : Z)
| UDSrc (len : Z)
| UDDst (len src : Z)
| UDCopy (k : nat) (len src dst : Z)
| UDSize
| UVer
| UEnd.

Definition writing (p : lpc) : bool :=
  match p with
  | WNext _ | WProtect _ _ _ | WSizeR _ _ _ | WSizeW _ _ _ _ | WVerR _ _ _ | WVerW _ _ _ _ | WImage _ _ _ _ => true
  | _ => false
  end.
Definition reading (p : lpc) : bool :=
  match p with
  | UStart | ULen | UMapLen _ | UProtect _ | UCopy _ _ | USize | UDyn | UDLen | UDMapLen _ | UDProtect _
  | UDSrc _ | UDDst _ _ | UDCopy _ _ _ _ | UDSize | UVer | UEnd => true
  | _ => false
  end.

(** A thread: its program point, its own control block and bytes, and, to state the
    theorems, what these were when it got the read guard. *)
Record lthread : Type := mkLt { pc : lpc; own_tcb : Tcb; own_bytes : block; at_entry : Tcb * block }.
Definition set_pc (p : lpc) (th : lthread) : lthread := mkLt p (own_tcb th) (own_bytes th) (at_entry th).

(** A step under the write guard: the shared state, the next point, and the block that
    has been handed out when a module is done; [None] when the call of [mprotect] fails
    or the block is full, where the resolver ends the process. *)
Definition wstep (mprotect_ok : bool) (sh : shared) (p : lpc) : option (shared * lpc * option (Z * module)) :=
  let s := sh_tls sh in let t := master s in
  match p with
  | WNext (m :: ms) =>
    let v := tls_off s in
    let next := usize_wrap (align_up v (2 ^ r_log_align (m_req m)) + r_size (m_req m)) in
    if Z.shiftr TLS_BLOCK_SIZE 1 <? next then None
    else Some (mkShared (mkTls next t) (sh_bytes sh), WProtect v m ms, None)
  | WProtect v m ms => if mprotect_ok then Some (sh, WSizeR v m ms, None) else None
  | WSizeR v m ms => Some (sh, WSizeW v (load_size t) m ms, None)
  | WSizeW v ls m ms =>
    let al := align_up v (2 ^ r_log_align (m_req m)) in
    Some (mkShared (mkTls (tls_off s) (mkTcb (usize_wrap (ls + usize_wrap (r_size (m_req m) + (al - v)))) (dyn_size t) (version t)))
            (sh_bytes sh), WVerR v m ms, None)
  | WVerR v m ms => Some (sh, WVerW v (version t) m ms, None)
  | WVerW v ver m ms =>
    Some (mkShared (mkTls (tls_off s) (mkTcb (load_size t) (dyn_size t) (usize_wrap (ver + 1)))) (sh_bytes sh),
          WImage (as_isize (align_up v (2 ^ r_log_align (m_req m)))) 0 m ms, None)
  | WImage off k m ms =>
    match m_image m !! k with
    | Some x => Some (mkShared s (store_byte (sh_bytes sh) (off + Z.of_nat k) x), WImage off (S k) m ms, None)
    | None => Some (sh, WNext ms, Some (off, m))
    end
  | _ => Some (sh, p, None)
  end.

(** A step of [update_tls] under the read guard; [None] when [mprotect] fails, which ends
    the process. *)
Definition ustep (mprotect_ok : bool) (sh : shared) (p : lpc) (t : Tcb) (b : block) : option (lpc * Tcb * block) :=
  let m := master (sh_tls sh) in let mb := sh_bytes sh in
  match p with
  | UStart => Some (if load_size t <? load_size m then ULen else UDyn, t, b)
  | ULen => Some (UMapLen (load_size m - load_size t), t, b)
  | UMapLen len => Some (UProtect len, t, b)
  | UProtect len => if mprotect_ok then Some (UCopy 0 len, t, b) else None
  | UCopy k len =>
    if Z.of_nat k <? len then
      let x := load_size t + Z.of_nat k in Some (UCopy (S k) len, t, store_byte b x (mb x))
    else Some (USize, t, b)
  | USize => Some (UDyn, mkTcb (load_size m) (dyn_size t) (version t), b)
  | UDyn => Some (if dyn_size t <? dyn_size m then UDLen else UVer, t, b)
  | UDLen => Some (UDMapLen (dyn_size m - dyn_size t), t, b)
  | UDMapLen len => Some (UDProtect len, t, b)
  | UDProtect len => if mprotect_ok then Some (UDSrc len, t, b) else None
  | UDSrc len => Some (UDDst len (- dyn_size m), t, b)
  | UDDst len src => Some (UDCopy 0 len src (- dyn_size m), t, b)
  | UDCopy k len src dst =>
    if Z.of_nat k <? len then
      Some (UDCopy (S k) len src dst, t, store_byte b (dst + Z.of_nat k) (mb (src + Z.of_nat k)))
    else Some (UDSize, t, b)
  | UDSize => Some (UVer, mkTcb (load_size t) (dyn_size m) (version t), b)
  | UVer => Some (UEnd, mkTcb (load_size t) (dyn_size t) (version m), b)
  | _ => Some (p, t, b)
  end.

(** ** Interleaving *)

Inductive cact : Type :=
| CallLoad (ms : list module)    (** the thread calls [load_subsystem] *)
| CallUpdate                     (** the thread calls [update_tls] *)
| LockGo (a : act)               (** a step inside the lock *)
| Work (mprotect_ok : bool).     (** any other step *)

Section Client.
Context {L : Type} `{RwLock L}.

Record lconf : Type := mkConf {
  lock : L; mem : shared; lthreads : list lthread;
  granted : list (Z * module);   (** the blocks handed out, to state the theorems *)
  alive : bool }.

Definition put (c : lconf) (i : nat) (th : lthread) : lconf :=
  mkConf (lock c) (mem c) (<[i := th]> (lthreads c)) (granted c) (alive c).
Definition with_lock (c : lconf) (l : L) : lconf := mkConf l (mem c) (lthreads c) (granted c) (alive c).
Definition dead (c : lconf) : lconf := mkConf (lock c) (mem c) (lthreads c) (granted c) false.

(** A step of thread [i]; requests that do not fit its program point change nothing. *)
Definition cthread_step (c : lconf) (i : nat) (th : lthread) (a : cact) : lconf :=
  match a, pc th with
  | CallLoad ms, Outside => put (with_lock c (rw_step (lock c) i DoLock)) i (set_pc (WantLoad ms) th)
  | CallUpdate, Outside => put (with_lock c (rw_step (lock c) i DoLockShared)) i (set_pc WantUpdate th)
  | LockGo (Go ok), WantLoad _ | LockGo (Go ok), WantUpdate => with_lock c (rw_step (lock c) i (Go ok))
  | LockGo Wake, WantLoad _ | LockGo Wake, WantUpdate => with_lock c (rw_step (lock c) i Wake)
  | Work _, WantLoad ms =>
    match rw_mode (lock c) i with Exclusive => put c i (set_pc (WNext ms) th) | _ => c end
  | Work _, WNext [] => put (with_lock c (rw_step (lock c) i DoUnlock)) i (set_pc ThenUpdate th)
  | Work _, ThenUpdate => put (with_lock c (rw_step (lock c) i DoLockShared)) i (set_pc WantUpdate th)
  | Work _, WantUpdate =>
    match rw_mode (lock c) i with
    | Shared => put c i (mkLt UStart (own_tcb th) (own_bytes th) (own_tcb th, own_bytes th))
    | _ => c
    end
  | Work _, UEnd => put (with_lock c (rw_step (lock c) i DoUnlockShared)) i (set_pc Outside th)
  | Work ok, p =>
    if writing p then
      match wstep ok (mem c) p with
      | Some (sh, p', g) =>
        mkConf (lock c) sh (<[i := set_pc p' th]> (lthreads c)) (granted c ++ option_list g) (alive c)
      | None => dead c
      end
    else if reading p then
      match ustep ok (mem c) p (own_tcb th) (own_bytes th) with
      | Some (p', t, b) => put c i (mkLt p' t b (at_entry th))
      | None => dead c
      end
    else c
  | _, _ => c
  end.

Definition csched (c : lconf) (ia : nat * cact) : lconf :=
  if alive c then match lthreads c !! ia.1 with Some th => cthread_step c ia.1 th ia.2 | None => c end else c.
Definition crun (c : lconf) (sched : list (nat * cact)) : lconf := foldl csched c sched.

(** [n] threads, none of which has modules yet. *)
Definition cinitial (n : nat) : lconf :=
  mkConf (rw_init n) (mkShared setup_tls_mc (fun _ => 0))
    (replicate n (mkLt Outside tcb_init (fun _ => 0) (tcb_init, fun _ => 0))) [] true.
End Client.
Arguments lconf : clear implicits.

(** ** A reader *)

Definition same_bytes (b b' : block) : Prop := forall x, b x = b' x.

(** The two halves of [update_tls]. *)
Definition static_half (m : Tcb) (mb : block) (tb : Tcb * block) : Tcb * block :=
  let '(t, b) := tb in
  if load_size t <? load_size m
  then (mkTcb (load_size m) (dyn_size t) (version t), copy_range mb b (load_size t) (load_size m)) else (t, b).
Definition dyn_half (m : Tcb) (mb : block) (tb : Tcb * block) : Tcb * block :=
  let '(t, b) := tb in
  if dyn_size t <? dyn_size m
  then (mkTcb (load_size t) (dyn_size m) (version t), copy_range mb b (- dyn_size m) (- dyn_size t)) else (t, b).
Definition levelled (m : Tcb) (tb : Tcb * block) : Tcb * block :=
  (mkTcb (load_size tb.1) (dyn_size tb.1) (version m), tb.2).

Lemma update_tls_halves m mb t b :
  update_tls true m mb t b = Ret (levelled m (dyn_half m mb (static_half m mb (t, b)))).
Proof.
  unfold update_tls, static_half, dyn_half, levelled. cbn [negb].
  destruct (load_size t <? load_size m); cbn [mbind outcome_bind load_size dyn_size version];
    by destruct (dyn_size t <? dyn_size m).
Qed.

(** Copying byte by byte. *)
Lemma copy_range_S mb b lo k :
  same_bytes (store_byte (copy_range mb b lo (lo + Z.of_nat k)) (lo + Z.of_nat k) (mb (lo + Z.of_nat k)))
             (copy_range mb b lo (lo + Z.of_nat (S k))).
Proof.
  intros x. unfold store_byte, copy_range. destruct (Z.eqb_spec x (lo + Z.of_nat k)) as [->|Hne].
  - rewrite (proj2 (Z.leb_le _ _)), (proj2 (Z.ltb_lt _ _)) by lia. done.
  - destruct (Z.leb_spec lo x); [|done]. cbn [andb].
    destruct (Z.ltb_spec x (lo + Z.of_nat k)), (Z.ltb_spec x (lo + Z.of_nat (S k))); try done; lia.
Qed.

Lemma copy_range_0 mb b lo : same_bytes (copy_range mb b lo (lo + Z.of_nat 0)) b.
Proof.
  intros x. unfold copy_range. destruct (Z.leb_spec lo x); [|done].
  by rewrite (proj2 (Z.ltb_ge x (lo + Z.of_nat 0))) by lia.
Qed.

Lemma store_byte_same b b' a v : same_bytes b b' -> same_bytes (store_byte b a v) (store_byte b' a v).
Proof. intros Hb x. unfold store_byte. by case_match. Qed.

(** A reader between its guards: what it has read is what is there, and its own block is
    that far on the way from what it was at the entry to the result of [update_tls]. *)
Definition reader_ok (m : Tcb) (mb : block) (e : Tcb * block) (p : lpc) (t : Tcb) (b : block) : Prop :=
  let '(t0, b0) := e in
  let '(t1, b1) := static_half m mb e in
  let '(t2, b2) := dyn_half m mb (t1, b1) in
  let stat := load_size t0 < load_size m in
  let dynm := dyn_size t1 < dyn_size m in
  match p with
  | UStart => t = t0 /\ same_bytes b b0
  | ULen => stat /\ t = t0 /\ same_bytes b b0
  | UMapLen len | UProtect len => stat /\ t = t0 /\ same_bytes b b0 /\ len = load_size m - load_size t0
  | UCopy k len => stat /\ t = t0 /\ len = load_size m - load_size t0 /\ Z.of_nat k <= len /\
      same_bytes b (copy_range mb b0 (load_size t0) (load_size t0 + Z.of_nat k))
  | USize => stat /\ t = t0 /\ same_bytes b b1
  | UDyn => t = t1 /\ same_bytes b b1
  | UDLen => dynm /\ t = t1 /\ same_bytes b b1
  | UDMapLen len | UDProtect len | UDSrc len => dynm /\ t = t1 /\ same_bytes b b1 /\ len = dyn_size m - dyn_size t1
  | UDDst len src => dynm /\ t = t1 /\ same_bytes b b1 /\ len = dyn_size m - dyn_size t1 /\ src = - dyn_size m
  | UDCopy k len src dst => dynm /\ t = t1 /\ len = dyn_size m - dyn_size t1 /\ src = - dyn_size m /\ dst = - dyn_size m /\
      Z.of_nat k <= len /\ same_bytes b (copy_range mb b1 (- dyn_size m) (- dyn_size m + Z.of_nat k))
  | UDSize => dynm /\ t = t1 /\ same_bytes b b2
  | UVer => t = t2 /\ same_bytes b b2
  | UEnd => t = (levelled m (t2, b2)).1 /\ same_bytes b b2
  | _ => True
  end.

Lemma ustep_ok ok sh e p t b p' t' b' :
  reading p = true -> p <> UEnd ->
  reader_ok (master (sh_tls sh)) (sh_bytes sh) e p t b -> ustep ok sh p t b = Some (p', t', b') ->
  reading p' = true /\ reader_ok (master (sh_tls sh)) (sh_bytes sh) e p' t' b'.
Proof.
  intros Hr Hne. set (m := master (sh_tls sh)). set (mb := sh_bytes sh). destruct e as [t0 b0]. unfold reader_ok.
  destruct (static_half m mb (t0, b0)) as [t1 b1] eqn:E1. destruct (dyn_half m mb (t1, b1)) as [t2 b2] eqn:E2.
  assert (S1 : load_size t0 < load_size m -> t1 = mkTcb (load_size m) (dyn_size t0) (version t0) /\
                b1 = copy_range mb b0 (load_size t0) (load_size m)).
  { intros Hs. unfold static_half in E1. rewrite (proj2 (Z.ltb_lt _ _) Hs) in E1. by injection E1 as <- <-. }
  assert (S1' : ~ load_size t0 < load_size m -> t1 = t0 /\ b1 = b0).
  { intros Hs. unfold static_half in E1. rewrite (proj2 (Z.ltb_ge _ _)) in E1 by lia. by injection E1 as <- <-. }
  assert (S2 : dyn_size t1 < dyn_size m -> t2 = mkTcb (load_size t1) (dyn_size m) (version t1) /\
                b2 = copy_range mb b1 (- dyn_size m) (- dyn_size t1)).
  { intros Hs. unfold dyn_half in E2. rewrite (proj2 (Z.ltb_lt _ _) Hs) in E2. by injection E2 as <- <-. }
  assert (S2' : ~ dyn_size t1 < dyn_size m -> t2 = t1 /\ b2 = b1).
  { intros Hs. unfold dyn_half in E2. rewrite (proj2 (Z.ltb_ge _ _)) in E2 by lia. by injection E2 as <- <-. }
  clear E1 E2.
  destruct p; try discriminate Hr; try (by destruct Hne); cbn [ustep]; fold m mb; intros Hok E.
  - destruct Hok as [-> Hb]. destruct (Z.ltb_spec (load_size t0) (load_size m)); simplify_eq; [by split_and!|].
    destruct S1' as [-> ->]; [lia|]. by split_and!.
  - destruct Hok as (? & -> & Hb). simplify_eq. by split_and!.
  - destruct Hok as (? & -> & Hb & ->). simplify_eq. by split_and!.
  - destruct Hok as (? & -> & Hb & ->). destruct ok; simplify_eq. split; [done|]. split_and!; try done; [lia|].
    intros x. by rewrite copy_range_0.
  - destruct Hok as (Hs & -> & -> & Hk & Hb). destruct (Z.ltb_spec (Z.of_nat k) (load_size m - load_size t0)); simplify_eq.
    + split; [done|]. split_and!; try done; [lia|]. intros x. rewrite <- copy_range_S. by apply store_byte_same.
    + split; [done|]. split_and!; try done. destruct (S1 Hs) as [_ ->]. intros x. rewrite Hb. f_equal. lia.
  - destruct Hok as (Hs & -> & Hb). simplify_eq. destruct (S1 Hs) as [-> _]. by split_and!.
  - destruct Hok as [-> Hb]. destruct (Z.ltb_spec (dyn_size t1) (dyn_size m)); simplify_eq; [by split_and!|].
    destruct S2' as [-> ->]; [lia|]. by split_and!.
  - destruct Hok as (? & -> & Hb). simplify_eq. by split_and!.
  - destruct Hok as (? & -> & Hb & ->). simplify_eq. by split_and!.
  - destruct Hok as (? & -> & Hb & ->). destruct ok; simplify_eq. by split_and!.
  - destruct Hok as (? & -> & Hb & ->). simplify_eq. by split_and!.
  - destruct Hok as (? & -> & Hb & -> & ->). simplify_eq. split; [done|]. split_and!; try done; [lia|].
    intros x. by rewrite copy_range_0.
  - destruct Hok as (Hs & -> & -> & -> & -> & Hk & Hb).
    destruct (Z.ltb_spec (Z.of_nat k) (dyn_size m - dyn_size t1)); simplify_eq.
    + split; [done|]. split_and!; try done; [lia|]. intros x. rewrite <- copy_range_S. by apply store_byte_same.
    + split; [done|]. split_and!; try done. destruct (S2 Hs) as [_ ->]. intros x. rewrite Hb. f_equal. lia.
  - destruct Hok as (Hs & -> & Hb). simplify_eq. destruct (S2 Hs) as [-> _]. by split_and!.
  - destruct Hok as [-> Hb]. simplify_eq. by split_and!.
Qed.

(** ** A writer *)

(** The blocks of modules: in order and apart, aligned, behind the control block and
    below [top], each with its image in the master block. *)
Definition m_size (m : module) : Z := r_size (m_req m).
Definition m_align (m : module) : Z := 2 ^ r_log_align (m_req m).
Definition block_ok (mb : block) (top : Z) (a : Z * module) : Prop :=
  TCB_SIZE <= a.1 /\ a.1 + m_size a.2 <= top /\ a.1 mod m_align a.2 = 0 /\ module_ok a.2 /\
  forall k x, m_image a.2 !! k = Some x -> mb (a.1 + Z.of_nat k) = x.
Definition ahead (a b : Z * module) : Prop := a.1 + m_size a.2 <= b.1.
Definition blocks_ok (mb : block) (top : Z) (g : list (Z * module)) : Prop :=
  StronglySorted ahead g /\ Forall (block_ok mb top) g.

(** The master block while no load is under way. *)
Definition settled (sh : shared) (g : list (Z * module)) : Prop :=
  tls_ok (sh_tls sh) /\ blocks_ok (sh_bytes sh) (tls_off (sh_tls sh)) g /\
  version (master (sh_tls sh)) = usize_wrap (Z.of_nat (length g)).

(** The offset has been taken for [m], from [v] on. *)
Definition offset_taken (sh : shared) (g : list (Z * module)) (v : Z) (m : module) : Prop :=
  module_ok m /\ TCB_SIZE <= v <= TLS_BLOCK_SIZE / 2 /\ tls_off (sh_tls sh) = align_up v (m_align m) + m_size m /\
  tls_off (sh_tls sh) <= TLS_BLOCK_SIZE / 2 /\ blocks_ok (sh_bytes sh) v g.

Definition writer_ok (sh : shared) (g : list (Z * module)) (p : lpc) : Prop :=
  let t := master (sh_tls sh) in
  let n := usize_wrap (Z.of_nat (length g)) in
  match p with
  | WNext ms => settled sh g /\ Forall module_ok ms
  | WProtect v m ms | WSizeR v m ms => offset_taken sh g v m /\ load_size t = v /\ version t = n /\ Forall module_ok ms
  | WSizeW v ls m ms => offset_taken sh g v m /\ ls = v /\ version t = n /\ Forall module_ok ms
  | WVerR v m ms => offset_taken sh g v m /\ load_size t = tls_off (sh_tls sh) /\ version t = n /\ Forall module_ok ms
  | WVerW v ver m ms => offset_taken sh g v m /\ load_size t = tls_off (sh_tls sh) /\ ver = n /\ Forall module_ok ms
  | WImage off k m ms =>
    module_ok m /\ tls_ok (sh_tls sh) /\ TCB_SIZE <= off /\ off + m_size m = tls_off (sh_tls sh) /\ off mod m_align m = 0 /\
    blocks_ok (sh_bytes sh) off g /\ version t = usize_wrap (Z.of_nat (S (length g))) /\ Forall module_ok ms /\
    (forall j x, (j < k)%nat -> m_image m !! j = Some x -> sh_bytes sh (off + Z.of_nat j) = x)
  | _ => True
  end.

Lemma blocks_ok_mono mb top top' g : top <= top' -> blocks_ok mb top g -> blocks_ok mb top' g.
Proof.
  intros Ht [Hs Hf]. split; [done|]. eapply Forall_impl; [|exact Hf]. intros a (?&?&?&?&?). split_and!; try done. lia.
Qed.

Lemma blocks_ok_store mb top g x v : top <= x -> blocks_ok mb top g -> blocks_ok (store_byte mb x v) top g.
Proof.
  intros Hx [Hs Hf]. split; [done|]. eapply Forall_impl; [|exact Hf]. intros a (H1&H2&H3&[H4 H5]&H6).
  split_and!; try done. intros k y Hk. unfold store_byte. rewrite (proj2 (Z.eqb_neq _ _)); [by apply H6|].
  apply lookup_lt_Some in Hk. unfold m_size in *. lia.
Qed.

Lemma blocks_ok_snoc mb top g off m :
  blocks_ok mb off g -> block_ok mb top (off, m) -> blocks_ok mb top (g ++ [(off, m)]).
Proof.
  intros [Hs Hf] Hm. pose proof Hm as (H1 & H2 & H3 & [[H4 _] _] & H5). simpl in *. split.
  - clear - Hs Hf. induction Hs as [|a g Hs IH Ha]; simpl; [by repeat constructor|].
    apply Forall_cons_1 in Hf as [(_ & Hle & _) Hf]. constructor; [by apply IH|].
    apply Forall_app. split; [done|]. constructor; [|constructor]. unfold ahead. simpl. lia.
  - apply Forall_app. split; [|by constructor]. destruct H4 as [H4 _]. eapply (blocks_ok_mono mb off); [unfold m_size in *; lia|done].
Qed.

Lemma align_up_module v m :
  module_ok m -> TCB_SIZE <= v <= TLS_BLOCK_SIZE / 2 ->
  v <= align_up v (m_align m) < 2 ^ 63 /\ align_up v (m_align m) mod m_align m = 0 /\
  0 <= align_up v (m_align m) + m_size m < 2 ^ 64 /\ 0 <= m_size m + (align_up v (m_align m) - v) < 2 ^ 64.
Proof.
  intros [[[Hs0 Hs1] Hk] _] Hv. unfold TLS_BLOCK_SIZE, TCB_SIZE, m_size, m_align in *.
  change (4096 * 4096 * 4 / 2) with 33554432 in *.
  destruct (align_up_spec v (r_log_align (m_req m))) as [Hup Hmod]; [lia|lia|].
  assert (2 ^ r_log_align (m_req m) <= 2 ^ 32) by (apply Z.pow_le_mono_r; lia). split_and!; try done; lia.
Qed.

(** A byte of the image, or the end of it. *)
Lemma image_step_ok sh g off k m ms :
  writer_ok sh g (WImage off k m ms) ->
  match m_image m !! k with
  | Some x => writer_ok (mkShared (sh_tls sh) (store_byte (sh_bytes sh) (off + Z.of_nat k) x)) g (WImage off (S k) m ms)
  | None => writer_ok sh (g ++ [(off, m)]) (WNext ms)
  end.
Proof.
  destruct sh as [[off0 [ls ds ver]] mb]. unfold writer_ok, settled. cbn [sh_tls sh_bytes master tls_off load_size version].
  intros (Hm & Ht & Ho & Htop & Hal & Hbl & Hver & Hms & Hj). destruct (m_image m !! k) as [x|] eqn:Ek.
  - do 5 (split; [done|]). split; [apply blocks_ok_store; [lia|done]|]. do 2 (split; [done|]).
    intros j y Hlt Hy. unfold store_byte. destruct (Z.eqb_spec (off + Z.of_nat j) (off + Z.of_nat k)).
    + assert (j = k) as -> by lia. congruence.
    + apply Hj; [lia|done].
  - assert (Hb : block_ok mb off0 (off, m)).
    { unfold block_ok. cbn [fst snd]. split; [done|]. split; [cbn in Htop; lia|]. do 2 (split; [done|]). intros j y Hy.
      apply Hj; [|done]. apply lookup_lt_Some in Hy. apply lookup_ge_None in Ek. lia. }
    split; [|done]. split; [done|]. split; [by apply (blocks_ok_snoc mb off0 g off m)|].
    rewrite Hver, length_app. f_equal. simpl. lia.
Qed.

Lemma wstep_ok ok sh g p sh' p' a :
  writing p = true -> p <> WNext [] -> writer_ok sh g p -> wstep ok sh p = Some (sh', p', a) ->
  writing p' = true /\ writer_ok sh' (g ++ option_list a) p'.
Proof.
  intros Hw Hne. destruct sh as [[off0 [ls ds ver]] mb].
  destruct p as [|ms0|ms|v m ms|v m ms|v l m ms|v m ms|v l m ms|off k m ms| | | | | | | | | | | | | | | | | |];
    try discriminate Hw; cbn [wstep]; unfold writer_ok, settled, offset_taken;
    cbn [sh_tls sh_bytes master tls_off load_size version].
  - destruct ms as [|m ms]; [done|]. intros [[[Hl Hb] [Hbl Hv]] Hms] E. cbn [load_size master tls_off] in *.
    apply Forall_cons_1 in Hms as [Hm Hms]. destruct (align_up_module off0 m Hm Hb) as (A1 & A2 & A3 & A4).
    change (2 ^ r_log_align (m_req m)) with (m_align m) in E. change (r_size (m_req m)) with (m_size m) in E.
    assert (W : usize_wrap (align_up off0 (m_align m) + m_size m) = align_up off0 (m_align m) + m_size m) by (apply wrap_small; lia).
    rewrite W in E.
    destruct (Z.ltb_spec (Z.shiftr TLS_BLOCK_SIZE 1) (align_up off0 (m_align m) + m_size m)); [discriminate E|].
    injection E as <- <- <-. cbn [option_list]. rewrite app_nil_r.
    change (Z.shiftr TLS_BLOCK_SIZE 1) with (TLS_BLOCK_SIZE / 2) in *. split; [done|]. by split_and!; cbn; apply Hb || apply Hbl || idtac.
  - intros Hok E. destruct ok; [|discriminate E]. injection E as <- <- <-. cbn [option_list]. by rewrite app_nil_r.
  - intros ((Hm & Hv & Ho & Hh & Hbl) & Hl & Hver & Hms) E. injection E as <- <- <-. cbn [option_list]. rewrite app_nil_r.
    by split_and!; apply Hv || idtac.
  - intros ((Hm & Hv & Ho & Hh & Hbl) & -> & Hver & Hms) E. injection E as <- <- <-. cbn [option_list]. rewrite app_nil_r.
    destruct (align_up_module v m Hm Hv) as (A1 & A2 & A3 & A4). split; [done|].
    split_and!; cbn [sh_tls sh_bytes master tls_off load_size version]; try done; try apply Hv; try apply Hbl.
    fold (m_align m) (m_size m). unfold TCB_SIZE in Hv.
    unfold usize_wrap. rewrite (wrap_small 64 (m_size m + _)) by lia. rewrite wrap_small; lia.
  - intros ((Hm & Hv & Ho & Hh & Hbl) & Hl & Hver & Hms) E. injection E as <- <- <-. cbn [option_list]. rewrite app_nil_r.
    by split_and!; apply Hv || idtac.
  - intros ((Hm & Hv & Ho & Hh & Hbl) & Hl & -> & Hms) E. injection E as <- <- <-. cbn [option_list]. rewrite app_nil_r.
    destruct (align_up_module v m Hm Hv) as (A1 & A2 & A3 & A4). fold (m_align m).
    assert (as_isize (align_up v (m_align m)) = align_up v (m_align m)) as ->.
    { unfold TCB_SIZE in Hv. unfold as_isize, swrap. rewrite wrap_small by lia. by rewrite (proj2 (Z.ltb_lt _ _)) by lia. }
    split; [done|]. cbn [sh_tls sh_bytes master tls_off load_size version].
    split; [done|]. split; [split; cbn; unfold TCB_SIZE in *; destruct Hm as [[[? ?] ?] ?]; unfold m_size in *; lia|].
    split; [lia|]. split; [lia|]. split; [done|]. split; [eapply blocks_ok_mono; [|exact Hbl]; lia|].
    split; [|split; [done|intros j x Hj; lia]].
    unfold usize_wrap, wrap. rewrite Zplus_mod_idemp_l. f_equal. lia.
  - intros Hok E. pose proof (image_step_ok (mkShared (mkTls off0 (mkTcb ls ds ver)) mb) g off k m ms Hok) as Hi.
    destruct (m_image m !! k); injection E as <- <- <-; cbn [option_list]; [rewrite app_nil_r|]; by split.
Qed.

(** ** All threads *)

Definition want_ok (p : lpc) : Prop := match p with WantLoad ms => Forall module_ok ms | _ => True end.
Definition call_ok (ia : nat * cact) : Prop := match ia.2 with CallLoad ms => Forall module_ok ms | _ => True end.

Section Interleaving.
Context {L : Type} `{RwLock L} {n : nat} {ok : L -> Prop} {laws : RwLockLaws L n ok}.

Definition thread_ok (l : L) (sh : shared) (g : list (Z * module)) (i : nat) (th : lthread) : Prop :=
  (writing (pc th) = true -> rw_mode l i = Exclusive /\ writer_ok sh g (pc th)) /\
  (reading (pc th) = true -> rw_mode l i = Shared /\
     reader_ok (master (sh_tls sh)) (sh_bytes sh) (at_entry th) (pc th) (own_tcb th) (own_bytes th)) /\
  want_ok (pc th).

Definition cinv (c : lconf L) : Prop :=
  ok (lock c) /\ (forall i th, lthreads c !! i = Some th -> thread_ok (lock c) (mem c) (granted c) i th) /\
  ((forall i th, lthreads c !! i = Some th -> writing (pc th) = false) -> settled (mem c) (granted c)).

Lemma thread_ok_free l sh g sh' g' i th :
  rw_mode l i = Free -> thread_ok l sh g i th -> thread_ok l sh' g' i th.
Proof.
  intros Hf (Hw & Hr & Hq). split_and!; [| |done]; intros Hp; exfalso.
  - destruct (Hw Hp) as [E _]. congruence.
  - destruct (Hr Hp) as [E _]. congruence.
Qed.

Lemma thread_ok_frame l l' sh g i th :
  rw_mode l' i = rw_mode l i -> thread_ok l sh g i th -> thread_ok l' sh g i th.
Proof. unfold thread_ok. by intros ->. Qed.

(** One thread moves: the lock by a step of its own, memory only under the write guard. *)
Lemma cinv_move c i th th' l sh g al :
  cinv c -> lthreads c !! i = Some th ->
  l = lock c \/ (exists a, l = rw_step (lock c) i a) ->
  (sh = mem c /\ g = granted c) \/ writing (pc th) = true ->
  thread_ok l sh g i th' ->
  (writing (pc th) = true -> writing (pc th') = false -> settled sh g) ->
  cinv (mkConf l sh (<[i := th']> (lthreads c)) g al).
Proof using laws.
  intros (Hl & Ht & Hs) Hi Hlk Hm Hth' Hset. assert (Hlt := lookup_lt_Some _ _ _ Hi).
  assert (Hf : forall j, i <> j -> rw_mode l j = rw_mode (lock c) j).
  { intros j Hj. destruct Hlk as [->|[a ->]]; [done|]. by apply (rw_step_frame (ok := ok)). }
  split_and!; cbn [lock mem granted lthreads].
  - destruct Hlk as [->|[a ->]]; [done|]. by apply (rw_step_ok (ok := ok)).
  - intros j tj Hj. apply list_lookup_insert_Some in Hj as [(<- & <- & _)|[Hne Hj]]; [done|].
    apply (thread_ok_frame (lock c)); [by apply Hf|]. pose proof (Ht j tj Hj) as Hj'.
    destruct Hm as [[-> ->]|Hw]; [done|]. eapply thread_ok_free; [|exact Hj'].
    apply (rw_exclusive (ok := ok) (lock c) i); [done| |done]. by apply (Ht i th Hi).
  - intros Hno. pose proof (Hno i th' (list_lookup_insert_eq _ _ _ Hlt)) as Hno'.
    destruct (writing (pc th)) eqn:Hw; [by apply Hset|]. destruct Hm as [[-> ->]|]; [|done]. apply Hs.
    intros j tj Hj. destruct (decide (i = j)) as [<-|Hne]; [congruence|].
    apply (Hno j). by rewrite list_lookup_insert_ne.
Qed.

Lemma cinv_lock c i a : cinv c -> (forall th, lthreads c !! i = Some th -> writing (pc th) = false /\ reading (pc th) = false) ->
  cinv (with_lock c (rw_step (lock c) i a)).
Proof using laws.
  intros (Hl & Ht & Hs) Hout. split_and!; cbn [with_lock lock mem granted lthreads].
  - by apply (rw_step_ok (ok := ok)).
  - intros j tj Hj. destruct (decide (i = j)) as [<-|Hne].
    + destruct (Hout tj Hj) as [E1 E2]. destruct (Ht i tj Hj) as (_ & _ & Hq). unfold thread_ok. by rewrite E1, E2.
    + apply (thread_ok_frame (lock c)); [by apply (rw_step_frame (ok := ok))|by apply Ht].
  - exact Hs.
Qed.

Lemma cinv_dead c : cinv c -> cinv (dead c).
Proof. done. Qed.

Lemma not_in_section l sh g i th p : writing p = false -> reading p = false -> want_ok p -> thread_ok l sh g i (set_pc p th).
Proof. intros Hw Hr Hq. unfold thread_ok. cbn [set_pc pc]. by rewrite Hw, Hr. Qed.

Lemma cinv_wstep c i th b :
  cinv c -> lthreads c !! i = Some th -> writing (pc th) = true -> pc th <> WNext [] ->
  cinv (match wstep b (mem c) (pc th) with
        | Some (sh, p, g) => mkConf (lock c) sh (<[i := set_pc p th]> (lthreads c)) (granted c ++ option_list g) (alive c)
        | None => dead c
        end).
Proof using laws.
  intros Hc Hi Hw Hne. destruct (wstep b (mem c) (pc th)) as [[[sh p] g]|] eqn:E; [|by apply cinv_dead].
  destruct (proj1 (proj1 (proj2 Hc) i th Hi) Hw) as [Hm Hok].
  destruct (wstep_ok _ _ _ _ _ _ _ Hw Hne Hok E) as [Hw' Hok'].
  apply (cinv_move c i th); [done|done|by left|by right| |cbn; congruence].
  unfold thread_ok. cbn [set_pc pc]. split; [done|]. split; [|by destruct p]. intros Hr. by destruct p.
Qed.

Lemma cinv_ustep c i th b :
  cinv c -> lthreads c !! i = Some th -> reading (pc th) = true -> pc th <> UEnd ->
  cinv (match ustep b (mem c) (pc th) (own_tcb th) (own_bytes th) with
        | Some (p, t, bs) => put c i (mkLt p t bs (at_entry th))
        | None => dead c
        end).
Proof using laws.
  intros Hc Hi Hr Hne. destruct (ustep b (mem c) (pc th) (own_tcb th) (own_bytes th)) as [[[p t] bs]|] eqn:E; [|by apply cinv_dead].
  destruct (proj1 (proj2 (proj1 (proj2 Hc) i th Hi)) Hr) as [Hm Hok].
  destruct (ustep_ok _ _ _ _ _ _ _ _ _ Hr Hne Hok E) as [Hr' Hok'].
  assert (writing (pc th) = false) by (by destruct (pc th)). assert (writing p = false) by (by destruct p).
  apply (cinv_move c i th); [done|done|by left|by left| |congruence].
  unfold thread_ok. cbn [pc at_entry own_tcb own_bytes]. split; [congruence|]. split; [done|by destruct p].
Qed.

Lemma cinv_step c ia : cinv c -> call_ok ia -> cinv (csched c ia).
Proof using laws.
  intros Hc Hcall. destruct ia as [i a]. unfold csched, call_ok in *. cbn [fst snd] in *.
  destruct (alive c) eqn:Hal; [|done]. destruct (lthreads c !! i) as [th|] eqn:Hi; [|done].
  pose proof Hc as (Hl & Ht & Hs). pose proof (Ht i th Hi) as (Hw & Hr & Hq). unfold cthread_step.
  assert (Hmode : forall a, writing (pc th) = false -> reading (pc th) = false -> cinv (with_lock c (rw_step (lock c) i a))).
  { intros a' H1 H2. apply cinv_lock; [done|]. intros th'. rewrite Hi. by intros [= <-]. }
  assert (Hcall' : forall a p, writing (pc th) = false -> reading p = false -> writing p = false -> want_ok p ->
    cinv (put (with_lock c (rw_step (lock c) i a)) i (set_pc p th))).
  { intros a' p H1 H2 H3 H4. apply (cinv_move c i th); [done|done|by right; eexists|by left|by apply not_in_section|congruence]. }
  assert (Hrd : reading (pc th) = true -> writing (pc th) = false) by (by destruct (pc th)).
  pose proof (cinv_wstep c i th) as HW. pose proof (cinv_ustep c i th) as HU.
  destruct a as [ms| |a|b].
  - destruct (pc th) eqn:Ep; try done; by apply Hcall'.
  - destruct (pc th) eqn:Ep; try done; by apply Hcall'.
  - destruct (pc th) eqn:Ep, a; try done; by apply Hmode.
  - destruct (pc th) as [|ms|[|m ms]| | | | | | | | | | | | | | | | | | | | | | | |] eqn:Ep; try done;
      try (by apply Hcall'); try (by apply (HW b)); try (by apply (HU b)).
    + destruct (rw_mode (lock c) i) eqn:Em; [done|done|].
      apply (cinv_move c i th); [done|done|by left|by left| |by rewrite Ep].
      unfold thread_ok. cbn [set_pc pc writing reading want_ok]. split; [|done]. intros _. split; [done|]. split; [|done].
      apply Hs. intros j tj Hj. destruct (decide (i = j)) as [<-|Hne]; [rewrite Hi in Hj; injection Hj as <-; by rewrite Ep|].
      destruct (writing (pc tj)) eqn:Ew; [|done]. destruct (proj1 (Ht j tj Hj) Ew) as [Ej _].
      pose proof (rw_exclusive (ok := ok) (lock c) i j Hl Em Hne). congruence.
    + destruct (Hw eq_refl) as [_ [Hset _]].
      apply (cinv_move c i th); [done|done|by right; eexists|by left|by apply not_in_section|done].
    + destruct (rw_mode (lock c) i) eqn:Em; [done| |done].
      apply (cinv_move c i th); [done|done|by left|by left| |by rewrite Ep].
      unfold thread_ok. cbn [pc writing reading want_ok at_entry own_tcb own_bytes]. split; [done|]. split; [|done].
      intros _. split; [done|]. unfold reader_ok. by repeat case_match.
Qed.

Lemma cinv_initial : cinv (cinitial n).
Proof using laws.
  split; [apply (rw_init_ok (ok := ok))|]. split; [|intros _; split; [by split|by repeat constructor]].
  intros i th Hi. cbn in Hi. apply lookup_replicate in Hi as [-> _]. done.
Qed.

Lemma cinv_run sched c : cinv c -> Forall call_ok sched -> cinv (crun c sched).
Proof using laws.
  revert c. induction sched as [|ia sched IH]; intros c Hc Hs; [done|]. apply Forall_cons_1 in Hs as [H1 H2].
  simpl. apply IH; [by apply cinv_step|done].
Qed.
End Interleaving.

(** ** [LOAD_LOCK] *)

Section LoadLock.
Context {n : nat} (Hn : Z.of_nat n < 2 ^ 31).

Lemma load_inv sched : Forall call_ok sched -> cinv (ok := futex_ok n) (crun (L := fconf) (cinitial n) sched).
Proof using Hn. pose proof (futex_laws n Hn). intros Hs. apply cinv_run; [|done]. apply cinv_initial. Qed.

Lemma no_writer_beside c i j th tj :
  cinv (ok := futex_ok n) c -> lthreads c !! i = Some th -> lthreads c !! j = Some tj -> i <> j ->
  writing (pc th) = true -> writing (pc tj) = false /\ reading (pc tj) = false.
Proof using Hn.
  intros (Hl & Ht & _) Hi Hj Hne Hw. pose proof (futex_laws n Hn) as laws.
  destruct (proj1 (Ht i th Hi) Hw) as [Hx _]. pose proof (rw_exclusive (ok := futex_ok n) (lock c) i j Hl Hx Hne) as Hf.
  destruct (Ht j tj Hj) as (Wj & Rj & _). split.
  - destruct (writing (pc tj)) eqn:E; [|done]. destruct (Wj eq_refl) as [E' _]. congruence.
  - destruct (reading (pc tj)) eqn:E; [|done]. destruct (Rj eq_refl) as [E' _]. congruence.
Qed.

Lemma settled_while_reading c i th :
  cinv (ok := futex_ok n) c -> lthreads c !! i = Some th -> reading (pc th) = true -> settled (mem c) (granted c).
Proof using Hn.
  intros Hc Hi Hr. apply Hc. intros j tj Hj. destruct (writing (pc tj)) eqn:Hw; [|done].
  destruct (decide (j = i)) as [->|Hne]; [rewrite Hi in Hj; injection Hj as <-; by destruct (pc th)|].
  destruct (no_writer_beside c j i tj th Hc Hj Hi Hne Hw). congruence.
Qed.

End LoadLock.

(** What a finished update has. *)
Lemma update_end_ok m mb e t b :
  reader_ok m mb e UEnd t b ->
  exists b', update_tls true m mb e.1 e.2 = Ret (t, b') /\ same_bytes b b' /\
    forall x, load_size e.1 <= x < load_size m -> b x = mb x.
Proof.
  destruct e as [t0 b0]. unfold reader_ok. cbn [fst snd]. rewrite update_tls_halves.
  destruct (static_half m mb (t0, b0)) as [t1 b1] eqn:E1. destruct (dyn_half m mb (t1, b1)) as [t2 b2] eqn:E2.
  intros [-> Hb]. exists b2. split; [done|]. split; [done|]. intros x Hx. rewrite Hb.
  assert (H1 : b1 x = mb x).
  { unfold static_half in E1. rewrite (proj2 (Z.ltb_lt _ _)) in E1 by lia. injection E1 as _ <-.
    unfold copy_range. by rewrite (proj2 (Z.leb_le _ _)), (proj2 (Z.ltb_lt _ _)) by lia. }
  unfold dyn_half in E2. destruct (dyn_size t1 <? dyn_size m); injection E2 as _ <-; [|done]. unfold copy_range. by case_match.
Qed.

(** C7: whatever the interleaving of fewer than 2^31 threads that load modules and bring
    their blocks up to date, one step per access to shared memory: a thread that is
    loading is alone between the guards; whenever none is, the master block is consistent
    (the blocks of all modules loaded so far are apart, aligned, covered by the load size
    and hold their images, and the version counts them); and a thread at the end of its
    update has exactly what the atomic [update_tls] yields, with the image of every
    module it did not have when it began. *)
Theorem loads_and_updates_serial n sched :
  Z.of_nat n < 2 ^ 31 -> Forall call_ok sched ->
  let c := crun (L := fconf) (cinitial n) sched in
  (forall i j th tj, lthreads c !! i = Some th -> lthreads c !! j = Some tj -> i <> j ->
     writing (pc th) = true -> writing (pc tj) = false /\ reading (pc tj) = false) /\
  ((forall i th, lthreads c !! i = Some th -> writing (pc th) = false) -> settled (mem c) (granted c)) /\
  (forall i th, lthreads c !! i = Some th -> pc th = UEnd ->
     (exists b, update_tls true (master (sh_tls (mem c))) (sh_bytes (mem c)) (at_entry th).1 (at_entry th).2 = Ret (own_tcb th, b) /\
        same_bytes (own_bytes th) b) /\
     forall off m k x, (off, m) ∈ granted c -> load_size (at_entry th).1 <= off -> m_image m !! k = Some x ->
       own_bytes th (off + Z.of_nat k) = x).
Proof.
  intros Hn Hs c. pose proof (load_inv Hn sched Hs) as Hc. fold c in Hc. split_and!.
  - intros i j th tj. by apply (no_writer_beside Hn).
  - apply Hc.
  - intros i th Hi Hp. assert (Hr : reading (pc th) = true) by (by rewrite Hp).
    destruct (proj1 (proj2 (proj1 (proj2 Hc) i th Hi)) Hr) as [_ Hok]. rewrite Hp in Hok.
    destruct (update_end_ok _ _ _ _ _ Hok) as (b & E & Hb & Hx). split; [by exists b|].
    intros off m k x Hin Hoff Hk. destruct (settled_while_reading Hn c i th Hc Hi Hr) as ([Hl _] & [_ Hf] & _).
    destruct (proj1 (list.Forall_forall _ _) Hf _ Hin) as (H1 & H2 & H3 & [_ H4] & H5). cbn [fst snd] in *.
    pose proof (lookup_lt_Some _ _ _ Hk). rewrite Hx; [by apply H5|]. unfold m_size in *. lia.
Qed.

(** ** An update that meets a load *)

Definition hangs (c : lconf fconf) (i : nat) (load : Z) : Prop :=
  exists th p, lthreads c !! i = Some th /\ pc th = WantUpdate /\ fthreads (lock c) !! i = Some p /\ saw_writer load p.

Lemma fsched_other c i j a : i <> j -> fthreads (fsched c (j, a)) !! i = fthreads c !! i.
Proof.
  intros Hne. unfold fsched. cbn [fst snd]. destruct (fthreads c !! j) as [p|]; [|done].
  destruct (fstep (word c) p a) as [[w q]|]; [|done]. cbn. by rewrite list_lookup_insert_ne.
Qed.

Lemma fsched_stuck c i load p a :
  no_writer load = false -> fthreads c !! i = Some p -> saw_writer load p ->
  exists p', fthreads (fsched c (i, a)) !! i = Some p' /\ saw_writer load p'.
Proof.
  intros Hn Hp Hs. unfold fsched. cbn [fst snd]. rewrite Hp. destruct (fstep (word c) p a) as [[w q]|] eqn:E; [|by exists p].
  destruct (saw_writer_step _ _ _ _ _ _ Hn Hs E) as [Hq _]. exists q. split; [|done]. cbn.
  by rewrite list_lookup_insert_eq by by eapply lookup_lt_Some.
Qed.

(** A step of another thread touches neither the thread nor its part of the lock. *)
Lemma cthread_step_other c i j th a :
  i <> j -> lthreads (cthread_step c j th a) !! i = lthreads c !! i /\
            fthreads (lock (cthread_step c j th a)) !! i = fthreads (lock c) !! i.
Proof.
  intros Hne. unfold cthread_step, put, with_lock, dead.
  repeat (case_match; cbn [lthreads lock rw_step futex_rwlock]);
    rewrite ?list_lookup_insert_ne by done; rewrite ?fsched_other by done; done.
Qed.

Lemma hangs_step c i load ia : no_writer load = false -> hangs c i load -> hangs (csched c ia) i load.
Proof.
  intros Hn (th & p & Ht & Hpc & Hp & Hs). destruct ia as [j a]. unfold csched. cbn [fst snd].
  destruct (alive c); [|by exists th, p]. destruct (lthreads c !! j) as [tj|] eqn:Hj; [|by exists th, p].
  destruct (decide (i = j)) as [<-|Hne].
  - rewrite Ht in Hj. injection Hj as <-. unfold cthread_step. rewrite Hpc.
    assert (Hm : rw_mode (lock c) i = Free) by (cbn; rewrite Hp; by destruct p).
    destruct a as [ms| |[]|b]; try (by exists th, p).
    + destruct (fsched_stuck (lock c) i load p (Go weak_ok) Hn Hp Hs) as (p' & Hp' & Hs'). by exists th, p'.
    + destruct (fsched_stuck (lock c) i load p Wake Hn Hp Hs) as (p' & Hp' & Hs'). by exists th, p'.
    + rewrite Hm. by exists th, p.
  - destruct (cthread_step_other c i j tj a Hne) as [E1 E2]. exists th, p. by rewrite E1, E2.
Qed.

(** C39: an update that meets a load never ends: once a thread that calls [update_tls] (for
    instance from [__tls_get_addr]) has seen the writer bit of [LOAD_LOCK], it stays in
    front of the critical section for ever, whatever the other threads do, also long
    after the load is finished and the lock is free. *)
Theorem update_during_load_hangs c i load sched :
  hangs c i load -> no_writer load = false ->
  exists th, lthreads (crun c sched) !! i = Some th /\ pc th = WantUpdate.
Proof.
  intros Hh Hn. enough (hangs (crun c sched) i load) as (th & _ & Ht & Hp & _) by eauto.
  revert c Hh. induction sched as [|ia sched IH]; intros c Hh; [done|]. apply IH. by apply hangs_step.
Qed.

(** ** Concrete inputs *)

Definition sample_module : module := mkModule (mkReq 4 3) [7; 8; 9].
(** Thread 0 loads a module; then thread 1 brings its block up to date. *)
Definition sample_sched : list (nat * cact) :=
  [(0%nat, CallLoad [sample_module]); (0%nat, LockGo (Go true))] ++ replicate 12 (0%nat, Work true) ++
  [(1%nat, CallUpdate); (1%nat, LockGo (Go true))] ++ replicate 13 (1%nat, Work true).

Lemma loads_and_updates_serial_witness :
  let c := crun (L := fconf) (cinitial 2) sample_sched in
  exists th, lthreads c !! 1%nat = Some th /\ pc th = UEnd /\ granted c = [(32, sample_module)] /\ own_bytes th 33 = 8.
Proof.
  set (c := crun (L := fconf) (cinitial 2) sample_sched). cbv zeta.
  assert (E : exists th, lthreads c !! 1%nat = Some th /\ pc th = UEnd /\ granted c = [(32, sample_module)] /\ load_size (at_entry th).1 = 32).
  { eexists. by vm_compute. }
  destruct E as (th & Ht & Hp & Hg & He). exists th. split_and!; [done..|].
  destruct (loads_and_updates_serial 2 sample_sched) as (_ & _ & H); [lia| |].
  - repeat constructor; cbn; lia.
  - fold c in H. destruct (H 1%nat th Ht Hp) as [_ H']. apply (H' 32 sample_module 1%nat 8); [rewrite Hg; by left|lia|done].
Defined.

(** Thread 1 calls the update while thread 0 is loading. *)
Definition meeting : list (nat * cact) :=
  [(0%nat, CallLoad [sample_module]); (0%nat, LockGo (Go true)); (1%nat, CallUpdate); (1%nat, LockGo (Go true))].

Lemma update_during_load_hangs_witness :
  exists th, lthreads (crun (crun (L := fconf) (cinitial 2) meeting)
                         (replicate 20 (0%nat, Work true) ++ replicate 300 (1%nat, LockGo (Go true)))) !! 1%nat = Some th /\
    pc th = WantUpdate.
Proof.
  apply (update_during_load_hangs _ 1 EXCLUSIVE); [|reflexivity].
  eexists _, (LockS EXCLUSIVE 0). by split_and!.
Defined.
