(* ===== verification/Loader.v ===== *)
(** * Mapping the segments of a module (wl-ld-lilium/src/loader.rs)

    [map_phdrs] places the segments of an ELF file in the address space that
    [alloc_base_addr] reserved, with [mmap] and [mprotect]; [read_offset] reads file
    bytes through [lseek] and [read].  The address space is the bytes and the state
    of every page; which Linux calls succeed, and how many bytes a [read] returns, is
    a parameter.  The loader is built without overflow checks. *)

From Stdlib Require Import ZArith Lia Sorted.
From stdpp Require Import base numbers list option.
From S2P Require Import Prelude.

Local Open Scope Z_scope.

(** ** The address space *)

(** Protection of a page; [backed] is [false] for a page of a file mapping that lies
    past the end of the file, where every access faults. *)
Record page_state : Type := mkPage { prot : Z; backed : bool }.
Record aspace : Type := mkSpace { bytes : Z -> Z; pages : Z -> option page_state }.

Definition PROT_READ : Z := 1.
Definition PROT_WRITE : Z := 2.
Definition PROT_EXEC : Z := 4.
Definition PROT_RW : Z := Z.lor PROT_READ PROT_WRITE.

Definition page (a : Z) : Z := a / 4096.
(** Page [g] meets the [n] bytes at [p]. *)
Definition touches (p n g : Z) : bool := (0 <? n) && (page p <=? g) && (g <=? page (p + n - 1)).
Definition page_list (p n : Z) : list Z :=
  if n <=? 0 then [] else seqZ (page p) (page (p + n - 1) - page p + 1).

Definition writable (s : aspace) (g : Z) : bool :=
  match pages s g with Some q => Z.testbit (prot q) 1 && backed q | None => false end.
Definition mapped (s : aspace) (g : Z) : bool :=
  match pages s g with Some _ => true | None => false end.

Definition set_bytes (s : aspace) (p n : Z) (f : Z -> Z) : aspace :=
  mkSpace (fun a => if (p <=? a) && (a <? p + n) then f a else bytes s a) (pages s).

(** [ld_so_impl::loader::Error], the variants the loader uses. *)
Inductive Error : Type := AssumePresent | ObjectNotFound | LoadError | ReadError.

(** Code that changes the address space and fails with an [Error]. *)
Abbreviation io := (stm aspace Error).

(** [ptr::write_bytes(p, 0, n)]; a negative distance is undefined behaviour. *)
Definition write_zeros (p n : Z) : io unit := fun s =>
  if (0 <=? n) && forallb (writable s) (page_list p n) then Ret (set_bytes s p n (fun _ => 0), Ok tt)
  else Panic Fault.

(** [struct ElfPhdr], the fields used. *)
Record ElfPhdr : Type := mkPhdr {
  p_paddr : Z; p_memsz : Z; p_filesz : Z; p_offset : Z; p_flags : Z }.

(** [v & !4095], [(v + 4095) & !4095], [align_offset(4096)] on addresses. *)
Definition page_down (v : Z) : Z := Z.land v (not_w 64 4095).
Definition page_up (v : Z) : Z := page_down (usize_wrap (v + 4095)).
Definition align_offset (v : Z) : Z := (- v) mod 4096.
Definition saturating_sub (a b : Z) : Z := Z.max 0 (a - b).

Section Loader.
(** The file, and the answers of the kernel: whether a call is accepted, and the
    result of [read] at a position for a number of bytes ([None] is an error). *)
Context (file : list Z).
Context (mmap_ok : Z -> Z -> Z -> bool) (mprotect_ok : Z -> Z -> Z -> bool).
Context (lseek_ok : Z -> bool) (kread : Z -> Z -> option Z).
(** Segment flags of ELF. *)
Context (PF_W PF_X : Z).

Definition fbyte (off : Z) : Z := default 0 (file !! Z.to_nat off).
Definition eof : Z := Z.of_nat (length file).

(** [mmap] of the file with [MAP_PRIVATE | MAP_FIXED], readable and writable. *)
Definition sys_mmap (addr len off : Z) : io unit := fun s =>
  if mmap_ok addr len off then
    Ret (mkSpace
      (fun a => if touches addr len (page a) then fbyte (off + (a - addr)) else bytes s a)
      (fun g => if touches addr len g
                then Some (mkPage PROT_RW (off + 4096 * (g - page addr) <? eof)) else pages s g), Ok tt)
  else Ret (s, Err LoadError).

(** [mprotect]: all pages must be mapped. *)
Definition sys_mprotect (addr len perms : Z) : io unit := fun s =>
  if mprotect_ok addr len perms && forallb (mapped s) (page_list addr len) then
    Ret (mkSpace (bytes s)
      (fun g => if touches addr len g
                then (fun q => mkPage perms (backed q)) <$> pages s g else pages s g), Ok tt)
  else Ret (s, Err LoadError).

(** The loop of [read_offset]: [sl] is the [len] bytes at [ptr].  [read] into pages
    that are not writable is EFAULT. *)
Fixpoint read_loop (fuel : nat) (pos ptr len : Z) : io unit := fun s =>
  if len =? 0 then Ret (s, Ok tt) else
  match fuel with
  | O => Panic Explicit   (** not reached: every turn shortens the slice *)
  | S k =>
    match kread pos len with
    | None => Ret (s, Err ReadError)
    | Some num =>
      if num =? 0 then Ret (s, Err ReadError) else
      if negb (forallb (writable s) (page_list ptr num)) then Ret (s, Err ReadError) else
      let s := set_bytes s ptr num (fun a => fbyte (pos + (a - ptr))) in
      if len <? num then Panic OutOfBounds else
      read_loop k (pos + num) (ptr + num) (len - num) s
    end
  end.

(** [read_offset]. *)
Definition read_offset (off ptr len : Z) : io unit :=
  if lseek_ok off then read_loop (Z.to_nat len) off ptr len else throw ReadError.

Definition seg_perms (flags : Z) : Z :=
  let perms := PROT_READ in
  if negb (Z.land flags PF_W =? 0) then Z.lor perms PROT_WRITE
  else if negb (Z.land flags PF_X =? 0) then Z.lor perms PROT_EXEC
  else perms.

(** The body of the [for]: from [(last_addr, last_perms)] to their new values. *)
Definition map_phdr (base_addr : Z) (last : Z * Z) (phdr : ElfPhdr) : io (Z * Z) :=
  let '(last_addr, last_perms) := last in
  let addr := usize_wrap (base_addr + p_paddr phdr) in
  let len := p_memsz phdr in
  let file_len := p_filesz phdr in
  let offset := p_offset phdr in
  let perms := seg_perms (p_flags phdr) in
  let last_pg_addr := page_down last_addr in
  '(addr, len, file_len, offset) ←
    (if page_down addr <=? last_pg_addr then
       _ ← sys_mprotect last_pg_addr 4096 PROT_RW;
       let size := Z.min (align_offset addr) file_len in
       _ ← read_offset (p_offset phdr) addr size;
       _ ← sys_mprotect last_pg_addr 4096 (Z.lor perms last_perms);
       mret (page_up addr, saturating_sub len 4096, saturating_sub file_len 4096, page_up offset)
     else mret (addr, len, file_len, offset));
  if 0 <? file_len then
    if negb (Z.land addr 4095 =? Z.land (p_offset phdr) 4095) then panics Todo else
    let f_offset := page_down offset in
    let extra_len := offset - f_offset in
    let adjusted_len := usize_wrap (extra_len + file_len) in
    _ ← sys_mmap (page_down addr) adjusted_len f_offset;
    let file_start := page_down addr in
    _ ← write_zeros file_start (addr - file_start);
    let file_end := usize_wrap (addr + file_len) in
    let end_ := usize_wrap (addr + len) in
    _ ← write_zeros file_end (end_ - file_end);
    _ ← sys_mprotect (page_down addr) (usize_wrap (extra_len + len)) perms;
    mret (usize_wrap (end_ - 1), perms)
  else mret last.

Fixpoint map_loop (base_addr : Z) (last : Z * Z) (phdrs : list ElfPhdr) : io unit :=
  match phdrs with
  | [] => mret tt
  | phdr :: r => last ← map_phdr base_addr last phdr; map_loop base_addr last r
  end.

(** [map_phdrs]. *)
Definition map_phdrs (base_addr : Z) (phdrs : list ElfPhdr) : io Z :=
  _ ← map_loop base_addr (0, 0) phdrs; mret base_addr.

(** ** Pages and addresses *)

Lemma page_bounds a : 4096 * page a <= a < 4096 * page a + 4096.
Proof. unfold page. pose proof (Z.div_mod a 4096). pose proof (Z.mod_pos_bound a 4096). lia. Qed.

Lemma page_mono a b : a <= b -> page a <= page b.
Proof. intros. by apply Z.div_le_mono. Qed.

Lemma page_down_spec v : 0 <= v < 2 ^ 64 -> page_down v = 4096 * page v.
Proof.
  intros Hv. unfold page_down, page. pose proof (land_not_ones v 12 ltac:(lia) Hv) as E.
  change (2 ^ 12 - 1) with 4095 in E. change (2 ^ 12) with 4096 in E. rewrite E. lia.
Qed.

Lemma land_4095 v : Z.land v 4095 = v - 4096 * page v.
Proof.
  change 4095 with (Z.ones 12). rewrite Z.land_ones by lia. change (2 ^ 12) with 4096.
  unfold page. pose proof (Z.div_mod v 4096). lia.
Qed.

Lemma page_down_page v : page (4096 * v) = v.
Proof. unfold page. rewrite Z.mul_comm. by apply Z.div_mul. Qed.

Lemma touches_spec p n g : touches p n g = true <-> 0 < n /\ page p <= g <= page (p + n - 1).
Proof. unfold touches. rewrite !andb_true_iff, Z.ltb_lt, !Z.leb_le. lia. Qed.

Lemma touches_true p n g : 0 < n -> page p <= g <= page (p + n - 1) -> touches p n g = true.
Proof. intros. by apply touches_spec. Qed.

Lemma touches_false p n g : g < page p \/ page (p + n - 1) < g -> touches p n g = false.
Proof. intros H. destruct (touches p n g) eqn:E; [|done]. apply touches_spec in E. lia. Qed.

Lemma forallb_pages f p n :
  (forall g, 0 < n -> page p <= g <= page (p + n - 1) -> f g = true) -> forallb f (page_list p n) = true.
Proof.
  intros H. apply forallb_forall. intros g Hg. unfold page_list in Hg. destruct (Z.leb_spec n 0); [done|].
  apply list_elem_of_In, elem_of_seqZ in Hg. apply H; lia.
Qed.

(** ** Reading file bytes *)

(** What [read(2)] documents: at a position before the end of the file it returns at
    least one byte and no more than asked for or left; at the end, none. *)
Definition read_honest : Prop :=
  forall pos n, 0 <= pos -> 0 < n ->
    if pos <? eof then exists k, kread pos n = Some k /\ 0 < k <= Z.min n (eof - pos)
    else kread pos n = Some 0.

(** [s'] is [s] with the [n] bytes at [p] changed to the file's from [off]. *)
Definition file_bytes_at (s s' : aspace) (p n off : Z) : Prop :=
  pages s' = pages s /\
  forall a, bytes s' a = if (p <=? a) && (a <? p + n) then fbyte (off + (a - p)) else bytes s a.

Lemma read_loop_ok fuel s pos ptr len :
  read_honest -> 0 <= pos -> 0 <= len -> (Z.to_nat len <= fuel)%nat -> pos + len <= eof ->
  (forall g, page ptr <= g <= page (ptr + len - 1) -> writable s g = true) ->
  exists s', read_loop fuel pos ptr len s = Ret (s', Ok tt) /\ file_bytes_at s s' ptr len pos.
Proof.
  intros Hk. revert s pos ptr len. induction fuel as [|fuel IH]; intros s pos ptr len Hp Hl Hf He Hw;
    cbn [read_loop]; destruct (Z.eqb_spec len 0) as [->|]; [| lia | |].
  1, 2: exists s; split; [done|split; [done|]]; intros a; destruct (Z.leb_spec ptr a), (Z.ltb_spec a (ptr + 0)); done || lia.
  pose proof (Hk pos len Hp ltac:(lia)) as Hr. rewrite (proj2 (Z.ltb_lt pos eof)) in Hr by lia.
  destruct Hr as (k & -> & Hk1). destruct (Z.eqb_spec k 0); [lia|].
  rewrite forallb_pages.
  2: { intros g _ Hg. apply Hw. pose proof (page_mono (ptr + k - 1) (ptr + len - 1)). lia. }
  cbn [negb]. destruct (Z.ltb_spec len k); [lia|].
  destruct (IH (set_bytes s ptr k (fun a => fbyte (pos + (a - ptr)))) (pos + k) (ptr + k) (len - k))
    as (s' & E & Hpg & Hb); [lia..| |].
  { intros g Hg. apply Hw. pose proof (page_mono ptr (ptr + k)).
    replace (ptr + k + (len - k) - 1) with (ptr + len - 1) in Hg by lia. lia. }
  exists s'. split; [exact E|split; [exact Hpg|]]. intros a. rewrite Hb. unfold set_bytes. cbn [bytes].
  destruct (Z.leb_spec ptr a), (Z.ltb_spec a (ptr + len)), (Z.leb_spec (ptr + k) a),
    (Z.ltb_spec a (ptr + k + (len - k))), (Z.ltb_spec a (ptr + k)); cbn [andb]; try lia; try done.
  f_equal. lia.
Qed.

(** [read_offset] fills a writable buffer with the file's bytes from the given
    offset, however [read] splits them, and touches nothing else; when the file is
    too short it reports ReadError, and so it does on any failing call. *)
Theorem read_offset_spec s off ptr len :
  read_honest -> 0 <= off -> 0 <= len ->
  (forall g, page ptr <= g <= page (ptr + len - 1) -> writable s g = true) ->
  if negb (lseek_ok off) then read_offset off ptr len s = Ret (s, Err ReadError)
  else if off + len <=? eof then
    exists s', read_offset off ptr len s = Ret (s', Ok tt) /\ file_bytes_at s s' ptr len off
  else len = 0 \/ exists s', read_offset off ptr len s = Ret (s', Err ReadError).
Proof.
  intros Hk Ho Hl Hw. unfold read_offset. destruct (lseek_ok off); [cbn [negb]|done].
  destruct (Z.leb_spec (off + len) eof); [by apply read_loop_ok|].
  destruct (Z.eq_dec len 0); [by left|right]. revert Hw.
  remember (Z.to_nat len) as fuel eqn:Ef. assert (Z.to_nat len <= fuel)%nat as Hf by lia. clear Ef.
  revert s off ptr len Ho Hl Hf H n. induction fuel as [|fuel IH]; intros s pos ptr len Hp Hl Hf He Hn Hw; [lia|].
  cbn [read_loop]. destruct (Z.eqb_spec len 0) as [|_]; [lia|].
  pose proof (Hk pos len Hp ltac:(lia)) as Hr. destruct (Z.ltb_spec pos eof).
  2: { rewrite Hr. by exists s. }
  destruct Hr as (k & -> & Hk1). destruct (Z.eqb_spec k 0); [lia|].
  rewrite forallb_pages.
  2: { intros g _ Hg. apply Hw. pose proof (page_mono (ptr + k - 1) (ptr + len - 1)). lia. }
  cbn [negb]. destruct (Z.ltb_spec len k); [lia|]. apply IH; try lia.
  intros g Hg. apply Hw. pose proof (page_mono ptr (ptr + k)).
  replace (ptr + k + (len - k) - 1) with (ptr + len - 1) in Hg by lia. lia.
Qed.

(** ** Steps of [map_phdr] *)

Definition kernel_accepts : Prop :=
  (forall a l o, mmap_ok a l o = true) /\ (forall a l p, mprotect_ok a l p = true).

Definition rw_page : page_state := mkPage PROT_RW true.

Lemma write_zeros_ok s p n :
  0 <= n -> (forall g, 0 < n -> page p <= g <= page (p + n - 1) -> pages s g = Some rw_page) ->
  write_zeros p n s = Ret (set_bytes s p n (fun _ => 0), Ok tt).
Proof.
  intros Hn Hg. unfold write_zeros. rewrite (proj2 (Z.leb_le 0 n)) by lia. rewrite forallb_pages; [done|].
  intros g H1 H2. unfold writable. by rewrite Hg.
Qed.

Lemma sys_mprotect_ok s p n perms :
  kernel_accepts -> (forall g, 0 < n -> page p <= g <= page (p + n - 1) -> mapped s g = true) ->
  sys_mprotect p n perms s =
    Ret (mkSpace (bytes s) (fun g => if touches p n g
           then (fun q => mkPage perms (backed q)) <$> pages s g else pages s g), Ok tt).
Proof. intros [_ Hk] Hg. unfold sys_mprotect. by rewrite Hk, forallb_pages. Qed.

(** ** Segments *)

Section Segments.
Context (base_addr : Z).

Definition seg_addr (ph : ElfPhdr) : Z := base_addr + p_paddr ph.
Definition seg_last (ph : ElfPhdr) : Z := seg_addr ph + p_memsz ph - 1.

(** A loadable segment of the file: inside it, inside the address space, congruent
    modulo the page size, and not empty in memory. *)
Definition seg_ok (ph : ElfPhdr) : Prop :=
  4096 <= seg_addr ph /\ seg_last ph < 2 ^ 63 /\ 0 < p_memsz ph /\
  0 <= p_filesz ph <= p_memsz ph /\ 0 <= p_offset ph /\ p_offset ph + p_filesz ph <= eof /\
  seg_addr ph - 4096 * page (seg_addr ph) = p_offset ph - 4096 * page (p_offset ph).

Definition seg_page (ph : ElfPhdr) (g : Z) : Prop := page (seg_addr ph) <= g <= page (seg_last ph).

(** Reserved as [alloc_base_addr] leaves it: anonymous, zero, readable and writable. *)
Definition seg_fresh (s : aspace) (ph : ElfPhdr) : Prop :=
  forall g, seg_page ph g -> pages s g = Some rw_page /\ forall a, page a = g -> bytes s a = 0.

(** What a loader owes a segment: file bytes, then zeros, on pages with the protection of
    its flags. *)
Definition seg_bytes (s : aspace) (ph : ElfPhdr) : Prop :=
  (forall i, 0 <= i < p_filesz ph -> bytes s (seg_addr ph + i) = fbyte (p_offset ph + i)) /\
  (forall i, p_filesz ph <= i < p_memsz ph -> bytes s (seg_addr ph + i) = 0).
Definition seg_pages (s : aspace) (ph : ElfPhdr) (perms : Z) : Prop :=
  forall g, seg_page ph g -> pages s g = Some (mkPage perms true).
Definition seg_loaded (s : aspace) (ph : ElfPhdr) : Prop := seg_bytes s ph /\ seg_pages s ph (seg_perms (p_flags ph)).

(** What the loop below leaves for both kinds of segments. *)
Definition seg_mapped (s : aspace) (ph : ElfPhdr) : Prop :=
  (forall i, 0 <= i < p_filesz ph -> bytes s (seg_addr ph + i) = fbyte (p_offset ph + i)) /\
  (forall i, p_filesz ph <= i < p_memsz ph -> bytes s (seg_addr ph + i) = 0) /\
  (forall g, seg_page ph g -> pages s g =
     Some (mkPage (if p_filesz ph =? 0 then PROT_RW else seg_perms (p_flags ph)) true)).

(** Nothing changes on a page outside [P]. *)
Definition same_outside (P : Z -> Prop) (s s' : aspace) : Prop :=
  forall g, ~ P g -> pages s' g = pages s g /\ forall a, page a = g -> bytes s' a = bytes s a.

(** The calls that place a segment whose first page is [A]: the state they leave. *)
Lemma place_segment s A a fs ms off perms :
  kernel_accepts -> 4096 * A <= a < 4096 * A + 4096 -> 0 < fs <= ms -> 0 <= off -> off + fs <= eof ->
  a - 4096 * A = off - 4096 * page off ->
  (forall g, A <= g <= page (a + ms - 1) -> pages s g = Some rw_page) ->
  exists s',
    (_ ← sys_mmap (4096 * A) (a - 4096 * A + fs) (4096 * page off);
     _ ← write_zeros (4096 * A) (a - 4096 * A);
     _ ← write_zeros (a + fs) (a + ms - (a + fs));
     _ ← sys_mprotect (4096 * A) (a - 4096 * A + ms) perms;
     mret (a + ms - 1, perms)) s = Ret (s', Ok (a + ms - 1, perms)) /\
    (forall x, bytes s' x =
       if (a + fs <=? x) && (x <? a + ms) then 0
       else if (4096 * A <=? x) && (x <? a) then 0
       else if (A <=? page x) && (page x <=? page (a + fs - 1)) then fbyte (off + (x - a))
       else bytes s x) /\
    (forall g, pages s' g = if (A <=? g) && (g <=? page (a + ms - 1)) then Some (mkPage perms true) else pages s g).
Proof.
  intros Hk Ha Hf Ho Hoe Hc Hrw.
  assert (forall n g, 0 < n -> touches (4096 * A) (a - 4096 * A + n) g = (A <=? g) && (g <=? page (a + n - 1))) as Ht.
  { intros n g Hn. unfold touches. rewrite page_down_page, (proj2 (Z.ltb_lt 0 _)) by lia. cbn [andb].
    do 3 f_equal. lia. }
  pose proof (page_mono (a + fs - 1) (a + ms - 1) ltac:(lia)) as Hle.
  pose proof (page_bounds (a + fs - 1)) as Hlb.
  assert (exists s1, sys_mmap (4096 * A) (a - 4096 * A + fs) (4096 * page off) s = Ret (s1, Ok tt) /\
    (forall x, bytes s1 x =
       if (A <=? page x) && (page x <=? page (a + fs - 1)) then fbyte (off + (x - a)) else bytes s x) /\
    (forall g, pages s1 g = if (A <=? g) && (g <=? page (a + fs - 1)) then Some rw_page else pages s g))
    as (s1 & E1 & Hb1 & Hp1).
  { unfold sys_mmap. rewrite (proj1 Hk). eexists. split; [reflexivity|]. cbn [bytes pages]. split.
    - intros x. rewrite Ht by lia. destruct ((A <=? page x) && _); [|done]. f_equal. lia.
    - intros g. rewrite Ht by lia. destruct (A <=? g) eqn:?, (g <=? page (a + fs - 1)) eqn:?; try done. cbn [andb].
      reflect_bools. rewrite page_down_page, (proj2 (Z.ltb_lt _ _)) by lia. done. }
  assert (forall g, A <= g <= page (a + ms - 1) -> pages s1 g = Some rw_page) as Hrw1.
  { intros g Hg. rewrite Hp1. case_match; [done|]. by apply Hrw. }
  rewrite (stm_bind_ok _ _ _ _ _ E1).
  rewrite (stm_bind_ok _ _ _ _ _ (write_zeros_ok s1 (4096 * A) (a - 4096 * A) ltac:(lia)
    ltac:(intros g H1 H2; apply Hrw1; rewrite page_down_page in H2;
          pose proof (page_mono (4096 * A + (a - 4096 * A) - 1) (a + ms - 1)); lia))).
  erewrite stm_bind_ok; [|apply write_zeros_ok; [lia|]].
  2: { intros g H1 H2. cbn [pages set_bytes]. apply Hrw1.
       pose proof (page_mono (4096 * A) (a + fs)) as H3. rewrite page_down_page in H3.
       replace (a + fs + (a + ms - (a + fs)) - 1) with (a + ms - 1) in H2 by lia. lia. }
  erewrite stm_bind_ok; [|apply sys_mprotect_ok; [done|]].
  2: { intros g _ Hg. rewrite page_down_page in Hg. unfold mapped. cbn [pages set_bytes].
       replace (4096 * A + (a - 4096 * A + ms) - 1) with (a + ms - 1) in Hg by lia. by rewrite Hrw1. }
  eexists. split; [reflexivity|]. cbn [bytes pages set_bytes]. split.
  - intros x. rewrite Hb1. replace (a + fs + (a + ms - (a + fs))) with (a + ms) by lia.
    replace (4096 * A + (a - 4096 * A)) with a by lia. done.
  - intros g. rewrite Ht by lia. destruct ((A <=? g) && (g <=? page (a + ms - 1))) eqn:E.
    + reflect_bools. by rewrite Hrw1 by lia.
    + rewrite Hp1. destruct (A <=? g) eqn:?, (g <=? page (a + fs - 1)) eqn:?; try done.
      exfalso. cbn [andb] in E. reflect_bools. lia.
Qed.

Lemma map_phdr_fresh s last ph :
  kernel_accepts -> seg_ok ph -> eof < 2 ^ 63 -> 0 <= last.1 < 2 ^ 64 -> page last.1 < page (seg_addr ph) -> seg_fresh s ph ->
  exists s', map_phdr base_addr last ph s =
               Ret (s', Ok (if p_filesz ph =? 0 then last else (seg_last ph, seg_perms (p_flags ph)))) /\
    seg_mapped s' ph /\ same_outside (seg_page ph) s s'.
Proof.
  intros Hk (Ha & Hend & Hm & Hf & Ho & Hoe & Hcong) Heof Hl Hpg Hfr. destruct last as [la lp]. simpl in Hl, Hpg.
  unfold seg_last in Hend. fold (seg_addr ph) in *. set (a := seg_addr ph) in *.
  pose proof (page_bounds a) as Hab. pose proof (page_bounds (p_offset ph)) as Hob.
  unfold map_phdr. change (base_addr + p_paddr ph) with a.
  assert (usize_wrap a = a) as -> by (apply wrap_small; lia).
  rewrite !(page_down_spec a) by lia. rewrite (page_down_spec la) by lia.
  destruct (Z.leb_spec (4096 * page a) (4096 * page la)); [lia|].
  erewrite stm_bind_ok by reflexivity. cbv beta iota.
  destruct (Z.eqb_spec (p_filesz ph) 0) as [E0|E0].
  { rewrite E0. cbn [Z.ltb Z.compare]. exists s. split; [done|]. split; [|by split].
    split_and!.
    - intros i Hi. lia.
    - intros i Hi. apply (Hfr (page (a + i))); [|done]. split; apply page_mono; unfold seg_last; fold a; lia.
    - intros g Hg. rewrite E0. by apply Hfr. }
  rewrite (proj2 (Z.ltb_lt 0 (p_filesz ph))) by lia.
  rewrite !land_4095, Hcong, Z.eqb_refl. cbn [negb]. rewrite !(page_down_spec a), !(page_down_spec (p_offset ph)) by lia.
  rewrite <- Hcong.
  assert (forall x, 0 <= x < 2 ^ 64 -> usize_wrap x = x) as Hw by (intros; by apply wrap_small).
  rewrite (Hw (a + p_memsz ph)), (Hw (a + p_filesz ph)) by lia. rewrite !Hw by lia.
  destruct (place_segment s (page a) a (p_filesz ph) (p_memsz ph) (p_offset ph) (seg_perms (p_flags ph)))
    as (s' & E & Hb & Hp); [done|lia|lia|lia|lia|lia|by intros g Hg; apply Hfr|].
  exists s'. split; [exact E|]. split; [split_and!|].
  - intros i Hi. fold a. rewrite Hb.
    pose proof (page_mono a (a + i)). pose proof (page_mono (a + i) (a + p_filesz ph - 1)).
    repeat (case_match; reflect_bools; try lia). f_equal. lia.
  - intros i Hi. fold a. rewrite Hb. by rewrite (proj2 (Z.leb_le _ _)), (proj2 (Z.ltb_lt _ _)) by lia.
  - intros g [H1 H2]. rewrite Hp. fold a in H1. unfold seg_last in H2. fold a in H2.
    rewrite !(proj2 (Z.leb_le _ _)) by lia. by destruct (Z.eqb_spec (p_filesz ph) 0).
  - intros g Hg. unfold seg_page, seg_last in Hg. fold a in Hg.
    split; [|intros x Hx; rewrite Hb; pose proof (page_mono a x); pose proof (page_mono x (a + p_memsz ph - 1));
      pose proof (page_bounds x); pose proof (page_mono (a + p_filesz ph - 1) (a + p_memsz ph - 1))].
    + rewrite Hp. case_match; [|done]. exfalso. reflect_bools. lia.
    + repeat (case_match; reflect_bools; try (exfalso; lia)). done.
Qed.

(** ** A module *)

Definition seg_before (p q : ElfPhdr) : Prop := page (seg_last p) < page (seg_addr q).

(** No protection of a segment is both writable and executable. *)
Definition write_exec (p : Z) : bool := Z.testbit p 1 && Z.testbit p 2.
Lemma seg_perms_wx flags : write_exec (seg_perms flags) = false.
Proof. unfold seg_perms. by repeat case_match. Qed.

Lemma seg_page_frame s s' ph P :
  same_outside P s s' -> (forall g, seg_page ph g -> ~ P g) ->
  (seg_fresh s ph -> seg_fresh s' ph) /\ (0 < p_memsz ph -> 0 <= p_filesz ph <= p_memsz ph -> seg_mapped s ph -> seg_mapped s' ph).
Proof.
  intros Hs HP. split.
  - intros Hf g Hg. destruct (Hs g (HP g Hg)) as [-> Hb], (Hf g Hg) as [-> Hz]. split; [done|].
    intros a Ha. rewrite Hb by done. by apply Hz.
  - intros Hm Hfm (H1 & H2 & H3).
    assert (forall i, 0 <= i < p_memsz ph -> bytes s' (seg_addr ph + i) = bytes s (seg_addr ph + i)) as Hb.
    { intros i Hi. apply (Hs (page (seg_addr ph + i))); [|done]. apply HP.
      split; apply page_mono; unfold seg_last; lia. }
    split_and!.
    + intros i Hi. rewrite Hb by lia. by apply H1.
    + intros i Hi. rewrite Hb by lia. by apply H2.
    + intros g Hg. rewrite (proj1 (Hs g (HP g Hg))). by apply H3.
Qed.

Lemma map_loop_ok s last phdrs :
  kernel_accepts -> eof < 2 ^ 63 -> Forall seg_ok phdrs -> StronglySorted seg_before phdrs ->
  0 <= last.1 < 2 ^ 64 -> Forall (fun ph => page last.1 < page (seg_addr ph)) phdrs ->
  Forall (seg_fresh s) phdrs ->
  exists s', map_loop base_addr last phdrs s = Ret (s', Ok tt) /\ Forall (seg_mapped s') phdrs /\
    same_outside (fun g => Exists (fun ph => seg_page ph g) phdrs) s s'.
Proof.
  intros Hk He. revert s last. induction phdrs as [|ph phdrs IH]; intros s last Hok Hs Hl Hpg Hfr.
  { exists s. split; [done|]. split; [constructor|]. by intros g _. }
  apply Forall_cons_1 in Hok as [Hph Hok], Hpg as [Hpg Hpgs], Hfr as [Hfr Hfrs].
  apply StronglySorted_inv in Hs as [Hs Hbef].
  destruct (map_phdr_fresh s last ph Hk Hph He Hl Hpg Hfr) as (s1 & E & Hld & Hsame).
  assert (forall q g, In q phdrs -> seg_page q g -> ~ seg_page ph g) as Hdis.
  { intros q g Hq [H1 _] [_ H2]. rewrite Forall_forall in Hbef. specialize (Hbef q Hq). unfold seg_before in Hbef. lia. }
  cbn [map_loop]. rewrite (stm_bind_ok _ _ _ _ _ E).
  destruct (IH s1 (if p_filesz ph =? 0 then last else (seg_last ph, seg_perms (p_flags ph)))) as (s' & E' & Hlds & Hsame').
  - done.
  - done.
  - destruct Hph as (? & ? & ? & _). unfold seg_last in *. case_match; simpl; lia.
  - case_match; [done|]. exact Hbef.
  - rewrite Forall_forall in Hfrs |- *. intros q Hq.
    apply (seg_page_frame s s1 q (seg_page ph) Hsame); [by intros g; apply Hdis|by apply Hfrs].
  - exists s'. split; [exact E'|]. split.
    + constructor; [|done]. eapply (seg_page_frame s1 s' ph _ Hsame'); [|apply Hph..|exact Hld].
      intros g Hg Hex. apply Exists_exists in Hex as (q & Hq & Hqg). by apply (Hdis q g).
    + intros g Hg. assert (~ seg_page ph g) as H1 by (intros ?; apply Hg; by constructor).
      assert (~ Exists (fun q => seg_page q g) phdrs) as H2 by (intros ?; apply Hg; by constructor).
      destruct (Hsame g H1) as [Hp Hb], (Hsame' g H2) as [Hp' Hb']. split; [congruence|].
      intros a Ha. rewrite Hb', Hb by done. done.
Qed.

(** C11: a module whose segments ascend without sharing a page, in a zeroed reservation
    that holds them all, is mapped: every segment has its file bytes followed by zeros, and
    no page outside the segments is touched.  A segment with file bytes gets the protection
    of its flags, where a writable segment is not made executable.  A segment without file
    bytes does not: its pages stay readable and writable as the reservation left them,
    whatever its flags say.  In both cases no page is writable and executable at once. *)
Theorem map_phdrs_correct s phdrs :
  kernel_accepts -> eof < 2 ^ 63 -> Forall seg_ok phdrs -> StronglySorted seg_before phdrs ->
  Forall (seg_fresh s) phdrs ->
  exists s', map_phdrs base_addr phdrs s = Ret (s', Ok base_addr) /\
    (forall ph, ph ∈ phdrs -> 0 < p_filesz ph -> seg_loaded s' ph) /\
    (forall ph, ph ∈ phdrs -> p_filesz ph = 0 -> seg_bytes s' ph /\ seg_pages s' ph PROT_RW) /\
    same_outside (fun g => Exists (fun ph => seg_page ph g) phdrs) s s' /\
    forall ph g, ph ∈ phdrs -> seg_page ph g ->
      exists q, pages s' g = Some q /\ write_exec (prot q) = false.
Proof.
  intros Hk He Hok Hs Hfr. destruct (map_loop_ok s (0, 0) phdrs) as (s' & E & Hld & Hsame); try done.
  { eapply Forall_impl; [|exact Hok]. intros ph (Ha & _). pose proof (page_mono 4096 (seg_addr ph) Ha) as H.
    change (page 4096) with 1 in H. change (page (0, 0).1) with 0. lia. }
  assert (Hin : forall ph, ph ∈ phdrs -> seg_mapped s' ph).
  { intros ph Hph%list_elem_of_In. rewrite Forall_forall in Hld. by apply Hld. }
  exists s'. split; [|split_and!; [| |done|]].
  - unfold map_phdrs. by rewrite (stm_bind_ok _ _ _ _ _ E).
  - intros ph Hph Hf. destruct (Hin ph Hph) as (H1 & H2 & H3). split; [by split|].
    intros g Hg. rewrite (H3 g Hg), (proj2 (Z.eqb_neq _ 0)) by lia. done.
  - intros ph Hph Hf. destruct (Hin ph Hph) as (H1 & H2 & H3). split; [by split|].
    intros g Hg. by rewrite (H3 g Hg), Hf.
  - intros ph g Hph Hg. destruct (Hin ph Hph) as (_ & _ & Hp).
    eexists. split; [by apply Hp|]. simpl. case_match; [done|apply seg_perms_wx].
Qed.

(** ** Segments that share a page *)

Lemma align_offset_spec a : 4096 * page a < a -> align_offset a = 4096 * page a + 4096 - a.
Proof.
  intros H. unfold align_offset. pose proof (page_bounds a). symmetry.
  apply (Z.mod_unique _ _ (- page a - 1)); lia.
Qed.

(** The calls on the shared page, at [p]. *)
Lemma shared_page_steps {A} s p a off fs perms lp (r : A) :
  kernel_accepts -> read_honest -> lseek_ok off = true ->
  p = 4096 * page a -> p < a -> 0 <= fs -> 0 <= off -> off + fs <= eof ->
  pages s (page a) = Some (mkPage lp true) ->
  exists s', (_ ← sys_mprotect p 4096 PROT_RW;
     _ ← read_offset off a (Z.min (align_offset a) fs);
     _ ← sys_mprotect p 4096 (Z.lor perms lp);
     mret r) s = Ret (s', Ok r) /\
    (forall g, pages s' g = if g =? page a then Some (mkPage (Z.lor perms lp) true) else pages s g) /\
    (forall x, bytes s' x =
       if (a <=? x) && (x <? a + fs) && (page x =? page a) then fbyte (off + (x - a)) else bytes s x).
Proof.
  intros Hk Hr Hsk -> Ha Hf Ho Hoe Hp. pose proof (page_bounds a) as Hab.
  rewrite align_offset_spec by lia. set (n := Z.min _ fs).
  assert (forall g, page (4096 * page a) <= g <= page (4096 * page a + 4096 - 1) <-> g = page a) as Hg.
  { intros g. rewrite page_down_page.
    replace (page (4096 * page a + 4096 - 1)) with (page a); [lia|].
    change (page a = (4096 * page a + 4096 - 1) / 4096). apply (Z.div_unique _ _ _ 4095); lia. }
  assert (forall g, touches (4096 * page a) 4096 g = (g =? page a)) as Ht.
  { intros g. destruct (Z.eqb_spec g (page a)).
    - apply touches_true; [lia|by apply Hg].
    - destruct (touches (4096 * page a) 4096 g) eqn:E; [|done]. apply touches_spec in E as [_ E]. by apply Hg in E. }
  erewrite stm_bind_ok; [|apply sys_mprotect_ok; [done|]].
  2: { intros g _ ->%Hg. unfold mapped. by rewrite Hp. }
  match goal with |- context [(_ ≫= _) ?s0] => set (s1 := s0) end.
  assert (pages s1 (page a) = Some rw_page) as Hp1 by (simpl; by rewrite Ht, Z.eqb_refl, Hp).
  destruct (read_loop_ok (Z.to_nat n) s1 off a n) as (s2 & E2 & Hp2 & Hb2); [done|lia|lia|lia|lia| |].
  { intros g Hg'. assert (g = page a) as ->.
    { apply Hg. pose proof (page_mono (a + n - 1) (4096 * page a + 4096 - 1)). rewrite page_down_page. lia. }
    unfold writable. by rewrite Hp1. }
  erewrite stm_bind_ok; [|unfold read_offset; rewrite Hsk; exact E2].
  erewrite stm_bind_ok; [|apply sys_mprotect_ok; [done|]].
  2: { intros g _ ->%Hg. unfold mapped. by rewrite Hp2, Hp1. }
  eexists. split; [reflexivity|]. cbn [pages bytes]. split.
  - intros g. rewrite Ht, Hp2. destruct (Z.eqb_spec g (page a)) as [->|]; [by rewrite Hp1|].
    simpl. rewrite Ht. by destruct (Z.eqb_spec g (page a)).
  - intros x. rewrite Hb2. simpl. pose proof (page_bounds x).
    destruct (Z.leb_spec a x), (Z.ltb_spec x (a + n)), (Z.ltb_spec x (a + fs)), (Z.eqb_spec (page x) (page a));
      cbn [andb]; try done; exfalso; lia.
Qed.

(** A segment that begins inside the page in which the previous one ends: with
    more than 4096 bytes in the file the loader panics; otherwise it loads the bytes
    up to the end of that page and nothing of what follows, neither file bytes nor
    zeros, and gives the page both segments' protections together. *)
Theorem map_phdr_shared_page s la lp ph :
  kernel_accepts -> read_honest -> lseek_ok (p_offset ph) = true -> seg_ok ph ->
  0 <= la < 2 ^ 64 -> page la = page (seg_addr ph) -> 4096 * page (seg_addr ph) < seg_addr ph ->
  pages s (page la) = Some (mkPage lp true) ->
  if 4096 <? p_filesz ph then map_phdr base_addr (la, lp) ph s = Panic Todo
  else exists s', map_phdr base_addr (la, lp) ph s = Ret (s', Ok (la, lp)) /\
    (forall g, pages s' g = if g =? page la then Some (mkPage (Z.lor (seg_perms (p_flags ph)) lp) true)
                            else pages s g) /\
    (forall x, bytes s' x =
       if (seg_addr ph <=? x) && (x <? seg_addr ph + p_filesz ph) && (page x =? page la)
       then fbyte (p_offset ph + (x - seg_addr ph)) else bytes s x).
Proof.
  intros Hk Hr Hsk (Ha & Hend & Hm & Hf & Ho & Hoe & Hcong) Hl Hpg Hna Hp.
  unfold seg_last in Hend. set (a := seg_addr ph) in *.
  pose proof (page_bounds a) as Hab. pose proof (page_bounds (p_offset ph)) as Hob.
  destruct (shared_page_steps s (4096 * page a) a (p_offset ph) (p_filesz ph) (seg_perms (p_flags ph)) lp
    (page_up a, saturating_sub (p_memsz ph) 4096, saturating_sub (p_filesz ph) 4096, page_up (p_offset ph)))
    as (s' & E & Hp' & Hb'); try done || lia.
  { by rewrite <- Hpg. }
  assert (usize_wrap a = a) as Ea by (apply wrap_small; lia).
  assert (map_phdr base_addr (la, lp) ph s =
    (if 0 <? saturating_sub (p_filesz ph) 4096 then panics Todo else mret (la, lp)) s') as ->.
  { unfold map_phdr. change (base_addr + p_paddr ph) with a. rewrite Ea.
    rewrite (page_down_spec a), (page_down_spec la), Hpg, Z.leb_refl by lia.
    erewrite stm_bind_ok; [|exact E].
    cbv beta iota. destruct (0 <? saturating_sub (p_filesz ph) 4096); [|done].
    rewrite (land_4095 (p_offset ph)), <- Hcong. unfold page_up, usize_wrap.
    rewrite wrap_small, page_down_spec, land_4095, page_down_page by lia.
    destruct (Z.eqb_spec (4096 * page (a + 4095) - 4096 * page (a + 4095)) (a - 4096 * page a)); [lia|done]. }
  unfold saturating_sub. destruct (Z.ltb_spec 4096 (p_filesz ph)), (Z.ltb_spec 0 (Z.max 0 (p_filesz ph - 4096))); try lia.
  - done.
  - exists s'. rewrite Hpg. done.
Qed.
End Segments.
End Loader.

(** ** Concrete inputs *)

Definition sample_file : list Z := replicate 5000 7.
Definition accept (_ _ _ : Z) : bool := true.
Definition full_read (pos n : Z) : option Z :=
  Some (if pos <? eof sample_file then Z.min n (eof sample_file - pos) else 0).
Definition reserved : aspace := mkSpace (fun _ => 0) (fun _ => Some rw_page).
(** Code in the first page, data from the second page on with a large zero part. *)
Definition text : ElfPhdr := mkPhdr 0 200 100 0 5.
Definition data : ElfPhdr := mkPhdr 4112 9000 50 4112 6.
(** Code that consists of zeros only. *)
Definition zero_text : ElfPhdr := mkPhdr 16384 100 0 0 5.
(** Data that begins in the page of the code. *)
Definition near_data : ElfPhdr := mkPhdr 0x900 300 100 0x900 6.

Lemma full_read_honest : read_honest sample_file full_read.
Proof.
  intros pos n Hp Hn. unfold full_read. destruct (Z.ltb_spec pos (eof sample_file)); [|done].
  eexists. split; [done|]. lia.
Qed.

Ltac seg_ok_sample := unfold seg_ok, seg_last, seg_addr, page; cbn [p_paddr p_memsz p_filesz p_offset];
  split_and!; try lia; by vm_compute.

Lemma read_offset_spec_witness :
  exists s', read_offset sample_file (fun _ => true) full_read 4112 65536 100 reserved = Ret (s', Ok tt) /\
    file_bytes_at sample_file reserved s' 65536 100 4112.
Proof.
  apply (read_offset_spec sample_file (fun _ => true) full_read reserved 4112 65536 100 full_read_honest);
    [lia|lia|]. intros g _. reflexivity.
Defined.

Lemma map_phdrs_correct_witness :
  exists s', map_phdrs sample_file accept accept (fun _ => true) full_read 2 1 65536 [text; data; zero_text] reserved
               = Ret (s', Ok 65536) /\ seg_loaded sample_file 2 1 65536 s' text /\ seg_loaded sample_file 2 1 65536 s' data /\
    seg_pages 65536 s' zero_text PROT_RW.
Proof.
  destruct (map_phdrs_correct sample_file accept accept (fun _ => true) full_read 2 1 65536 reserved [text; data; zero_text])
    as (s' & E & Hl & Hz & _); [by split|by vm_compute| | | |exists s'; split_and!; [exact E|apply Hl|apply Hl|apply Hz]].
  - do 3 (constructor; [seg_ok_sample|]). constructor.
  - repeat constructor.
  - do 3 (constructor; [by intros g _|]). constructor.
  - by left.
  - done.
  - by right; left.
  - done.
  - by do 2 right; left.
  - done.
Defined.

Lemma map_phdr_shared_page_witness :
  exists s', map_phdr sample_file accept accept (fun _ => true) full_read 2 1 65536 (65735, 5) near_data
               (mkSpace (fun _ => 0) (fun _ => Some (mkPage 5 true))) = Ret (s', Ok (65735, 5)) /\
    pages s' 16 = Some (mkPage 7 true) /\ write_exec 7 = true.
Proof.
  destruct (map_phdr_shared_page sample_file accept accept (fun _ => true) full_read 2 1 65536
    (mkSpace (fun _ => 0) (fun _ => Some (mkPage 5 true))) 65735 5 near_data) as (s' & E & Hp & _).
  - by split.
  - exact full_read_honest.
  - reflexivity.
  - seg_ok_sample.
  - lia.
  - by vm_compute.
  - by vm_compute.
  - reflexivity.
  - exists s'. split; [exact E|]. split; [exact (Hp 16)|by vm_compute].
Defined.
