(* ===== verification/Ldso.v ===== *)
(** * Finding modules (wl-ld-lilium/src/ldso.rs, helpers.rs, loader.rs)

    The loader looks for a module in a list of directories that it builds once, from
    an environment variable and a configuration file that may include others, by name
    or by pattern.  Files are opened below a system root.  The file system is a
    parameter: what [openat] answers for a directory and a path, and what the
    descriptor then yields.  The state has the three [OnceLock]s and the descriptors
    that are open. *)

From Stdlib Require Import ZArith Lia Ascii String.
From stdpp Require Import base numbers option strings.
From S2P Require Import Prelude.
From S2P Require Import Errors.
From S2P Require Import Loader.
From S2P Require Import OnceLock.
From S2P Require Import Bytes.
From S2P Require Import BufReader.
From stdpp Require Import list.

Local Open Scope list_scope.
Local Open Scope Z_scope.

(** The bytes of a literal. *)
Definition lit (s : string) : list Z := (fun c => Z.of_nat (nat_of_ascii c)) <$> String.list_ascii_of_string s.

(** [resolver::lookup_soname]: [todo!()]. *)
Definition lookup_soname (libname : list Z) (udata : Z) : outcome unit := Panic Todo.

Definition AT_FDCWD : Z := -100.
Definition SLASH : Z := 47.
(** The byte after each entry of a search list. *)
Definition RS : Z := 0x1E.

(** An open file: its descriptor, what [read] returns on it in order, what
    [getdents64] returns on it in order. *)
Record file_obj : Type := mkObj {
  o_fd : Z;
  o_input : list (result (list Z) errno);
  o_dents : list (result (list Z) errno) }.

(** [SYSROOT_FD], the two search lists, and the open descriptors. *)
Record ld_state : Type := mkLd {
  sysroot : once Z;
  host_list : once (list Z);
  lilium_list : once (list Z);
  open_fds : list Z }.

Inductive SearchType : Type := Host | Winter.

Abbreviation ld := (stm ld_state errno).

Definition set_sysroot (o : once Z) (s : ld_state) : ld_state :=
  mkLd o (host_list s) (lilium_list s) (open_fds s).
Definition set_fds (l : list Z) (s : ld_state) : ld_state :=
  mkLd (sysroot s) (host_list s) (lilium_list s) l.
Definition search_list (search : SearchType) (s : ld_state) : once (list Z) :=
  match search with Host => host_list s | Winter => lilium_list s end.
Definition set_list (search : SearchType) (o : once (list Z)) (s : ld_state) : ld_state :=
  match search with
  | Host => mkLd (sysroot s) o (lilium_list s) (open_fds s)
  | Winter => mkLd (sysroot s) (host_list s) o (open_fds s)
  end.

(** [OnceLock::get_or_try_init] with an initialiser that has effects, on the lock at
    [get]/[put].  A held lock spins forever; no call here leaves one held. *)
Definition get_or_try_init {A} (get : ld_state -> once A) (put : once A -> ld_state -> ld_state)
    (f : ld A) : ld A := fun s =>
  let o := get s in
  if runs_closure o then
    '(s', r) ← f (put (mkOnce (Z.lor (lock o) LOCK) (val o)) s);
    match r with
    | Ok v =>
      match try_get_or_init o (Continue v) with
      | Some (o', _) => Ret (put o' s', Ok v)
      | None => Panic Explicit
      end
    | Err e =>
      match try_get_or_init o Break with
      | Some (o', _) => Ret (put o' s', Err e)
      | None => Panic Explicit
      end
    end
  else
    match try_get_or_init o Break with
    | Some (o', Got v) => Ret (put o' s, Ok v)
    | Some (_, Unwound p) => Panic p
    | _ => Panic Explicit
    end.

Section Ldso.
Context (environ : option (list (option (list Z)))).
(** [openat], [open] of the system root, [close] and [lseek] to the start. *)
Context (fs : Z -> list Z -> result file_obj errno).
Context (open_root : list Z -> result Z errno).
Context (close_res : Z -> result unit errno) (lseek_res : Z -> result Z errno).

Definition sys_openat (at_fd : Z) (path : list Z) : ld file_obj := fun s =>
  match fs at_fd path with
  | Ok o => Ret (set_fds (o_fd o :: open_fds s) s, Ok o)
  | Err e => Ret (s, Err e)
  end.
Fixpoint remove_fd (fd : Z) (l : list Z) : list Z :=
  match l with
  | [] => []
  | x :: r => if x =? fd then r else x :: remove_fd fd r
  end.
Definition sys_close (fd : Z) : ld unit := fun s =>
  Ret (set_fds (remove_fd fd (open_fds s)) s, close_res fd).

(** [LoaderImpl::close_hdl] of [FdLoader]: the handle is a descriptor as a pointer, and
    the result of the call is dropped; [LoaderImpl::write_str] writes to [STDERR]. *)
Definition close_hdl (hdl : Z) : ld unit := fun s =>
  '(s, _) ← sys_close (as_i32 hdl) s; Ret (s, Ok tt).
Definition FdLoader_write_str (st : list Z) (writes : list (result nat errno)) : outcome (list Z * result unit unit) :=
  write_str st writes.

Definition sys_open_root (path : list Z) : ld Z := fun s =>
  match open_root path with
  | Ok fd => Ret (set_fds (fd :: open_fds s) s, Ok fd)
  | Err e => Ret (s, Err e)
  end.

(** The initialiser of [SYSROOT_FD]. *)
Definition init_sysroot : ld Z :=
  v ← lift (get_cenv environ (lit "WL_SYSROOT"));
  sys_open_root (default [SLASH] v).

(** [open_sysroot_rdonly]: the path goes through a buffer of 256 bytes. *)
Definition open_sysroot_rdonly (at_fd : Z) (st : list Z) : ld file_obj :=
  '(path, _) ← lift (copy_to_slice_head (replicate 256 0) st);
  path ← lift (store path (length st) 0);
  b ← lift (index path 0);
  if b =? SLASH then
    root ← get_or_try_init sysroot set_sysroot init_sysroot;
    c ← lift (as_slice (drop 1 path));
    sys_openat root c
  else
    c ← lift (as_slice path);
    sys_openat at_fd c.

(** ** Patterns *)

(** The entries of one [getdents64] buffer: [d_reclen] at offset 16, [d_name] at 19.
    [f] is called on the names that match; its state is [buf]. *)
Fixpoint dents_loop (fuel : nat) (b : list Z) (n : nat) (prefix suffix : list Z)
    (f : list Z -> list Z -> ld (list Z)) (buf : list Z) : ld (list Z) :=
  if decide (n < length b)%nat then
    match fuel with
    | O => panics Explicit   (** a record of length 0: the loop does not end *)
    | S k =>
      let rlen := Z.to_nat (le_value (take 2 (drop (n + 16) b))) in
      name ← lift (as_slice (drop (n + 19) b));
      if has_prefix name prefix && has_suffix name suffix then
        buf ← f name buf; dents_loop k b (n + rlen) prefix suffix f buf
      else dents_loop k b (n + rlen) prefix suffix f buf
    end
  else mret buf.

Fixpoint glob_loop (dents : list (result (list Z) errno)) (prefix suffix : list Z)
    (f : list Z -> list Z -> ld (list Z)) (buf : list Z) : ld (list Z) :=
  match dents with
  | [] => mret buf
  | Err e :: _ => throw e
  | Ok [] :: _ => mret buf
  | Ok b :: r =>
    buf ← dents_loop (length b) b 0 prefix suffix f buf;
    glob_loop r prefix suffix f buf
  end.

(** [expand_glob]; the callback gets the descriptor of the directory and a name. *)
Definition expand_glob (path : list Z) (f : Z -> list Z -> list Z -> ld (list Z)) (buf : list Z) : ld (list Z) :=
  let '(prefix, suffix) := split_once 42 path in
  let '(dir, prefix) := rsplit_once SLASH prefix in
  o ← open_sysroot_rdonly AT_FDCWD dir;
  res ← attempt (glob_loop (o_dents o) prefix suffix (f (o_fd o)) buf);
  _ ← attempt (sys_close (o_fd o));
  ret_result res.

(** ** Configuration files *)

(** [str::trim_ascii], [str::strip_prefix]. *)
Definition is_space (b : Z) : bool := bool_decide (b ∈ [32; 9; 10; 12; 13]).
Fixpoint trim_start (l : list Z) : list Z :=
  match l with
  | [] => []
  | b :: r => if is_space b then trim_start r else l
  end.
Definition trim_ascii (l : list Z) : list Z := rev (trim_start (rev (trim_start l))).
Definition strip_prefix (p l : list Z) : option (list Z) :=
  if bool_decide (take (length p) l = p) then Some (drop (length p) l) else None.

(** [buf.resize(pos + len + 1, 0x1E)] and the copy of the entry over its head. *)
Definition push_entry (buf st : list Z) : outcome (list Z) :=
  let pos := length buf in
  let buf := buf ++ replicate (length st + 1) RS in
  tail ← slice_from buf pos;
  '(tail, _) ← copy_to_slice_head tail st;
  Ret (take pos buf ++ tail).

(** The [loop] of [read_config_file], with the reader, the line buffer and the
    search list; the fuel bounds the lines and the depth of inclusion together. *)
Fixpoint read_config_loop (fuel : nat) (fd : Z) (file : reader) (v buf : list Z) : ld (list Z) :=
  match fuel with
  | O => panics Explicit
  | S k =>
    let include o buf := read_config_loop k (o_fd o) (reader_new (o_input o)) (replicate 256 0) buf in
    '(file, v, line) ← lift (read_line_static file v);
    match line with
    | Err e => throw e
    | Ok None => _ ← sys_close fd; mret buf
    | Ok (Some str) =>
      let st := trim_ascii (split_once 35 str).1 in
      match st with
      | [] => read_config_loop k fd file v buf
      | _ =>
        match strip_prefix (lit "include ") st with
        | Some path =>
          r ← attempt (open_sysroot_rdonly AT_FDCWD path);
          match r with
          | Ok o => buf ← include o buf; read_config_loop k fd file v buf
          | Err e =>
            match split_find path 42 with
            | Some _ =>
              buf ← expand_glob path (fun dirfd name buf =>
                o ← open_sysroot_rdonly dirfd name; include o buf) buf;
              read_config_loop k fd file v buf
            | None => throw e
            end
          end
        | None => buf ← lift (push_entry buf st); read_config_loop k fd file v buf
        end
      end
    end
  end.
Definition read_config_file (fuel : nat) (o : file_obj) (buf : list Z) : ld (list Z) :=
  read_config_loop fuel (o_fd o) (reader_new (o_input o)) (replicate 256 0) buf.

(** [init_cache_slow]. *)
Fixpoint push_entries (buf : list Z) (vs : list (list Z)) : outcome (list Z) :=
  match vs with
  | [] => Ret buf
  | v :: r => buf ← push_entry buf v; push_entries buf r
  end.
Definition init_cache_slow (fuel : nat) (env_name config_path : list Z) : ld (list Z) :=
  var ← lift (get_env environ env_name);
  let dirs := match var with Some v => split_collect (S (length v)) 58 v | None => [] end in
  buf ← lift (push_entries [] dirs);
  r ← attempt (open_sysroot_rdonly AT_FDCWD config_path);
  match r with
  | Ok o => read_config_file fuel o buf
  | Err _ => mret buf
  end.

(** ** Modules *)

(** Fields of the ELF header, defined by ld-so-impl: class from the 16 bytes of
    [e_ident], machine from the whole header; and the host's values. *)
Context (ei_class e_machine : list Z -> Z) (HEADER_SIZE : nat) (EI_CLASS EM_HOST : Z).

(** The environment variable and the default configuration file of a search. *)
Definition list_var (search : SearchType) : list Z :=
  match search with Host => lit "LD_LIBRARY_PATH_WL_HOST" | Winter => lit "LD_LIBRARY_PATH_WL_LILIUM" end.
Definition conf_var (search : SearchType) : list Z :=
  match search with Host => lit "WL_NATIVE_LD_SO_CONF" | Winter => lit "WL_SYSROOT_LD_SO_CONF" end.
Definition conf_default (search : SearchType) : list Z :=
  match search with Host => lit "/etc/ld.so.conf" | Winter => lit "/etc/ld-lilium.so.conf" end.

(** The part of the loop body that builds the file name in the buffer: the buffer and
    the name. *)
Definition build_name (buf p name : list Z) : outcome (list Z * list Z) :=
  '(b, _) ← copy_to_slice_head buf p;
  b ← store b (length p) SLASH;
  '(tail, rest) ← copy_to_slice_head (drop (length p + 1) b) name;
  let b := take (length p + 1) b ++ tail in
  match rest with
  | [] => Panic Explicit
  | _ =>
    let len := (length b - length rest)%nat in
    b ← store b len 0;
    Ret (b, take len b)
  end.

(** The reads of the header on an opened file: whether it is a module for the host. *)
Definition check_header (o : file_obj) : outcome bool :=
  '(rd, ident, r) ← read_exact (reader_new (o_input o)) (replicate 16 0);
  match r with
  | Err _ => Ret false
  | Ok _ =>
    if negb (ei_class ident =? EI_CLASS) then Ret false else
    '(rd, rest, r) ← read_exact rd (replicate (HEADER_SIZE - 16) 0);
    match r with
    | Err _ => Ret false
    | Ok _ => Ret (e_machine (ident ++ rest) =? EM_HOST)
    end
  end.

Fixpoint search_dirs (buf : list Z) (dirs : list (list Z)) (name : list Z) : ld Z :=
  match dirs with
  | [] => throw ENOENT
  | p :: r =>
    '(buf, fname) ← lift (build_name buf p name);
    fd ← attempt (open_sysroot_rdonly AT_FDCWD fname);
    match fd with
    | Ok o =>
      ok ← lift (check_header o);
      if (ok : bool) then
        match lseek_res (o_fd o) with Ok _ => mret (o_fd o) | Err e => throw e end
      else search_dirs buf r name
    | Err ENOENT | Err EACCES => search_dirs buf r name
    | Err e => throw e
    end
  end.

(** [open_module]. *)
Definition open_module (fuel : nat) (search : SearchType) (name : list Z) : ld Z :=
  path ← get_or_try_init (search_list search) (set_list search)
    (conf ← lift (get_env environ (conf_var search));
     init_cache_slow fuel (list_var search) (default (conf_default search) conf));
  search_dirs (replicate 4096 0) (split_collect (S (length path)) RS path) name.

(** [FdLoader::find]: the default subsystems count as loaded in a guest search. *)
Definition default_sonames : list (list Z) :=
  lit <$> ["libusi-base.so"; "libusi-thread.so"; "libusi-io.so"; "libusi-process.so"; "libusi-debug.so";
           "libusi-kmgmt.so"]%string.
Definition find (fuel : nat) (search : SearchType) (soname : list Z) : stm ld_state Loader.Error Z := fun s =>
  match search with
  | Winter => if bool_decide (soname ∈ default_sonames) then Ret (s, Err Loader.AssumePresent)
              else '(s, r) ← open_module fuel search soname s; Ret (s, map_err (fun _ => Loader.ObjectNotFound) r)
  | Host => '(s, r) ← open_module fuel search soname s; Ret (s, map_err (fun _ => Loader.ObjectNotFound) r)
  end.

(** [load_subsystem], up to the handle that is passed to the resolver: an override
    from the environment, by path or by name, or the library of the subsystem.  A
    module that is not found ends the process ([resolve_error]). *)
Definition unwrap_or_resolve_error {E} (r : result Z E) : outcome Z :=
  match r with Ok fd => Ret fd | Err _ => Panic Explicit end.
Definition subsystem_handle (fuel : nat) (name : list Z) (s : ld_state) : outcome (ld_state * Z) :=
  '(soname, next) ← copy_to_slice_head (replicate 96 0) (lit "libusi-");
  '(_, next) ← copy_to_slice_head next name;
  _ ← copy_to_slice_head next (lit ".so");
  '(head, next) ← copy_to_slice_head (replicate 96 0) (lit "WL_SUBSYS_");
  '(tail, rest) ← copy_to_slice_head next name;
  let var_name := take (length (lit "WL_SUBSYS_")) head ++ tail in
  let env_name := take (96 - length rest) var_name in
  var ← get_env environ env_name;
  match var with
  | Some v =>
    if bool_decide (SLASH ∈ v) then
      '(s, r) ← open_sysroot_rdonly AT_FDCWD v s;
      fd ← unwrap_or_resolve_error (match r with Ok o => Ok (o_fd o) | Err e => Err e end); Ret (s, fd)
    else
      cv ← get_cenv environ env_name;
      override ← expect cv;
      '(s, r) ← find fuel Host override s;
      fd ← unwrap_or_resolve_error r; Ret (s, fd)
  | None =>
    '(var_name, next) ← copy_to_slice_head var_name (lit "libwl-usi-");
    '(tail, next) ← copy_to_slice_head next name;
    let var_name := take (length (lit "libwl-usi-")) var_name ++ tail in
    '(tail, _) ← copy_to_slice_head next (lit ".so");
    let var_name := take (length (lit "libwl-usi-") + length name) var_name ++ tail in
    match memchr 0 var_name with
    | None => Panic Explicit
    | Some n =>
      '(s, r) ← find fuel Host (take n var_name) s;
      fd ← unwrap_or_resolve_error r; Ret (s, fd)
    end
  end.

(** ** Paths *)

Definition path_ok (p : list Z) : Prop := (length p < 256)%nat /\ without 0 p.

Lemma copy_zeros n p :
  (length p < n)%nat ->
  exists junk, copy_to_slice_head (replicate n 0) p = Ret (p ++ 0 :: junk, 0 :: junk).
Proof.
  intros H. unfold copy_to_slice_head. rewrite length_replicate, decide_False by lia.
  unfold overwrite. rewrite take_0. cbn [app Nat.add]. rewrite drop_replicate.
  replace (n - length p)%nat with (S (n - length p - 1)) by lia. by eexists.
Qed.

(** What a path names, once the system root is open. *)
Definition lookup_file (root at_fd : Z) (st : list Z) : result file_obj errno :=
  match st with
  | c :: r => if c =? SLASH then fs root r else fs at_fd st
  | [] => fs at_fd []
  end.

Definition sysroot_ready (root : Z) (s : ld_state) : Prop := sysroot s = mkOnce INIT (Some root).

Definition opened (s : ld_state) (x : result file_obj errno) : ld_state :=
  match x with Ok o => set_fds (o_fd o :: open_fds s) s | Err _ => s end.

Lemma sys_openat_eq at_fd p s : sys_openat at_fd p s = Ret (opened s (fs at_fd p), fs at_fd p).
Proof. unfold sys_openat. by destruct (fs at_fd p). Qed.

(** The path buffer holds the string. *)
Lemma open_sysroot_path at_fd st s :
  path_ok st ->
  open_sysroot_rdonly at_fd st s =
    match st with
    | c :: r => if c =? SLASH then
                  (root ← get_or_try_init sysroot set_sysroot init_sysroot; sys_openat root r) s
                else sys_openat at_fd st s
    | [] => sys_openat at_fd [] s
    end.
Proof.
  intros [Hl H0]. unfold open_sysroot_rdonly. destruct (copy_zeros 256 st Hl) as (junk & E).
  rewrite (stm_bind_ok _ _ _ _ _ (lift_ret _ s _ E)).
  assert (store (st ++ 0 :: junk) (length st) 0 = Ret (st ++ 0 :: junk)) as E1.
  { rewrite store_ok by (rewrite length_app; simpl; lia). f_equal. apply list_insert_id.
    rewrite lookup_app_r, Nat.sub_diag by lia. done. }
  rewrite (stm_bind_ok _ _ _ _ _ (lift_ret _ s _ E1)).
  destruct st as [|c r].
  - erewrite stm_bind_ok by reflexivity. cbn [Z.eqb SLASH]. by erewrite stm_bind_ok by reflexivity.
  - erewrite stm_bind_ok by reflexivity. apply Forall_cons_1 in H0 as [Hc H0]. destruct (c =? SLASH).
    + cbn [app drop skipn]. unfold mbind at 1, stm_bind at 1. unfold mbind at 2, stm_bind at 2.
      destruct (get_or_try_init sysroot set_sysroot init_sysroot s) as [[s' [v|e]]|]; [|done|done].
      by rewrite (stm_bind_ok _ _ _ _ _ (lift_ret _ s' _ (as_slice_ok r junk H0))).
    + by rewrite (stm_bind_ok _ _ _ _ _ (lift_ret _ s _ (as_slice_ok (c :: r) junk (Forall_cons_2 _ _ _ Hc H0)))).
Qed.

Lemma open_sysroot_ready root at_fd st s :
  sysroot_ready root s -> path_ok st ->
  open_sysroot_rdonly at_fd st s =
    Ret (opened s (lookup_file root at_fd st), lookup_file root at_fd st).
Proof.
  intros Hr Hp. rewrite open_sysroot_path by done. unfold lookup_file.
  destruct st as [|c r]; [by rewrite sys_openat_eq|]. destruct (c =? SLASH); [|by rewrite sys_openat_eq].
  assert (get_or_try_init sysroot set_sysroot init_sysroot s = Ret (s, Ok root)) as E.
  { unfold sysroot_ready in Hr. destruct s. simpl in Hr. by subst. }
  by rewrite (stm_bind_ok _ _ _ _ _ E), sys_openat_eq.
Qed.

(** ** Entries *)

(** The bytes of a search list. *)
Definition entries (es : list (list Z)) : list Z := es ≫= fun e => e ++ [RS].

Lemma push_entry_ok b st : push_entry b st = Ret (b ++ st ++ [RS]).
Proof.
  unfold push_entry. rewrite slice_from_ok by (rewrite length_app; lia). cbn [mbind outcome_bind].
  rewrite drop_app_length, take_app_length. unfold copy_to_slice_head.
  rewrite length_replicate, decide_False by lia. cbn [mbind outcome_bind]. unfold overwrite. do 2 f_equal.
  rewrite take_0. cbn [app]. f_equal. rewrite drop_replicate. by replace (length st + 1 - (0 + length st))%nat with 1%nat by lia.
Qed.

Lemma push_entries_ok b vs : push_entries b vs = Ret (b ++ entries vs).
Proof.
  revert b. induction vs as [|v vs IH]; intros b; simpl; [by rewrite app_nil_r|].
  rewrite push_entry_ok. cbn [mbind outcome_bind]. rewrite IH. f_equal. unfold entries. simpl. by rewrite <- !app_assoc.
Qed.

Lemma entries_app a b : entries (a ++ b) = entries a ++ entries b.
Proof. unfold entries. apply bind_app. Qed.

(** Reading the list back gives the entries. *)
Lemma split_entries es :
  Forall (without RS) es -> split_collect (S (length (entries es))) RS (entries es) = es.
Proof.
  intros Hes. assert (forall fuel, (length (entries es) < fuel)%nat -> split_collect fuel RS (entries es) = es) as H;
    [|apply H; lia].
  induction Hes as [|e es He _ IH]; intros fuel Hf; (destruct fuel as [|fuel]; [lia|]); [done|].
  unfold entries in *. cbn [mbind list_bind] in *. rewrite <- app_assoc in *. cbn [app] in *. cbn [split_collect].
  rewrite split_next_sep by done. f_equal. apply IH. rewrite length_app in Hf. simpl in Hf. lia.
Qed.

(** ** File names and headers *)

Lemma build_name_ok b p name :
  length b = 4096%nat -> (length p + 1 + length name < 4096)%nat ->
  exists b', build_name b p name = Ret (b', p ++ SLASH :: name) /\ length b' = 4096%nat.
Proof.
  intros Hb Hl. unfold build_name. unfold copy_to_slice_head. rewrite (decide_False (P := (length b < length p)%nat)) by lia. cbn [mbind outcome_bind].
  set (b1 := overwrite b 0 p). assert (length b1 = 4096%nat) as H1 by (unfold b1; rewrite length_overwrite; lia).
  rewrite store_ok by lia. cbn [mbind outcome_bind].
  set (b2 := <[length p := SLASH]> b1). assert (length b2 = 4096%nat) as H2 by (unfold b2; by rewrite length_insert).
  rewrite decide_False by (rewrite length_drop; lia). cbn [mbind outcome_bind].
  assert (take (length p + 1) b2 = p ++ [SLASH]) as Ht.
  { unfold b2. rewrite Nat.add_1_r. rewrite (take_S_r _ _ SLASH) by (apply list_lookup_insert_eq; lia).
    rewrite take_insert_ge by lia. unfold b1, overwrite. rewrite take_0. cbn [app]. by rewrite take_app_length. }
  rewrite Ht. unfold overwrite. rewrite take_0. cbn [app Nat.add].
  destruct (drop (length name) (drop (length p + 1) b2)) as [|x rest] eqn:Er.
  { apply (f_equal length) in Er. rewrite !length_drop, H2 in Er. simpl in Er. lia. }
  assert (length (x :: rest) = 4096 - (length p + 1 + length name))%nat as Hr
    by (rewrite <- Er, !length_drop, H2; lia).
  set (c := (p ++ [SLASH]) ++ name ++ x :: rest).
  assert (length c = 4096%nat) as Hc by (unfold c; rewrite !length_app; cbn [length] in *; lia).
  rewrite Hc, Hr. replace (4096 - (4096 - (length p + 1 + length name)))%nat with (length p + 1 + length name)%nat by lia.
  rewrite store_ok by lia. cbn [mbind outcome_bind]. eexists. split; [|rewrite length_insert; exact Hc]. do 2 f_equal.
  rewrite take_insert_ge by lia. unfold c. rewrite app_assoc.
  rewrite (take_app_length' ((p ++ [SLASH]) ++ name)) by (rewrite !length_app; simpl; lia). by rewrite <- app_assoc.
Qed.

(** The bytes of a file whose reads succeed or are interrupted. *)
Definition file_bytes (o : file_obj) : list Z := o_input o ≫= chunk_bytes.
Definition readable (o : file_obj) : Prop := Forall (chunk_ok true) (o_input o).

(** A file is a module for the host: long enough for a header, of its class and for
    its machine. *)
Definition is_module (o : file_obj) : bool :=
  bool_decide (HEADER_SIZE <= length (file_bytes o))%nat &&
  (ei_class (take 16 (file_bytes o)) =? EI_CLASS) && (e_machine (take HEADER_SIZE (file_bytes o)) =? EM_HOST).

Lemma read_exact_zeros r n :
  reader_ok true r ->
  exists r', reader_ok true r' /\
    if decide (n <= length (stream r))%nat then
      read_exact r (replicate n 0) = Ret (r', take n (stream r), Ok tt) /\ stream r' = drop n (stream r)
    else exists d, read_exact r (replicate n 0) = Ret (r', d, Err ENODATA) /\ stream r' = [].
Proof.
  intros Hr. unfold read_exact. rewrite length_replicate.
  destruct (read_exact_ok (n + length (input r) + 2) r (replicate n 0) 0) as (r' & Hr' & H);
    [done|rewrite length_replicate; lia|rewrite length_replicate; lia|]. rewrite length_replicate, Nat.sub_0_r in H.
  exists r'. split; [done|]. case_decide; [|done]. destruct H as [H Hs]. split; [|done]. rewrite H. do 3 f_equal.
  unfold overwrite. rewrite take_0, drop_replicate, length_take. cbn [app].
  replace (n - (0 + Nat.min n (length (stream r))))%nat with 0%nat by lia. by rewrite app_nil_r.
Qed.

Lemma check_header_ok o : (16 <= HEADER_SIZE)%nat -> readable o -> check_header o = Ret (is_module o).
Proof.
  intros Hh Ho. unfold check_header, is_module.
  assert (stream (reader_new (o_input o)) = file_bytes o) as Hs0 by done.
  destruct (read_exact_zeros (reader_new (o_input o)) 16) as (r1 & Hr1 & H1); [by apply reader_new_ok|].
  rewrite Hs0 in H1. case_decide as Hl.
  2: { destruct H1 as (d & -> & _). cbn [mbind outcome_bind]. by rewrite bool_decide_eq_false_2 by lia. }
  destruct H1 as [-> Hs1]. cbn [mbind outcome_bind].
  destruct (ei_class (take 16 (file_bytes o)) =? EI_CLASS); cbn [negb]; [|by rewrite andb_false_r].
  destruct (read_exact_zeros r1 (HEADER_SIZE - 16) Hr1) as (r2 & _ & H2).
  rewrite Hs1, length_drop in H2. case_decide as Hl2.
  - destruct H2 as [-> _]. cbn [mbind outcome_bind]. f_equal.
    rewrite bool_decide_eq_true_2 by lia. cbn [andb]. do 3 f_equal. rewrite take_take_drop. f_equal. lia.
  - destruct H2 as (d & -> & _). cbn [mbind outcome_bind]. by rewrite bool_decide_eq_false_2 by lia.
Qed.

(** ** The search *)

(** The search of the directories in order: the result, and the descriptors it opens,
    the last one first. *)
Fixpoint first_module (root : Z) (dirs : list (list Z)) (name : list Z) : list Z * result Z errno :=
  match dirs with
  | [] => ([], Err ENOENT)
  | d :: r =>
    match lookup_file root AT_FDCWD (d ++ SLASH :: name) with
    | Ok o =>
      if is_module o then
        ([o_fd o], match lseek_res (o_fd o) with Ok _ => Ok (o_fd o) | Err e => Err e end)
      else let '(l, x) := first_module root r name in (l ++ [o_fd o], x)
    | Err ENOENT | Err EACCES => first_module root r name
    | Err e => ([], Err e)
    end
  end.

(** The file names of a search fit the path buffer, and what they name can be read. *)
Definition dir_ok (root : Z) (name d : list Z) : Prop :=
  path_ok (d ++ SLASH :: name) /\ forall o, lookup_file root AT_FDCWD (d ++ SLASH :: name) = Ok o -> readable o.

Lemma search_dirs_ok root dirs name b s :
  (16 <= HEADER_SIZE)%nat -> sysroot_ready root s -> length b = 4096%nat -> Forall (dir_ok root name) dirs ->
  search_dirs b dirs name s =
    let '(l, x) := first_module root dirs name in Ret (set_fds (l ++ open_fds s) s, x).
Proof.
  intros Hh Hr Hb Hd. revert b s Hb Hr. induction Hd as [|d dirs [Hp Ho] _ IH]; intros b s Hb Hr.
  { cbn. by destruct s. }
  cbn [search_dirs first_module]. pose proof Hp as [Hl _]. rewrite length_app in Hl. cbn [length] in Hl.
  destruct (build_name_ok b d name) as (b' & E & Hb'); [done|lia|].
  rewrite (stm_bind_ok _ _ _ _ _ (lift_ret _ s _ E)). cbv beta iota.
  rewrite (stm_bind_ok _ _ _ _ _ (attempt_ret _ _ _ _ (open_sysroot_ready root AT_FDCWD _ s Hr Hp))).
  destruct (lookup_file root AT_FDCWD (d ++ SLASH :: name)) as [o|e].
  - rewrite (stm_bind_ok _ _ _ _ _ (lift_ret _ _ _ (check_header_ok o Hh (Ho o eq_refl)))). cbn [opened]. destruct (is_module o).
    + destruct (lseek_res (o_fd o)); done.
    + rewrite IH by done. destruct (first_module root dirs name) as [l x]. cbn [open_fds set_fds].
      by rewrite <- app_assoc.
  - cbn [opened]. destruct e; try (by destruct s); by apply IH.
Qed.

(** ** Directory listings *)

(** A directory entry as the kernel lays it out: 16 bytes, the record length, the
    type, the name with its NUL, padding. *)
Record dirent : Type := mkDirent { d_head : list Z; d_type : Z; d_name : list Z; d_pad : list Z }.
Definition d_reclen (d : dirent) : nat := (20 + length (d_name d) + length (d_pad d))%nat.
Definition dirent_bytes (d : dirent) : list Z :=
  d_head d ++ le_bytes 2 (Z.of_nat (d_reclen d)) ++ d_type d :: d_name d ++ 0 :: d_pad d.
Definition dirent_ok (d : dirent) : Prop :=
  length (d_head d) = 16%nat /\ without 0 (d_name d) /\ Z.of_nat (d_reclen d) < 2 ^ 16.

Definition matches (prefix suffix : list Z) (d : dirent) : bool :=
  has_prefix (d_name d) prefix && has_suffix (d_name d) suffix.

(** Calling [f] on the names in order. *)
Fixpoint each_name (f : list Z -> list Z -> ld (list Z)) (names : list (list Z)) (b : list Z) : ld (list Z) :=
  match names with
  | [] => mret b
  | n :: r => b ← f n b; each_name f r b
  end.

Lemma each_name_app f xs ys b s :
  each_name f (xs ++ ys) b s = (b ← each_name f xs b; each_name f ys b) s.
Proof.
  revert b s. induction xs as [|x xs IH]; intros b s; [done|]. cbn [app each_name].
  unfold mbind, stm_bind. destruct (f x b s) as [[s' [b'|e]]|]; [|done|done]. rewrite IH. done.
Qed.

Lemma length_dirent d : dirent_ok d -> length (dirent_bytes d) = d_reclen d.
Proof.
  intros (Hh & _). unfold dirent_bytes, d_reclen. rewrite !length_app, Hh, length_le_bytes. simpl.
  rewrite length_app. simpl. lia.
Qed.

Lemma dents_loop_ok f prefix suffix done_ ds fuel b s :
  Forall dirent_ok ds -> (length ds <= fuel)%nat ->
  dents_loop fuel (done_ ++ (ds ≫= dirent_bytes)) (length done_) prefix suffix f b s =
  each_name f (d_name <$> List.filter (matches prefix suffix) ds) b s.
Proof.
  intros Hds. revert done_ fuel b s. induction Hds as [|d ds Hd Hds IH]; intros done_ fuel b s Hf.
  { unfold dents_loop. simpl. rewrite app_nil_r. destruct fuel; by rewrite decide_False by lia. }
  destruct fuel as [|fuel]; [simpl in Hf; lia|]. simpl in Hf. pose proof (length_dirent d Hd) as Hlen.
  destruct Hd as (Hh & Hn & Hr). cbn [dents_loop mbind list_bind].
  rewrite decide_True by (rewrite !length_app, Hlen; unfold d_reclen; lia).
  assert (drop (length done_ + 19) (done_ ++ dirent_bytes d ++ (ds ≫= dirent_bytes)) =
          d_name d ++ 0 :: d_pad d ++ (ds ≫= dirent_bytes)) as E1.
  { rewrite <- drop_drop, drop_app_length. unfold dirent_bytes. rewrite <- !app_assoc.
    rewrite drop_app_ge by lia. rewrite Hh. change (19 - 16)%nat with 3%nat. cbn [app le_bytes drop skipn].
    by rewrite <- app_assoc. }
  assert (le_value (take 2 (drop (length done_ + 16) (done_ ++ dirent_bytes d ++ (ds ≫= dirent_bytes)))) =
          Z.of_nat (d_reclen d)) as E2.
  { rewrite <- drop_drop, drop_app_length. unfold dirent_bytes. rewrite <- !app_assoc.
    rewrite drop_app_ge, Hh, Nat.sub_diag, drop_0 by lia.
    rewrite take_app_length' by (by rewrite length_le_bytes). apply le_value_le_bytes. simpl in *. lia. }
  rewrite E1, E2, Nat2Z.id. rewrite (stm_bind_ok _ _ _ _ _ (lift_ret _ s _ (as_slice_ok _ _ Hn))).
  assert (forall b s, dents_loop fuel (done_ ++ dirent_bytes d ++ (ds ≫= dirent_bytes)) (length done_ + d_reclen d)
    prefix suffix f b s = each_name f (d_name <$> List.filter (matches prefix suffix) ds) b s) as Hnext.
  { intros b0 s0. rewrite app_assoc. rewrite <- Hlen, <- length_app. apply IH. lia. }
  cbn [List.filter]. unfold matches at 1. destruct (has_prefix (d_name d) prefix && has_suffix (d_name d) suffix).
  - cbn [fmap list_fmap each_name]. unfold mbind, stm_bind. destruct (f (d_name d) b s) as [[s' [b'|e]]|]; [|done|done].
    apply Hnext.
  - apply Hnext.
Qed.

(** A directory whose listing, in any number of batches, has the given entries. *)
Definition lists (o : file_obj) (ds : list dirent) : Prop :=
  exists batches, o_dents o = (Ok <$> ((fun b => b ≫= dirent_bytes) <$> batches)) ++ [Ok []] /\
    Forall (fun b => b <> []) batches /\ ds = mjoin batches /\ Forall dirent_ok ds.

Lemma glob_loop_ok o ds f prefix suffix b s :
  lists o ds ->
  glob_loop (o_dents o) prefix suffix f b s =
  each_name f (d_name <$> List.filter (matches prefix suffix) ds) b s.
Proof.
  intros (batches & -> & Hne & -> & Hok). revert b s. induction Hne as [|ds batches Hd _ IH]; intros b s; [done|].
  cbn [mjoin list_join] in Hok. apply Forall_app in Hok as [Hok1 Hok2].
  assert (length ds <= length (ds ≫= dirent_bytes))%nat as Hl.
  { clear -Hok1. induction Hok1 as [|d ds Hd _ IH]; [done|]. cbn [mbind list_bind length].
    rewrite length_app, length_dirent by done. unfold d_reclen. lia. }
  pose proof (dents_loop_ok f prefix suffix [] ds (length (ds ≫= dirent_bytes)) b s Hok1 Hl) as H.
  cbn [fmap list_fmap app glob_loop mjoin list_join].
  rewrite List.filter_app, fmap_app, each_name_app. destruct (ds ≫= dirent_bytes) as [|x r] eqn:E.
  { destruct ds; [done|simpl in Hl; lia]. }
  destruct (each_name f (d_name <$> List.filter (matches prefix suffix) ds) b s) as [[s' [b'|e]]|p] eqn:En.
  - rewrite (stm_bind_ok _ _ _ _ _ H), (stm_bind_ok _ _ _ _ _ En). by apply IH.
  - by rewrite (stm_bind_err _ _ _ _ _ H), (stm_bind_err _ _ _ _ _ En).
  - by rewrite (stm_bind_panic _ _ _ _ H), (stm_bind_panic _ _ _ _ En).
Qed.

(** ** What a configuration file means *)

Definition line_text (l : list Z) : list Z := trim_ascii (split_once 35 l).1.
Definition line_ok (l : list Z) : Prop := without NL l /\ (length l <= 256)%nat.
Definition unlines (ls : list (list Z)) : list Z := ls ≫= fun l => l ++ [NL].

(** A file as text: the lines that end with a newline, and what stands behind the last
    newline, a last line without one ([[]] when there is none). *)
Definition file_text (o : file_obj) (ls : list (list Z)) (last : list Z) : Prop :=
  Forall (chunk_ok false) (o_input o) /\ Forall line_ok ls /\ line_ok last /\ file_bytes o = unlines ls ++ last.

Section Config.
Context (root : Z).

(** [config ls es]: the lines list the directories [es], included files in place.  Of an
    included file only the lines that end with a newline count. *)
Inductive config : list (list Z) -> list (list Z) -> Prop :=
| config_nil : config [] []
| config_blank l ls es : line_text l = [] -> config ls es -> config (l :: ls) es
| config_dir l ls es :
    line_text l <> [] -> strip_prefix (lit "include ") (line_text l) = None ->
    without RS (line_text l) -> config ls es -> config (l :: ls) (line_text l :: es)
| config_include l ls es path o ls' last' es' :
    strip_prefix (lit "include ") (line_text l) = Some path -> path_ok path ->
    lookup_file root AT_FDCWD path = Ok o -> file_text o ls' last' -> config ls' es' -> config ls es ->
    config (l :: ls) (es' ++ es)
| config_glob l ls es dir prefix suffix e o ds es' :
    let path := (dir ++ SLASH :: prefix) ++ 42 :: suffix in
    strip_prefix (lit "include ") (line_text l) = Some path -> path_ok path ->
    lookup_file root AT_FDCWD path = Err e ->
    without 42 (dir ++ SLASH :: prefix) -> without SLASH prefix ->
    lookup_file root AT_FDCWD dir = Ok o -> lists o ds ->
    configs (o_fd o) (d_name <$> List.filter (matches prefix suffix) ds) es' -> config ls es ->
    config (l :: ls) (es' ++ es)
(** The files of a directory, in the order given. *)
with configs : Z -> list (list Z) -> list (list Z) -> Prop :=
| configs_nil dirfd : configs dirfd [] []
| configs_cons dirfd name names o ls last es es' :
    path_ok name -> lookup_file root dirfd name = Ok o -> file_text o ls last -> config ls es ->
    configs dirfd names es' -> configs dirfd (name :: names) (es ++ es').

Scheme config_rec2 := Minimality for config Sort Prop
  with configs_rec2 := Minimality for configs Sort Prop.
Combined Scheme config_mutind from config_rec2, configs_rec2.

Context (close_ok : forall fd, close_res fd = Ok tt).

Definition include (fuel : nat) (o : file_obj) (b : list Z) : ld (list Z) :=
  read_config_loop fuel (o_fd o) (reader_new (o_input o)) (replicate 256 0) b.

(** The loop on a reader at the first of the lines. *)
Definition reads_config (fuel : nat) (ls es : list (list Z)) : Prop :=
  forall fd file v b s tail, sysroot_ready root s -> reader_ok false file ->
    Forall line_ok ls -> line_ok tail -> stream file = unlines ls ++ tail -> length v = 256%nat ->
    read_config_loop fuel fd file v b s = Ret (set_fds (remove_fd fd (open_fds s)) s, Ok (b ++ entries es)).

Lemma read_line_next file v l rest :
  reader_ok false file -> line_ok l -> stream file = l ++ NL :: rest -> length v = 256%nat ->
  exists file' v', read_line_static file v = Ret (file', v', Ok (Some l)) /\ reader_ok false file' /\
    stream file' = rest /\ length v' = 256%nat.
Proof.
  intros Hr [Hn Hl] Hs Hv. unfold read_line_static.
  destruct (read_line_ok (length (input file) + 2) file v 0 l rest true) as (r' & Hr' & E & Hs');
    [done|done|done|lia|apply turns_start|].
  exists r', (overwrite v 0 l). rewrite E, take_0. split_and!; [done|done|done|]. rewrite length_overwrite; lia.
Qed.

Lemma read_line_end file v tail :
  reader_ok false file -> line_ok tail -> stream file = tail -> length v = 256%nat ->
  exists file' v', read_line_static file v = Ret (file', v', Ok None).
Proof.
  intros Hr [Hn Hl] Hs Hv. unfold read_line_static.
  destruct (read_line_ok (length (input file) + 2) file v 0 tail [] false) as (r' & Hr' & E & Hs');
    [done|done|by rewrite app_nil_r|lia|apply turns_start|]. eexists _, _. exact E.
Qed.

Lemma include_ok fuel o ls last es b s :
  reads_config fuel ls es -> file_text o ls last -> sysroot_ready root s ->
  include fuel o b (opened s (Ok o)) = Ret (s, Ok (b ++ entries es)).
Proof.
  intros Hc (Hin & Hls & Ht & Hb) Hs. unfold include.
  rewrite (Hc _ _ _ _ _ last); [|done|by apply reader_new_ok|done|done|exact Hb|by rewrite length_replicate].
  cbn [opened open_fds set_fds remove_fd]. rewrite Z.eqb_refl. by destruct s.
Qed.

(** One line of the file: the loop reads it and goes on as its text says. *)
Lemma read_config_line fuel fd file v b s l ls tail :
  reader_ok false file -> Forall line_ok (l :: ls) ->
  stream file = unlines (l :: ls) ++ tail -> length v = 256%nat ->
  exists file' v', reader_ok false file' /\ stream file' = unlines ls ++ tail /\ length v' = 256%nat /\
    read_config_loop (S fuel) fd file v b s =
      match line_text l with
      | [] => read_config_loop fuel fd file' v' b
      | _ =>
        match strip_prefix (lit "include ") (line_text l) with
        | Some path =>
          r ← attempt (open_sysroot_rdonly AT_FDCWD path);
          match r with
          | Ok o => b ← include fuel o b; read_config_loop fuel fd file' v' b
          | Err e =>
            match split_find path 42 with
            | Some _ =>
              b ← expand_glob path (fun dirfd name b =>
                o ← open_sysroot_rdonly dirfd name; include fuel o b) b;
              read_config_loop fuel fd file' v' b
            | None => throw e
            end
          end
        | None => b ← lift (push_entry b (line_text l)); read_config_loop fuel fd file' v' b
        end
      end s.
Proof.
  intros Hr Hls Hs Hv. apply Forall_cons_1 in Hls as [Hl _].
  destruct (read_line_next file v l (unlines ls ++ tail)) as (f' & v' & E & Hr' & Hs' & Hv'); [done|done| |done|].
  { rewrite Hs. unfold unlines. cbn [mbind list_bind]. by rewrite <- !app_assoc. }
  exists f', v'. split_and!; [done..|]. cbn [read_config_loop].
  rewrite (stm_bind_ok _ _ _ _ _ (lift_ret _ s _ E)). cbv beta iota. fold (line_text l).
  by destruct (line_text l).
Qed.

(** The files of a directory, read one after the other by the callback. *)
Definition reads_configs (fuel : nat) (dirfd : Z) (names es : list (list Z)) : Prop :=
  forall b s, sysroot_ready root s ->
    each_name (fun name b => o ← open_sysroot_rdonly dirfd name; include fuel o b) names b s =
    Ret (s, Ok (b ++ entries es)).

Lemma expand_glob_ok fuel dir prefix suffix o ds es b s :
  without 42 (dir ++ SLASH :: prefix) -> without SLASH prefix -> path_ok dir ->
  lookup_file root AT_FDCWD dir = Ok o -> lists o ds ->
  reads_configs fuel (o_fd o) (d_name <$> List.filter (matches prefix suffix) ds) es -> sysroot_ready root s ->
  expand_glob ((dir ++ SLASH :: prefix) ++ 42 :: suffix) (fun dirfd name b =>
    o ← open_sysroot_rdonly dirfd name; include fuel o b) b s = Ret (s, Ok (b ++ entries es)).
Proof.
  intros H42 Hsl Hp Hd Hds Hc Hs. unfold expand_glob. rewrite split_once_sep by done.
  rewrite (proj1 (rsplit_once_spec SLASH dir prefix Hsl)).
  pose proof (open_sysroot_ready root AT_FDCWD dir s Hs Hp) as Eo. rewrite Hd in Eo.
  rewrite (stm_bind_ok _ _ _ _ _ Eo).
  assert (sysroot_ready root (opened s (Ok o))) as Hs1 by done.
  pose proof (Hc b _ Hs1) as Ec. rewrite <- (glob_loop_ok o ds) in Ec by done.
  rewrite (stm_bind_ok _ _ _ _ _ (attempt_ret _ _ _ _ Ec)).
  erewrite stm_bind_ok by (apply attempt_ret; reflexivity). cbn. rewrite Z.eqb_refl. by destruct s.
Qed.

Lemma path_ok_prefix a b : path_ok (a ++ b) -> path_ok a.
Proof. intros [Hl H0]. rewrite length_app in Hl. apply Forall_app in H0 as [H0 _]. split; [lia|done]. Qed.

Lemma strip_prefix_nonempty p l r : p <> [] -> strip_prefix p l = Some r -> l <> [].
Proof. intros Hp H ->. unfold strip_prefix in H. rewrite take_nil in H. case_bool_decide; [by subst|done]. Qed.

(** Take one line with one unit of fuel. *)
Ltac next_line :=
  intros [|fuel] Hf; [lia|]; intros fd file v b s tail Hs Hr Hls Ht Hst Hv;
  match type of Hls with Forall _ (?l :: ?ls) =>
    destruct (read_config_line fuel fd file v b s l ls tail) as (f' & v' & Hr' & Hst' & Hv' & ->); [done..|]
  end;
  apply Forall_cons_1 in Hls as [_ Hls].

(** Enough fuel for the lines and the included files reads the whole tree. *)
Lemma config_ok :
  (forall ls es, config ls es -> exists n, forall fuel, (n <= fuel)%nat -> reads_config fuel ls es) /\
  (forall dirfd names es, configs dirfd names es ->
     exists n, forall fuel, (n <= fuel)%nat -> reads_configs fuel dirfd names es).
Proof.
  apply config_mutind.
  - exists 1%nat. intros [|fuel] Hf; [lia|]. intros fd file v b s tail Hs Hr _ Ht Hst Hv.
    destruct (read_line_end file v tail) as (f' & v' & E); [done..|].
    cbn [read_config_loop]. rewrite (stm_bind_ok _ _ _ _ _ (lift_ret _ s _ E)). cbv beta iota.
    rewrite (stm_bind_ok _ _ s _ tt) by (unfold sys_close; by rewrite close_ok).
    cbn [entries mbind list_bind]. by rewrite app_nil_r.
  - intros l ls es Hl _ [n IH]. exists (S n). next_line.
    rewrite Hl. by apply (IH fuel ltac:(lia) _ _ _ _ _ tail).
  - intros l ls es Hne Hinc _ _ [n IH]. exists (S n). next_line.
    rewrite Hinc. destruct (line_text l) as [|c t] eqn:El; [done|].
    rewrite (stm_bind_ok _ _ _ _ _ (lift_ret _ s _ (push_entry_ok b (c :: t)))).
    rewrite (IH fuel ltac:(lia) _ _ _ _ _ tail) by done. do 3 f_equal. rewrite <- app_assoc.
    f_equal.
  - intros l ls es path o ls' last' es' Hinc Hp Ho Hfl _ [n IH] _ [m IH']. exists (S (Nat.max n m)). next_line.
    assert (line_text l <> []) as Hne by (eapply (strip_prefix_nonempty (lit "include ")); [discriminate|exact Hinc]).
    rewrite Hinc. destruct (line_text l) as [|c t]; [done|].
    rewrite (stm_bind_ok _ _ _ _ _ (attempt_ret _ _ _ _ (open_sysroot_ready root AT_FDCWD path s Hs Hp))).
    rewrite Ho. rewrite (stm_bind_ok _ _ _ _ _ (include_ok fuel o ls' last' es' b s (IH fuel ltac:(lia)) Hfl Hs)).
    rewrite (IH' fuel ltac:(lia) _ _ _ _ _ tail) by done. by rewrite entries_app, app_assoc.
  - intros l ls es dir prefix suffix e o ds es' path Hinc Hp He H42 Hsl Ho Hds _ [n IH] _ [m IH'].
    exists (S (Nat.max n m)). next_line.
    assert (line_text l <> []) as Hne by (eapply (strip_prefix_nonempty (lit "include ")); [discriminate|exact Hinc]).
    rewrite Hinc. destruct (line_text l) as [|c t]; [done|].
    rewrite (stm_bind_ok _ _ _ _ _ (attempt_ret _ _ _ _ (open_sysroot_ready root AT_FDCWD path s Hs Hp))).
    rewrite He. cbn [opened]. unfold path.
    rewrite (split_find_stop ((dir ++ SLASH :: prefix) ++ 42 :: suffix) 42 (dir ++ SLASH :: prefix) suffix) by done.
    rewrite (stm_bind_ok _ _ _ _ _ (expand_glob_ok fuel dir prefix suffix o ds es' b s H42 Hsl
      (path_ok_prefix dir _ (path_ok_prefix _ _ Hp)) Ho Hds (IH fuel ltac:(lia)) Hs)).
    rewrite (IH' fuel ltac:(lia) _ _ _ _ _ tail) by done. by rewrite entries_app, app_assoc.
  - exists 0%nat. intros fuel _ b s Hs. cbn [each_name entries mbind list_bind]. by rewrite app_nil_r.
  - intros dirfd name names o ls last es es' Hp Ho Hfl _ [n IH] _ [m IH']. exists (Nat.max n m). intros fuel Hf b s Hs.
    cbn [each_name].
    pose proof (open_sysroot_ready root dirfd name s Hs Hp) as Eo. rewrite Ho in Eo.
    erewrite stm_bind_ok; [|rewrite (stm_bind_ok _ _ _ _ _ Eo); by apply (include_ok fuel o ls last es b s (IH fuel ltac:(lia)))].
    rewrite (IH' fuel ltac:(lia)) by done. by rewrite entries_app, app_assoc.
Qed.

(** A further line that is a directory. *)
Lemma config_snoc ls es l :
  config ls es -> line_text l <> [] -> strip_prefix (lit "include ") (line_text l) = None -> without RS (line_text l) ->
  config (ls ++ [l]) (es ++ [line_text l]).
Proof.
  intros Hc Hne Hinc Hrs. induction Hc; cbn [app]; rewrite <- ?app_assoc.
  - apply config_dir; [done..|constructor].
  - by apply config_blank.
  - by apply config_dir.
  - by eapply config_include.
  - by eapply config_glob.
Qed.

(** C23: reading a configuration file appends the directories that its newline-terminated
    lines list, with included files, named or matched by a pattern, in the place of their
    line, and closes every file it opened; enough fuel always exists.  A last line without
    a newline is dropped, whatever it holds: the same text with a newline at its end also
    yields the directory on that line. *)
Theorem read_config_spec ls last es o b s :
  sysroot_ready root s -> config ls es -> file_text o ls last ->
  (exists n, forall fuel, (n <= fuel)%nat ->
    read_config_file fuel o b s = Ret (set_fds (remove_fd (o_fd o) (open_fds s)) s, Ok (b ++ entries es))) /\
  (forall o', Forall (chunk_ok false) (o_input o') -> file_bytes o' = file_bytes o ++ [NL] ->
     line_text last <> [] -> strip_prefix (lit "include ") (line_text last) = None -> without RS (line_text last) ->
     exists n, forall fuel, (n <= fuel)%nat ->
       read_config_file fuel o' b s =
       Ret (set_fds (remove_fd (o_fd o') (open_fds s)) s, Ok (b ++ entries (es ++ [line_text last])))).
Proof.
  intros Hs Hc (Hin & Hls & Ht & Hb). split.
  - destruct (proj1 config_ok ls es Hc) as [n Hn].
    exists n. intros fuel Hf. apply (Hn fuel Hf _ _ _ _ _ last); try done. by apply reader_new_ok.
  - intros o' Hin' Hb' Hne Hinc Hrs. destruct (proj1 config_ok _ _ (config_snoc _ _ _ Hc Hne Hinc Hrs)) as [n Hn].
    exists n. intros fuel Hf. apply (Hn fuel Hf _ _ _ _ _ []); try done.
    + by apply reader_new_ok.
    + by apply Forall_app_2; [|constructor].
    + split; [constructor|cbn; lia].
    + change (file_bytes o' = unlines (ls ++ [last]) ++ []). rewrite Hb', Hb, app_nil_r. unfold unlines.
      rewrite bind_app. cbn [mbind list_bind]. by rewrite app_nil_r, <- app_assoc.
Qed.

(** ** Modules *)

(** The directories of the environment variable and of the configuration file. *)
Definition env_dirs (search : SearchType) (ds : list (list Z)) : Prop :=
  exists var, get_env environ (list_var search) = Ret var /\
    ds = match var with Some v => split_collect (S (length v)) 58 v | None => [] end /\ Forall (without RS) ds.
Definition conf_dirs (search : SearchType) (es : list (list Z)) : Prop :=
  exists c, get_env environ (conf_var search) = Ret c /\
    let path := default (conf_default search) c in
    path_ok path /\
    match lookup_file root AT_FDCWD path with
    | Ok o => exists ls last, file_text o ls last /\ config ls es
    | Err _ => es = []
    end.

Lemma config_entries_ok ls es : config ls es -> Forall (without RS) es.
Proof.
  assert ((forall ls es, config ls es -> Forall (without RS) es) /\
          (forall dirfd names es, configs dirfd names es -> Forall (without RS) es)) as [H _]; [|by apply H].
  apply config_mutind; intros; try done; try (by apply Forall_app_2). by constructor.
Qed.

Lemma init_cache_ok search ds es s :
  sysroot_ready root s -> env_dirs search ds -> conf_dirs search es ->
  exists n, forall fuel, (n <= fuel)%nat ->
    (conf ← lift (get_env environ (conf_var search));
     init_cache_slow fuel (list_var search) (default (conf_default search) conf)) s =
    Ret (s, Ok (entries (ds ++ es))).
Proof.
  intros Hs (var & Ev & -> & Hds) (c & Ec & Hp & Hl). set (ds := match var with Some _ => _ | None => _ end) in *.
  pose proof (open_sysroot_ready root AT_FDCWD _ s Hs Hp) as Eo.
  assert (exists n, forall fuel, (n <= fuel)%nat ->
    match lookup_file root AT_FDCWD (default (conf_default search) c) with
    | Ok o => read_config_file fuel o (entries ds)
    | Err _ => mret (entries ds)
    end (opened s (lookup_file root AT_FDCWD (default (conf_default search) c))) =
    Ret (s, Ok (entries (ds ++ es)))) as [n Hn].
  { destruct (lookup_file root AT_FDCWD (default (conf_default search) c)) as [o|e].
    - destruct Hl as (ls & last & Hfl & Hc). destruct (proj1 config_ok ls es Hc) as [n Hn]. exists n. intros fuel Hf.
      rewrite entries_app. exact (include_ok fuel o ls last es (entries ds) s (Hn fuel Hf) Hfl Hs).
    - subst es. exists 0%nat. intros fuel _. by rewrite app_nil_r. }
  exists n. intros fuel Hf. rewrite (stm_bind_ok _ _ _ _ _ (lift_ret _ s _ Ec)). unfold init_cache_slow.
  rewrite (stm_bind_ok _ _ _ _ _ (lift_ret _ s _ Ev)). fold ds.
  rewrite (stm_bind_ok _ _ _ _ _ (lift_ret _ s _ (push_entries_ok [] ds))).
  rewrite (stm_bind_ok _ _ _ _ _ (attempt_ret _ _ _ _ Eo)). by apply Hn.
Qed.

Definition list_ready (search : SearchType) (ds : list (list Z)) (s : ld_state) : Prop :=
  search_list search s = mkOnce INIT (Some (entries ds)).

(** A search once the list is there. *)
Lemma open_module_ready fuel search ds name s :
  (16 <= HEADER_SIZE)%nat -> sysroot_ready root s -> list_ready search ds s ->
  Forall (without RS) ds -> Forall (dir_ok root name) ds ->
  open_module fuel search name s =
    let '(l, x) := first_module root ds name in Ret (set_fds (l ++ open_fds s) s, x).
Proof.
  intros Hh Hs Hl Hds Hdirs. unfold open_module.
  erewrite (stm_bind_ok _ _ s s (entries ds)).
  - rewrite split_entries by done. apply search_dirs_ok; done.
  - unfold get_or_try_init. rewrite Hl. unfold list_ready in Hl.
    destruct search, s; simpl in *; subst; reflexivity.
Qed.

(** A directory that the search passes over: it has no file of the name that could be
    opened, for one of the two errors that mean so, or one that is not a module. *)
Definition passed_over (name d : list Z) : Prop :=
  match lookup_file root AT_FDCWD (d ++ SLASH :: name) with
  | Ok o => is_module o = false
  | Err e => e = ENOENT \/ e = EACCES
  end.

Lemma first_module_passes pre rest name : Forall (passed_over name) pre ->
  (first_module root (pre ++ rest) name).2 = (first_module root rest name).2.
Proof.
  induction 1 as [|d pre Hd _ IH]; [done|]. cbn [app first_module]. unfold passed_over in Hd.
  destruct (lookup_file root AT_FDCWD (d ++ SLASH :: name)) as [o|e].
  - rewrite Hd. by destruct (first_module root (pre ++ rest) name).
  - by destruct Hd as [-> | ->].
Qed.

Lemma first_module_cases dirs name :
  (forall pre d post o, dirs = pre ++ d :: post -> Forall (passed_over name) pre ->
     lookup_file root AT_FDCWD (d ++ SLASH :: name) = Ok o -> is_module o = true ->
     (first_module root dirs name).2 = match lseek_res (o_fd o) with Ok _ => Ok (o_fd o) | Err e => Err e end) /\
  (forall pre d post e, dirs = pre ++ d :: post -> Forall (passed_over name) pre ->
     lookup_file root AT_FDCWD (d ++ SLASH :: name) = Err e -> e <> ENOENT -> e <> EACCES ->
     (first_module root dirs name).2 = Err e) /\
  (Forall (passed_over name) dirs -> (first_module root dirs name).2 = Err ENOENT).
Proof.
  split_and!.
  - intros pre d post o -> Hpre Ho Hm. rewrite first_module_passes by done. cbn [first_module]. by rewrite Ho, Hm.
  - intros pre d post e -> Hpre Ho H1 H2. rewrite first_module_passes by done. cbn [first_module]. rewrite Ho. by destruct e.
  - intros Hd. rewrite <- (app_nil_r dirs). by rewrite first_module_passes.
Qed.

(** C22: the first search of a kind builds its list of directories from the environment
    variable that [open_module] reads for it ([LD_LIBRARY_PATH_WL_HOST] or
    [LD_LIBRARY_PATH_WL_LILIUM]) and then from the configuration file, named by
    [WL_NATIVE_LD_SO_CONF] or [WL_SYSROOT_LD_SO_CONF] or else the default one.  It opens the
    module in the first directory that has a file of that name with a header of the host's
    class and machine, passing over directories where the file is missing, may not be opened
    or is no such module; any other error of an earlier directory ends the search with that
    error, and without a module the search fails with [ENOENT].  Every later search uses the
    same list.  The descriptors of the files that were opened and rejected stay open.  (The
    help text of the loader names two other variables, [LD_LIBRARY_PATH_WL_NATIVE] and
    [WL_LILIUM_LD_SO_CONF], which are not read.) *)
Theorem open_module_spec search ds es name s :
  (16 <= HEADER_SIZE)%nat -> sysroot_ready root s -> search_list search s = new ->
  env_dirs search ds -> conf_dirs search es -> Forall (dir_ok root name) (ds ++ es) ->
  exists n, forall fuel, (n <= fuel)%nat ->
    exists s' x, open_module fuel search name s = Ret (s', x) /\
      (forall pre d post o, ds ++ es = pre ++ d :: post -> Forall (passed_over name) pre ->
         lookup_file root AT_FDCWD (d ++ SLASH :: name) = Ok o -> is_module o = true ->
         x = match lseek_res (o_fd o) with Ok _ => Ok (o_fd o) | Err e => Err e end) /\
      (forall pre d post e, ds ++ es = pre ++ d :: post -> Forall (passed_over name) pre ->
         lookup_file root AT_FDCWD (d ++ SLASH :: name) = Err e -> e <> ENOENT -> e <> EACCES -> x = Err e) /\
      (Forall (passed_over name) (ds ++ es) -> x = Err ENOENT) /\
      x = (first_module root (ds ++ es) name).2 /\
      open_fds s' = (first_module root (ds ++ es) name).1 ++ open_fds s /\
      forall fuel' name', Forall (dir_ok root name') (ds ++ es) ->
        open_module fuel' search name' s' =
        let '(l, x) := first_module root (ds ++ es) name' in Ret (set_fds (l ++ open_fds s') s', x).
Proof.
  intros Hh Hs Hnew Hds Hes Hdirs.
  assert (Forall (without RS) (ds ++ es)) as Hrs.
  { destruct Hds as (_ & _ & _ & Hds). apply Forall_app_2; [done|]. destruct Hes as (c & _ & _ & Hl).
    destruct (lookup_file root AT_FDCWD _); [|by subst]. destruct Hl as (ls & last & _ & Hc). by eapply config_entries_ok. }
  set (s0 := set_list search (mkOnce (Z.lor (lock (@new (list Z))) LOCK) None) s).
  assert (sysroot_ready root s0) as Hs0 by (unfold s0; by destruct search).
  destruct (init_cache_ok search ds es s0 Hs0 Hds Hes) as [n Hn]. exists n. intros fuel Hf.
  set (s1 := set_list search (mkOnce INIT (Some (entries (ds ++ es)))) s0).
  assert (sysroot_ready root s1) as Hs1 by (unfold s1; by destruct search).
  assert (list_ready search (ds ++ es) s1) as Hl1 by (unfold s1; by destruct search).
  assert (open_fds s1 = open_fds s) as Hfd by (unfold s1, s0; by destruct search).
  assert (open_module fuel search name s = open_module fuel search name s1) as ->.
  { unfold open_module.
    erewrite (stm_bind_ok _ _ s s1 (entries (ds ++ es))).
    - erewrite (stm_bind_ok _ _ s1 s1 (entries (ds ++ es))); [done|]. unfold get_or_try_init. rewrite Hl1.
      unfold s1, s0. by destruct search.
    - unfold get_or_try_init. rewrite Hnew.
      change (set_list search (mkOnce (Z.lor (lock new) LOCK) (val new)) s) with s0.
      change (runs_closure new) with true. cbv iota. by rewrite (Hn fuel Hf). }
  rewrite (open_module_ready fuel search (ds ++ es)) by done.
  destruct (first_module_cases (ds ++ es) name) as (C1 & C2 & C3).
  destruct (first_module root (ds ++ es) name) as [l x]. cbn [fst snd] in *.
  eexists _, x. split_and!; [done|exact C1|exact C2|exact C3|done|simpl; by rewrite Hfd|].
  intros fuel' name' Hd'. apply open_module_ready; try done.
Qed.
End Config.

(** ** A missing system root *)

Definition poisoned_root (s : ld_state) : Prop := sysroot s = mkOnce POISONED None.

Lemma open_sysroot_fails v e at_fd st s :
  get_cenv environ (lit "WL_SYSROOT") = Ret v -> open_root (default [SLASH] v) = Err e ->
  sysroot s = new -> path_ok (SLASH :: st) ->
  open_sysroot_rdonly at_fd (SLASH :: st) s = Ret (set_sysroot (mkOnce POISONED None) s, Err e).
Proof.
  intros Ev Er Hs Hp. rewrite open_sysroot_path by done. rewrite Z.eqb_refl. apply stm_bind_err.
  unfold get_or_try_init, init_sysroot. rewrite Hs. change (runs_closure new) with true. cbv iota.
  erewrite stm_bind_ok by (apply lift_ret; exact Ev). unfold sys_open_root. rewrite Er. done.
Qed.

Lemma open_sysroot_poisoned at_fd st s :
  poisoned_root s -> path_ok (SLASH :: st) -> open_sysroot_rdonly at_fd (SLASH :: st) s = Panic Explicit.
Proof.
  intros Hs Hp. rewrite open_sysroot_path by done. rewrite Z.eqb_refl. apply stm_bind_panic.
  unfold get_or_try_init. rewrite Hs. done.
Qed.

(** When the system root cannot be opened, the first absolute path reports the
    error and leaves the lock poisoned, so that every later one panics.  A first
    search therefore panics instead of failing: the error of opening its
    configuration file is dropped, and the first absolute directory of the
    environment variable meets the poisoned lock. *)
Theorem sysroot_failure_is_fatal v e s :
  get_cenv environ (lit "WL_SYSROOT") = Ret v -> open_root (default [SLASH] v) = Err e -> sysroot s = new ->
  (forall at_fd st, path_ok (SLASH :: st) -> exists s1,
     open_sysroot_rdonly at_fd (SLASH :: st) s = Ret (s1, Err e) /\
     forall at' st' s2, sysroot s2 = sysroot s1 -> path_ok (SLASH :: st') ->
       open_sysroot_rdonly at' (SLASH :: st') s2 = Panic Explicit) /\
  (forall fuel search name conf c d ds dirs, search_list search s = new ->
     get_env environ (conf_var search) = Ret c -> default (conf_default search) c = SLASH :: conf ->
     path_ok (SLASH :: conf) ->
     get_env environ (list_var search) = Ret (Some dirs) ->
     split_collect (S (length dirs)) 58 dirs = (SLASH :: d) :: ds -> Forall (without RS) ((SLASH :: d) :: ds) ->
     path_ok ((SLASH :: d) ++ SLASH :: name) ->
     open_module fuel search name s = Panic Explicit).
Proof.
  intros Ev Er Hs. split.
  - intros at_fd st Hp. eexists. split; [by apply (open_sysroot_fails v e)|].
    intros at' st' s2 Hs2 Hp2. by apply open_sysroot_poisoned.
  - intros fuel search name conf c d ds dirs Hl Ec Econf Hp Ed Eds Hrs Hn. unfold open_module.
    set (s0 := set_list search (mkOnce LOCK None) s).
    assert (sysroot s0 = new) as Hs0 by (unfold s0; by destruct search).
    set (s1 := set_list search (mkOnce INIT (Some (entries ((SLASH :: d) :: ds)))) (set_sysroot (mkOnce POISONED None) s0)).
    erewrite (stm_bind_ok _ _ s s1 (entries ((SLASH :: d) :: ds))).
    + rewrite split_entries by done. cbn [search_dirs]. pose proof Hn as [Hlen _]. rewrite length_app in Hlen. cbn [length] in Hlen.
      destruct (build_name_ok (replicate 4096 0) (SLASH :: d) name) as (b & E & _); [done|cbn [length]; lia|].
      rewrite (stm_bind_ok _ _ _ _ _ (lift_ret _ s1 _ E)). cbv beta iota. apply stm_bind_panic. unfold attempt.
      cbn [app]. rewrite open_sysroot_poisoned; [done| |exact Hn]. unfold poisoned_root, s1. by destruct search.
    + unfold get_or_try_init. rewrite Hl. change (runs_closure new) with true. cbv iota.
      change (mkOnce (Z.lor (lock new) LOCK) (val new)) with (@mkOnce (list Z) LOCK None). fold s0.
      rewrite (stm_bind_ok _ _ _ _ _ (lift_ret _ s0 _ Ec)). unfold init_cache_slow.
      rewrite (stm_bind_ok _ _ _ _ _ (lift_ret _ s0 _ Ed)). rewrite Eds.
      rewrite (stm_bind_ok _ _ _ _ _ (lift_ret _ s0 _ (push_entries_ok [] _))). rewrite Econf.
      rewrite (stm_bind_ok _ _ _ _ _ (attempt_ret _ _ _ _ (open_sysroot_fails v e AT_FDCWD conf s0 Ev Er Hs0 Hp))).
      done.
Qed.

(** ** Subsystem libraries *)

Lemma copy_head b src : (length src <= length b)%nat ->
  copy_to_slice_head b src = Ret (src ++ drop (length src) b, drop (length src) b).
Proof. intros H. unfold copy_to_slice_head. rewrite decide_False by lia. done. Qed.

(** Without an override a subsystem is the host library [libwl-usi-<name>.so]; an
    override with a slash is a path, any other one the name of a library. *)
Theorem subsystem_handle_spec fuel name s var :
  without 0 name -> (length name < 83)%nat ->
  get_env environ (lit "WL_SUBSYS_" ++ name) = Ret var ->
  get_cenv environ (lit "WL_SUBSYS_" ++ name) = Ret var ->
  subsystem_handle fuel name s =
    '(s', fd) ← match var with
      | None => '(s, r) ← find fuel Host (lit "libwl-usi-" ++ name ++ lit ".so") s;
                Ret (s, match r with Ok fd => Some fd | Err _ => None end)
      | Some v =>
        if bool_decide (SLASH ∈ v) then
          '(s, r) ← open_sysroot_rdonly AT_FDCWD v s; Ret (s, match r with Ok o => Some (o_fd o) | Err _ => None end)
        else '(s, r) ← find fuel Host v s; Ret (s, match r with Ok fd => Some fd | Err _ => None end)
      end;
    fd ← expect fd; Ret (s', fd).
Proof.
  intros H0 Hl Ev Ec. unfold subsystem_handle.
  change (length (lit "libusi-")) with 7%nat in *.
  rewrite (copy_head (replicate 96 0) (lit "libusi-")) by (rewrite length_replicate; cbn; lia).
  cbn [mbind outcome_bind]. rewrite !drop_replicate. change (96 - length (lit "libusi-"))%nat with 89%nat.
  rewrite (copy_head (replicate 89 0) name) by (rewrite length_replicate; lia). cbn [mbind outcome_bind].
  rewrite !drop_replicate. rewrite (copy_head (replicate (89 - length name) 0)) by (rewrite length_replicate; cbn; lia).
  cbn [mbind outcome_bind].
  rewrite (copy_head (replicate 96 0) (lit "WL_SUBSYS_")) by (rewrite length_replicate; cbn; lia).
  cbn [mbind outcome_bind]. rewrite !drop_replicate. change (96 - length (lit "WL_SUBSYS_"))%nat with 86%nat.
  rewrite (copy_head (replicate 86 0) name) by (rewrite length_replicate; lia). cbn [mbind outcome_bind].
  rewrite !drop_replicate, length_replicate, take_app_length.
  assert (take (96 - (86 - length name)) (lit "WL_SUBSYS_" ++ name ++ replicate (86 - length name) 0) =
          lit "WL_SUBSYS_" ++ name) as ->.
  { rewrite app_assoc. apply take_app_length'. rewrite length_app. change (length (lit "WL_SUBSYS_")) with 10%nat. lia. }
  rewrite Ev. cbn [mbind outcome_bind]. destruct var as [v|].
  - destruct (bool_decide (SLASH ∈ v)).
    + unfold mbind, outcome_bind. destruct (open_sysroot_rdonly AT_FDCWD v s) as [[s' [o|e]]|]; done.
    + rewrite Ec. cbn [mbind outcome_bind expect].
      unfold mbind, outcome_bind. destruct (find fuel Host v s) as [[s' [o|e]]|]; done.
  - rewrite copy_head by (rewrite !length_app, length_replicate; cbn; lia). cbn [mbind outcome_bind].
    change (length (lit "libwl-usi-")) with (length (lit "WL_SUBSYS_")). rewrite drop_app_length.
    rewrite copy_head by (rewrite !length_app; lia). cbn [mbind outcome_bind]. rewrite drop_app_length.
    rewrite copy_head by (rewrite length_replicate; cbn; lia). cbn [mbind outcome_bind].
    change (length (lit "WL_SUBSYS_")) with (length (lit "libwl-usi-")). rewrite take_app_length.
    assert (take (length (lit "libwl-usi-") + length name)
              (lit "libwl-usi-" ++ name ++ replicate (86 - length name) 0) = lit "libwl-usi-" ++ name) as ->.
    { rewrite app_assoc. apply take_app_length'. by rewrite length_app. }
    rewrite drop_replicate. change (length (lit ".so")) with 3%nat.
    replace (86 - length name - 3)%nat with (S (82 - length name)) by lia. cbn [replicate].
    unfold memchr. rewrite (app_assoc _ (lit ".so")).
    rewrite find_index_app_stop; [|apply Forall_app_2; [apply Forall_app_2|]|done].
    + rewrite take_app_length, <- app_assoc. unfold mbind, outcome_bind.
      destruct (find fuel Host (lit "libwl-usi-" ++ name ++ lit ".so") s) as [[s' [o|e]]|]; done.
    + repeat constructor.
    + eapply Forall_impl; [exact H0|]. intros x Hx. by rewrite Z.eqb_sym.
    + repeat constructor.
Qed.
End Ldso.

(** ** Variables that are documented and not read *)

(** The help text of the loader: the variable with directories for native libraries, and
    the one that names the configuration file of a guest search. *)
Definition documented_var (search : SearchType) : list Z :=
  match search with Host => lit "LD_LIBRARY_PATH_WL_NATIVE" | Winter => lit "WL_LILIUM_LD_SO_CONF" end.

(** A search depends on the environment through three variables. *)
Lemma open_module_env e1 e2 fs open_root close_res lseek_res ei_class e_machine hs c em fuel search name :
  get_cenv e1 (lit "WL_SYSROOT") = get_cenv e2 (lit "WL_SYSROOT") ->
  get_env e1 (list_var search) = get_env e2 (list_var search) ->
  get_env e1 (conf_var search) = get_env e2 (conf_var search) ->
  open_module e1 fs open_root close_res lseek_res ei_class e_machine hs c em fuel search name =
  open_module e2 fs open_root close_res lseek_res ei_class e_machine hs c em fuel search name.
Proof.
  intros H1 H2 H3.
  assert (Ho : open_sysroot_rdonly e1 fs open_root = open_sysroot_rdonly e2 fs open_root)
    by (unfold open_sysroot_rdonly, init_sysroot; by rewrite H1).
  assert (Hg : expand_glob e1 fs open_root close_res = expand_glob e2 fs open_root close_res)
    by (unfold expand_glob; by rewrite Ho).
  assert (Hr : read_config_loop e1 fs open_root close_res = read_config_loop e2 fs open_root close_res)
    by (unfold read_config_loop; by rewrite Ho, Hg).
  assert (Hs : search_dirs e1 fs open_root lseek_res ei_class e_machine hs c em =
               search_dirs e2 fs open_root lseek_res ei_class e_machine hs c em)
    by (unfold search_dirs; by rewrite Ho).
  unfold open_module, init_cache_slow, read_config_file. by rewrite H2, H3, Hs, Hr, Ho.
Qed.

Lemma first_value_other var doc v ss1 ss2 :
  s_name doc = v -> v <> var -> first_value var (ss1 ++ doc :: ss2) = first_value var (ss1 ++ ss2).
Proof.
  intros <- Hne. unfold first_value. f_equal. induction ss1 as [|x ss1 IH]; cbn [app List.find].
  - by rewrite bool_decide_eq_false_2.
  - by rewrite IH.
Qed.

(** The variables that the help text documents for the directories of native libraries
    ([LD_LIBRARY_PATH_WL_NATIVE]) and for the configuration file of Lilium libraries
    ([WL_LILIUM_LD_SO_CONF]) have no effect: a setting of either, anywhere in the
    environment, leaves the search of that kind as it is without it. *)
Theorem documented_names_unread fs open_root close_res lseek_res ei_class e_machine hs c em fuel search name ss1 ss2 doc junk :
  Forall setting_ok (ss1 ++ doc :: ss2) -> s_name doc = documented_var search ->
  open_module (environ_of (ss1 ++ doc :: ss2) junk) fs open_root close_res lseek_res ei_class e_machine hs c em fuel search name =
  open_module (environ_of (ss1 ++ ss2) junk) fs open_root close_res lseek_res ei_class e_machine hs c em fuel search name.
Proof.
  intros Hss Hdoc. assert (Hss' : Forall setting_ok (ss1 ++ ss2)).
  { apply Forall_app in Hss as [H1 H2]. apply Forall_cons_1 in H2 as [_ H2]. by apply Forall_app_2. }
  assert (Hv : forall var, documented_var search <> var ->
    get_env (environ_of (ss1 ++ doc :: ss2) junk) var = get_env (environ_of (ss1 ++ ss2) junk) var /\
    get_cenv (environ_of (ss1 ++ doc :: ss2) junk) var = get_cenv (environ_of (ss1 ++ ss2) junk) var).
  { intros var Hne. destruct (env_lookup_spec _ junk var Hss) as [-> ->], (env_lookup_spec _ junk var Hss') as [-> ->].
    by rewrite (first_value_other var doc _ ss1 ss2 Hdoc Hne). }
  apply open_module_env; apply Hv; by destruct search.
Qed.


(** ** Concrete inputs *)

(** A configuration file that includes the [.conf] files of a directory, one of which
    lists a directory; the module is in the second directory of the list. *)
Definition main_conf : list (list Z) := [lit "include conf.d/*.conf"; lit "/lib # default"].
Definition a_conf : list (list Z) := [lit "/opt/lib"; lit ""].
Definition sample_dents : list dirent :=
  [mkDirent (replicate 16 0) 8 (lit "readme") [0]; mkDirent (replicate 16 0) 8 (lit "a.conf") [0; 0]].
Definition sample_header : list Z := [127; 69; 76; 70; 2] ++ replicate 13 0 ++ [62] ++ replicate 45 0.

Definition obj_main : file_obj := mkObj 10 [Ok (unlines main_conf)] [].
Definition obj_dir : file_obj := mkObj 11 [] [Ok (sample_dents ≫= dirent_bytes); Ok []].
Definition obj_a : file_obj := mkObj 12 [Ok (unlines a_conf)] [].
Definition obj_mod : file_obj := mkObj 13 [Ok sample_header] [].

Definition sample_fs (at_fd : Z) (path : list Z) : result file_obj errno :=
  if bool_decide ((at_fd, path) = (3, lit "etc/ld.so.conf")) then Ok obj_main
  else if bool_decide ((at_fd, path) = (AT_FDCWD, lit "conf.d")) then Ok obj_dir
  else if bool_decide ((at_fd, path) = (11, lit "a.conf")) then Ok obj_a
  else if bool_decide ((at_fd, path) = (3, lit "lib/m.so")) then Ok obj_mod
  else Err ENOENT.
Definition sample_state (root : once Z) : ld_state := mkLd root new new [3].
Definition ready_state : ld_state := sample_state (mkOnce INIT (Some 3)).
Definition close_fine (_ : Z) : result unit errno := Ok tt.
Definition class_byte (l : list Z) : Z := default 0 (l !! 4%nat).
Definition machine_byte (l : list Z) : Z := default 0 (l !! 18%nat).

Definition without_b (x : Z) (l : list Z) : bool := forallb (fun b => negb (b =? x)) l.
Lemma without_computed x l : without_b x l = true -> without x l.
Proof.
  intros H. induction l as [|b l IH]; [constructor|]. apply andb_true_iff in H as [Hb Hl].
  constructor; [by apply negb_true_iff|by apply IH].
Qed.

Ltac computed := first [by apply without_computed; vm_compute | by vm_compute | lia].
Ltac path_sample := split; [by apply Nat.ltb_lt; vm_compute|by apply without_computed; vm_compute].
Ltac line_sample := split; [by apply without_computed; vm_compute|by apply Nat.leb_le; vm_compute].

Lemma obj_lines (o : file_obj) (ls : list (list Z)) :
  o_input o = [Ok (unlines ls)] -> (1 <= length (unlines ls) <= 128)%nat -> Forall line_ok ls -> file_text o ls [].
Proof.
  intros E Hl Hls. split_and!; [|done|split; [constructor|simpl; lia]|].
  - rewrite E. constructor; [done|constructor].
  - unfold file_bytes. rewrite E. done.
Qed.

Lemma main_lines : file_text obj_main main_conf [].
Proof.
  apply obj_lines; [done|split; by apply Nat.leb_le; vm_compute|]. repeat (constructor; [line_sample|]). constructor.
Qed.
Lemma a_lines : file_text obj_a a_conf [].
Proof.
  apply obj_lines; [done|split; by apply Nat.leb_le; vm_compute|]. repeat (constructor; [line_sample|]). constructor.
Qed.
Lemma dir_lists : lists obj_dir sample_dents.
Proof.
  exists [sample_dents]. split_and!; [done|by repeat constructor|done|].
  repeat (constructor; [split_and!; computed|]). constructor.
Qed.

Lemma a_config : config sample_fs 3 a_conf [lit "/opt/lib"].
Proof.
  apply (config_dir sample_fs 3 (lit "/opt/lib")); [done|done|computed|].
  apply config_blank; [done|]. apply config_nil.
Qed.
Lemma main_config : config sample_fs 3 main_conf [lit "/opt/lib"; lit "/lib"].
Proof.
  apply (config_glob sample_fs 3 _ [lit "/lib # default"] [lit "/lib"] (lit "conf.d") [] (lit ".conf") ENOENT obj_dir
    sample_dents [lit "/opt/lib"]); [done|path_sample|done|computed|constructor|done|apply dir_lists| |].
  - apply (configs_cons sample_fs 3 11 (lit "a.conf") [] obj_a a_conf [] [lit "/opt/lib"] []);
      [path_sample|done|apply a_lines|apply a_config|constructor].
  - apply (config_dir sample_fs 3 (lit "/lib # default")); [done|done|computed|apply config_nil].
Qed.

(** The main file followed by a line without a newline, and the same with one. *)
Definition obj_cut : file_obj := mkObj 10 [Ok (unlines main_conf ++ lit "/srv/lib")] [].
Definition obj_whole : file_obj := mkObj 10 [Ok (unlines main_conf ++ lit "/srv/lib" ++ [NL])] [].

Lemma cut_text : file_text obj_cut main_conf (lit "/srv/lib").
Proof.
  split_and!; [|apply main_lines|line_sample|done].
  constructor; [|constructor]. split; by apply Nat.leb_le; vm_compute.
Qed.

Lemma read_config_spec_witness :
  (exists n, forall fuel, (n <= fuel)%nat ->
    read_config_file None sample_fs (fun _ => Err ENOENT) close_fine fuel obj_cut [] (set_fds [10; 3] ready_state) =
    Ret (ready_state, Ok (entries [lit "/opt/lib"; lit "/lib"]))) /\
  (exists n, forall fuel, (n <= fuel)%nat ->
    read_config_file None sample_fs (fun _ => Err ENOENT) close_fine fuel obj_whole [] (set_fds [10; 3] ready_state) =
    Ret (ready_state, Ok (entries [lit "/opt/lib"; lit "/lib"; lit "/srv/lib"]))).
Proof.
  destruct (read_config_spec None sample_fs (fun _ => Err ENOENT) close_fine 3 (fun _ => eq_refl) main_conf (lit "/srv/lib")
    [lit "/opt/lib"; lit "/lib"] obj_cut [] (set_fds [10; 3] ready_state) eq_refl main_config cut_text) as [H1 H2].
  split; [exact H1|]. apply (H2 obj_whole); [|done|done|done|computed].
  constructor; [|constructor]. split; by apply Nat.leb_le; vm_compute.
Defined.

Lemma sample_dir_ok d : d ∈ [lit "/opt/lib"; lit "/lib"] -> dir_ok sample_fs 3 (lit "m.so") d.
Proof.
  intros Hd. rewrite !elem_of_cons in Hd. destruct Hd as [-> | [-> |Hd]]; [| |by apply elem_of_nil in Hd].
  - split; [path_sample|]. intros o Ho. by vm_compute in Ho.
  - split; [path_sample|]. intros o Ho. assert (o = obj_mod) as -> by (vm_compute in Ho; by injection Ho as <-).
    constructor; [|constructor]. split; by apply Nat.leb_le; vm_compute.
Qed.

Lemma open_module_spec_witness :
  exists n, forall fuel, (n <= fuel)%nat ->
    exists s', open_module None sample_fs (fun _ => Err ENOENT) close_fine (fun _ => Ok 0) class_byte machine_byte
                 64 2 62 fuel Host (lit "m.so") ready_state = Ret (s', Ok 13) /\ open_fds s' = [13; 3].
Proof.
  destruct (open_module_spec None sample_fs (fun _ => Err ENOENT) close_fine (fun _ => Ok 0) class_byte machine_byte
    64 2 62 3 (fun _ => eq_refl) Host [] [lit "/opt/lib"; lit "/lib"] (lit "m.so") ready_state) as [n Hn].
  - lia.
  - reflexivity.
  - reflexivity.
  - exists None. by split_and!.
  - exists None. split; [done|]. split; [path_sample|]. exists main_conf, []. split; [apply main_lines|apply main_config].
  - apply Forall_forall. intros d Hd. by apply sample_dir_ok.
  - exists n. intros fuel Hf. destruct (Hn fuel Hf) as (s' & x & E & _ & _ & _ & -> & Hfd & _). exists s'. split; [exact E|exact Hfd].
Defined.

(** [LD_LIBRARY_PATH_WL_HOST=/lib] and no system root. *)
Definition sample_environ : option (list (option (list Z))) :=
  Some [Some (lit "LD_LIBRARY_PATH_WL_HOST=/lib" ++ [0]); None].

Lemma sysroot_failure_is_fatal_witness :
  open_module sample_environ sample_fs (fun _ => Err ENOENT) close_fine (fun _ => Ok 0) class_byte machine_byte
    64 2 62 5 Host (lit "m.so") (sample_state new) = Panic Explicit.
Proof.
  refine (proj2 (sysroot_failure_is_fatal sample_environ sample_fs (fun _ => Err ENOENT) close_fine (fun _ => Ok 0)
    class_byte machine_byte 64 2 62 None ENOENT (sample_state new) _ _ _)
    5%nat Host (lit "m.so") (lit "etc/ld.so.conf") None (lit "lib") [] (lit "/lib") _ _ _ _ _ _ _ _).
  - by vm_compute.
  - reflexivity.
  - reflexivity.
  - reflexivity.
  - by vm_compute.
  - by vm_compute.
  - path_sample.
  - by vm_compute.
  - by vm_compute.
  - constructor; [computed|constructor].
  - path_sample.
Defined.

Lemma documented_names_unread_witness :
  open_module (environ_of [mkSetting (lit "LD_LIBRARY_PATH_WL_NATIVE") (lit "/lib") []] []) sample_fs (fun _ => Err ENOENT) close_fine
    (fun _ => Ok 0) class_byte machine_byte 64 2 62 9 Host (lit "m.so") =
  open_module (environ_of [] []) sample_fs (fun _ => Err ENOENT) close_fine
    (fun _ => Ok 0) class_byte machine_byte 64 2 62 9 Host (lit "m.so").
Proof.
  apply (documented_names_unread sample_fs (fun _ => Err ENOENT) close_fine (fun _ => Ok 0) class_byte machine_byte 64 2 62 9 Host
    (lit "m.so") [] [] (mkSetting (lit "LD_LIBRARY_PATH_WL_NATIVE") (lit "/lib") []) []); [|reflexivity].
  constructor; [|constructor]. split_and!; [computed|computed|computed|by vm_compute].
Defined.
