(* ===== verification/Asm.v ===== *)
(** * x86-64 as far as the assembly of the sources uses it

    The loader and wl-impl contain routines written in assembly.  Their instructions
    are data here, in the order of the source and with its numeric labels, and run on
    a machine with the sixteen general registers, two flags, one vector register, the
    floating-point save area and a memory of 64-bit words at byte addresses (all
    accesses of these routines are to aligned words).  Calls and system calls are
    functions of the machine state, given as parameters. *)

From Stdlib Require Import ZArith Lia.
From stdpp Require Import base numbers list option.
From S2P Require Import Prelude.

Local Open Scope Z_scope.

Inductive reg : Type :=
| RAX | RBX | RCX | RDX | RSI | RDI | RBP | RSP | R8 | R9 | R10 | R11 | R12 | R13 | R14 | R15.

#[export] Instance reg_eq_dec : EqDecision reg.
Proof. solve_decision. Defined.

Record regs : Type := mkRegs {
  rax : Z; rbx : Z; rcx : Z; rdx : Z; rsi : Z; rdi : Z; rbp : Z; rsp : Z;
  r8 : Z; r9 : Z; r10 : Z; r11 : Z; r12 : Z; r13 : Z; r14 : Z; r15 : Z }.

Definition get (r : reg) (x : regs) : Z :=
  match r with
  | RAX => rax x | RBX => rbx x | RCX => rcx x | RDX => rdx x
  | RSI => rsi x | RDI => rdi x | RBP => rbp x | RSP => rsp x
  | R8 => r8 x | R9 => r9 x | R10 => r10 x | R11 => r11 x
  | R12 => r12 x | R13 => r13 x | R14 => r14 x | R15 => r15 x
  end.
Definition set (r : reg) (v : Z) (x : regs) : regs :=
  let '(mkRegs a b c d si di bp sp e8 e9 e10 e11 e12 e13 e14 e15) := x in
  match r with
  | RAX => mkRegs v b c d si di bp sp e8 e9 e10 e11 e12 e13 e14 e15
  | RBX => mkRegs a v c d si di bp sp e8 e9 e10 e11 e12 e13 e14 e15
  | RCX => mkRegs a b v d si di bp sp e8 e9 e10 e11 e12 e13 e14 e15
  | RDX => mkRegs a b c v si di bp sp e8 e9 e10 e11 e12 e13 e14 e15
  | RSI => mkRegs a b c d v di bp sp e8 e9 e10 e11 e12 e13 e14 e15
  | RDI => mkRegs a b c d si v bp sp e8 e9 e10 e11 e12 e13 e14 e15
  | RBP => mkRegs a b c d si di v sp e8 e9 e10 e11 e12 e13 e14 e15
  | RSP => mkRegs a b c d si di bp v e8 e9 e10 e11 e12 e13 e14 e15
  | R8 => mkRegs a b c d si di bp sp v e9 e10 e11 e12 e13 e14 e15
  | R9 => mkRegs a b c d si di bp sp e8 v e10 e11 e12 e13 e14 e15
  | R10 => mkRegs a b c d si di bp sp e8 e9 v e11 e12 e13 e14 e15
  | R11 => mkRegs a b c d si di bp sp e8 e9 e10 v e12 e13 e14 e15
  | R12 => mkRegs a b c d si di bp sp e8 e9 e10 e11 v e13 e14 e15
  | R13 => mkRegs a b c d si di bp sp e8 e9 e10 e11 e12 v e14 e15
  | R14 => mkRegs a b c d si di bp sp e8 e9 e10 e11 e12 e13 v e15
  | R15 => mkRegs a b c d si di bp sp e8 e9 e10 e11 e12 e13 e14 v
  end.

(** A memory operand [fs:[base + index*scale + disp]]; a symbol is a displacement. *)
Record operand : Type := mkOp {
  o_fs : bool; o_base : option reg; o_index : option (reg * Z); o_disp : Z }.
Definition at_reg (r : reg) (disp : Z) : operand := mkOp false (Some r) None disp.
Definition at_sym (a : Z) : operand := mkOp false None None a.
Definition at_fs (disp : Z) : operand := mkOp true None None disp.
Definition at_idx (r : reg) (i : reg) (scale disp : Z) : operand := mkOp false (Some r) (Some (i, scale)) disp.

(** [b] and [f] of a reference to a numeric label. *)
Inductive dir : Type := B | F.
Inductive cond : Type := Z_ | NZ | AE.   (** [je]/[jz], [jne]/[jnz], [jae] *)

Inductive instr : Type :=
| Lbl (n : nat)
| Mov (d s : reg) | MovI (d : reg) (i : Z) | MovL (d : reg) (o : operand) | MovS (o : operand) (s : reg)
| Mov32 (d s : reg)
| Lea (d : reg) (o : operand)
| Push (s : reg) | PushI (i : Z) | PushM (o : operand) | Pop (d : reg)
| Add (d s : reg) | AddI (d : reg) (i : Z) | AddM (d : reg) (o : operand)
| Sub (d s : reg) | SubI (d : reg) (i : Z)
| AndI (d : reg) (i : Z) | ShlI (d : reg) (i : Z) | ShrI (d : reg) (i : Z) | Xor (d s : reg)
| Test (a b : reg) | TestI (a : reg) (i : Z) | CmpI (a : reg) (i : Z) | CmpM (a : reg) (o : operand)
| J (c : cond) (d : dir) (n : nat) | Jmp (d : dir) (n : nat) | JmpR (r : reg) | Ret_
| Cmovne (d s : reg)
| MovupsL (o : operand) | MovupsS (o : operand)
| Fxsave (o : operand) | Fxrstor (o : operand)
| Call (f : Z) | Syscall | Ud2.

Record machine : Type := mkMach {
  reg_file : regs;
  zf : bool;
  cf : bool;
  xmm0 : Z * Z;
  fpu : list Z;          (** the other 56 words [fxsave] stores *)
  fs_base : Z;
  words : Z -> Z }.

(** What one instruction does: go on behind it, go on at an index of the code, leave
    for an address, or fault. *)
Inductive effect : Type :=
| Next (m : machine)
| Goto (i : nat) (m : machine)
| Leave (a : Z) (m : machine)
| Faults.

Definition store_word (w : Z -> Z) (a v : Z) : Z -> Z := fun x => if x =? a then v else w x.
Fixpoint store_words (w : Z -> Z) (a : Z) (vs : list Z) : Z -> Z :=
  match vs with
  | [] => w
  | v :: r => store_words (store_word w a v) (a + 8) r
  end.
Fixpoint load_words (w : Z -> Z) (a : Z) (n : nat) : list Z :=
  match n with
  | O => []
  | S k => w a :: load_words w (a + 8) k
  end.

Definition set_regs (x : regs) (m : machine) : machine :=
  mkMach x (zf m) (cf m) (xmm0 m) (fpu m) (fs_base m) (words m).
Definition set_words (w : Z -> Z) (m : machine) : machine :=
  mkMach (reg_file m) (zf m) (cf m) (xmm0 m) (fpu m) (fs_base m) w.
Definition set_flags (z c : bool) (m : machine) : machine :=
  mkMach (reg_file m) z c (xmm0 m) (fpu m) (fs_base m) (words m).
Definition set_xmm0 (v : Z * Z) (m : machine) : machine :=
  mkMach (reg_file m) (zf m) (cf m) v (fpu m) (fs_base m) (words m).
Definition set_fpu (v : list Z) (m : machine) : machine :=
  mkMach (reg_file m) (zf m) (cf m) (xmm0 m) v (fs_base m) (words m).

Definition ea (o : operand) (m : machine) : Z :=
  usize_wrap ((if o_fs o then fs_base m else 0) +
              (match o_base o with Some r => get r (reg_file m) | None => 0 end) +
              (match o_index o with Some (r, s) => get r (reg_file m) * s | None => 0 end) + o_disp o).

Definition upd (r : reg) (v : Z) (m : machine) : machine := set_regs (set r (usize_wrap v) (reg_file m)) m.
(** Arithmetic that sets the zero flag from its result. *)
Definition alu (r : reg) (v : Z) (m : machine) : machine :=
  set_flags (usize_wrap v =? 0) (cf m) (upd r v m).

Definition push (v : Z) (m : machine) : machine :=
  let sp := usize_wrap (rsp (reg_file m) - 8) in
  set_words (store_word (words m) sp v) (upd RSP sp m).
Definition pop (d : reg) (m : machine) : machine :=
  let v := words m (rsp (reg_file m)) in
  upd d v (upd RSP (rsp (reg_file m) + 8) m).

(** The 464 bytes [fxsave64] writes, a vector register at byte 160; it faults at an address
    that is not a multiple of 16. *)
Definition fx_area (x : Z * Z) (f : list Z) : list Z := take 20 f ++ [x.1; x.2] ++ drop 20 f.
Definition fx_restore (l : list Z) (m : machine) : machine :=
  set_xmm0 (default 0 (l !! 20%nat), default 0 (l !! 21%nat)) (set_fpu (take 20 l ++ drop 22 l) m).

Definition holds (c : cond) (m : machine) : bool :=
  match c with Z_ => zf m | NZ => negb (zf m) | AE => negb (cf m) end.

(** The target of a reference from index [i]: the next, or the last, definition. *)
Definition is_lbl (n : nat) (x : instr) : bool := match x with Lbl k => Nat.eqb k n | _ => false end.
Definition target (code : list instr) (i : nat) (d : dir) (n : nat) : option nat :=
  match d with
  | F => (fun k => (i + k)%nat) <$> find_index (is_lbl n) (drop i code)
  | B => (fun k => (i - 1 - k)%nat) <$> find_index (is_lbl n) (rev (take i code))
  end.
Definition goto (t : option nat) (m : machine) : effect :=
  match t with Some i => Goto i m | None => Faults end.

Section Machine.
(** System calls, and the routines that are called by address. *)
Context (sys : machine -> machine) (callee : Z -> machine -> machine).

Definition exec (code : list instr) (i : nat) (x : instr) (m : machine) : effect :=
  let g r := get r (reg_file m) in
  match x with
  | Lbl _ => Next m
  | Mov d s => Next (upd d (g s) m)
  | MovI d v => Next (upd d v m)
  | MovL d o => Next (upd d (words m (ea o m)) m)
  | MovS o s => Next (set_words (store_word (words m) (ea o m) (g s)) m)
  | Mov32 d s => Next (upd d (wrap 32 (g s)) m)
  | Lea d o => Next (upd d (ea o m) m)
  | Push s => Next (push (g s) m)
  | PushI v => Next (push (usize_wrap v) m)
  | PushM o => Next (push (words m (ea o m)) m)
  | Pop d => Next (pop d m)
  | Add d s => Next (alu d (g d + g s) m)
  | AddI d v => Next (alu d (g d + v) m)
  | AddM d o => Next (alu d (g d + words m (ea o m)) m)
  | Sub d s => Next (alu d (g d - g s) m)
  | SubI d v => Next (alu d (g d - v) m)
  | AndI d v => Next (alu d (Z.land (g d) v) m)
  | ShlI d v => Next (alu d (Z.shiftl (g d) v) m)
  | ShrI d v => Next (alu d (Z.shiftr (g d) v) m)
  | Xor d s => Next (alu d (Z.lxor (g d) (g s)) m)
  | Test a b => Next (set_flags (Z.land (g a) (g b) =? 0) false m)
  | TestI a v => Next (set_flags (Z.land (g a) v =? 0) false m)
  | CmpI a v => Next (set_flags (g a =? v) (g a <? v) m)
  | CmpM a o => Next (set_flags (g a =? words m (ea o m)) (g a <? words m (ea o m)) m)
  | J c d n => if holds c m then goto (target code i d n) m else Next m
  | Jmp d n => goto (target code i d n) m
  | JmpR r => Leave (g r) m
  | Ret_ => Leave (words m (rsp (reg_file m))) (upd RSP (rsp (reg_file m) + 8) m)
  | Cmovne d s => Next (if zf m then m else upd d (g s) m)
  | MovupsL o => Next (set_xmm0 (words m (ea o m), words m (ea o m + 8)) m)
  | MovupsS o => Next (set_words (store_word (store_word (words m) (ea o m) (xmm0 m).1)
                                   (ea o m + 8) (xmm0 m).2) m)
  | Fxsave o => if ea o m mod 16 =? 0 then Next (set_words (store_words (words m) (ea o m) (fx_area (xmm0 m) (fpu m))) m) else Faults
  | Fxrstor o => if ea o m mod 16 =? 0 then Next (fx_restore (load_words (words m) (ea o m) 58) m) else Faults
  | Call f => Next (callee f m)
  | Syscall => Next (sys m)
  | Ud2 => Faults
  end.

(** One step at index [i]; running off the end faults. *)
Definition step (code : list instr) (c : nat * machine) : effect :=
  let '(i, m) := c in
  match code !! i with
  | Some x => match exec code i x m with Next m' => Goto (S i) m' | e => e end
  | None => Faults
  end.

(** [n] steps inside the code. *)
Fixpoint steps (code : list instr) (n : nat) (c : nat * machine) : option (nat * machine) :=
  match n with
  | O => Some c
  | S k => match step code c with Goto i m => steps code k (i, m) | _ => None end
  end.

(** Running a routine from its start until it leaves. *)
Fixpoint run (code : list instr) (fuel : nat) (c : nat * machine) : option (Z * machine) :=
  match fuel with
  | O => None
  | S k =>
    match step code c with
    | Goto i m => run code k (i, m)
    | Leave a m => Some (a, m)
    | _ => None
    end
  end.

Lemma steps_add code a b c c' :
  steps code a c = Some c' -> steps code (a + b) c = steps code b c'.
Proof.
  revert c. induction a as [|a IH]; intros c H; simpl in *; [by injection H as ->|].
  destruct (step code c); try done. by apply IH.
Qed.

Lemma steps_trans code a b c c' c'' :
  steps code a c = Some c' -> steps code b c' = Some c'' -> steps code (a + b) c = Some c''.
Proof. intros Ha Hb. by rewrite (steps_add _ _ _ _ _ Ha). Qed.

Lemma run_steps code n k c c' x :
  steps code n c = Some c' -> run code k c' = Some x -> run code (n + k) c = Some x.
Proof.
  revert c. induction n as [|n IH]; intros c H Hr; simpl in *; [by injection H as ->|].
  destruct (step code c); try done. by apply IH.
Qed.
End Machine.

(** Symbolic execution: evaluate the machine, not the arithmetic. *)
Ltac machine_eval code :=
  lazy beta iota zeta delta
    [steps run step exec code lookup list_lookup get set upd alu push pop ea holds target goto find_index is_lbl
     at_reg at_sym at_fs at_idx o_fs o_base o_index o_disp set_regs set_words set_flags set_xmm0 set_fpu
     reg_file zf cf xmm0 fpu fs_base words rax rbx rcx rdx rsi rdi rbp rsp r8 r9 r10 r11 r12 r13 r14 r15
     fmap option_fmap option_map drop skipn take firstn rev app Nat.eqb Nat.add Nat.sub negb fst snd].

Lemma steps_S sys callee code n c i m r :
  step sys callee code c = Goto i m -> steps sys callee code n (i, m) = r -> steps sys callee code (S n) c = r.
Proof. intros E <-. cbn [steps]. by rewrite E. Qed.

Lemma run_S sys callee code n c i m r :
  step sys callee code c = Goto i m -> run sys callee code n (i, m) = r -> run sys callee code (S n) c = r.
Proof. intros E <-. cbn [run]. by rewrite E. Qed.

Lemma run_leave sys callee code n c r a m :
  step sys callee code c = Leave a m -> r = Some (a, m) -> run sys callee code (S n) c = r.
Proof. intros E ->. cbn [run]. by rewrite E. Qed.

Lemma run_more sys callee code n k c x :
  run sys callee code n c = Some x -> (n <= k)%nat -> run sys callee code k c = Some x.
Proof.
  revert k c. induction n as [|n IH]; intros k c H Hk; [done|].
  destruct k as [|k]; [lia|]. cbn [run] in *. destruct (step sys callee code c); try done. apply IH; [done|lia].
Qed.

Lemma usize_small x : 0 <= x < 2 ^ 64 -> usize_wrap x = x.
Proof. apply wrap_small. Qed.

(** Remove the reduction modulo 2^64 where the bounds are known. *)
Ltac unwrap :=
  rewrite ?Z.add_0_l, ?Z.add_0_r;
  repeat match goal with |- context [usize_wrap ?x] => rewrite (usize_small x) by lia end.

(** One instruction; [mjump] takes the value of the condition of a jump. *)
Ltac mstep code :=
  first [eapply steps_S | eapply run_S]; [machine_eval code; reflexivity|]; unwrap.
Ltac mjump code H :=
  first [eapply steps_S | eapply run_S]; [machine_eval code; rewrite H; reflexivity|]; unwrap.

(** The jump out of the routine. *)
Ltac mleave code := eapply run_leave; [machine_eval code; reflexivity|].

(** A list of words in memory. *)
Definition list_at (w : Z -> Z) (a : Z) (l : list Z) : Prop :=
  forall i x, l !! i = Some x -> w (a + 8 * Z.of_nat i) = x.

Lemma list_at_app w a l1 l2 :
  list_at w a (l1 ++ l2) <-> list_at w a l1 /\ list_at w (a + 8 * Z.of_nat (length l1)) l2.
Proof.
  split.
  - intros H. split; intros i x Hi; [apply H; by apply lookup_app_l_Some|].
    replace (a + 8 * Z.of_nat (length l1) + 8 * Z.of_nat i) with (a + 8 * Z.of_nat (length l1 + i)) by lia.
    apply H. by rewrite lookup_app_r, Nat.add_comm, Nat.add_sub by lia.
  - intros [H1 H2] i x Hi. apply lookup_app_Some in Hi as [Hi|[Hl Hi]]; [by apply H1|].
    apply H2 in Hi. by replace (a + 8 * Z.of_nat i) with
      (a + 8 * Z.of_nat (length l1) + 8 * Z.of_nat (i - length l1)) by lia.
Qed.

Lemma list_at_cons w a x l : list_at w a (x :: l) <-> w a = x /\ list_at w (a + 8) l.
Proof.
  change (x :: l) with ([x] ++ l). rewrite list_at_app. simpl length.
  change (a + 8 * Z.of_nat 1) with (a + 8). assert (list_at w a [x] <-> w a = x) as ->; [|done].
  split; [intros H; specialize (H 0%nat x eq_refl); by rewrite Z.add_0_r in H|].
  intros H [|[|i]] y Hy; [|done|done]. injection Hy as <-. by rewrite Z.add_0_r.
Qed.

Lemma list_at_nil w a : list_at w a [].
Proof. by intros i x. Qed.

(** [w'] has the words of [w] outside the bytes from [lo] to [hi]. *)
Definition same_outside (lo hi : Z) (w w' : Z -> Z) : Prop := forall x, x < lo \/ hi <= x -> w' x = w x.

Lemma list_at_same lo hi w w' a l :
  same_outside lo hi w w' -> a + 8 * Z.of_nat (length l) <= lo \/ hi <= a -> list_at w a l -> list_at w' a l.
Proof.
  intros Hs Hd H i x Hi. rewrite Hs; [by apply H|]. apply lookup_lt_Some in Hi. lia.
Qed.

Lemma same_outside_trans lo hi lo' hi' w w' w'' :
  same_outside lo hi w w' -> same_outside lo' hi' w' w'' ->
  forall l h, l <= lo -> l <= lo' -> hi <= h -> hi' <= h -> same_outside l h w w''.
Proof. intros H1 H2 l h ? ? ? ? x Hx. rewrite H2 by lia. apply H1. lia. Qed.

Lemma same_outside_store w a v : same_outside a (a + 8) w (store_word w a v).
Proof. intros x Hx. unfold store_word. destruct (Z.eqb_spec x a); [lia|done]. Qed.

Lemma store_word_same w a v : store_word w a v a = v.
Proof. unfold store_word. by rewrite Z.eqb_refl. Qed.

Lemma store_word_ne w p v y : y <> p -> store_word w p v y = w y.
Proof. intros. unfold store_word. by destruct (Z.eqb_spec y p). Qed.

(** [na] bytes at [a] and [nb] bytes at [b] do not meet. *)
Definition apart (a na b nb : Z) : Prop := a + na <= b \/ b + nb <= a.

Lemma list_at_snoc w p l y : list_at w p (l ++ [y]) <-> list_at w p l /\ w (p + 8 * Z.of_nat (length l)) = y.
Proof.
  rewrite list_at_app, list_at_cons. split; [intros (?&?&_)|intros (?&?)]; by repeat split.
Qed.

Lemma test_zero : (Z.land 0 0 =? 0) = true.
Proof. done. Qed.

Lemma test_pos v : 0 < v -> (Z.land v v =? 0) = false.
Proof. intros. rewrite Z.land_diag. apply Z.eqb_neq. lia. Qed.

(** Two states that differ in how their numbers are written. *)
Ltac same_state := repeat first [reflexivity | lia | progress f_equal].

(** ** The save area *)

Lemma store_words_outside l : forall w a, same_outside a (a + 8 * Z.of_nat (length l)) w (store_words w a l).
Proof.
  induction l as [|v l IH]; intros w a y Hy; [done|]. cbn [store_words length] in *.
  rewrite IH by lia. apply store_word_ne. lia.
Qed.

Lemma store_words_list l : forall w a, list_at (store_words w a l) a l.
Proof.
  induction l as [|v l IH]; intros w a; [apply list_at_nil|]. apply list_at_cons. cbn [store_words]. split; [|apply IH].
  rewrite store_words_outside by lia. apply store_word_same.
Qed.

Lemma load_words_list l : forall w a, list_at w a l -> load_words w a (length l) = l.
Proof.
  induction l as [|v l IH]; intros w a H; [done|]. apply list_at_cons in H as [Hv H]. cbn [length load_words]. f_equal; auto.
Qed.

(** Restoring what was saved. *)
Lemma fx_restore_area x f m :
  length f = 56%nat -> fx_restore (fx_area x f) m = set_xmm0 x (set_fpu f m).
Proof.
  intros Hf. unfold fx_restore, fx_area. destruct x as [x0 x1].
  assert (length (take 20 f) = 20%nat) as H20 by (rewrite length_take; lia).
  rewrite (lookup_app_r _ _ 20%nat), (lookup_app_r _ _ 21%nat) by lia. rewrite H20.
  rewrite take_app_length' by done. rewrite drop_app_ge by lia. rewrite H20.
  change (20 - 20)%nat with 0%nat. change (21 - 20)%nat with 1%nat. change (22 - 20)%nat with 2%nat.
  cbn [drop skipn fst snd app lookup list_lookup default]. by rewrite drop_0, take_drop.
Qed.
