(* ===== verification/Start.v ===== *)
(** * Entering and leaving the loader (wl-ld-lilium/src/entry/x86_64.rs)

    [_start] reads the stack the kernel left and calls the loader on a stack of its
    own; [__call_entry_point] builds the stack of the guest program and jumps to it. *)

From Stdlib Require Import ZArith Lia.
From stdpp Require Import base numbers list option.
From S2P Require Import Prelude.
From S2P Require Import Asm.

Local Open Scope Z_scope.

Definition STACK_DISPLACEMENT : Z := 4096 * 8.
Definition STACK_SIZE : Z := 4096 * 128.

Section Code.
(** The constants of the system call and the address of [__rust_entry]. *)
Context (MMAP_PROT MMAP_FLAGS rust_entry : Z).

(** [_start]; label 1 is [_start._find_auxv]. *)
Definition start_code : list instr :=
  [Pop R12;
   Xor RBP RBP;
   Lea R13 (at_reg RSP 0);
   Lea R14 (at_idx RSP R12 8 8);
   Mov R15 R14;
   Lbl 1;
   MovL RAX (at_reg R15 0);
   Lea R15 (at_reg R15 8);
   Test RAX RAX;
   J NZ B 1;
   Mov RDI RSP;
   AddI RDI 0xFFFF;
   AndI RDI 0xFFFFFFFFFFFF0000;
   AddI RDI STACK_DISPLACEMENT;
   MovI RSI STACK_SIZE;
   MovI RDX MMAP_PROT;
   MovI R10 MMAP_FLAGS;
   MovI R8 (-1);
   MovI R9 0;
   MovI RAX 9;
   Syscall;
   Mov RSP RAX;
   Mov R8 RAX;
   AddI RSP STACK_SIZE;
   Mov RDI R12;
   Mov RSI R13;
   Mov RDX R14;
   Mov RCX R15;
   Call rust_entry;
   Mov32 RDI RAX;
   MovI RAX 60;
   Syscall;
   Ud2].

(** The address of [_local_fini]. *)
Context (local_fini : Z).

(** [__call_entry_point]. *)
Definition call_entry_code : list instr :=
  [Pop RAX;
   Pop R10;
   Mov R11 RDI;
   Add R11 RCX;
   TestI R11 1;
   J Z_ F 2;
   Push RAX;
   Lbl 2;
   ShlI RCX 3;
   ShlI R9 4;
   PushI 0;
   PushI 0;
   Sub RSP R9;
   Lbl 2;
   Test R9 R9;
   J Z_ F 3;
   Lea R9 (at_reg R9 (-16));
   MovupsL (at_idx R8 R9 1 0);
   MovupsS (at_idx RSP R9 1 0);
   Jmp B 2;
   Lbl 3;
   Mov RBX RSP;
   PushI 0;
   Lbl 2;
   Test RCX RCX;
   J Z_ F 3;
   Lea RCX (at_reg RCX (-8));
   PushM (at_idx RDX RCX 1 0);
   Jmp B 2;
   Lbl 3;
   Mov R12 RSP;
   PushI 0;
   Mov RCX RDI;
   Lbl 2;
   Test RCX RCX;
   J Z_ F 2;
   Lea RCX (at_reg RCX (-1));
   PushM (at_idx RSI RCX 8 0);
   Jmp B 2;
   Lbl 2;
   Push RDI;
   MovI RAX 1;
   Lea RDX (at_sym local_fini);
   JmpR R10].
End Code.

(** The stack a program starts with, from the address in [rsp] up. *)
Definition guest_stack (argv env aux : list Z) : list Z :=
  Z.of_nat (length argv) :: argv ++ [0] ++ env ++ [0] ++ aux ++ [0; 0].

Lemma guest_stack_length argv env aux :
  length (guest_stack argv env aux) = (length argv + length env + length aux + 5)%nat.
Proof. unfold guest_stack. cbn [length]. rewrite !length_app. cbn [length]. lia. Qed.

Lemma list_at_prefix w p l1 l2 : list_at w p (l1 ++ l2) -> list_at w p l1.
Proof. rewrite list_at_app. by intros [H _]. Qed.

Lemma guest_stack_parts w p argv env aux :
  list_at w p (guest_stack argv env aux) ->
  list_at w (p + 8 * Z.of_nat (length argv + 2)) (env ++ [0]) /\
  list_at w (p + 8 * Z.of_nat (length argv + length env + 3)) (aux ++ [0; 0]).
Proof.
  intros H. apply list_at_cons in H as [_ H]. rewrite list_at_app in H. destruct H as [_ H].
  rewrite list_at_app in H. destruct H as [_ H]. cbn [length] in H. split.
  - apply (list_at_prefix _ _ _ (aux ++ [0; 0])). rewrite <- app_assoc.
    by replace (p + 8 * Z.of_nat (length argv + 2)) with (p + 8 + 8 * Z.of_nat (length argv) + 8 * Z.of_nat 1) by lia.
  - rewrite list_at_app in H. destruct H as [_ H]. rewrite list_at_app in H. destruct H as [_ H]. cbn [length] in H.
    by replace (p + 8 * Z.of_nat (length argv + length env + 3)) with
      (p + 8 + 8 * Z.of_nat (length argv) + 8 * Z.of_nat 1 + 8 * Z.of_nat (length env) + 8 * Z.of_nat 1) by lia.
Qed.

Section CallEntry.
Context (sys : machine -> machine) (callee : Z -> machine -> machine) (local_fini : Z).
Abbreviation go := (steps sys callee (call_entry_code local_fini)).

(** ** The loops *)

(** Words pushed from an array, its last element first. *)
Fixpoint push_down (w : Z -> Z) (src sp : Z) (n : nat) : Z -> Z :=
  match n with
  | O => w
  | S k => push_down (store_word w (sp - 8) (w (src + 8 * Z.of_nat k))) src (sp - 8) k
  end.
(** Pairs of words copied from an array, the last pair first. *)
Fixpoint copy_pairs (w : Z -> Z) (src dst : Z) (n : nat) : Z -> Z :=
  match n with
  | O => w
  | S k =>
    let o := 16 * Z.of_nat k in
    copy_pairs (store_word (store_word w (dst + o) (w (src + o))) (dst + o + 8) (w (src + o + 8))) src dst k
  end.

Ltac ms := mstep call_entry_code.
Ltac mj H := mjump call_entry_code H.

Lemma env_loop n a b d si di bp sp e8 e9 e10 e11 e12 e13 e14 e15 z c x f fs w :
  8 * Z.of_nat n <= sp < 2 ^ 64 -> 0 <= d -> d + 8 * Z.of_nat n < 2 ^ 64 ->
  exists z' c',
  go (6 * n + 3) (23%nat, mkMach (mkRegs a b (8 * Z.of_nat n) d si di bp sp e8 e9 e10 e11 e12 e13 e14 e15) z c x f fs w) =
  Some (29%nat, mkMach (mkRegs a b 0 d si di bp (sp - 8 * Z.of_nat n) e8 e9 e10 e11 e12 e13 e14 e15) z' c' x f fs
                  (push_down w d sp n)).
Proof.
  revert sp z c w. induction n as [|n IH]; intros sp z c w Hsp Hd0 Hd.
  - eexists _, _. change (8 * Z.of_nat 0) with 0. rewrite Z.sub_0_r. cbn [Nat.mul Nat.add].
    ms. ms. mj test_zero. reflexivity.
  - assert (Ht := test_pos (8 * Z.of_nat (S n)) ltac:(lia)).
    edestruct (IH (sp - 8)) as (z' & c' & E); [lia..|].
    exists z', c'. replace (6 * S n + 3)%nat with (6 + (6 * n + 3))%nat by lia. cbn [Nat.add push_down].
    ms. ms. mj Ht. ms. ms. ms. etransitivity; [|etransitivity; [exact E|]]; same_state.
Qed.

Lemma argv_loop n a b d si di bp sp e8 e9 e10 e11 e12 e13 e14 e15 z c x f fs w :
  8 * Z.of_nat n <= sp < 2 ^ 64 -> 0 <= si -> si + 8 * Z.of_nat n < 2 ^ 64 ->
  exists z' c',
  go (6 * n + 3) (33%nat, mkMach (mkRegs a b (Z.of_nat n) d si di bp sp e8 e9 e10 e11 e12 e13 e14 e15) z c x f fs w) =
  Some (39%nat, mkMach (mkRegs a b 0 d si di bp (sp - 8 * Z.of_nat n) e8 e9 e10 e11 e12 e13 e14 e15) z' c' x f fs
                  (push_down w si sp n)).
Proof.
  revert sp z c w. induction n as [|n IH]; intros sp z c w Hsp Hd0 Hd.
  - eexists _, _. change (8 * Z.of_nat 0) with 0. change (Z.of_nat 0) with 0. rewrite Z.sub_0_r. cbn [Nat.mul Nat.add].
    ms. ms. mj test_zero. reflexivity.
  - assert (Ht := test_pos (Z.of_nat (S n)) ltac:(lia)).
    edestruct (IH (sp - 8)) as (z' & c' & E); [lia..|].
    exists z', c'. replace (6 * S n + 3)%nat with (6 + (6 * n + 3))%nat by lia. cbn [Nat.add push_down].
    ms. ms. mj Ht. ms. ms. ms. etransitivity; [|etransitivity; [exact E|]]; same_state.
Qed.

Lemma aux_loop n a b cx d si di bp sp e8 e10 e11 e12 e13 e14 e15 z c x f fs w :
  0 <= sp -> sp + 16 * Z.of_nat n < 2 ^ 64 -> 0 <= e8 -> e8 + 16 * Z.of_nat n < 2 ^ 64 ->
  exists z' c' x',
  go (7 * n + 3) (13%nat, mkMach (mkRegs a b cx d si di bp sp e8 (16 * Z.of_nat n) e10 e11 e12 e13 e14 e15) z c x f fs w) =
  Some (20%nat, mkMach (mkRegs a b cx d si di bp sp e8 0 e10 e11 e12 e13 e14 e15) z' c' x' f fs
                  (copy_pairs w e8 sp n)).
Proof.
  revert z c x w. induction n as [|n IH]; intros z c x w Hsp0 Hsp Hd0 Hd.
  - eexists _, _, _. change (16 * Z.of_nat 0) with 0. cbn [Nat.mul Nat.add].
    ms. ms. mj test_zero. reflexivity.
  - assert (Ht := test_pos (16 * Z.of_nat (S n)) ltac:(lia)).
    edestruct IH as (z' & c' & x' & E); [lia..|].
    exists z', c', x'. replace (7 * S n + 3)%nat with (7 + (7 * n + 3))%nat by lia. cbn [Nat.add copy_pairs].
    ms. ms. mj Ht. ms. ms. ms. ms. etransitivity; [|etransitivity; [exact E|]]; same_state.
Qed.

(** What the loops leave in memory. *)
Lemma push_down_outside n : forall w src sp, same_outside (sp - 8 * Z.of_nat n) sp w (push_down w src sp n).
Proof.
  induction n as [|n IH]; intros w src sp y Hy; [done|].
  cbn [push_down]. rewrite IH by lia. apply store_word_ne. lia.
Qed.

Lemma copy_pairs_outside n : forall w src dst, same_outside dst (dst + 16 * Z.of_nat n) w (copy_pairs w src dst n).
Proof.
  induction n as [|n IH]; intros w src dst y Hy; [done|].
  cbn [copy_pairs]. rewrite IH by lia. rewrite !store_word_ne; [done|lia..].
Qed.

Lemma push_down_list l : forall w src sp,
  list_at w src l -> apart src (8 * Z.of_nat (length l)) (sp - 8 * Z.of_nat (length l)) (8 * Z.of_nat (length l)) ->
  list_at (push_down w src sp (length l)) (sp - 8 * Z.of_nat (length l)) l.
Proof.
  induction l as [|y l IH] using rev_ind; intros w src sp Hl Ha; [apply list_at_nil|].
  rewrite length_app in *. cbn [length] in *. replace (length l + 1)%nat with (S (length l)) in * by lia. cbn [push_down].
  apply list_at_snoc in Hl as [Hl Hy]. unfold apart in *. rewrite Hy. apply list_at_snoc. split.
  - replace (sp - 8 * Z.of_nat (S (length l))) with (sp - 8 - 8 * Z.of_nat (length l)) by lia.
    apply IH; [|unfold apart; lia]. refine (list_at_same _ _ _ _ _ _ (same_outside_store _ _ _) _ Hl). lia.
  - rewrite (push_down_outside _ _ _ _) by lia.
    replace (sp - 8 * Z.of_nat (S (length l)) + 8 * Z.of_nat (length l)) with (sp - 8) by lia. apply store_word_same.
Qed.

Lemma copy_pairs_list n : forall l w src dst,
  length l = (2 * n)%nat -> list_at w src l -> apart src (16 * Z.of_nat n) dst (16 * Z.of_nat n) ->
  list_at (copy_pairs w src dst n) dst l.
Proof.
  induction n as [|n IH]; intros l w src dst Hn Hl Ha; [destruct l; [apply list_at_nil|done]|].
  assert (exists l0 x y, l = (l0 ++ [x]) ++ [y]) as (l0 & x & y & ->).
  { destruct l as [|y l _] using rev_ind; [done|]. rewrite length_app in Hn. cbn [length] in Hn.
    destruct l as [|x l _] using rev_ind; [cbn in Hn; lia|]. eauto. }
  rewrite !length_app in Hn. cbn [length] in Hn. assert (length l0 = 2 * n)%nat as Hl0 by lia.
  apply list_at_snoc in Hl as [Hl Hy]. apply list_at_snoc in Hl as [Hl Hx]. rewrite length_app, Hl0 in Hy. rewrite Hl0 in Hx.
  cbn [length] in Hy. unfold apart in *. cbn [copy_pairs].
  replace (src + 16 * Z.of_nat n) with (src + 8 * Z.of_nat (2 * n)) by lia. rewrite Hx.
  replace (src + 8 * Z.of_nat (2 * n) + 8) with (src + 8 * Z.of_nat (2 * n + 1)) by lia. rewrite Hy.
  apply list_at_snoc. split; [apply list_at_snoc; split|].
  - apply IH; [done| |lia]. intros i v Hi. pose proof (lookup_lt_Some _ _ _ Hi).
    rewrite !store_word_ne by lia. by apply Hl.
  - rewrite (copy_pairs_outside _ _ _ _) by lia. rewrite store_word_ne by lia. rewrite Hl0.
    replace (dst + 8 * Z.of_nat (2 * n)) with (dst + 16 * Z.of_nat n) by lia. apply store_word_same.
  - rewrite (copy_pairs_outside _ _ _ _) by (rewrite length_app; cbn [length]; lia). rewrite length_app, Hl0. cbn [length].
    replace (dst + 8 * Z.of_nat (2 * n + 1)) with (dst + 16 * Z.of_nat n + 8) by lia. apply store_word_same.
Qed.

(** ** The whole routine *)

Lemma wrap_shl v k : 0 <= k -> 0 <= v * 2 ^ k < 2 ^ 64 -> usize_wrap (Z.shiftl v k) = v * 2 ^ k.
Proof. intros. rewrite Z.shiftl_mul_pow2 by lia. by apply usize_small. Qed.

Lemma odd_test v : (Z.land v 1 =? 0) = negb (Z.odd v).
Proof. change 1 with (Z.ones 1). rewrite Z.land_ones by lia. change (2 ^ 1) with 2. rewrite Zmod_odd. by destruct (Z.odd v). Qed.

(** The word that keeps the stack aligned. *)
Definition pad (n : nat) : Z := if Nat.odd n then 8 else 0.

Lemma odd_nat n : Z.odd (Z.of_nat n) = Nat.odd n.
Proof. 
  destruct (Nat.odd n) eqn:E.
  - apply Nat.odd_spec in E as [k ->]. apply Z.odd_spec. exists (Z.of_nat k). lia.
  - rewrite <- Nat.negb_even in E. apply negb_false_iff, Nat.even_spec in E as [k ->].
    rewrite <- Z.negb_even. apply negb_false_iff, Z.even_spec. exists (Z.of_nat k). lia.
Qed.

Lemma call_entry_prefix (na ne nx : nat) a b d si bp sp e8 e10 e11 e12 e13 e14 e15 z c x f fs w :
  16 + 16 * Z.of_nat nx <= sp -> sp + 16 < 2 ^ 64 ->
  Z.of_nat na < 2 ^ 32 -> Z.of_nat ne < 2 ^ 32 -> Z.of_nat nx < 2 ^ 32 ->
  (forall y, 0 <= w y < 2 ^ 64) ->
  exists k z' c' a' e11' w',
  go k (0%nat, mkMach (mkRegs a b (Z.of_nat ne) d si (Z.of_nat na) bp sp e8 (Z.of_nat nx) e10 e11 e12 e13 e14 e15) z c x f fs w) =
  Some (13%nat, mkMach (mkRegs a' b (8 * Z.of_nat ne) d si (Z.of_nat na) bp (sp - pad (na + ne) - 16 * Z.of_nat nx)
                          e8 (16 * Z.of_nat nx) (w (sp + 8)) e11' e12 e13 e14 e15) z' c' x f fs w') /\
  w' (sp - pad (na + ne)) = 0 /\ w' (sp - pad (na + ne) + 8) = 0 /\ same_outside (sp - pad (na + ne)) (sp + 16) w w'.
Proof.
  intros Hlo Hhi Hna Hne Hnx Hw. pose proof (Hw sp). pose proof (Hw (sp + 8)).
  assert (Ec := wrap_shl (Z.of_nat ne) 3 ltac:(lia) ltac:(lia)).
  assert (Ex := wrap_shl (Z.of_nat nx) 4 ltac:(lia) ltac:(lia)).
  assert (Ho := odd_test (Z.of_nat na + Z.of_nat ne)). rewrite <- Nat2Z.inj_add, odd_nat in Ho.
  unfold pad. destruct (Nat.odd (na + ne)); simpl negb in Ho; rewrite Nat2Z.inj_add in Ho;
    [exists 13%nat|exists 12%nat]; eexists _, _, _, _, _; (split; [|split; [|split]]).
  1: ms; ms; ms; ms; ms; mj Ho; ms; ms; ms; rewrite Ec; ms; rewrite Ex; ms; ms; ms.
  5: ms; ms; ms; ms; ms; mj Ho; ms; ms; rewrite Ec; ms; rewrite Ex; ms; ms; ms.
  1, 5: cbn [steps]; same_state.
  all: try (intros y Hy); unfold store_word; repeat case Z.eqb_spec; intros; try done; lia.
Qed.

Lemma call_entry_suffix (na : nat) a b d si bp sp e8 e9 e10 e11 e12 e13 e14 e15 z c x f fs w :
  8 * Z.of_nat na + 16 <= sp < 2 ^ 64 -> 0 <= si -> si + 8 * Z.of_nat na < 2 ^ 64 -> 
  0 <= local_fini < 2 ^ 64 ->
  exists k z' c',
  go k (29%nat, mkMach (mkRegs a b 0 d si (Z.of_nat na) bp sp e8 e9 e10 e11 e12 e13 e14 e15) z c x f fs w) =
  Some (43%nat, mkMach (mkRegs 1 b 0 local_fini si (Z.of_nat na) bp (sp - 16 - 8 * Z.of_nat na) e8 e9 e10 e11 sp e13 e14 e15)
           z' c' x f fs
           (store_word (push_down (store_word w (sp - 8) 0) si (sp - 8) na) (sp - 16 - 8 * Z.of_nat na) (Z.of_nat na))).
Proof.
  intros Hsp Hs0 Hs Hl.
  edestruct (argv_loop na a b d si (Z.of_nat na) bp (sp - 8) e8 e9 e10 e11 sp) as (z' & c' & E); [lia..|].
  exists (4 + ((6 * na + 3) + 4))%nat, z', c'. eapply steps_trans.
  { ms. ms. ms. ms. reflexivity. }
  eapply steps_trans; [exact E|]. ms. ms. ms. ms. cbn [steps]. same_state.
Qed.

(** [n] words at [a], apart from the [total + 1] words below the arguments of the call. *)
Definition source (m : machine) (total : nat) (a : Z) (n : nat) : Prop :=
  0 <= a /\ a + 8 * Z.of_nat n < 2 ^ 64 /\
  apart a (8 * Z.of_nat n) (rsp (reg_file m) + 8 - 8 * Z.of_nat total) (8 * Z.of_nat total + 8).

(** Everything [call_entry] relies on: the arguments, the arrays they describe, and room
    below the frame of the caller that the arrays are not part of. *)
Record call_frame (m : machine) (argv env aux : list Z) (entry : Z) : Prop := {
  cf_words : forall y, 0 <= words m y < 2 ^ 64;
  cf_argc : rdi (reg_file m) = Z.of_nat (length argv);
  cf_envc : rcx (reg_file m) = Z.of_nat (length env);
  cf_auxc : 2 * r9 (reg_file m) = Z.of_nat (length aux);
  cf_argv : list_at (words m) (rsi (reg_file m)) argv;
  cf_env : list_at (words m) (rdx (reg_file m)) env;
  cf_aux : list_at (words m) (r8 (reg_file m)) aux;
  cf_entry : words m (rsp (reg_file m) + 8) = entry;
  cf_small : Z.of_nat (length argv) < 2 ^ 32 /\ Z.of_nat (length env) < 2 ^ 32 /\ Z.of_nat (length aux) < 2 ^ 32;
  cf_room : 8 * Z.of_nat (length (guest_stack argv env aux)) <= rsp (reg_file m) /\ rsp (reg_file m) + 16 < 2 ^ 64;
  cf_argv_out : source m (length (guest_stack argv env aux)) (rsi (reg_file m)) (length argv);
  cf_env_out : source m (length (guest_stack argv env aux)) (rdx (reg_file m)) (length env);
  cf_aux_out : source m (length (guest_stack argv env aux)) (r8 (reg_file m)) (length aux) }.

Lemma list_at_stack w p argv env aux :
  w p = Z.of_nat (length argv) ->
  list_at w (p + 8) argv ->
  w (p + 8 + 8 * Z.of_nat (length argv)) = 0 ->
  list_at w (p + 16 + 8 * Z.of_nat (length argv)) env ->
  w (p + 16 + 8 * Z.of_nat (length argv) + 8 * Z.of_nat (length env)) = 0 ->
  list_at w (p + 24 + 8 * Z.of_nat (length argv) + 8 * Z.of_nat (length env)) aux ->
  w (p + 24 + 8 * Z.of_nat (length argv) + 8 * Z.of_nat (length env) + 8 * Z.of_nat (length aux)) = 0 ->
  w (p + 32 + 8 * Z.of_nat (length argv) + 8 * Z.of_nat (length env) + 8 * Z.of_nat (length aux)) = 0 ->
  list_at w p (guest_stack argv env aux).
Proof.
  intros H1 H2 H3 H4 H5 H6 H7 H8. unfold guest_stack. apply list_at_cons. split; [done|].
  rewrite !list_at_app. change (length [0]) with 1%nat. repeat split; try done.
  - apply list_at_cons. by split.
  - by replace (p + 8 + 8 * Z.of_nat (length argv) + 8 * Z.of_nat 1) with (p + 16 + 8 * Z.of_nat (length argv)) by lia.
  - apply list_at_cons. split; [|done]. etransitivity; [|exact H5]. f_equal. lia.
  - intros j y Hj. rewrite <- (H6 j y Hj). f_equal. lia.
  - apply list_at_cons. split; [etransitivity; [|exact H7]; f_equal; lia|].
    apply list_at_cons. split; [etransitivity; [|exact H8]; f_equal; lia|done].
Qed.

(** The memory after the three loops. *)
Lemma call_entry_memory argv env aux nx w w1 si d e8 sp1 :
  length aux = (2 * nx)%nat ->
  list_at w1 si argv -> list_at w1 d env -> list_at w1 e8 aux ->
  let na := length argv in
  let ne := length env in
  let lo := sp1 - 24 - 8 * Z.of_nat (na + ne) in
  let size := 24 + 8 * Z.of_nat (na + ne) + 16 * Z.of_nat nx in
  apart si (8 * Z.of_nat na) lo size -> apart d (8 * Z.of_nat ne) lo size -> apart e8 (16 * Z.of_nat nx) lo size ->
  w1 (sp1 + 16 * Z.of_nat nx) = 0 -> w1 (sp1 + 16 * Z.of_nat nx + 8) = 0 ->
  forall hi, same_outside (sp1 + 16 * Z.of_nat nx) hi w w1 -> sp1 + 16 * Z.of_nat nx <= hi ->
  let spe := sp1 - 8 - 8 * Z.of_nat ne in
  let w' := store_word (push_down (store_word
              (push_down (store_word (copy_pairs w1 e8 sp1 nx) (sp1 - 8) 0) d (sp1 - 8) ne)
              (spe - 8) 0) si (spe - 8) na) (spe - 16 - 8 * Z.of_nat na) (Z.of_nat na) in
  list_at w' lo (guest_stack argv env aux) /\ same_outside lo hi w w'.
Proof.
  intros Hnx La Le Lx na ne lo size Aa Ae Ax Z1 Z2 hi O1 Hhi spe.
  unfold apart in *.
  set (w2 := copy_pairs w1 e8 sp1 nx).
  pose proof (copy_pairs_outside nx w1 e8 sp1) as O2. fold w2 in O2.
  set (w3 := store_word w2 (sp1 - 8) 0). pose proof (same_outside_store w2 (sp1 - 8) 0) as O3. fold w3 in O3.
  set (w4 := push_down w3 d (sp1 - 8) ne). pose proof (push_down_outside ne w3 d (sp1 - 8)) as O4. fold w4 in O4.
  set (w5 := store_word w4 (spe - 8) 0). pose proof (same_outside_store w4 (spe - 8) 0) as O5. fold w5 in O5.
  set (w6 := push_down w5 si (spe - 8) na). pose proof (push_down_outside na w5 si (spe - 8)) as O6. fold w6 in O6.
  set (p := spe - 16 - 8 * Z.of_nat na). pose proof (same_outside_store w6 p (Z.of_nat na)) as O7.
  set (w' := store_word w6 p (Z.of_nat na)) in *.
  assert (Lx' : list_at w2 sp1 aux) by (apply copy_pairs_list; [done..|unfold apart; lia]).
  assert (Le' : list_at w4 spe env).
  { apply push_down_list; [|unfold apart; lia]. intros j y Hj. pose proof (lookup_lt_Some _ _ _ Hj). subst ne na.
    rewrite O3, O2 by lia. by apply Le. }
  assert (La' : list_at w6 (spe - 8 - 8 * Z.of_nat na) argv).
  { apply push_down_list; [|unfold apart; lia]. intros j y Hj. pose proof (lookup_lt_Some _ _ _ Hj). subst ne na.
    rewrite O5, O4, O3, O2 by lia. by apply La. }
  split; [|intros y Hy; rewrite O7, O6, O5, O4, O3, O2 by lia; apply O1; lia].
  replace lo with p by lia. apply list_at_stack; fold na ne.
  - unfold w'. by rewrite store_word_same.
  - intros j y Hj. pose proof (lookup_lt_Some _ _ _ Hj). rewrite O7 by lia. rewrite <- (La' j y Hj). f_equal. lia.
  - rewrite O7, O6 by lia. replace (p + 8 + 8 * Z.of_nat na) with (spe - 8) by lia. apply store_word_same.
  - intros j y Hj. pose proof (lookup_lt_Some _ _ _ Hj). rewrite O7, O6, O5 by lia. rewrite <- (Le' j y Hj). f_equal. lia.
  - rewrite O7, O6, O5, O4 by lia.
    replace (p + 16 + 8 * Z.of_nat na + 8 * Z.of_nat ne) with (sp1 - 8) by lia. apply store_word_same.
  - intros j y Hj. pose proof (lookup_lt_Some _ _ _ Hj). rewrite O7, O6, O5, O4, O3 by lia. rewrite <- (Lx' j y Hj). f_equal. lia.
  - rewrite Hnx, O7, O6, O5, O4, O3, O2 by lia. etransitivity; [|exact Z1]. f_equal. lia.
  - rewrite Hnx, O7, O6, O5, O4, O3, O2 by lia. etransitivity; [|exact Z2]. f_equal. lia.
Qed.

Lemma call_entry_run m argv env aux entry :
  call_frame m argv env aux entry -> 0 <= local_fini < 2 ^ 64 ->
  exists k m',
    run sys callee (call_entry_code local_fini) k (0%nat, m) = Some (entry, m') /\
    let sp := rsp (reg_file m') in
    sp = rsp (reg_file m) + 16 - pad (length argv + length env) - 8 * Z.of_nat (length (guest_stack argv env aux)) /\
    list_at (words m') sp (guest_stack argv env aux) /\
    rax (reg_file m') = 1 /\ rdx (reg_file m') = local_fini /\
    r12 (reg_file m') = sp + 8 * Z.of_nat (length argv + 2) /\
    rbx (reg_file m') = sp + 8 * Z.of_nat (length argv + length env + 3) /\
    same_outside sp (rsp (reg_file m) + 16) (words m) (words m').
Proof.
  intros [Hw Ha Hc Hx La Le Lx He (Sa & Se & Sx) [R1 R2] (Bs0 & Bs1 & As) (Bd0 & Bd1 & Ad) (B80 & B81 & A8)] Hl.
  rewrite guest_stack_length in *.
  destruct m as [[a b cx d si di bp sp e8 e9 e10 e11 e12 e13 e14 e15] z c x f fs w]. cbn [reg_file words rsi rdi rcx rdx r8 r9 rsp rax rbx r12] in *.
  assert (exists nx, e9 = Z.of_nat nx /\ length aux = (2 * nx)%nat) as (nx & -> & Hnx)
    by (exists (Z.to_nat e9); lia).
  subst di cx. set (na := length argv) in *. set (ne := length env) in *.
  unfold apart in *.
  destruct (call_entry_prefix na ne nx a b d si bp sp e8 e10 e11 e12 e13 e14 e15 z c x f fs w)
    as (k1 & z1 & c1 & a1 & e11' & w1 & G1 & Z1 & Z2 & O1); [lia..|done|].
  set (sp1 := sp - pad (na + ne) - 16 * Z.of_nat nx) in *.
  assert (pad (na + ne) = 0 \/ pad (na + ne) = 8) as Hp by (unfold pad; destruct (Nat.odd (na + ne)); auto).
  edestruct (aux_loop nx a1 b (8 * Z.of_nat ne) d si (Z.of_nat na) bp sp1 e8 (w (sp + 8)) e11' e12 e13 e14 e15 z1 c1 x f fs w1)
    as (z2 & c2 & x2 & G2); [lia..|].
  edestruct (env_loop ne a1 sp1 d si (Z.of_nat na) bp (sp1 - 8) e8 0 (w (sp + 8)) e11' e12 e13 e14 e15 z2 c2 x2 f fs
     (store_word (copy_pairs w1 e8 sp1 nx) (sp1 - 8) 0)) as (z3 & c3 & G3); [lia..|].
  edestruct (call_entry_suffix na a1 sp1 d si bp (sp1 - 8 - 8 * Z.of_nat ne) e8 0 (w (sp + 8)) e11' e12 e13 e14 e15 z3 c3 x2 f fs
     (push_down (store_word (copy_pairs w1 e8 sp1 nx) (sp1 - 8) 0) d (sp1 - 8) ne)) as (k4 & z4 & c4 & G4); [lia..|].
  exists (k1 + ((7 * nx + 3) + (3 + ((6 * ne + 3) + (k4 + 1)))))%nat. eexists. split.
  { eapply run_steps; [exact G1|]. eapply run_steps; [exact G2|]. eapply run_steps.
    { ms. ms. ms. reflexivity. }
    eapply run_steps; [exact G3|]. eapply run_steps; [exact G4|].
    eapply run_leave; [machine_eval call_entry_code; reflexivity|]. rewrite <- He. reflexivity. }
  cbn [reg_file words rsi rdi rcx rdx r8 r9 rsp rax rbx r12].
  assert (Hsp : sp1 - 8 - 8 * Z.of_nat ne - 16 - 8 * Z.of_nat na = sp1 - 24 - 8 * Z.of_nat (na + ne)) by lia.
  destruct (call_entry_memory argv env aux nx w w1 si d e8 sp1) with (hi := sp + 16) as [M1 M2]; try done.
  1-3: intros j y Hj; pose proof (lookup_lt_Some _ _ _ Hj); rewrite O1 by lia; auto.
  1-3: unfold apart; fold na ne; lia.
  1: etransitivity; [|exact Z1]; f_equal; lia.
  1: etransitivity; [|exact Z2]; f_equal; lia.
  1: intros y Hy; apply O1; lia.
  1: lia.
  fold na ne in M1, M2. rewrite Hsp in *. repeat split; try done; lia.
Qed.
End CallEntry.

(** ** [_start] *)

(** A system call returns its result in [rax] and may change [rcx] and [r11]; mapping new
    memory leaves the words that are there. *)
Definition linux_mmap (result : machine -> Z) (sys : machine -> machine) : Prop :=
  forall m, exists cx e11 z c,
    sys m = set_flags z c (set_regs (set RAX (result m) (set RCX cx (set R11 e11 (reg_file m)))) m).

Section Start.
Context (sys : machine -> machine) (callee : Z -> machine -> machine) (MMAP_PROT MMAP_FLAGS rust_entry : Z).
Context (result : machine -> Z) (Hsys : linux_mmap result sys).
Abbreviation go := (steps sys callee (start_code MMAP_PROT MMAP_FLAGS rust_entry)).
Ltac ms := mstep start_code.
Ltac mj H := mjump start_code H.

Lemma scan_loop env : forall a b cx d si di bp sp e8 e9 e10 e11 e12 e13 e14 e15 z c x f fs w,
  0 <= e15 -> e15 + 8 * Z.of_nat (length env) + 8 < 2 ^ 64 ->
  list_at w e15 (env ++ [0]) -> Forall (fun v => 0 < v < 2 ^ 64) env ->
  exists c',
  go (5 * length env + 5) (5%nat, mkMach (mkRegs a b cx d si di bp sp e8 e9 e10 e11 e12 e13 e14 e15) z c x f fs w) =
  Some (10%nat, mkMach (mkRegs 0 b cx d si di bp sp e8 e9 e10 e11 e12 e13 e14 (e15 + 8 * Z.of_nat (length env) + 8))
                  true c' x f fs w).
Proof.
  induction env as [|v env IH]; intros a b cx d si di bp sp e8 e9 e10 e11 e12 e13 e14 e15 z c x f fs w H0 H1 Hl Hp;
    apply list_at_cons in Hl as [Hv Hl].
  - eexists. cbn [length Nat.mul Nat.add] in *. ms. ms. rewrite Hv. ms. ms. mj test_zero. reflexivity.
  - apply Forall_cons_1 in Hp as [Hv0 Hp]. cbn [length] in *.
    assert (Ht := test_pos v ltac:(lia)).
    edestruct (IH v b cx d si di bp sp e8 e9 e10 e11 e12 e13 e14 (e15 + 8)) as [c' E]; [lia|lia|exact Hl|exact Hp|].
    exists c'. replace (5 * S (length env) + 5)%nat with (5 + (5 * length env + 5))%nat by lia. cbn [Nat.add].
    ms. ms. rewrite Hv. ms. ms. mj Ht. etransitivity; [|etransitivity; [exact E|]]; same_state.
Qed.

(** What [_start] hands to the loader. *)
Record started (m' : machine) (argc argv envp auxv stack_addr : Z) : Prop := {
  st_argc : rdi (reg_file m') = argc;
  st_argv : rsi (reg_file m') = argv;
  st_envp : rdx (reg_file m') = envp;
  st_auxv : rcx (reg_file m') = auxv;
  st_stack_addr : r8 (reg_file m') = stack_addr;
  st_rbp : rbp (reg_file m') = 0;
  st_rsp : rsp (reg_file m') = usize_wrap (stack_addr + STACK_SIZE) }.

Lemma start_prefix a b cx d si di bp sp e8 e9 e10 e11 e12 e13 e14 e15 z c x f fs w (n : nat) :
  0 <= sp -> sp + 16 + 8 * Z.of_nat n < 2 ^ 64 -> w sp = Z.of_nat n ->
  go 5 (0%nat, mkMach (mkRegs a b cx d si di bp sp e8 e9 e10 e11 e12 e13 e14 e15) z c x f fs w) =
  Some (5%nat, mkMach (mkRegs a b cx d si di 0 (sp + 8) e8 e9 e10 e11 (Z.of_nat n) (sp + 8) (sp + 16 + 8 * Z.of_nat n)
                          (sp + 16 + 8 * Z.of_nat n)) true c x f fs w).
Proof.
  intros H0 H1 Hc. ms. rewrite Hc. unwrap. ms. rewrite Z.lxor_nilpotent. ms. ms. ms. cbn [steps]. same_state.
Qed.

Lemma start_tail a b cx d si di sp e8 e9 e10 e11 e12 e13 e14 e15 z c x f fs w :
  0 <= e12 < 2 ^ 64 -> 0 <= e13 < 2 ^ 64 -> 0 <= e14 < 2 ^ 64 -> 0 <= e15 < 2 ^ 64 -> (forall m, 0 <= result m < 2 ^ 64) ->
  exists m' r,
  go 18 (10%nat, mkMach (mkRegs a b cx d si di 0 sp e8 e9 e10 e11 e12 e13 e14 e15) z c x f fs w) = Some (28%nat, m') /\
  words m' = w /\ 0 <= r < 2 ^ 64 /\ started m' e12 e13 e14 e15 r.
Proof.
  intros B12 B13 B14 B15 Hr.
  assert (exists si' di' d' e8' e9' e10' z' c', go 10 (10%nat, mkMach (mkRegs a b cx d si di 0 sp e8 e9 e10 e11 e12 e13 e14 e15) z c x f fs w) =
    Some (20%nat, mkMach (mkRegs 9 b cx d' si' di' 0 sp e8' e9' e10' e11 e12 e13 e14 e15) z' c' x f fs w))
    as (si' & di' & d' & e8' & e9' & e10' & z' & c' & E).
  { eexists _, _, _, _, _, _, _, _. ms. ms. ms. ms. ms. ms. ms. ms. ms. ms. reflexivity. }
  set (m := mkMach (mkRegs 9 b cx d' si' di' 0 sp e8' e9' e10' e11 e12 e13 e14 e15) z' c' x f fs w) in *.
  destruct (Hsys m) as (cx' & e11' & z2 & c2 & Es). pose proof (Hr m) as Br.
  revert Es Br. generalize (result m). intros r Es Br. subst m. eexists _, r. split; [|split; [|split; [exact Br|]]].
  { change 18%nat with (10 + 8)%nat. eapply steps_trans; [exact E|]. ms. rewrite Es.
    ms. ms. ms. ms. ms. ms. ms. reflexivity. }
  all: done.
Qed.

(** The words behind the first null word. *)
Fixpoint after_null (l : list Z) : list Z :=
  match l with [] => [] | x :: l => if x =? 0 then l else after_null l end.

Lemma after_null_app vars l : Forall (fun v => v <> 0) vars -> after_null (vars ++ 0 :: l) = l.
Proof. induction 1 as [|v vars Hv _ IH]; [done|]. cbn [after_null app]. by rewrite (proj2 (Z.eqb_neq _ _) Hv). Qed.

Lemma split_null env l : Forall (fun v => 0 <= v < 2 ^ 64) env ->
  exists vars, env ++ 0 :: l = vars ++ 0 :: after_null (env ++ 0 :: l) /\ Forall (fun v => 0 < v < 2 ^ 64) vars /\
    (length vars <= length env)%nat.
Proof.
  induction 1 as [|v env Hv _ (vars & E & Hp & Hn)]; [by exists []|]. cbn [app after_null length]. case Z.eqb_spec.
  - intros ->. exists []. split; [done|]. split; [constructor|cbn; lia].
  - intros Hne. exists (v :: vars). split; [cbn [app]; by f_equal|]. split; [constructor; [lia|done]|cbn; lia].
Qed.

Lemma start_run m (argv env aux : list Z) :
  list_at (words m) (rsp (reg_file m)) (guest_stack argv env aux) ->
  0 <= rsp (reg_file m) -> rsp (reg_file m) + 8 * Z.of_nat (length (guest_stack argv env aux)) < 2 ^ 64 ->
  Forall (fun v => 0 <= v < 2 ^ 64) env -> (forall m, 0 <= result m < 2 ^ 64) ->
  exists k m' r auxv,
    go k (0%nat, m) = Some (28%nat, m') /\ words m' = words m /\ 0 <= r < 2 ^ 64 /\
    let sp := rsp (reg_file m) in
    started m' (Z.of_nat (length argv)) (sp + 8) (sp + 16 + 8 * Z.of_nat (length argv)) auxv r /\
    list_at (words m) auxv (after_null (env ++ 0 :: aux ++ [0; 0])).
Proof.
  intros Hl H0 H1 He Hr. rewrite guest_stack_length in H1.
  destruct m as [[a b cx d si di bp sp e8 e9 e10 e11 e12 e13 e14 e15] z c x f fs w].
  cbn [reg_file words rsi rdi rcx rdx r8 r9 rsp rax rbx r12] in *.
  apply list_at_cons in Hl as [Hc Hl]. rewrite list_at_app in Hl. destruct Hl as [_ Hl].
  rewrite list_at_app in Hl. destruct Hl as [_ Hl]. cbn [length] in Hl. cbn [app] in Hl.
  destruct (split_null env (aux ++ [0; 0]) He) as (vars & E0 & Hp & Hn).
  revert Hl. rewrite E0 at 1. generalize (after_null (env ++ 0 :: aux ++ [0; 0])). clear E0. intros rest Hl.
  replace (vars ++ 0 :: rest) with ((vars ++ [0]) ++ rest) in Hl by (by rewrite <- app_assoc).
  rewrite list_at_app in Hl. destruct Hl as [Hl Hx].
  replace (sp + 8 + 8 * Z.of_nat (length argv) + 8 * Z.of_nat 1) with (sp + 16 + 8 * Z.of_nat (length argv)) in Hl, Hx by lia.
  edestruct (scan_loop vars a b cx d si di 0 (sp + 8) e8 e9 e10 e11 (Z.of_nat (length argv)) (sp + 8)
               (sp + 16 + 8 * Z.of_nat (length argv)) (sp + 16 + 8 * Z.of_nat (length argv)) true c x f fs w)
    as [c' E]; [lia|lia|exact Hl|exact Hp|].
  pose proof (start_prefix a b cx d si di bp sp e8 e9 e10 e11 e12 e13 e14 e15 z c x f fs w (length argv) H0 ltac:(lia) Hc) as E0.
  edestruct start_tail as (m' & r & E' & Ew & Br & S); cycle -1.
  { exists (5 + ((5 * length vars + 5) + 18))%nat, m', r, (sp + 16 + 8 * Z.of_nat (length argv) + 8 * Z.of_nat (length vars) + 8).
    split; [|split; [exact Ew|split; [exact Br|]]].
    - eapply steps_trans; [exact E0|]. eapply steps_trans; [exact E|exact E'].
    - cbn zeta. split; [exact S|]. rewrite length_app in Hx. cbn [length] in Hx.
      replace (sp + 16 + 8 * Z.of_nat (length argv) + 8 * Z.of_nat (length vars) + 8)
        with (sp + 16 + 8 * Z.of_nat (length argv) + 8 * Z.of_nat (length vars + 1)) by lia. exact Hx. }
  all: first [lia|done].
Qed.
End Start.

(** ** Theorems *)

Lemma pad_align n k : (Z.of_nat n + pad n / 8 + 2 * k) mod 2 = 0.
Proof.
  unfold pad. destruct (Nat.odd n) eqn:E.
  - apply Nat.odd_spec in E as [j ->]. replace (Z.of_nat (2 * j + 1) + 8 / 8 + 2 * k) with ((Z.of_nat j + 1 + k) * 2)
      by (change (8 / 8) with 1; lia). apply Z_mod_mult.
  - rewrite <- Nat.negb_even in E. apply negb_false_iff, Nat.even_spec in E as [j ->].
    replace (Z.of_nat (2 * j) + 0 / 8 + 2 * k) with ((Z.of_nat j + k) * 2) by (change (0 / 8) with 0; lia). apply Z_mod_mult.
Qed.

Lemma stack_aligned sp na ne nx :
  sp mod 16 = 8 -> (sp + 16 - pad (na + ne) - 8 * Z.of_nat (na + ne + 2 * nx + 5)) mod 16 = 0.
Proof.
  intros H. pose proof (pad_align (na + ne) (Z.of_nat nx)) as Hp.
  assert (pad (na + ne) = 8 * (pad (na + ne) / 8)) as E by (unfold pad; by destruct (Nat.odd _)).
  rewrite E. generalize dependent (pad (na + ne) / 8). intros q Hp _. 
  apply Z.mod_divide in Hp as [j Hj]; [|done]. apply Z.mod_divide; [done|].
  pose proof (Z.div_mod sp 16 ltac:(lia)). exists (sp / 16 - j - 1). lia.
Qed.

(** C2: [__call_entry_point] jumps to the entry point of the program.  It leaves [rsp]
    at a 16-byte boundary and there the argument count, the arguments, a null word, the
    environment, a null word, the auxiliary vector and its end marker; [r12] and [rbx]
    point to the environment and the auxiliary vector, [rax] holds 1 and [rdx] the
    function to call at exit; no word outside the new stack changes. *)
Theorem call_entry_point_spec sys callee local_fini m argv env aux entry :
  call_frame m argv env aux entry -> 0 <= local_fini < 2 ^ 64 -> rsp (reg_file m) mod 16 = 8 ->
  exists k m',
    run sys callee (call_entry_code local_fini) k (0%nat, m) = Some (entry, m') /\
    let sp := rsp (reg_file m') in
    sp mod 16 = 0 /\ list_at (words m') sp (guest_stack argv env aux) /\
    rax (reg_file m') = 1 /\ rdx (reg_file m') = local_fini /\
    list_at (words m') (r12 (reg_file m')) (env ++ [0]) /\
    list_at (words m') (rbx (reg_file m')) (aux ++ [0; 0]) /\
    same_outside sp (rsp (reg_file m) + 16) (words m) (words m').
Proof.
  intros Hf Hl Ha. pose proof (cf_auxc _ _ _ _ _ Hf) as Hx.
  destruct (call_entry_run sys callee local_fini _ _ _ _ _ Hf Hl) as (k & m' & R & Hs & L & A & D & E12 & Eb & O).
  exists k, m'. split; [done|]. cbn zeta. pose proof (guest_stack_parts _ _ _ _ _ L) as [Le Lx].
  split; [|rewrite E12, Eb; by repeat split].
  rewrite Hs, guest_stack_length. replace (length aux) with (2 * Z.to_nat (r9 (reg_file m)))%nat by lia.
  by apply stack_aligned.
Qed.

(** C9: what [_start]'s code reads from a stack that [__call_entry_point] wrote, for every
    environment.  It gets the argument count, the argument array and the environment that
    were passed on, and the scan for the auxiliary vector ends: [rcx] points behind the
    first null word of the environment part.  So when the environment was passed without a
    null word, that is the auxiliary vector that was passed.  When its terminating null word
    was counted as one of its words, which is how [__rust_entry] calls it ([envpc] is the
    distance from the environment to the auxiliary vector), the scan stops one word early,
    and what [_start] reads as the auxiliary vector begins with a null entry. *)
Theorem start_reads_call_entry sys callee local_fini prot flags rust_entry result m argv env aux entry :
  call_frame m argv env aux entry -> 0 <= local_fini < 2 ^ 64 ->
  linux_mmap result sys -> (forall x, 0 <= result x < 2 ^ 64) -> Forall (fun v => 0 <= v < 2 ^ 64) env ->
  exists k m1 j m2,
    run sys callee (call_entry_code local_fini) k (0%nat, m) = Some (entry, m1) /\
    steps sys callee (start_code prot flags rust_entry) j (0%nat, m1) = Some (28%nat, m2) /\
    rdi (reg_file m2) = Z.of_nat (length argv) /\
    list_at (words m2) (rsi (reg_file m2)) (argv ++ [0]) /\
    list_at (words m2) (rdx (reg_file m2)) (env ++ [0]) /\
    list_at (words m2) (rcx (reg_file m2)) (after_null (env ++ 0 :: aux ++ [0; 0])) /\
    (Forall (fun v => v <> 0) env -> list_at (words m2) (rcx (reg_file m2)) (aux ++ [0; 0])) /\
    (forall vars, Forall (fun v => v <> 0) vars -> env = vars ++ [0] ->
       list_at (words m2) (rcx (reg_file m2)) (0 :: aux ++ [0; 0])).
Proof.
  intros Hf Hl Hs Hr He.
  destruct (call_entry_run sys callee local_fini _ _ _ _ _ Hf Hl) as (k & m1 & R & Hsp & L & _).
  pose proof (cf_room _ _ _ _ _ Hf) as [R1 R2]. assert (0 <= pad (length argv + length env) <= 8) as Hp.
  { unfold pad. destruct (Nat.odd _); lia. }
  destruct (start_run sys callee prot flags rust_entry result Hs m1 argv env aux L) as (j & m2 & r & av & G & W & Br & S & Hx);
    [lia|lia|done|done|].
  exists k, m1, j, m2. split; [done|]. split; [done|]. destruct S as [-> -> -> -> _ _ _]. rewrite W.
  pose proof (guest_stack_parts _ _ _ _ _ L) as [Le Lx]. split; [done|]. split_and!.
  - eapply list_at_prefix. apply list_at_cons in L as [_ L]. rewrite app_assoc in L. exact L.
  - by replace (_ + 16 + _) with (rsp (reg_file m1) + 8 * Z.of_nat (length argv + 2)) by lia.
  - exact Hx.
  - intros Hn. by rewrite after_null_app in Hx.
  - intros vars Hn ->. rewrite <- app_assoc in Hx. cbn [app] in Hx. by rewrite after_null_app in Hx.
Qed.

(** A call with one argument, two variables and one auxiliary entry. *)
Definition sample_words : Z -> Z :=
  store_words (store_words (store_words (store_words (fun _ => 0) 4088 [1; 4096]) 8000 [7]) 8100 [9; 11]) 8200 [25; 77].
Definition sample_call : machine :=
  mkMach (mkRegs 0 0 2 8100 8000 1 0 4088 8200 1 0 0 0 0 0 0) false false (0, 0) [] 0 sample_words.

Lemma sample_frame : call_frame sample_call [7] [9; 11] [25; 77] 4096.
Proof.
  split; try (unfold source, apart; simpl; lia); try (repeat (apply list_at_cons; split; [reflexivity|]); apply list_at_nil).
  - intros y. unfold sample_call, sample_words, store_words, store_word. cbn [words].
    repeat (case (Z.eqb_spec _ _); intros; [lia|]). lia.
  - reflexivity.
Qed.

(** Mapping memory at a fixed address. *)
Definition sample_sys (m : machine) : machine := set_regs (set RAX 65536 (reg_file m)) m.

Lemma sample_sys_mmap : linux_mmap (fun _ => 65536) sample_sys.
Proof.
  intros [[a b cx d si di bp sp e8 e9 e10 e11 e12 e13 e14 e15] z c x f fs w]. by exists cx, e11, z, c.
Qed.

Lemma call_entry_point_spec_witness :
  exists k m', run sample_sys (fun _ m => m) (call_entry_code 512) k (0%nat, sample_call) = Some (4096, m') /\
    rsp (reg_file m') mod 16 = 0.
Proof.
  destruct (call_entry_point_spec sample_sys (fun _ m => m) 512 sample_call [7] [9; 11] [25; 77] 4096
              sample_frame ltac:(lia) eq_refl) as (k & m' & R & A & _).
  by exists k, m'.
Defined.

(** The same call with the null word behind the variable 9 counted as part of the
    environment. *)
Definition sample_call_null : machine :=
  mkMach (mkRegs 0 0 2 8100 8000 1 0 4088 8200 1 0 0 0 0 0 0) false false (0, 0) [] 0
    (store_words (store_words (store_words (store_words (fun _ => 0) 4088 [1; 4096]) 8000 [7]) 8100 [9; 0]) 8200 [25; 77]).

Lemma sample_frame_null : call_frame sample_call_null [7] [9; 0] [25; 77] 4096.
Proof.
  split; try (unfold source, apart; simpl; lia); try (repeat (apply list_at_cons; split; [reflexivity|]); apply list_at_nil).
  - intros y. unfold sample_call_null, store_words, store_word. cbn [words].
    repeat (case (Z.eqb_spec _ _); intros; [lia|]). lia.
  - reflexivity.
Qed.

Lemma start_reads_call_entry_witness :
  exists k m1 j m2,
    run sample_sys (fun _ m => m) (call_entry_code 512) k (0%nat, sample_call_null) = Some (4096, m1) /\
    steps sample_sys (fun _ m => m) (start_code 3 34 1024) j (0%nat, m1) = Some (28%nat, m2) /\
    rdi (reg_file m2) = 1 /\ list_at (words m2) (rdx (reg_file m2)) [9; 0; 0] /\
    list_at (words m2) (rcx (reg_file m2)) [0; 25; 77; 0; 0].
Proof.
  destruct (start_reads_call_entry sample_sys (fun _ m => m) 512 3 34 1024 (fun _ => 65536) sample_call_null [7] [9; 0] [25; 77] 4096
              sample_frame_null ltac:(lia) sample_sys_mmap) as (k & m1 & j & m2 & R & S & A & _ & E & X & _);
    [lia|repeat constructor; lia|].
  by exists k, m1, j, m2.
Defined.

(** The routine run on the sample. *)
Example call_entry_sample :
  (fun r => (r.1, load_words (words r.2) (rsp (reg_file r.2)) 10)) <$>
    run sample_sys (fun _ m => m) (call_entry_code 512) 80 (0%nat, sample_call) =
  Some (4096, [1; 7; 0; 9; 11; 0; 25; 77; 0; 0]).
Proof. vm_compute. reflexivity. Qed.
