(* ===== verification/Routines.v ===== *)
(** * Assembly routines of the run time

    The dispatcher of system calls [__handle_syscall] (wl-impl/src/syscall_handler.rs),
    [__setjmp] and [longjmp] (wl-impl/src/libc/libc_defs.rs) and [__tls_get_addr]
    (wl-ld-lilium/src/iface.rs), instruction by instruction. *)

From Stdlib Require Import ZArith Lia.
From stdpp Require Import base numbers list option strings.
From S2P Require Import Prelude.
From S2P Require Import Asm.
From S2P Require Import Syscalls.
From S2P Require Import Tls.

Local Open Scope Z_scope.

(** ** [__handle_syscall] *)

Definition handle_syscall_code (SUBSYS_ARR UNSUPPORTED_KERNEL_FUNCTION : Z) : list instr :=
  [Lea R11 (at_sym SUBSYS_ARR);
   Mov R10 RAX;
   ShrI R10 12;
   AndI RAX 0xFFF;
   CmpI R10 64;
   J AE F 2;
   MovL R11 (at_idx R11 R10 8 0);
   Test R11 R11;
   J Z_ F 2;
   MovL R11 (at_idx R11 RAX 8 0);
   Test R11 R11;
   J Z_ F 2;
   JmpR R11;
   Lbl 2;
   MovI RAX UNSUPPORTED_KERNEL_FUNCTION;
   Ret_].

(** The registered tables in memory: null for an empty slot, the address [tbl n] of the
    table of subsystem [n] otherwise, in it null or the address of the function. *)
Record registry_at (w : Z -> Z) (arr : Z) (tbl : nat -> Z) (fn : sysfn -> Z) (r : registry) : Prop := {
  ra_arr : 0 <= arr /\ arr + 8 * 64 < 2 ^ 64;
  ra_length : length (SYSCALL_SUBSYS_ARRAY r) = NSUBSYS;
  ra_tables : forall n t, SYSCALL_SUBSYS_ARRAY r !! n = Some (Some t) -> length t = SYSCALLS_PER_SUBSYS;
  ra_slot : forall n t, SYSCALL_SUBSYS_ARRAY r !! n = Some t ->
    w (arr + 8 * Z.of_nat n) = match t with Some _ => tbl n | None => 0 end;
  ra_table : forall n, 0 < tbl n /\ tbl n + 8 * 4096 < 2 ^ 64;
  ra_entry : forall n t k f, SYSCALL_SUBSYS_ARRAY r !! n = Some (Some t) -> t !! k = Some f ->
    w (tbl n + 8 * Z.of_nat k) = match f with Some f => fn f | None => 0 end;
  ra_fn : forall f, 0 < fn f < 2 ^ 64 }.

(** The registers a system call may not see changed. *)
Definition same_args (x y : regs) : Prop :=
  Forall (fun r => get r x = get r y) [RBX; RCX; RDX; RSI; RDI; RBP; R8; R9; R12; R13; R14; R15].

Section Dispatch.
Context (sys : machine -> machine) (callee : Z -> machine -> machine) (arr UNSUPPORTED : Z) (Harr : 0 <= arr < 2 ^ 64).
Abbreviation go := (run sys callee (handle_syscall_code arr UNSUPPORTED)).
Ltac ms := mstep handle_syscall_code.
Ltac mj H := mjump handle_syscall_code H.

(** The machine after the split of the number, at the comparison's jump. *)
Lemma split_number a b cx d si di bp sp e8 e9 e10 e11 e12 e13 e14 e15 z c x f fs w :
  0 <= a < 2 ^ 64 ->
  steps sys callee (handle_syscall_code arr UNSUPPORTED) 5
    (0%nat, mkMach (mkRegs a b cx d si di bp sp e8 e9 e10 e11 e12 e13 e14 e15) z c x f fs w) =
  Some (5%nat, mkMach (mkRegs (a mod 4096) b cx d si di bp sp e8 e9 (a / 4096) arr e12 e13 e14 e15)
                 (a / 4096 =? 64) (a / 4096 <? 64) x f fs w).
Proof.
  intros Ha. pose proof (Z.mod_pos_bound a 4096 ltac:(lia)). pose proof (Z.div_pos a 4096 ltac:(lia) ltac:(lia)).
  assert (a / 4096 < 2 ^ 64) by (apply Z.div_lt_upper_bound; lia).
  ms. ms. ms. rewrite Z.shiftr_div_pow2 by lia. change (2 ^ 12) with 4096. unwrap. ms.
  change 4095 with (Z.ones 12). rewrite Z.land_ones by lia. change (2 ^ 12) with 4096. unwrap. ms. reflexivity.
Qed.

(** The three ways on from there: no such subsystem, no such call, a jump. *)
Lemma dispatch_big no q b cx d si di bp sp e8 e9 e12 e13 e14 e15 z x f fs w :
  0 <= sp -> sp + 8 < 2 ^ 64 ->
  go 4 (5%nat, mkMach (mkRegs no b cx d si di bp sp e8 e9 q arr e12 e13 e14 e15) z false x f fs w) =
  Some (w sp, mkMach (mkRegs (usize_wrap UNSUPPORTED) b cx d si di bp (sp + 8) e8 e9 q arr e12 e13 e14 e15) z false x f fs w).
Proof. intros. ms. ms. ms. mleave handle_syscall_code. unwrap. reflexivity. Qed.

Lemma dispatch_null no q b cx d si di bp sp e8 e9 e12 e13 e14 e15 z x f fs w :
  0 <= q < 64 -> arr + 8 * 64 < 2 ^ 64 -> w (arr + 8 * q) = 0 -> 0 <= sp -> sp + 8 < 2 ^ 64 ->
  go 7 (5%nat, mkMach (mkRegs no b cx d si di bp sp e8 e9 q arr e12 e13 e14 e15) z true x f fs w) =
  Some (w sp, mkMach (mkRegs (usize_wrap UNSUPPORTED) b cx d si di bp (sp + 8) e8 e9 q 0 e12 e13 e14 e15) true false x f fs w).
Proof.
  intros Hq Ha Hn ? ?. ms. ms. replace (q * 8) with (8 * q) by lia. rewrite Hn. unwrap. ms. mj test_zero. ms. ms.
  mleave handle_syscall_code. unwrap. reflexivity.
Qed.

Lemma dispatch_table no q t v b cx d si di bp sp e8 e9 e12 e13 e14 e15 z x f fs w :
  0 <= q < 64 -> arr + 8 * 64 < 2 ^ 64 -> w (arr + 8 * q) = t -> 0 < t -> t + 8 * 4096 < 2 ^ 64 ->
  0 <= no < 4096 -> w (t + 8 * no) = v -> 0 <= v < 2 ^ 64 -> 0 <= sp -> sp + 8 < 2 ^ 64 ->
  go 10 (5%nat, mkMach (mkRegs no b cx d si di bp sp e8 e9 q arr e12 e13 e14 e15) z true x f fs w) =
  Some (if v =? 0
        then (w sp, mkMach (mkRegs (usize_wrap UNSUPPORTED) b cx d si di bp (sp + 8) e8 e9 q v e12 e13 e14 e15)
                      true false x f fs w)
        else (v, mkMach (mkRegs no b cx d si di bp sp e8 e9 q v e12 e13 e14 e15) false false x f fs w)).
Proof.
  intros Hq Ha Hn Ht Hb Hno Hv Bv ? ?. pose proof (test_pos t ltac:(lia)) as Htt.
  ms. ms. replace (q * 8) with (8 * q) by lia. rewrite Hn. unwrap. ms. mj Htt. ms.
  replace (no * 8) with (8 * no) by lia. rewrite Hv. unwrap. ms.
  destruct (Z.eqb_spec v 0) as [->|Hne].
  - mj test_zero. ms. ms. mleave handle_syscall_code. unwrap. reflexivity.
  - pose proof (test_pos v ltac:(lia)) as Hvt. mj Hvt. mleave handle_syscall_code. reflexivity.
Qed.
End Dispatch.

(** Put the two halves of a run together and read off the result. *)
Ltac dispatched G tac :=
  eexists; split; [|split; [|split]]; cycle 2;
  [change 16%nat with (5 + 11)%nat; eapply run_steps; [exact G|]; eapply run_more; [tac|lia]
  |done|done|by repeat constructor].

Lemma handle_syscall_run sys callee arr UNSUPPORTED tbl fn r m :
  registry_at (words m) arr tbl fn r ->
  (forall y, 0 <= words m y < 2 ^ 64) -> 0 <= rax (reg_file m) < 2 ^ 64 -> 0 <= rsp (reg_file m) -> rsp (reg_file m) + 8 < 2 ^ 64 ->
  exists m', words m' = words m /\ same_args (reg_file m') (reg_file m) /\
  match handle_syscall r (rax (reg_file m)) with
  | Jump f =>
    run sys callee (handle_syscall_code arr UNSUPPORTED) 16 (0%nat, m) = Some (fn f, m') /\
    rax (reg_file m') = Z.land (rax (reg_file m)) 0xFFF /\ rsp (reg_file m') = rsp (reg_file m)
  | Unsupported =>
    run sys callee (handle_syscall_code arr UNSUPPORTED) 16 (0%nat, m) = Some (words m (rsp (reg_file m)), m') /\
    rax (reg_file m') = usize_wrap UNSUPPORTED /\ rsp (reg_file m') = rsp (reg_file m) + 8
  end.
Proof.
  intros [[A0 A1] Hl Ht Hslot Htbl Hent Hfn] Hw Ha Hs0 Hs1.
  destruct m as [[a b cx d si di bp sp e8 e9 e10 e11 e12 e13 e14 e15] z c x f fs w].
  cbn [reg_file words rsp rax] in *.
  pose proof (split_number sys callee arr UNSUPPORTED ltac:(lia) a b cx d si di bp sp e8 e9 e10 e11 e12 e13 e14 e15 z c x f fs w Ha) as G.
  pose proof (Z.mod_pos_bound a 4096 ltac:(lia)) as Hno. pose proof (Z.div_pos a 4096 ltac:(lia) ltac:(lia)).
  unfold handle_syscall. change (Z.of_nat NSUBSYS) with 64.
  rewrite Z.shiftr_div_pow2 by lia. change (2 ^ 12) with 4096.
  change 4095 with (Z.ones 12). rewrite Z.land_ones by lia. change (2 ^ 12) with 4096.
  set (q := a / 4096) in *. set (no := a mod 4096) in *.
  destruct (Z.leb_spec 64 q) as [Hq|Hq].
  { rewrite (proj2 (Z.ltb_ge q 64)) in G by lia. dispatched G ltac:(by apply dispatch_big). }
  rewrite (proj2 (Z.ltb_lt q 64)) in G by lia.
  destruct (lookup_lt_is_Some_2 (SYSCALL_SUBSYS_ARRAY r) (Z.to_nat q)) as [[t|] Et]; [rewrite Hl; unfold NSUBSYS; lia| |];
    pose proof (Hslot _ _ Et) as Es; rewrite Z2Nat.id in Es by lia; rewrite Et.
  2:{ dispatched G ltac:(apply dispatch_null; [lia|lia|done|exact Es|done..]). }
  destruct (lookup_lt_is_Some_2 t (Z.to_nat no)) as [fo Ef]; [rewrite (Ht _ _ Et); unfold SYSCALLS_PER_SUBSYS; lia|].
  pose proof (Hent _ _ _ _ Et Ef) as Ev. rewrite Z2Nat.id in Ev by lia. rewrite Ef.
  destruct (Htbl (Z.to_nat q)) as [Ht0 Ht1].
  pose proof (dispatch_table sys callee arr UNSUPPORTED ltac:(lia) no q _ _ b cx d si di bp sp e8 e9 e12 e13 e14 e15 (q =? 64) x f fs w
     ltac:(lia) A1 Es Ht0 Ht1 Hno Ev) as D.
  destruct fo as [fo|].
  - pose proof (Hfn fo). specialize (D ltac:(lia) Hs0 Hs1). rewrite (proj2 (Z.eqb_neq (fn fo) 0)) in D by lia.
    dispatched G ltac:(exact D).
  - specialize (D ltac:(lia) Hs0 Hs1). dispatched G ltac:(exact D).
Qed.

(** C4: the dispatcher as written in assembly does what the table lookup of the model
    says: it jumps to the function registered under the number in [rax], with the stack
    and the argument registers as the caller left them, or returns the error code to
    the caller when there is none; memory is only read. *)
Theorem handle_syscall_refines sys callee arr UNSUPPORTED tbl fn r m :
  registry_at (words m) arr tbl fn r ->
  (forall y, 0 <= words m y < 2 ^ 64) -> 0 <= rax (reg_file m) < 2 ^ 64 -> 0 <= rsp (reg_file m) -> rsp (reg_file m) + 8 < 2 ^ 64 ->
  exists m', words m' = words m /\ same_args (reg_file m') (reg_file m) /\
  match handle_syscall r (rax (reg_file m)) with
  | Jump f =>
    run sys callee (handle_syscall_code arr UNSUPPORTED) 16 (0%nat, m) = Some (fn f, m') /\
    rax (reg_file m') = Z.land (rax (reg_file m)) 0xFFF /\ rsp (reg_file m') = rsp (reg_file m)
  | Unsupported =>
    run sys callee (handle_syscall_code arr UNSUPPORTED) 16 (0%nat, m) = Some (words m (rsp (reg_file m)), m') /\
    rax (reg_file m') = usize_wrap UNSUPPORTED /\ rsp (reg_file m') = rsp (reg_file m) + 8
  end.
Proof. apply handle_syscall_run. Qed.

(** ** [__setjmp] and [longjmp] *)

Definition setjmp_code : list instr :=
  [MovI RAX 0;
   MovS (at_reg RDI 0) RBX;
   MovS (at_reg RDI 8) RBP;
   MovS (at_reg RDI 16) R12;
   MovS (at_reg RDI 24) R13;
   MovS (at_reg RDI 32) R14;
   MovS (at_reg RDI 40) R15;
   Pop RSI;
   MovS (at_reg RDI 48) RSP;
   MovS (at_reg RDI 56) RSI;
   JmpR RSI].
Definition longjmp_code : list instr :=
  [MovI RAX 1;
   Test RSI RSI;
   Cmovne RAX RSI;
   MovL RBX (at_reg RDI 0);
   MovL RBP (at_reg RDI 8);
   MovL R12 (at_reg RDI 16);
   MovL R13 (at_reg RDI 24);
   MovL R14 (at_reg RDI 32);
   MovL R15 (at_reg RDI 40);
   MovL RSP (at_reg RDI 48);
   MovL RDI (at_reg RDI 56);
   JmpR RDI].

(** The registers a function of the C calling convention gives back unchanged. *)
Definition callee_saved : list reg := [RBX; RBP; R12; R13; R14; R15].
Definition same_on (l : list reg) (x y : regs) : Prop := Forall (fun r => get r x = get r y) l.

(** Every register holds a 64-bit value. *)
Definition regs_ok (x : regs) : Prop := forall r, 0 <= get r x < 2 ^ 64.

Ltac sj := mstep setjmp_code.
Ltac lj := mstep longjmp_code.

Lemma setjmp_run sys callee m :
  let sp := rsp (reg_file m) in
  let buf := rdi (reg_file m) in
  regs_ok (reg_file m) -> sp + 8 < 2 ^ 64 -> buf + 64 < 2 ^ 64 -> apart buf 64 sp 8 -> 0 <= words m sp < 2 ^ 64 ->
  exists m', run sys callee setjmp_code 11 (0%nat, m) = Some (words m sp, m') /\
    rax (reg_file m') = 0 /\ rsp (reg_file m') = sp + 8 /\ same_on callee_saved (reg_file m') (reg_file m) /\
    list_at (words m') buf ((fun r => get r (reg_file m')) <$> [RBX; RBP; R12; R13; R14; R15; RSP]) /\
    words m' (buf + 56) = words m sp /\ same_outside buf (buf + 64) (words m) (words m').
Proof.
  intros sp buf Hr Hsp Hbuf Hap Hret. subst sp buf.
  pose proof (Hr RDI). pose proof (Hr RSP).
  destruct m as [[a b cx d si di bp sp e8 e9 e10 e11 e12 e13 e14 e15] z c x f fs w].
  cbn [reg_file words rsp rax rdi get] in *. unfold apart in *.
  eexists. split.
  { sj. sj. sj. sj. sj. sj. sj. sj.
    rewrite !store_word_ne by lia. unwrap. sj. sj. mleave setjmp_code. reflexivity. }
  cbn [reg_file words]. split_and!; [done|done|by repeat constructor| |by rewrite store_word_same|].
  - cbn [fmap list_fmap]. repeat (apply list_at_cons; split; [unfold store_word; repeat case Z.eqb_spec; intros; try lia; reflexivity|]).
    apply list_at_nil.
  - intros y Hy. rewrite !store_word_ne by lia. done.
Qed.

Lemma longjmp_run sys callee m vals pc :
  let buf := rdi (reg_file m) in
  regs_ok (reg_file m) -> buf + 64 < 2 ^ 64 -> Forall (fun v => 0 <= v < 2 ^ 64) vals -> 0 <= pc < 2 ^ 64 ->
  length vals = 7%nat -> list_at (words m) buf (vals ++ [pc]) ->
  exists m', run sys callee longjmp_code 12 (0%nat, m) = Some (pc, m') /\
    rax (reg_file m') = (if rsi (reg_file m) =? 0 then 1 else rsi (reg_file m)) /\
    (fun r => get r (reg_file m')) <$> [RBX; RBP; R12; R13; R14; R15; RSP] = vals /\
    words m' = words m.
Proof.
  intros buf Hr Hbuf Hv Hpc Hn Hl. subst buf. pose proof (Hr RDI). pose proof (Hr RSI).
  destruct m as [[a b cx d si di bp sp e8 e9 e10 e11 e12 e13 e14 e15] z c x f fs w].
  cbn [reg_file words rsp rax rdi rsi get] in *.
  do 7 (destruct vals as [|? vals]; [done|]). destruct vals; [|done]. clear Hn.
  repeat (apply Forall_cons_1 in Hv as [? Hv]). cbn [app] in Hl.
  pose proof (Hl 0%nat _ eq_refl) as M0. pose proof (Hl 1%nat _ eq_refl) as M1. pose proof (Hl 2%nat _ eq_refl) as M2.
  pose proof (Hl 3%nat _ eq_refl) as M3. pose proof (Hl 4%nat _ eq_refl) as M4. pose proof (Hl 5%nat _ eq_refl) as M5.
  pose proof (Hl 6%nat _ eq_refl) as M6. pose proof (Hl 7%nat _ eq_refl) as M7.
  change (8 * Z.of_nat 0) with 0 in M0. rewrite Z.add_0_r in M0. change (8 * Z.of_nat 1) with 8 in M1.
  change (8 * Z.of_nat 2) with 16 in M2. change (8 * Z.of_nat 3) with 24 in M3. change (8 * Z.of_nat 4) with 32 in M4.
  change (8 * Z.of_nat 5) with 40 in M5. change (8 * Z.of_nat 6) with 48 in M6. change (8 * Z.of_nat 7) with 56 in M7.
  destruct (Z.eqb_spec si 0) as [->|Hs].
  2: pose proof (test_pos si ltac:(lia)) as Hsi.
  all: eexists; split; [lj; lj; first [mjump longjmp_code test_zero|mjump longjmp_code Hsi];
    lj; rewrite M0; unwrap; lj; rewrite M1; unwrap; lj; rewrite M2; unwrap; lj; rewrite M3; unwrap;
    lj; rewrite M4; unwrap; lj; rewrite M5; unwrap; lj; rewrite M6; unwrap; lj; rewrite M7; unwrap;
    mleave longjmp_code; reflexivity|done].
Qed.

(** C34: [longjmp] returns to the place of [__setjmp]: whatever ran in between, as long
    as the buffer is intact, the second return is to the address of the first, with the
    stack pointer and the callee-saved registers of the first, and with the status in
    [rax], where 0 becomes 1; [__setjmp] itself returns 0 and writes only the buffer. *)
Theorem longjmp_setjmp sys callee m :
  let sp := rsp (reg_file m) in
  let buf := rdi (reg_file m) in
  regs_ok (reg_file m) -> sp + 8 < 2 ^ 64 -> buf + 64 < 2 ^ 64 -> apart buf 64 sp 8 -> 0 <= words m sp < 2 ^ 64 ->
  exists m1, run sys callee setjmp_code 11 (0%nat, m) = Some (words m sp, m1) /\
    rax (reg_file m1) = 0 /\ rsp (reg_file m1) = sp + 8 /\ same_on callee_saved (reg_file m1) (reg_file m) /\
    same_outside buf (buf + 64) (words m) (words m1) /\
    forall m2, regs_ok (reg_file m2) -> rdi (reg_file m2) = buf ->
      (forall i, 0 <= i < 8 -> words m2 (buf + 8 * i) = words m1 (buf + 8 * i)) ->
      exists m3, run sys callee longjmp_code 12 (0%nat, m2) = Some (words m sp, m3) /\
        rax (reg_file m3) = (if rsi (reg_file m2) =? 0 then 1 else rsi (reg_file m2)) /\
        same_on (RSP :: callee_saved) (reg_file m3) (reg_file m1) /\ words m3 = words m2.
Proof.
  intros sp buf Hr Hsp Hbuf Hap Hret. pose proof (Hr RSP) as Hrsp. cbn [get] in Hrsp.
  destruct (setjmp_run sys callee m Hr Hsp Hbuf Hap Hret) as (m1 & R1 & A & S & CS & L & Hpc & O).
  exists m1. do 5 (split; [done|]). intros m2 Hr2 Hb Hw.
  assert (Hl : list_at (words m2) buf (((fun r => get r (reg_file m1)) <$> [RBX; RBP; R12; R13; R14; R15; RSP]) ++ [words m sp])).
  { intros i y Hi. pose proof (lookup_lt_Some _ _ _ Hi) as Hlt. cbn in Hlt. rewrite Hw by lia.
    refine (proj2 (list_at_snoc _ _ _ _) (conj L _) i y Hi). exact Hpc. }
  rewrite <- Hb in Hl.
  assert (Hv : Forall (fun v => 0 <= v < 2 ^ 64) ((fun r => get r (reg_file m1)) <$> [RBX; RBP; R12; R13; R14; R15; RSP])).
  { clear Hl. unfold same_on, callee_saved in CS. cbn [fmap list_fmap].
    repeat (apply Forall_cons_1 in CS as [? CS]). pose proof (Hr RBX). pose proof (Hr RBP). pose proof (Hr R12).
    pose proof (Hr R13). pose proof (Hr R14). pose proof (Hr R15). cbn [get] in *. subst sp.
    repeat (constructor; [lia|]). constructor. }
  destruct (longjmp_run sys callee m2 _ _ Hr2 ltac:(rewrite Hb; exact Hbuf) Hv Hret eq_refl Hl) as (m3 & R3 & A3 & V3 & W3).
  exists m3. split; [done|]. split; [done|]. split; [|done]. cbn [fmap list_fmap] in V3. injection V3 as ? ? ? ? ? ? ?.
  by repeat constructor.
Qed.

Definition sample_jmp : machine :=
  mkMach (mkRegs 1 2 3 4 5 4096 7 8192 8 9 10 11 12 13 14 15) false false (0, 0) [] 0 (store_word (fun _ => 0) 8192 600).

Lemma longjmp_setjmp_witness :
  exists m1, run (fun m => m) (fun _ m => m) setjmp_code 11 (0%nat, sample_jmp) = Some (600, m1) /\
    exists m3, run (fun m => m) (fun _ m => m) longjmp_code 12
      (0%nat, set_regs (set RDI 4096 (set RSI 0 (set RBX 99 (reg_file m1)))) m1) = Some (600, m3) /\
      rax (reg_file m3) = 1 /\ same_on (RSP :: callee_saved) (reg_file m3) (reg_file m1).
Proof.
  destruct (longjmp_setjmp (fun m => m) (fun _ m => m) sample_jmp) as (m1 & R1 & _ & Sp & CS & _ & H2);
    [intros []; simpl; lia|simpl; lia|simpl; lia|unfold apart; simpl; lia|vm_compute; split; [discriminate|reflexivity]|].
  exists m1. split; [exact R1|].
  destruct (H2 (set_regs (set RDI 4096 (set RSI 0 (set RBX 99 (reg_file m1)))) m1)) as (m3 & R3 & A & S & _);
    [|by destruct m1 as [[]]|by intros; destruct m1 as [[]]|].
  - vm_compute in R1. injection R1 as <-. intros []; cbv; split; discriminate || reflexivity.
  - exists m3. split; [exact R3|]. split; [rewrite A; by destruct m1 as [[]]|exact S].
Defined.

(** ** [__tls_get_addr] *)

(** [offset_of!(Tcb, version)]. *)
Definition TCB_VERSION : Z := 24.

Definition tls_get_addr_code (TLS_MC update_global_tcb : Z) : list instr :=
  [MovL RAX (at_sym TLS_MC);
   MovL RAX (at_reg RAX TCB_VERSION);
   CmpM RAX (at_fs TCB_VERSION);
   J NZ F 3;
   Lbl 2;
   MovL RAX (at_reg RDI 0);
   AddM RAX (at_reg RDI 8);
   AddM RAX (at_fs 0);
   Ret_;
   Lbl 3;
   Push RAX; Push RDI; Push RSI; Push RDX; Push RCX; Push R8; Push R9; Push R10; Push R11;
   SubI RSP 464;
   Fxsave (at_reg RSP 0);
   Call update_global_tcb;
   Fxrstor (at_reg RSP 0);
   AddI RSP 464;
   Pop R11; Pop R10; Pop R9; Pop R8; Pop RCX; Pop RDX; Pop RSI; Pop RDI; Pop RAX;
   Jmp B 2].

Section TlsGetAddr.
Context (sys : machine -> machine) (callee : Z -> machine -> machine) (TLS_MC UPDATE : Z).
Abbreviation code := (tls_get_addr_code TLS_MC UPDATE).
Ltac ms := mstep tls_get_addr_code.
Ltac mj H := mjump tls_get_addr_code H.

Lemma fx_aligned sp : 536 <= sp < 2 ^ 64 -> sp mod 16 = 8 -> (usize_wrap (0 + (sp - 536) + 0 + 0) mod 16 =? 0) = true.
Proof.
  intros Hsp Ha. unwrap. apply Z.eqb_eq, Z.mod_divide; [lia|]. pose proof (Z.div_mod sp 16 ltac:(lia)).
  exists (sp / 16 - 33). lia.
Qed.

Lemma fx_area_length x f : length f = 56%nat -> length (fx_area x f) = 58%nat.
Proof. intros Hf. unfold fx_area. rewrite !length_app, length_take, length_drop. cbn [length]. lia. Qed.

(** The path that updates: everything the call may change is on the stack, which is
    aligned for it. *)
Lemma slow_prefix a b cx d si di bp sp e8 e9 e10 e11 e12 e13 e14 e15 c x f fs w :
  length f = 56%nat -> 536 <= sp < 2 ^ 64 -> sp mod 16 = 8 ->
  exists w1 z1 c1,
  steps sys callee code 13 (3%nat, mkMach (mkRegs a b cx d si di bp sp e8 e9 e10 e11 e12 e13 e14 e15) false c x f fs w) =
  Some (21%nat, mkMach (mkRegs a b cx d si di bp (sp - 536) e8 e9 e10 e11 e12 e13 e14 e15) z1 c1 x f fs w1) /\
  list_at w1 (sp - 536) (fx_area x f ++ [e11; e10; e9; e8; cx; d; si; di; a]) /\
  same_outside (sp - 536) sp w w1.
Proof.
  intros Hf Hsp Ha. pose proof (fx_aligned sp Hsp Ha) as Hal. pose proof (fx_area_length x f Hf) as Hn.
  eexists _, _, _. split.
  { ms. ms. ms. ms. ms. ms. ms. ms. ms. ms. ms. ms.
    replace (sp - 8 - 8 - 8 - 8 - 8 - 8 - 8 - 8 - 8 - 464) with (sp - 536) by lia.
    mj Hal. cbn [steps]. unwrap. reflexivity. }
  split.
  - apply list_at_app. split; [apply store_words_list|]. rewrite Hn.
    change (8 * Z.of_nat 58) with 464.
    eapply list_at_same; [apply store_words_outside|rewrite Hn; lia|].
    repeat (apply list_at_cons; split; [unfold store_word; repeat case Z.eqb_spec; intros; try lia; reflexivity|]).
    apply list_at_nil.
  - intros y Hy. rewrite store_words_outside by (rewrite Hn; lia). rewrite !store_word_ne by lia. done.
Qed.

Lemma slow_suffix a b cx d si di bp sp e8 e9 e10 e11 e12 e13 e14 e15 x f fs w m' :
  length f = 56%nat -> 536 <= sp < 2 ^ 64 -> sp mod 16 = 8 ->
  Forall (fun v => 0 <= v < 2 ^ 64) [e11; e10; e9; e8; cx; d; si; di; a] ->
  list_at w (sp - 536) (fx_area x f ++ [e11; e10; e9; e8; cx; d; si; di; a]) ->
  rsp (reg_file m') = sp - 536 -> fs_base m' = fs -> words m' = w ->
  same_on callee_saved (reg_file m') (mkRegs a b cx d si di bp sp e8 e9 e10 e11 e12 e13 e14 e15) ->
  exists z1 c1,
  steps sys callee code 12 (22%nat, m') =
  Some (4%nat, mkMach (mkRegs a b cx d si di bp sp e8 e9 e10 e11 e12 e13 e14 e15) z1 c1 x f fs w).
Proof.
  intros Hf Hsp Ha Bc L Hs Hfs Hw CS. pose proof (fx_aligned sp Hsp Ha) as Hal. pose proof (fx_area_length x f Hf) as Hn.
  destruct m' as [[a' b' cx' d' si' di' bp' sp' e8' e9' e10' e11' e12' e13' e14' e15'] z' c' x' f' fs' w'].
  cbn [reg_file rsp fs_base words] in *. subst sp' fs' w'. unfold same_on, callee_saved in CS.
  repeat (apply Forall_cons_1 in CS as [? CS]). cbn [get reg_file rbx rbp r12 r13 r14 r15] in *. subst.
  repeat (apply Forall_cons_1 in Bc as [? Bc]).
  apply list_at_app in L as [Lf L]. rewrite Hn in L. change (8 * Z.of_nat 58) with 464 in L.
  apply list_at_cons in L as [P1 L]. apply list_at_cons in L as [P2 L]. apply list_at_cons in L as [P3 L].
  apply list_at_cons in L as [P4 L]. apply list_at_cons in L as [P5 L]. apply list_at_cons in L as [P6 L].
  apply list_at_cons in L as [P7 L]. apply list_at_cons in L as [P8 L]. apply list_at_cons in L as [P9 _].
  eexists _, _. mj Hal. rewrite <- Hn, (load_words_list _ _ _ Lf), fx_restore_area by done. ms.
  ms. rewrite P1. unwrap. ms. rewrite P2. unwrap. ms. rewrite P3. unwrap. ms. rewrite P4. unwrap. ms. rewrite P5. unwrap.
  ms. rewrite P6. unwrap. ms. rewrite P7. unwrap. ms. rewrite P8. unwrap. ms. rewrite P9. unwrap. ms.
  cbn [steps]. same_state.
Qed.

(** The fast path, from label 2. *)
Lemma fast_path a b cx d si di bp sp e8 e9 e10 e11 e12 e13 e14 e15 z c x f fs w :
  0 <= di -> di + 16 < 2 ^ 64 -> 0 <= fs < 2 ^ 64 -> 0 <= sp -> sp + 8 < 2 ^ 64 -> 0 <= w di < 2 ^ 64 ->
  exists z1 c1,
  run sys callee code 5 (4%nat, mkMach (mkRegs a b cx d si di bp sp e8 e9 e10 e11 e12 e13 e14 e15) z c x f fs w) =
  Some (w sp, mkMach (mkRegs (usize_wrap (usize_wrap (w di + w (di + 8)) + w fs)) b cx d si di bp (sp + 8) e8 e9 e10 e11 e12 e13 e14 e15)
                 z1 c1 x f fs w).
Proof. intros. eexists _, _. ms. ms. ms. ms. mleave tls_get_addr_code. unwrap. reflexivity. Qed.

(** The comparison of the versions. *)
Lemma compare_versions a b cx d si di bp sp e8 e9 e10 e11 e12 e13 e14 e15 z c x f fs w vm vt :
  (forall y, 0 <= w y < 2 ^ 64) -> 0 <= TLS_MC < 2 ^ 64 -> w TLS_MC + 32 < 2 ^ 64 -> 0 <= fs -> fs + 32 < 2 ^ 64 ->
  vm = w (w TLS_MC + TCB_VERSION) -> vt = w (fs + TCB_VERSION) ->
  steps sys callee code 3 (0%nat, mkMach (mkRegs a b cx d si di bp sp e8 e9 e10 e11 e12 e13 e14 e15) z c x f fs w) =
  Some (3%nat, mkMach (mkRegs vm b cx d si di bp sp e8 e9 e10 e11 e12 e13 e14 e15) (vm =? vt) (vm <? vt) x f fs w).
Proof.
  intros Hw Hm0 Hm2 Hf0 Hf1 -> ->. pose proof (Hw TLS_MC). pose proof (Hw (w TLS_MC + TCB_VERSION)). unfold TCB_VERSION in *.
  mstep tls_get_addr_code. mstep tls_get_addr_code. unfold TCB_VERSION. unwrap.
  eapply steps_S; [machine_eval tls_get_addr_code; reflexivity|]. unfold TCB_VERSION. unwrap. cbn [steps]. same_state.
Qed.
End TlsGetAddr.

(** What [__rtld_update_global_tcb] promises as a function of the C calling convention: it
    gives back the stack pointer and the callee-saved registers, and it writes only the
    words it owns: the thread's block and its own stack frame. *)
Definition c_call (own : Z -> Prop) (f : machine -> machine) : Prop :=
  forall m, rsp (reg_file m) mod 16 = 0 ->
    same_on (RSP :: callee_saved) (reg_file (f m)) (reg_file m) /\ fs_base (f m) = fs_base m /\
    (forall y, ~ own y -> words (f m) y = words m y).

Lemma tls_get_addr_returns m mb t b tp md off :
  exists t' b', tls_get_addr true m mb t b tp md off = Ret (t', b', usize_wrap (usize_wrap (md + off) + tp)).
Proof.
  unfold tls_get_addr, update_tls. cbn [negb].
  destruct (version m =? version t); [by eexists _, _|].
  destruct (load_size t <? load_size m); cbn [mbind outcome_bind dyn_size];
    destruct (dyn_size t <? dyn_size m); cbn [mbind outcome_bind]; by eexists _, _.
Qed.

(** The registers other than [rax] and [rsp]. *)
Definition others : list reg := [RBX; RCX; RDX; RSI; RDI; RBP; R8; R9; R10; R11; R12; R13; R14; R15].

(** A call of [__tls_get_addr]: the return address on the stack, the descriptor in [rdi]. *)
Record tls_call (m : machine) (TLS_MC : Z) (own : Z -> Prop) : Prop := {
  tc_regs : regs_ok (reg_file m);
  tc_words : forall y, 0 <= words m y < 2 ^ 64;
  tc_fpu : length (fpu m) = 56%nat;
  tc_align : rsp (reg_file m) mod 16 = 8;
  tc_room : 536 <= rsp (reg_file m) /\ rsp (reg_file m) + 8 < 2 ^ 64;
  tc_desc : rdi (reg_file m) + 16 < 2 ^ 64;
  tc_tp : 0 <= fs_base m /\ fs_base m + 32 < 2 ^ 64;
  tc_mc : 0 <= TLS_MC < 2 ^ 64 /\ words m TLS_MC + 32 < 2 ^ 64;
  tc_stack : forall y, rsp (reg_file m) - 536 <= y <= rsp (reg_file m) -> ~ own y;
  tc_kept : ~ own (rdi (reg_file m)) /\ ~ own (rdi (reg_file m) + 8) /\ ~ own (fs_base m);
  tc_apart : forall y, y = rdi (reg_file m) \/ y = rdi (reg_file m) + 8 \/ y = fs_base m ->
    y < rsp (reg_file m) - 536 \/ rsp (reg_file m) <= y }.

(** C21: [__tls_get_addr] as written in assembly returns the address the model computes,
    calls the update exactly when the versions differ, with an aligned stack, and gives
    back every register but [rax], the vector registers and the floating-point state
    included, on both paths. *)
Theorem tls_get_addr_refines sys callee TLS_MC UPDATE own m mt mb t b :
  tls_call m TLS_MC own -> c_call own (callee UPDATE) ->
  version mt = words m (words m TLS_MC + TCB_VERSION) -> version t = words m (fs_base m + TCB_VERSION) ->
  exists k m' t' b',
    run sys callee (tls_get_addr_code TLS_MC UPDATE) k (0%nat, m) = Some (words m (rsp (reg_file m)), m') /\
    tls_get_addr true mt mb t b (words m (fs_base m)) (words m (rdi (reg_file m))) (words m (rdi (reg_file m) + 8)) =
      Ret (t', b', rax (reg_file m')) /\
    rsp (reg_file m') = rsp (reg_file m) + 8 /\ same_on others (reg_file m') (reg_file m) /\
    xmm0 m' = xmm0 m /\ fpu m' = fpu m /\ fs_base m' = fs_base m /\
    if version mt =? version t then words m' = words m
    else exists mc, rsp (reg_file mc) mod 16 = 0 /\ same_outside (rsp (reg_file m) - 536) (rsp (reg_file m)) (words m) (words mc) /\
           words m' = words (callee UPDATE mc).
Proof.
  intros [Hr Hw Hf Ha [Hs0 Hs1] Hd [Ht0 Ht1] [[Hm0 Hm1] Hm2] Hst (Hk1 & Hk2 & Hk3) Hap] Hc Vm Vt.
  destruct (tls_get_addr_returns mt mb t b (words m (fs_base m)) (words m (rdi (reg_file m))) (words m (rdi (reg_file m) + 8)))
    as (t' & b' & Emodel).
  pose proof (Hr RDI) as HrDI. pose proof (Hr RSP) as HrSP.
  destruct m as [[a b0 cx d si di bp sp e8 e9 e10 e11 e12 e13 e14 e15] z c x f fs w].
  cbn [reg_file words fpu fs_base rsp rdi get xmm0] in *.
  pose proof (compare_versions sys callee TLS_MC UPDATE a b0 cx d si di bp sp e8 e9 e10 e11 e12 e13 e14 e15 z c x f fs w _ _
    Hw (conj Hm0 Hm1) Hm2 Ht0 Ht1 Vm Vt) as G. pose proof (Hw (w TLS_MC + TCB_VERSION)). rewrite <- Vm in *.
  destruct (version mt =? version t) eqn:Ev.
  - destruct (fast_path sys callee TLS_MC UPDATE (version mt) b0 cx d si di bp sp e8 e9 e10 e11 e12 e13 e14 e15 true (version mt <? version t) x f fs w)
      as (z1 & c1 & R); [lia..|apply Hw|].
    eexists (3 + (1 + 5))%nat, _, t', b'. split.
    { eapply run_steps; [exact G|]. eapply run_steps; [mstep tls_get_addr_code; reflexivity|exact R]. }
    split; [exact Emodel|by repeat split; repeat constructor].
  - destruct (slow_prefix sys callee TLS_MC UPDATE (version mt) b0 cx d si di bp sp e8 e9 e10 e11 e12 e13 e14 e15 (version mt <? version t) x f fs w Hf ltac:(lia) Ha)
      as (w1 & z1 & c1 & G1 & L1 & O1).
    set (mc := mkMach (mkRegs (version mt) b0 cx d si di bp (sp - 536) e8 e9 e10 e11 e12 e13 e14 e15) z1 c1 x f fs w1) in *.
    assert (Hal : rsp (reg_file mc) mod 16 = 0).
    { apply Z.mod_divide; [lia|]. pose proof (Z.div_mod sp 16 ltac:(lia)). exists (sp / 16 - 33). simpl. lia. }
    destruct (Hc mc Hal) as (CS & Hfs & Hkeep). apply Forall_cons_1 in CS as [Hrsp CS].
    destruct (slow_suffix sys callee TLS_MC UPDATE (version mt) b0 cx d si di bp sp e8 e9 e10 e11 e12 e13 e14 e15 x f fs
                (words (callee UPDATE mc)) (callee UPDATE mc)) as (z2 & c2 & G2);
      [done|lia|done| | |exact Hrsp|exact Hfs|done
      |unfold same_on, callee_saved in *; repeat (apply Forall_cons_1 in CS as [? CS]); by repeat constructor|].
    + pose proof (Hr R11). pose proof (Hr R10). pose proof (Hr R9). pose proof (Hr R8). pose proof (Hr RCX).
      pose proof (Hr RDX). pose proof (Hr RSI). cbn [get] in *. repeat (constructor; [cbn in *; lia|]). constructor.
    + intros i y Hi. rewrite Hkeep; [by apply L1|]. apply Hst. apply lookup_lt_Some in Hi.
      rewrite length_app, fx_area_length in Hi by done. simpl in Hi. lia.
    + assert (Hdi := Hap di ltac:(auto)). assert (Hdi8 := Hap (di + 8) ltac:(auto)). assert (Hfs' := Hap fs ltac:(auto)).
      destruct (fast_path sys callee TLS_MC UPDATE (version mt) b0 cx d si di bp sp e8 e9 e10 e11 e12 e13 e14 e15 z2 c2 x f fs
                  (words (callee UPDATE mc))) as (z3 & c3 & R); [lia..|rewrite Hkeep by done; simpl; rewrite O1 by lia; apply Hw|].
      rewrite (Hkeep di), (Hkeep (di + 8)), (Hkeep fs), (Hkeep sp) in R by (done || apply Hst; lia).
      subst mc. cbn [words] in R. rewrite !O1 in R by lia.
      eexists (3 + (13 + (1 + (12 + 5))))%nat, _, t', b'. split.
      { eapply run_steps; [exact G|]. eapply run_steps; [exact G1|].
        eapply run_steps; [mstep tls_get_addr_code; reflexivity|]. eapply run_steps; [exact G2|exact R]. }
      split; [exact Emodel|]. split; [done|]. split; [by repeat constructor|]. do 3 (split; [done|]).
      eexists. split; [exact Hal|]. by split.
Qed.

(** ** Concrete inputs *)

(** One function, number 7 of subsystem 3. *)
Definition sample_table : systable := <[7%nat := Some "f"%string]> empty_table.
Definition sample_registry : registry :=
  mkReg (<[3%nat := Some sample_table]> (replicate NSUBSYS None)) 8 (replicate NSUBSYS None).
Definition sample_dispatch : machine :=
  mkMach (mkRegs 0x3007 0 0 0 0 0 0 8192 0 0 0 0 0 0 0 0) false false (0, 0) [] 0
    (fun y => if y =? 1024 + 24 then 65536 else if y =? 65536 + 56 then 4096 else 0).

Lemma insert_replicate {A} (n i k : nat) (x d y : A) :
  <[i := x]> (replicate n d) !! k = Some y -> (k = i /\ y = x /\ (k < n)%nat) \/ (k <> i /\ y = d /\ (k < n)%nat).
Proof.
  intros H. apply list_lookup_insert_Some in H as [(<- & <- & Hl)|[Hne Hl]].
  - rewrite length_replicate in Hl. by left.
  - apply lookup_replicate in Hl as [-> Hlt]. by right.
Qed.

Lemma sample_registry_at : registry_at (words sample_dispatch) 1024 (fun _ => 65536) (fun _ => 4096) sample_registry.
Proof.
  split; unfold sample_registry; cbn [SYSCALL_SUBSYS_ARRAY]; [lia|by rewrite length_insert, length_replicate|..].
  - intros n t H. apply insert_replicate in H as [(_ & [= ->] & _)|(_ & [=] & _)].
    unfold sample_table, empty_table. by rewrite length_insert, length_replicate.
  - intros n t H. apply insert_replicate in H as [(-> & -> & _)|(Hne & -> & Hlt)]; [done|]. unfold NSUBSYS in Hlt. simpl.
    rewrite (proj2 (Z.eqb_neq _ 1048)) by lia. by rewrite (proj2 (Z.eqb_neq _ 65592)) by lia.
  - lia.
  - intros n t k f H. apply insert_replicate in H as [(-> & [= ->] & _)|(_ & [=] & _)].
    intros H. apply insert_replicate in H as [(-> & -> & _)|(Hne & -> & _)]; [done|]. simpl.
    rewrite (proj2 (Z.eqb_neq _ 1048)) by lia. by rewrite (proj2 (Z.eqb_neq _ 65592)) by lia.
  - lia.
Qed.

Lemma handle_syscall_refines_witness :
  exists m', run (fun m => m) (fun _ m => m) (handle_syscall_code 1024 (-1)) 16 (0%nat, sample_dispatch) = Some (4096, m') /\
    rax (reg_file m') = 7.
Proof.
  destruct (handle_syscall_refines (fun m => m) (fun _ m => m) 1024 (-1) (fun _ => 65536) (fun _ => 4096) sample_registry
              sample_dispatch sample_registry_at) as (m' & _ & _ & H); [|simpl; lia|simpl; lia|simpl; lia|].
  - intros y. simpl. do 2 (case Z.eqb_spec; intros; [lia|]). lia.
  - exists m'. destruct H as (R & A & _). by split.
Defined.

(** A thread one version behind; the update brings the version up. *)
Definition sample_tls : machine :=
  mkMach (mkRegs 1 2 3 4 5 4096 7 8200 8 9 10 11 12 13 14 15) false false (21, 22) (replicate 56 5) 16384
    (store_words (store_words (store_words (store_words (fun _ => 0) 1024 [2048]) 2048 [2048; 64; 0; 1]) 16384 [16384; 32; 0; 0])
       4096 [32; 8]).
Definition sample_update (_ : Z) (m : machine) : machine :=
  set_words (store_word (words m) (16384 + 24) 1) (set_regs (set RAX 0 (set RCX 0 (reg_file m))) m).

Lemma sample_tls_call : tls_call sample_tls 1024 (fun y => y = 16408).
Proof.
  split; [intros []; simpl; lia| |reflexivity|reflexivity| | | | | | |]; try (simpl; lia).
  - intros y. unfold sample_tls, store_words, store_word. cbn [words]. repeat (case Z.eqb_spec; intros; [lia|]). lia.
  - split; [lia|reflexivity].
Qed.

Lemma sample_update_call : c_call (fun y => y = 16408) (sample_update 0).
Proof.
  intros [[a b cx d si di bp sp e8 e9 e10 e11 e12 e13 e14 e15] z c x f fs w] _. split; [by repeat constructor|]. split; [done|].
  intros y Hy. simpl. by apply store_word_ne.
Qed.

Lemma tls_get_addr_refines_witness :
  exists k m', run (fun m => m) sample_update (tls_get_addr_code 1024 0) k (0%nat, sample_tls) = Some (0, m') /\
    same_on others (reg_file m') (reg_file sample_tls) /\ xmm0 m' = (21, 22) /\ fpu m' = replicate 56 5.
Proof.
  destruct (tls_get_addr_refines (fun m => m) sample_update 1024 0 (fun y => y = 16408) sample_tls
              (mkTcb 64 0 1) (fun _ => 0) (mkTcb 32 0 0) (fun _ => 0) sample_tls_call sample_update_call eq_refl eq_refl)
    as (k & m' & t' & b' & R & _ & _ & S & X & Fp & _).
  by exists k, m'.
Defined.
