(* ===== verification/Trap.v ===== *)
(** * The trap of a system call in assembly (wl-impl/src/catch_signals.rs)

    [invoke_syscall_uctx] takes the registers of the trapped program from the signal
    context, by the register numbers of wl-impl/src/libc/libc_defs.rs, calls the
    dispatcher and stores its result back.  Here it runs together with the dispatcher of
    [Routines], and the whole is compared with the definition of [Signals]. *)

From Stdlib Require Import ZArith Lia.
From stdpp Require Import base numbers list option strings.
From S2P Require Import Prelude.
From S2P Require Import Syscalls.
From S2P Require Import Signals.
From S2P Require Import Asm.
From S2P Require Import Routines.
From stdpp Require Import list.

Local Open Scope Z_scope.

(** ** The signal context *)

(** [regno_imp] and [NGREGS]: the position of each register in [mcontext_t::gregs]. *)
Definition NGREGS : nat := 19.
Definition regno (r : reg) : nat :=
  match r with
  | R8 => 0 | R9 => 1 | R10 => 2 | R11 => 3 | R12 => 4 | R13 => 5 | R14 => 6 | R15 => 7
  | RDI => 8 | RSI => 9 | RBP => 10 | RBX => 11 | RDX => 12 | RAX => 13 | RCX => 14 | RSP => 15
  end.
(** The other three: [REG_RIP], [REG_EFLAGS], [REG_CSGSFS]. *)
Definition other_regnos : list nat := [16; 17; 18]%nat.

(** [[rbx + 8*{REG}]]. *)
Abbreviation greg r := (at_reg RBX (8 * Z.of_nat (regno r))).

Definition invoke_syscall_code (handle_syscall : Z) : list instr :=
  [Push RBX;
   Mov RBX RDI;
   MovL RAX (greg RAX);
   MovL RDI (greg RDI);
   MovL RSI (greg RSI);
   MovL RDX (greg RDX);
   MovL RCX (greg R10);
   MovL R8 (greg R8);
   MovL R9 (greg R9);
   Call handle_syscall;
   MovS (greg RAX) RAX;
   Pop RBX;
   Ret_].

(** [impl_restorer], where a signal handler returns to: the call that resumes the trapped
    program.  Nothing stands behind it. *)
Definition impl_restorer_code : list instr := [MovI RAX 15; Syscall].

(** The saved registers as the context of [Signals]. *)
Definition saved (g : list Z) (r : reg) : Z := default 0 (g !! regno r).
Definition ctx_of (g : list Z) : mcontext :=
  mkCtx (saved g RAX) (saved g RDI) (saved g RSI) (saved g RDX) (saved g R10) (saved g R8) (saved g R9)
    (((saved g) <$> [R11; R12; R13; R14; R15; RBP; RBX; RCX; RSP]) ++ ((fun n => default 0 (g !! n)) <$> other_regnos)).

(** ** The call of the dispatcher *)

Section Trap.
Context (sys : machine -> machine) (arr UNSUPPORTED : Z) (tbl : nat -> Z) (fn : sysfn -> Z) (r : registry).
(** The functions of the subsystems, by address: the machine they return with, or [None]
    when control does not come back (the functions of type [!] among others). *)
Context (body : Z -> machine -> option machine).

(** [call __handle_syscall] with return address [ret]: the dispatcher runs, and when it
    does not return by itself the function it jumps to returns for it, or does not. *)
Definition call_dispatcher (ret : Z) (m : machine) : option machine :=
  match run sys (fun _ m => m) (handle_syscall_code arr UNSUPPORTED) 16 (0%nat, push ret m) with
  | Some (a, m') => if a =? ret then Some m' else body a m'
  | None => None
  end.

(** The functions as system calls in the sense of [Signals]: their world is the machine in
    which they are entered, with the arguments in the registers of the C convention. *)
Definition with_args (a1 a2 a3 a4 a5 a6 : Z) (m : machine) : machine :=
  set_regs (set RDI a1 (set RSI a2 (set RDX a3 (set RCX a4 (set R8 a5 (set R9 a6 (reg_file m))))))) m.
Definition machine_impl : sysimpl machine := fun f a1 a2 a3 a4 a5 a6 w =>
  match body (fn f) (with_args a1 a2 a3 a4 a5 a6 w) with
  | Some m' => Returned (rax (reg_file m')) m'
  | None => Gone w
  end.

Lemma with_args_same m :
  let x := reg_file m in with_args (rdi x) (rsi x) (rdx x) (rcx x) (r8 x) (r9 x) m = m.
Proof. by destruct m as [[] z c x f fs w]. Qed.

Lemma call_dispatcher_ok ret m :
  0 <= ret < 2 ^ 64 -> (forall f, fn f <> ret) ->
  registry_at (words (push ret m)) arr tbl fn r -> (forall p, 0 <= words m p < 2 ^ 64) ->
  0 <= rax (reg_file m) < 2 ^ 64 -> 8 <= rsp (reg_file m) < 2 ^ 64 ->
  exists mf, rsp (reg_file mf) = rsp (reg_file m) - 8 /\ same_args (reg_file mf) (reg_file m) /\
    words mf = store_word (words m) (rsp (reg_file m) - 8) ret /\
    match handle_syscall r (rax (reg_file m)) with
    | Jump f => call_dispatcher ret m = body (fn f) mf
    | Unsupported => exists m', call_dispatcher ret m = Some m' /\ rax (reg_file m') = usize_wrap UNSUPPORTED /\
        rsp (reg_file m') = rsp (reg_file m) /\ same_args (reg_file m') (reg_file m) /\ words m' = words mf
    end.
Proof.
  intros Hret Hne Hreg Hw Ha Hsp.
  set (m0 := push ret m) in *.
  assert (Hm0 : reg_file m0 = set RSP (rsp (reg_file m) - 8) (reg_file m) /\ words m0 = store_word (words m) (rsp (reg_file m) - 8) ret).
  { unfold m0, push, upd, set_words, set_regs. cbn [reg_file words]. by rewrite !(usize_small (rsp (reg_file m) - 8)) by lia. }
  destruct Hm0 as [Hr0 Hw0].
  assert (A0 : same_args (reg_file m0) (reg_file m)).
  { rewrite Hr0. destruct (reg_file m). by repeat constructor. }
  assert (S0 : rsp (reg_file m0) = rsp (reg_file m) - 8) by (rewrite Hr0; by destruct (reg_file m)).
  assert (GA : rax (reg_file m0) = rax (reg_file m)) by (rewrite Hr0; by destruct (reg_file m)).
  destruct (handle_syscall_run sys (fun _ m => m) arr UNSUPPORTED tbl fn r m0 Hreg) as (m1 & W1 & A1 & R1).
  { intros p. rewrite Hw0. unfold store_word. destruct (p =? _); [done|apply Hw]. }
  { by rewrite GA. } { lia. } { lia. }
  assert (A2 : same_args (reg_file m1) (reg_file m)).
  { unfold same_args in *. apply Forall_forall. intros q Hq.
    rewrite (proj1 (Forall_forall _ _) A1 q Hq). exact (proj1 (Forall_forall _ _) A0 q Hq). }
  unfold call_dispatcher. fold m0. rewrite GA in R1.
  destruct (handle_syscall r (rax (reg_file m))) as [f|].
  - destruct R1 as (-> & _ & S1). exists m1. rewrite (proj2 (Z.eqb_neq _ _) (Hne f)).
    split_and!; [lia|done|congruence|done].
  - destruct R1 as (-> & A & S1). rewrite S0, Hw0, store_word_same, Z.eqb_refl. exists m0.
    split_and!; [done|done|done|]. exists m1. split_and!; [done|done|lia|done|done].
Qed.

(** ** The routine *)

Context (handle ret : Z).
(** The call as a total step: behind it the routine goes on only when the call came back. *)
Abbreviation callee := (fun (_ : Z) m => default m (call_dispatcher ret m)).
Abbreviation code := (invoke_syscall_code handle).

(** The machine when the routine is entered: the return address at [rsp], the context [g]
    at [rdi], apart from the stack. *)
Record trapped (m : machine) (g : list Z) : Prop := {
  tr_regs : regs_ok (reg_file m);
  tr_words : forall p, 0 <= words m p < 2 ^ 64;
  tr_stack : 16 <= rsp (reg_file m) /\ rsp (reg_file m) + 8 < 2 ^ 64;
  tr_ctx : length g = NGREGS /\ list_at (words m) (rdi (reg_file m)) g /\ rdi (reg_file m) + 152 < 2 ^ 64;
  tr_apart : apart (rdi (reg_file m)) 152 (rsp (reg_file m) - 16) 24;
  tr_registry : forall w, same_outside (rsp (reg_file m) - 16) (rsp (reg_file m)) (words m) w -> registry_at w arr tbl fn r }.

(** The machine in which the routine has a function entered: the six saved arguments in the
    registers of the C convention, the two words below the stack pointer used for the saved
    [rbx] and the return address, the rest of the memory as it was. *)
Record entered (m : machine) (g : list Z) (mf : machine) : Prop := {
  en_args : [rdi (reg_file mf); rsi (reg_file mf); rdx (reg_file mf); rcx (reg_file mf); r8 (reg_file mf); r9 (reg_file mf)] =
    saved g <$> [RDI; RSI; RDX; R10; R8; R9];
  en_stack : rsp (reg_file mf) = rsp (reg_file m) - 16 /\ rbx (reg_file mf) = rdi (reg_file m) /\
    same_on [RBP; R12; R13; R14; R15] (reg_file mf) (reg_file m);
  en_words : words mf = store_word (store_word (words m) (rsp (reg_file m) - 8) (rbx (reg_file m))) (rsp (reg_file m) - 16) ret }.

(** The words of the routine: its saved [rbx], its return address and the context. *)
Definition routine_word (m : machine) (p : Z) : Prop :=
  p = rsp (reg_file m) - 8 \/ p = rsp (reg_file m) \/ rdi (reg_file m) <= p < rdi (reg_file m) + 152.

(** What the calling convention asks of a function that returned with [m'] to the routine
    entered with [m]: the stack pointer and the callee-saved registers are back and the
    words of the routine, which is still active, are not written.  Its own frame, the memory
    of the program, the kernel and its result are its own affair. *)
Record sysv_return (m mf m' : machine) : Prop := {
  sv_stack : rsp (reg_file m') = rsp (reg_file mf) + 8;
  sv_saved : same_on callee_saved (reg_file m') (reg_file mf);
  sv_rax : 0 <= rax (reg_file m') < 2 ^ 64;
  sv_words : forall p, routine_word m p -> words m' p = words mf p }.

(** The function this trap selects follows it, if it returns. *)
Definition sysv_function (m : machine) (g : list Z) : Prop :=
  forall f mf m', handle_syscall r (saved g RAX) = Jump f -> entered m g mf -> body (fn f) mf = Some m' -> sysv_return m mf m'.

Lemma regno_lt q : (regno q < NGREGS)%nat.
Proof. destruct q; cbn; unfold NGREGS; lia. Qed.

Lemma saved_at w a g q : length g = NGREGS -> list_at w a g -> w (a + 8 * Z.of_nat (regno q)) = saved g q.
Proof.
  intros Hn Hl. pose proof (regno_lt q) as Hq. rewrite <- Hn in Hq. unfold saved.
  apply lookup_lt_is_Some in Hq as [v Hv]. rewrite Hv. by apply Hl.
Qed.

(** The loads in front of the call. *)
Lemma trap_prefix m g :
  trapped m g ->
  exists m1, steps sys callee code 9 (0%nat, m) = Some (9%nat, m1) /\
    rbx (reg_file m1) = rdi (reg_file m) /\ rsp (reg_file m1) = rsp (reg_file m) - 8 /\
    same_on [RBP; R12; R13; R14; R15] (reg_file m1) (reg_file m) /\
    words m1 = store_word (words m) (rsp (reg_file m) - 8) (rbx (reg_file m)) /\
    rax (reg_file m1) = saved g RAX /\ rdi (reg_file m1) = saved g RDI /\ rsi (reg_file m1) = saved g RSI /\
    rdx (reg_file m1) = saved g RDX /\ rcx (reg_file m1) = saved g R10 /\ r8 (reg_file m1) = saved g R8 /\
    r9 (reg_file m1) = saved g R9.
Proof.
  intros [Hr Hw [Hs1 Hs2] (Hn & Hl & Hc) Hap _]. pose proof (Hr RSP). pose proof (Hr RDI). pose proof (Hr RBX). cbn [get] in *.
  assert (Hg : forall q, words m (rdi (reg_file m) + 8 * Z.of_nat (regno q)) = saved g q).
  { intros q. by apply saved_at. }
  assert (Hi : forall q, (regno q < 19)%nat) by apply regno_lt.
  assert (Hd : forall q, store_word (words m) (rsp (reg_file m) - 8) (rbx (reg_file m)) (rdi (reg_file m) + 8 * Z.of_nat (regno q)) = saved g q).
  { intros q. rewrite store_word_ne, Hg; [done|]. unfold apart in Hap. pose proof (Hi q). lia. }
  assert (Hv : forall q, 0 <= saved g q < 2 ^ 64) by (intros q; rewrite <- Hg; apply Hw).
  destruct m as [[a b cx d si di bp sp e8 e9 e10 e11 e12 e13 e14 e15] z c x f fs w].
  cbn [reg_file words rsp rdi rbx] in *.
  eexists. split.
  { mstep invoke_syscall_code. mstep invoke_syscall_code.
    pose proof (Hi RAX). pose proof (Hv RAX). mstep invoke_syscall_code. rewrite (Hd RAX). unwrap.
    pose proof (Hi RDI). pose proof (Hv RDI). mstep invoke_syscall_code. rewrite (Hd RDI). unwrap.
    pose proof (Hi RSI). pose proof (Hv RSI). mstep invoke_syscall_code. rewrite (Hd RSI). unwrap.
    pose proof (Hi RDX). pose proof (Hv RDX). mstep invoke_syscall_code. rewrite (Hd RDX). unwrap.
    pose proof (Hi R10). pose proof (Hv R10). mstep invoke_syscall_code. rewrite (Hd R10). unwrap.
    pose proof (Hi R8). pose proof (Hv R8). pose proof (Hd R8) as L8. cbn in L8. rewrite Z.add_0_r in L8.
    mstep invoke_syscall_code. rewrite L8. unwrap.
    pose proof (Hi R9). pose proof (Hv R9). mstep invoke_syscall_code. rewrite (Hd R9). unwrap.
    cbn [steps]. reflexivity. }
  by repeat split; repeat constructor.
Qed.

(** The store of the result behind the call, and the return. *)
Lemma trap_suffix m p v :
  rbx (reg_file m) = p -> 0 <= p -> 8 <= rsp (reg_file m) -> rsp (reg_file m) + 16 < 2 ^ 64 ->
  p + 152 < 2 ^ 64 -> apart p 152 (rsp (reg_file m)) 16 -> words m (rsp (reg_file m)) = v -> 0 <= v < 2 ^ 64 ->
  exists m', run sys callee code 3 (10%nat, m) = Some (words m (rsp (reg_file m) + 8), m') /\
    words m' = store_word (words m) (p + 8 * Z.of_nat (regno RAX)) (rax (reg_file m)) /\
    reg_file m' = set RSP (rsp (reg_file m) + 16) (set RBX v (reg_file m)).
Proof.
  intros Hp Hp0 Hs1 Hs2 Hc Hap Hv Hb. unfold apart in Hap.
  destruct m as [[a b cx d si di bp sp e8 e9 e10 e11 e12 e13 e14 e15] z c x f fs w].
  cbn [reg_file words rsp rax rbx get] in *. subst b. eexists. split.
  { mstep invoke_syscall_code. cbn [Z.of_nat regno]. unwrap. mstep invoke_syscall_code.
    rewrite store_word_ne, Hv by (cbn; lia). unwrap. mleave invoke_syscall_code.
    rewrite store_word_ne by (cbn; lia). unwrap. reflexivity. }
  cbn [words reg_file set]. split; [done|]. same_state.
Qed.

Lemma ctx_of_result g v :
  length g = NGREGS ->
  ctx_of (<[regno RAX := v]> g) =
  set_rax v (ctx_of g).
Proof. intros H. do 19 (destruct g as [|? g]; [done|]). by destruct g. Qed.

Lemma list_at_insert w a g i v :
  (i < length g)%nat -> list_at w a g -> list_at (store_word w (a + 8 * Z.of_nat i) v) a (<[i := v]> g).
Proof.
  intros Hi H j y Hj. apply list_lookup_insert_Some in Hj as [(<- & <- & _)|[Hne Hj]]; [apply store_word_same|].
  rewrite store_word_ne by lia. by apply H.
Qed.

(** From the return of the call on: the routine stores the result and returns. *)
Lemma trap_returns m g m1 m2 :
  trapped m g -> steps sys callee code 9 (0%nat, m) = Some (9%nat, m1) -> call_dispatcher ret m1 = Some m2 ->
  rbx (reg_file m2) = rdi (reg_file m) -> rsp (reg_file m2) = rsp (reg_file m) - 8 ->
  same_on [RBP; R12; R13; R14; R15] (reg_file m2) (reg_file m) -> words m2 (rsp (reg_file m) - 8) = rbx (reg_file m) ->
  (forall p, p = rsp (reg_file m) \/ rdi (reg_file m) <= p < rdi (reg_file m) + 152 -> words m2 p = words m p) ->
  exists m' g', run sys callee code 13 (0%nat, m) = Some (words m (rsp (reg_file m)), m') /\
    rsp (reg_file m') = rsp (reg_file m) + 8 /\ same_on callee_saved (reg_file m') (reg_file m) /\
    length g' = NGREGS /\ list_at (words m') (rdi (reg_file m)) g' /\ ctx_of g' = set_rax (rax (reg_file m2)) (ctx_of g) /\
    words m' = store_word (words m2) (rdi (reg_file m) + 8 * Z.of_nat (regno RAX)) (rax (reg_file m2)).
Proof.
  intros [Hr Hw [Hs1 Hs2] (Hn & Hl & Hc) Hap _] S1 E2 B2 P2 C2 V2 K2. pose proof (Hr RBX). pose proof (Hr RDI).
  cbn [get] in *. unfold apart in Hap.
  destruct (trap_suffix m2 (rdi (reg_file m)) (rbx (reg_file m))) as (m3 & R3 & W3 & F3);
    [done|lia|lia|lia|done|unfold apart; lia|by rewrite P2|done|].
  exists m3, (<[regno RAX := rax (reg_file m2)]> g). split_and!.
  - change 13%nat with (9 + (1 + 3))%nat. eapply run_steps; [exact S1|].
    eapply run_steps; [mstep invoke_syscall_code; rewrite E2; cbn [from_option id]; reflexivity|].
    rewrite R3, P2. replace (rsp (reg_file m) - 8 + 8) with (rsp (reg_file m)) by lia. by rewrite K2 by auto.
  - rewrite F3, P2. destruct (reg_file m2). cbn. lia.
  - rewrite F3. destruct (reg_file m2) as [x1 x2 x3 x4 x5 x6 x7 x8 y1 y2 y3 y4 y5 y6 y7 y8]. unfold same_on, callee_saved in *.
    repeat (apply Forall_cons_1 in C2 as [? C2]).
    cbn [get set rbx rbp r12 r13 r14 r15] in *. repeat constructor; cbn [get set rbx rbp r12 r13 r14 r15]; congruence.
  - by rewrite length_insert.
  - rewrite W3. apply list_at_insert; [rewrite Hn; apply regno_lt|]. intros i y Hy.
    pose proof (lookup_lt_Some _ _ _ Hy) as Hi. rewrite Hn in Hi. unfold NGREGS in Hi.
    rewrite K2 by (right; lia). by apply Hl.
  - by apply ctx_of_result.
  - done.
Qed.

(** C5: the trap of a system call as written in assembly, together with the assembly of
    the dispatcher, does to the signal context what the model of the handler does.  The
    function the number selects is entered with the six saved arguments (the fourth from
    [r10]) and the program's memory.  When it returns to the calling convention, whatever it
    did to the rest of the machine, only the saved [rax] of the context changes, to its
    result; the routine returns to its caller with the stack pointer and the callee-saved
    registers as they were, and leaves every other word as the function left it.  A number
    without a function gives the code for an unsupported call and changes no other word.
    When the function does not return, the routine stays at its call. *)
Theorem trap_refines m g :
  trapped m g -> sysv_function m g -> 0 <= ret < 2 ^ 64 -> (forall f, fn f <> ret) ->
  exists mf, entered m g mf /\
    match invoke_syscall_uctx (usize_wrap UNSUPPORTED) machine_impl r (ctx_of g) mf with
    | Resumed c m2 => exists m' g',
        run sys callee code 13 (0%nat, m) = Some (words m (rsp (reg_file m)), m') /\
        rsp (reg_file m') = rsp (reg_file m) + 8 /\ same_on callee_saved (reg_file m') (reg_file m) /\
        length g' = NGREGS /\ list_at (words m') (rdi (reg_file m)) g' /\ ctx_of g' = c /\
        (forall p, p <> rdi (reg_file m) + 8 * Z.of_nat (regno RAX) -> words m' p = words m2 p)
    | NotBack _ => exists m1, steps sys callee code 9 (0%nat, m) = Some (9%nat, m1) /\
        code !! 9%nat = Some (Call handle) /\ call_dispatcher ret m1 = None
    end.
Proof.
  intros Ht Hb Hret Hne. destruct (trap_prefix m g Ht) as (m1 & S1 & B1 & P1 & C1 & W1 & A1 & A2 & A3 & A4 & A5 & A6 & A7).
  pose proof Ht as [Hr Hw [Hs1 Hs2] (Hn & Hl & Hc) Hap Hreg]. pose proof (Hr RSP). pose proof (Hr RBX). pose proof (Hr RDI).
  cbn [get] in *. unfold apart in Hap.
  assert (Hw1 : forall p, 0 <= words m1 p < 2 ^ 64).
  { intros p. rewrite W1. unfold store_word. destruct (p =? _); [done|apply Hw]. }
  assert (Hv : 0 <= rax (reg_file m1) < 2 ^ 64).
  { rewrite A1, <- (saved_at (words m) (rdi (reg_file m)) g RAX Hn Hl). apply Hw. }
  destruct (call_dispatcher_ok ret m1 Hret Hne) as (mf & Pf & Af & Wf & E); [|done|done|lia|].
  { apply Hreg. intros p Hp. unfold push, upd, set_words, set_regs. cbn [words]. rewrite usize_small by lia.
    rewrite store_word_ne by lia. rewrite W1, store_word_ne by lia. done. }
  pose proof Af as Af'. unfold same_args in Af'. repeat (apply Forall_cons_1 in Af' as [? Af']). cbn [get] in *.
  assert (Hmf : entered m g mf).
  { split; [cbn [fmap list_fmap]; congruence| |].
    - split_and!; [lia|congruence|]. unfold same_on in *. repeat (apply Forall_cons_1 in C1 as [? C1]). cbn [get] in *.
      repeat constructor; cbn [get]; congruence.
    - rewrite Wf, W1, P1. by replace (rsp (reg_file m) - 8 - 8) with (rsp (reg_file m) - 16) by lia. }
  assert (Kf : forall p, p = rsp (reg_file m) \/ rdi (reg_file m) <= p < rdi (reg_file m) + 152 -> words mf p = words m p).
  { intros p Hp. rewrite (en_words _ _ _ Hmf), !store_word_ne by lia. done. }
  assert (Vf : words mf (rsp (reg_file m) - 8) = rbx (reg_file m)).
  { rewrite (en_words _ _ _ Hmf), store_word_ne, store_word_same by lia. done. }
  exists mf. split; [done|]. unfold invoke_syscall_uctx, machine_impl. cbn [ctx_of c_rax c_rdi c_rsi c_rdx c_r10 c_r8 c_r9].
  rewrite A1 in E. destruct (handle_syscall r (saved g RAX)) as [f|] eqn:Eh.
  - rewrite <- A2, <- A3, <- A4, <- A5, <- A6, <- A7.
    replace (with_args _ _ _ _ _ _ mf) with mf by (rewrite <- (with_args_same mf) at 1; cbn zeta; congruence).
    destruct (body (fn f) mf) as [m2|] eqn:Eb; [|by exists m1].
    destruct (Hb f mf m2 Eh Hmf Eb) as [V1 V2 V3 V4].
    unfold same_on, callee_saved in V2. repeat (apply Forall_cons_1 in V2 as [? V2]).
    destruct (en_stack _ _ _ Hmf) as (N1 & N2 & N3). repeat (apply Forall_cons_1 in N3 as [? N3]). cbn [get] in *.
    destruct (trap_returns m g m1 m2 Ht S1 E) as (m' & g' & R & Q1 & Q2 & Q3 & Q4 & Q5 & Q6); [congruence|lia| | | |].
    + repeat constructor; cbn [get]; congruence.
    + rewrite V4; [done|by left].
    + intros p Hp. rewrite V4 by (unfold routine_word; tauto). by apply Kf.
    + exists m', g'. split_and!; try done. intros p Hp. by rewrite Q6, store_word_ne.
  - destruct E as (m2 & E2 & U1 & U2 & U3 & U4). unfold same_args in U3. repeat (apply Forall_cons_1 in U3 as [? U3]).
    repeat (apply Forall_cons_1 in C1 as [? C1]). cbn [get] in *.
    destruct (trap_returns m g m1 m2 Ht S1 E2) as (m' & g' & R & Q1 & Q2 & Q3 & Q4 & Q5 & Q6); [congruence|lia| | | |].
    + repeat constructor; cbn [get]; congruence.
    + by rewrite U4.
    + intros p Hp. rewrite U4. by apply Kf.
    + exists m', g'. split_and!; try done; [by rewrite Q5, U1|]. intros p Hp. by rewrite Q6, store_word_ne, U4.
Qed.
End Trap.

(** The restorer makes system call 15 with the stack where the handler left it; it faults
    when that call comes back. *)
Lemma impl_restorer_resumes sys callee m :
  let m15 := set_regs (set RAX 15 (reg_file m)) m in
  steps sys callee impl_restorer_code 2 (0%nat, m) = Some (2%nat, sys m15) /\
  rsp (reg_file m15) = rsp (reg_file m) /\ words m15 = words m /\
  step sys callee impl_restorer_code (2%nat, sys m15) = Faults.
Proof. by destruct m as [[] z c x f fs w]. Qed.

(** ** Concrete inputs *)

(** The tables in memory depend only on their own words. *)
Lemma registry_at_same w w' arr tbl fn r :
  (forall p, arr <= p < arr + 512 \/ (exists n, tbl n <= p < tbl n + 32768) -> w' p = w p) ->
  registry_at w arr tbl fn r -> registry_at w' arr tbl fn r.
Proof.
  intros H [R1 R2 R3 R4 R5 R6 R7]. split; try done.
  - intros n t Hn. rewrite H; [by apply R4|]. left. apply lookup_lt_Some in Hn. rewrite R2 in Hn. unfold NSUBSYS in Hn. lia.
  - intros n t k f Hn Hk. rewrite H; [by apply (R6 n t)|]. right. exists n.
    apply lookup_lt_Some in Hk. rewrite (R3 n t Hn) in Hk. unfold SYSCALLS_PER_SUBSYS in Hk. lia.
Qed.

(** The registers of a program that traps with the number of the one function of
    [sample_registry], the stack at 32768 and the context at 20000; the function
    subtracts its fourth argument from its first, and uses the word below its return
    address as its frame; on the argument 99 it does not return. *)
Definition sample_gregs : list Z := [0; 0; 5; 0; 0; 0; 0; 0; 12; 0; 0; 0; 0; 0x3007; 99; 0; 0; 0; 0].
Definition sample_trap : machine :=
  mkMach (mkRegs 0 77 0 0 0 20000 0 32768 0 0 0 0 0 0 0 0) false false (0, 0) [] 0
    (store_words (words sample_dispatch) 20000 sample_gregs).
Definition sample_body (_ : Z) (m : machine) : option machine :=
  let x := reg_file m in
  if rdi x =? 99 then None else
  Some (set_regs (set RAX (usize_wrap (rdi x - rcx x)) (set RSP (rsp x + 8) x)) (set_words (store_word (words m) (rsp x - 8) 1) m)).

Lemma sample_sysv : sysv_function (fun _ => 4096) sample_registry sample_body 500 sample_trap sample_gregs.
Proof.
  intros f [[a b cx d si di bp sp e8 e9 e10 e11 e12 e13 e14 e15] z c x fp fs w] m' _ [_ [E _] _]. unfold sample_body.
  cbn [reg_file rdi rsp rcx words] in *. destruct (di =? 99); [done|]. intros [= <-].
  assert (0 <= usize_wrap (di - cx) < 2 ^ 64) by (apply Z.mod_pos_bound; lia).
  split; [done|by repeat constructor|done|]. intros p Hp. unfold routine_word in Hp. cbn in E, Hp. cbn. apply store_word_ne. lia.
Qed.

Lemma sample_trapped : trapped 1024 (fun _ => 65536) (fun _ => 4096) sample_registry sample_trap sample_gregs.
Proof.
  split; [intros []; simpl; lia| |simpl; lia| |unfold apart; simpl; lia|].
  - intros y. unfold sample_trap, sample_gregs, store_words, store_word. cbn [words].
    repeat (case Z.eqb_spec; intros; [lia|]). simpl. repeat (case Z.eqb_spec; intros; [lia|]). lia.
  - split; [done|]. split; [apply store_words_list|simpl; lia].
  - intros w Hw. eapply registry_at_same; [|apply sample_registry_at]. intros p Hp.
    assert (p < 1536 \/ 65536 <= p) by (destruct Hp as [?|[_ ?]]; lia).
    rewrite Hw by (simpl; lia). apply store_words_outside. simpl. lia.
Qed.

Lemma trap_refines_witness :
  exists m' g', run (fun m => m) (fun (_ : Z) m => default m (call_dispatcher (fun m => m) 1024 (-1) sample_body 500 m))
      (invoke_syscall_code 0) 13 (0%nat, sample_trap) = Some (0, m') /\
    rbx (reg_file m') = 77 /\ list_at (words m') 20000 g' /\ c_rax (ctx_of g') = 7.
Proof.
  destruct (trap_refines (fun m => m) 1024 (-1) (fun _ => 65536) (fun _ => 4096) sample_registry sample_body
              0 500 sample_trap sample_gregs sample_trapped sample_sysv ltac:(lia) ltac:(lia))
    as (mf & [A _ _] & H).
  assert (exists m2, invoke_syscall_uctx (usize_wrap (-1)) (machine_impl (fun _ => 4096) sample_body) sample_registry
            (ctx_of sample_gregs) mf = Resumed (set_rax 7 (ctx_of sample_gregs)) m2) as [m2 E2].
  { unfold invoke_syscall_uctx, machine_impl.
    replace (handle_syscall sample_registry (c_rax (ctx_of sample_gregs))) with (Jump "f"%string) by (by vm_compute).
    destruct mf as [[] z c x fp fs w]. eexists. cbn. reflexivity. }
  rewrite E2 in H. destruct H as (m' & g' & R & _ & C & _ & L & E & _).
  exists m', g'. split_and!; [|apply Forall_cons_1 in C as [C _]; exact C|exact L|by rewrite E].
  replace 0 with (words sample_trap (rsp (reg_file sample_trap))) at 1 by reflexivity. exact R.
Defined.
