(* ===== verification/Rand.v ===== *)
(** * Random numbers and the set-up of a process
      (wl-helpers/src/rand.rs, wl-impl/src/rand.rs, wl-impl/src/lib.rs)

    The generator is a keyed hash that is fed two constants per value.  The loader seeds a
    global generator of wl-impl when it sets the process up; each thread takes the keys of
    a generator of its own from it at its first use. *)

From Stdlib Require Import ZArith Lia.
From stdpp Require Import base numbers list option gmap.
From S2P Require Import Prelude.

Local Open Scope Z_scope.

Section Rand.
(** [RawSipHasher<2, 4>] of the siphash library. *)
Context {H : Type} (from_keys : Z -> Z -> H) (update : H -> Z -> H) (finish : H -> Z).

(** [Gen::seed] and [Gen::next]. *)
Definition gen_seed (k : list Z) : H := from_keys (le_value (take 8 k)) (le_value (take 8 (drop 8 k))).
Definition gen_next (g : H) : Z * H :=
  let g := update g 0x6a09e667f3bcc908 in
  let ret := finish g in
  (ret, update g 0xbb67ae8584caa73b).

(** The generator after [n] values, and the value behind them. *)
Definition skip (g : H) (n : nat) : H := Nat.iter n (fun g => (gen_next g).2) g.
Definition draw (g : H) (n : nat) : Z := (gen_next (skip g n)).1.

(** ** [__wl_impl_setup_process] *)

Inductive FilterMode : Type := Prctl | Seccomp | OtherMode.

(** [GLOBAL_SEED], the generators of the threads that have one, and whether the signal
    handler is installed and system calls are intercepted. *)
Record rand_state : Type := mkRand {
  GLOBAL_SEED : option H;
  LOCAL_SEED : gmap nat H;
  handler_installed : bool;
  intercepting : bool }.

(** [prctl] is the result of the system call. *)
Definition setup_process (mode : FilterMode) (rand_init : list Z) (prctl : Z) (s : rand_state) : outcome rand_state :=
  let seed := match GLOBAL_SEED s with Some g => g | None => gen_seed rand_init end in
  match mode with
  | Prctl =>
    if as_isize prctl <? 0 then Panic Todo
    else Ret (mkRand (Some seed) (LOCAL_SEED s) true true)
  | Seccomp | OtherMode => Panic Todo
  end.

(** ** [fast_rand] *)

(** [bytemuck::must_cast] of two words to 16 bytes. *)
Definition key_bytes (k0 k1 : Z) : list Z := le_bytes 8 k0 ++ le_bytes 8 k1.

Definition fast_rand (t : nat) (s : rand_state) : outcome (rand_state * Z) :=
  '(s, local) ← (match LOCAL_SEED s !! t with
      | Some g => Ret (s, g)
      | None =>
        match GLOBAL_SEED s with
        | None => Panic Explicit
        | Some g =>
          let '(k0, g) := gen_next g in
          let '(k1, g) := gen_next g in
          Ret (mkRand (Some g) (LOCAL_SEED s) (handler_installed s) (intercepting s), gen_seed (key_bytes k0 k1))
        end
      end);
  let '(v, local) := gen_next local in
  Ret (mkRand (GLOBAL_SEED s) (<[t := local]> (LOCAL_SEED s)) (handler_installed s) (intercepting s), v).

(** Calls of several threads, in the order they happen. *)
Fixpoint fast_rands (ts : list nat) (s : rand_state) : outcome (rand_state * list Z) :=
  match ts with
  | [] => Ret (s, [])
  | t :: r => '(s, v) ← fast_rand t s; '(s, vs) ← fast_rands r s; Ret (s, v :: vs)
  end.

(** ** Specification *)

(** The threads in the order of first use, and the place of one among them. *)
Definition see (seen : list nat) (t : nat) : list nat := if bool_decide (t ∈ seen) then seen else seen ++ [t].
Definition rank (l : list nat) (t : nat) : nat := default 0%nat (find_index (Nat.eqb t) l).
Definition uses (t : nat) (ts : list nat) : nat := length (filter (fun x => x = t) ts).

(** The generator of the [i]-th thread takes the [2 i]-th and the next value of the global
    one as its keys. *)
Definition thread_gen (g : H) (i : nat) : H := from_keys (draw g (2 * i)) (draw g (2 * i + 1)).

(** What the calls return: each thread the sequence of its own generator. *)
Fixpoint expected (g : H) (seen past ts : list nat) : list Z :=
  match ts with
  | [] => []
  | t :: r =>
    let seen := see seen t in
    draw (thread_gen g (rank seen t)) (uses t past) :: expected g seen (past ++ [t]) r
  end.

(** ** Proofs *)

Hypothesis finish_word : forall h, 0 <= finish h < 2 ^ 64.

Lemma gen_seed_keys k0 k1 : 0 <= k0 < 2 ^ 64 -> 0 <= k1 < 2 ^ 64 -> gen_seed (key_bytes k0 k1) = from_keys k0 k1.
Proof.
  intros H0 H1. unfold gen_seed, key_bytes.
  rewrite take_app_length', drop_app_length' by (by rewrite length_le_bytes). rewrite (take_ge (le_bytes 8 k1)) by by rewrite length_le_bytes.
  by rewrite !le_value_le_bytes.
Qed.

Lemma skip_S g n : (gen_next (skip g n)).2 = skip g (S n).
Proof. done. Qed.

Lemma find_index_app_r {A} (p : A -> bool) l1 l2 :
  find_index p l1 = None -> find_index p (l1 ++ l2) = (fun k => (length l1 + k)%nat) <$> find_index p l2.
Proof.
  induction l1 as [|x l1 IH]; cbn [find_index app length].
  - intros _. by destruct (find_index p l2).
  - destruct (p x); [done|]. destruct (find_index p l1); [done|]. intros _. rewrite IH by done. by destruct (find_index p l2).
Qed.
Lemma find_index_app_l {A} (p : A -> bool) l1 l2 k : find_index p l1 = Some k -> find_index p (l1 ++ l2) = Some k.
Proof.
  revert k. induction l1 as [|x l1 IH]; intros k; cbn [find_index app]; [done|]. destruct (p x); [done|].
  destruct (find_index p l1) as [j|]; [|done]. intros [= <-]. by rewrite (IH j).
Qed.
Lemma find_index_elem l t : is_Some (find_index (Nat.eqb t) l) <-> t ∈ l.
Proof.
  induction l as [|x l IH]; cbn [find_index]; [split; [by intros []|by intros ?%not_elem_of_nil]|].
  rewrite elem_of_cons. destruct (Nat.eqb_spec t x) as [->|Hne]; [split; [by left|by eexists]|].
  rewrite fmap_is_Some, IH. split; [by right|by intros [?|?]].
Qed.

Lemma rank_new seen t : t ∉ seen -> rank (seen ++ [t]) t = length seen.
Proof.
  intros Hn. unfold rank. rewrite find_index_app_r.
  - cbn [find_index]. rewrite Nat.eqb_refl. cbn. lia.
  - destruct (find_index (Nat.eqb t) seen) eqn:E; [|done]. destruct Hn. apply find_index_elem. by eexists.
Qed.
Lemma rank_old seen t u : u ∈ seen -> rank (seen ++ [t]) u = rank seen u.
Proof. intros [k E]%find_index_elem. unfold rank. by rewrite (find_index_app_l _ _ _ k), E. Qed.

(** The state when the threads [seen] have a generator and the calls [past] were made. *)
Record rand_ok (g : H) (seen past : list nat) (s : rand_state) : Prop := {
  ro_global : GLOBAL_SEED s = Some (skip g (2 * length seen));
  ro_local : forall t, t ∈ seen -> LOCAL_SEED s !! t = Some (skip (thread_gen g (rank seen t)) (uses t past));
  ro_new : forall t, t ∉ seen -> LOCAL_SEED s !! t = None /\ uses t past = 0%nat }.

Lemma uses_snoc t u past : uses t (past ++ [u]) = (uses t past + if decide (u = t) then 1 else 0)%nat.
Proof. unfold uses. rewrite filter_app, length_app. f_equal. cbn. by case_decide. Qed.

Lemma fast_rand_ok g seen past s t :
  rand_ok g seen past s ->
  exists s', fast_rand t s = Ret (s', draw (thread_gen g (rank (see seen t) t)) (uses t past)) /\
    rand_ok g (see seen t) (past ++ [t]) s'.
Proof.
  intros [Hg Hl Hn]. unfold fast_rand, see. case_bool_decide as Hin.
  - rewrite Hl by done. cbn [mbind outcome_bind]. eexists. split; [reflexivity|]. split; cbn [GLOBAL_SEED LOCAL_SEED].
    + done.
    + intros u Hu. rewrite uses_snoc. destruct (decide (t = u)) as [<-|Hne].
      * rewrite lookup_insert_eq. by rewrite Nat.add_1_r.
      * rewrite lookup_insert_ne, Nat.add_0_r by done. by apply Hl.
    + intros u Hu. assert (t <> u) by (intros ->; done). rewrite uses_snoc, lookup_insert_ne, decide_False, Nat.add_0_r by done. by apply Hn.
  - destruct (Hn t Hin) as [-> Hu0]. rewrite Hg. cbn [mbind outcome_bind gen_next].
    set (k0 := finish _). set (k1 := finish (update (update (update _ _) _) _)).
    rewrite gen_seed_keys by apply finish_word.
    assert (from_keys k0 k1 = thread_gen g (length seen)) as E.
    { unfold thread_gen, draw. by rewrite Nat.add_1_r. }
    rewrite rank_new, Hu0 by done. cbn [mbind outcome_bind]. eexists. split; [rewrite E; reflexivity|].
    split; cbn [GLOBAL_SEED LOCAL_SEED].
    + rewrite length_app. cbn [length]. by replace (2 * (length seen + 1))%nat with (S (S (2 * length seen))) by lia.
    + intros u Hu. apply elem_of_app in Hu as [Hu|Hu%list_elem_of_singleton]; [|subst u]; rewrite uses_snoc.
      * assert (t <> u) by (intros ->; done). rewrite lookup_insert_ne, decide_False, Nat.add_0_r, rank_old by done. by apply Hl.
      * rewrite lookup_insert_eq, decide_True, rank_new, Hu0 by done. done.
    + intros u Hu. rewrite not_elem_of_app, list_elem_of_singleton in Hu. destruct Hu as [Hu Hne].
      rewrite uses_snoc, lookup_insert_ne, decide_False, Nat.add_0_r by done. by apply Hn.
Qed.

(** After the process is set up, random numbers never fail, and they are what the
    seed determines: the threads, in the order of their first use, take their keys from
    consecutive pairs of the global generator, and each thread reads the sequence of its
    own generator, however the calls of the threads interleave; before the set-up a call
    panics, and a second set-up changes no seed. *)
Theorem fast_rand_sequence rand_init prctl ts s0 :
  GLOBAL_SEED s0 = None -> LOCAL_SEED s0 = ∅ -> 0 <= prctl < 2 ^ 63 ->
  (forall t, fast_rand t s0 = Panic Explicit) /\
  exists s, setup_process Prctl rand_init prctl s0 = Ret s /\
    (exists s', fast_rands ts s = Ret (s', expected (gen_seed rand_init) [] [] ts)) /\
    (forall other, setup_process Prctl other prctl s = Ret s).
Proof.
  intros Hg Hl Hp. split; [intros t; unfold fast_rand; by rewrite Hl, lookup_empty, Hg|].
  unfold setup_process. assert (as_isize prctl = prctl) as ->.
  { unfold as_isize, swrap. rewrite wrap_small by lia. by rewrite (proj2 (Z.ltb_lt prctl _)) by lia. }
  rewrite (proj2 (Z.ltb_ge prctl 0)) by lia. rewrite Hg. eexists. split; [done|]. split; [|done].
  set (g := gen_seed rand_init). 
  assert (forall seen past s, rand_ok g seen past s -> exists s', fast_rands ts s = Ret (s', expected g seen past ts)) as Hrun.
  { induction ts as [|t ts IH]; intros seen past s Hok; cbn [fast_rands expected]; [by eexists|].
    destruct (fast_rand_ok _ _ _ _ t Hok) as (s1 & -> & Hok1). cbn [mbind outcome_bind].
    destruct (IH _ _ _ Hok1) as (s2 & ->). by eexists. }
  apply Hrun. split; cbn [GLOBAL_SEED LOCAL_SEED]; [done|by intros t ?%not_elem_of_nil|].
  intros t _. by rewrite Hl, lookup_empty.
Qed.
End Rand.

(** ** Concrete inputs *)

Lemma fast_rand_sequence_witness :
  exists s s', setup_process (fun a b => a + b) Prctl (replicate 16 1) 0 (mkRand None ∅ false false) = Ret s /\
    fast_rands (fun a b => a + b) (fun h x => (h + x) mod 97) (fun h => h mod 97) [0; 1; 0]%nat s = Ret (s', [36; 65; 19]).
Proof.
  destruct (fast_rand_sequence (fun a b => a + b) (fun h x => (h + x) mod 97) (fun h => h mod 97)
              ltac:(intros h; pose proof (Z.mod_pos_bound h 97 ltac:(lia)); lia)
              (replicate 16 1) 0 [0; 1; 0]%nat (mkRand None ∅ false false) eq_refl eq_refl ltac:(lia))
    as (_ & s & E & (s' & R) & _).
  exists s, s'. split; [exact E|]. rewrite R. vm_compute. reflexivity.
Defined.
