(* ===== verification/Entry.v ===== *)
(** * The loader's entry point (wl-ld-lilium/src/entry.rs)

    [__rust_entry] runs on the stack the kernel prepared: it lays out the address space,
    scans the auxiliary vector, finds the program on the command line, sets up
    thread-local storage, loads the subsystems in order, loads the program and hands
    over to it through [__call_entry_point].  The kernel, the resolver and the loaded
    libraries are parameters; what the function asks of them is recorded as a sequence
    of events. *)

From Stdlib Require Import ZArith Lia.
From stdpp Require Import base numbers list option strings.
From S2P Require Import Prelude.
From S2P Require Import Utf8.
From S2P Require Import Handles.
From S2P Require Import Bytes.
From S2P Require Import Tls.
From S2P Require Import Rand.
From S2P Require Import Ldso.
From stdpp Require Import list sets.
From S2P Require Import Asm.
From S2P Require Import Start.

Local Open Scope Z_scope.

(** ** The address space *)

Definition MMAP_REGION_SIZE : Z := 4096 * 256.
Definition SLIDE_MASK : Z := Z.shiftl (4096 * 8 - 1) 12.
Definition NATIVE_REGION_SIZE : Z := 4096 * 4096 * 64.

(** [p.wrapping_byte_add(p.align_offset(4096))]. *)
Definition align_offset (p a : Z) : Z := (- p) mod a.
Definition vaddr_end_aligned (vaddr_end : Z) : Z := usize_wrap (vaddr_end + align_offset vaddr_end 4096).
Definition native_region_base (vaddr_end : Z) : Z := usize_wrap (vaddr_end_aligned vaddr_end - NATIVE_REGION_SIZE).
Definition mmap_region (vaddr_end : Z) : Z := usize_wrap (native_region_base vaddr_end - MMAP_REGION_SIZE).
Definition tls_block_ptr (vaddr_end : Z) : Z := usize_wrap (mmap_region vaddr_end - TLS_BLOCK_SIZE).
Definition lilium_base_addr (r : Z) : Z := Z.land r SLIDE_MASK + 4096 * 4096.

(** ** State, results and events *)

(** The names of wl-interface-map. *)
Definition wl_setup_process_name : list Z := lit "__wl_init_setup_process_v0".
Definition wl_init_subsystem_name : list Z := lit "__wl_init_subsystem_v0".
Definition wl_get_init_handles_name : list Z := lit "__wl_get_init_handles_v0".

Inductive message : Type :=
| MSecure | MHelp (prg : list Z) | MVersion | MUnknown (x : list Z) | MOpenFailed (name : list Z) (errno : Z)
| MUsage (prg : list Z) | MNotFound (name : list Z).

Inductive event : Type :=
| EvName (stack_addr : Z)                   (** [prctl(PR_SET_VMA, PR_SET_VMA_ANON_NAME, ..)] *)
| EvPrint (fd : Z) (m : message)
| EvExit (code : Z)
| EvResolveSelf
| EvDebug (dbg : Z)
| EvOpen (name : list Z)
| EvMmap (addr len : Z)
| EvMprotect (addr len : Z)
| EvSetupTlsMc (tp : Z)
| EvSetTp (tp : Z)
| EvLoadSubsystem (name : list Z)
| EvSetupProcess (base size : Z) (rand : Z * Z)
| EvInitSubsystem (name : list Z)
| EvLoadProgram (fd : Z)
| EvClose (fd : Z)
| EvUpdateTls.

(** How the function ends without handing over: [return], or [SYS_exit]. *)
Inductive fin : Type := Returned (code : Z) | Exited (code : Z).
#[export] Instance fin_eq_dec : EqDecision fin.
Proof. solve_decision. Defined.

(** The statics it writes, the words of the stack from [argv] on, and the events. *)
Record boot_state : Type := mkBoot {
  __environ : nat;
  __MMAP_ADDR : Z;
  native_base : Z;
  winter_base : Z;
  stack : list Z;
  trace : list event }.

Abbreviation ent := (stm boot_state fin).

Definition log (e : event) (s : boot_state) : boot_state :=
  mkBoot (__environ s) (__MMAP_ADDR s) (native_base s) (winter_base s) (stack s) (trace s ++ [e]).
Definition emit (e : event) : ent unit := fun s => Ret (log e s, Ok tt).
Definition set_statics (env : nat) (mmap native : Z) : ent unit := fun s =>
  Ret (mkBoot env mmap native (winter_base s) (stack s) (trace s), Ok tt).
Definition set_winter (a : Z) : ent unit := fun s =>
  Ret (mkBoot (__environ s) (__MMAP_ADDR s) (native_base s) a (stack s) (trace s), Ok tt).
Definition set_stack (l : list Z) : ent unit := fun s =>
  Ret (mkBoot (__environ s) (__MMAP_ADDR s) (native_base s) (winter_base s) l (trace s), Ok tt).
Definition get_stack : ent (list Z) := fun s => Ret (s, Ok (stack s)).
(** A word of the stack; outside it the access faults. *)
Definition stack_word (i : nat) : ent Z := fun s =>
  match stack s !! i with Some v => Ret (s, Ok v) | None => Panic Fault end.
(** [crash_unrecoverably]. *)
Definition crash {A} : ent A := panics Fault.
(** [SYS_exit], which does not return. *)
Definition sys_exit {A} (code : Z) : ent A := emit (EvExit code) ≫= fun _ => throw (Exited code).

(** A raw result of a system call and [check]. *)
Definition sys_err (r : Z) : bool := (2 ^ 64 - 4096 <? r) && (r <? 2 ^ 64).

(** ** The auxiliary vector *)

Definition AT_EXECFD : Z := 2.
Definition AT_BASE : Z := 7.
Definition AT_SECURE : Z := 23.
Definition AT_RANDOM : Z := 25.
Definition AT_EXECFN : Z := 31.

(** [NullTerm<AuxEnt, usize>::as_slice]: the entries before the first with tag 0. *)
Fixpoint aux_slice (l : list Z) : outcome (list (Z * Z)) :=
  match l with
  | [] => Panic Fault
  | tag :: r =>
    if tag =? 0 then Ret [] else
    match r with
    | [] => Panic Fault
    | val :: r => s ← aux_slice r; Ret ((tag, val) :: s)
    end
  end.

Record scan : Type := mkScan { s_rand : list Z; s_execfd : Z; s_execfn : Z; s_base : Z }.
Definition scan_init : scan := mkScan (replicate 16 0) (-1) 0 0.

Section Entry.
(** The bytes of a C string, the 16 bytes at an address, the end of the loader's image. *)
Context (cstr : Z -> list Z) (bytes16 : Z -> list Z) (vaddr_end : Z).
(** The kernel: [open] and [openat] by name, [mmap] by the number of the call, [mprotect]. *)
Context (open_ openat_ : list Z -> Z) (mmap_ : nat -> Z) (mprotect_ok : Z -> bool).
(** The resolver: the name it cannot find when it loads a subsystem, if any; whether a
    symbol is defined (by a subsystem, or anywhere); the load address of the program or
    the name that is missing.  A missing name is passed to [resolve_error]. *)
Context (unresolved : list Z -> option (list Z)) (symbol : option (list Z) -> list Z -> bool).
Context (load_program : Z -> result Z (list Z)) (read_entry : Z -> option Z).
Context {H : Type} (from_keys : Z -> Z -> H) (update : H -> Z -> H) (finish : H -> Z).
Context (parse_debug : list Z -> option Z) (WL_LD_DEBUG_DEFAULT : option (list Z)).

Abbreviation next := (gen_next update finish).

(** The [match] in the loop over the auxiliary vector. *)
Definition scan_entry (c : scan) (e : Z * Z) : ent scan :=
  let '(tag, val) := e in
  let tag := as_u32 tag in
  if tag =? AT_BASE then mret (mkScan (s_rand c) (s_execfd c) (s_execfn c) val)
  else if tag =? AT_RANDOM then mret (mkScan (bytes16 val) (s_execfd c) (s_execfn c) (s_base c))
  else if tag =? AT_SECURE then
    if negb (val =? 0) then
      emit (EvPrint 2 MSecure) ≫= fun _ => sys_exit 1
    else mret c
  else if tag =? AT_EXECFD then mret (mkScan (s_rand c) (as_i32 val) (s_execfn c) (s_base c))
  else if tag =? AT_EXECFN then mret (mkScan (s_rand c) (s_execfd c) val (s_base c))
  else mret c.
Fixpoint scan_auxv (c : scan) (l : list (Z * Z)) : ent scan :=
  match l with
  | [] => mret c
  | e :: r => c ← scan_entry c e; scan_auxv c r
  end.

(** ** The command line *)

Definition eq_arg (a : list Z) (s : string) : bool := bool_decide (a = lit s).

(** What the loop over the arguments leaves: the name, [argc], [argv], the override. *)
Record parsed : Type := mkParsed { p_exec : option Z; p_argc : Z; p_argv : nat; p_override : Z }.

(** [while let Some(arg) = args.next()]; the iterator [rest] moves on its own, [argv]
    only in [--argv0]. *)
Fixpoint parse_args (prg : list Z) (rest : list Z) (argc : Z) (argv : nat) (override : Z) : ent parsed :=
  match rest with
  | [] => crash
  | p :: rest =>
    if p =? 0 then mret (mkParsed None argc argv override) else
    let argc := usize_wrap (argc - 1) in
    let arg := cstr p in
    if negb (utf8_ok arg) then mret (mkParsed (Some p) (usize_wrap (argc + 1)) argv override)
    else if eq_arg arg "--help" then emit (EvPrint 1 (MHelp prg)) ≫= fun _ => throw (Returned 0)
    else if eq_arg arg "--version" then emit (EvPrint 1 MVersion) ≫= fun _ => throw (Returned 0)
    else if eq_arg arg "--argv0" then
      ptr ← stack_word (argv + 1);
      parse_args prg rest argc (argv + 2) ptr
    else if eq_arg arg "--preload-subsystem" then panics Todo
    else if eq_arg arg "--preload-native" then panics Todo
    else if eq_arg arg "--preload-lilium" then panics Todo
    else if has_prefix arg (lit "--") then emit (EvPrint 2 (MUnknown arg)) ≫= fun _ => throw (Returned 1)
    else mret (mkParsed (Some p) (usize_wrap (argc + 1)) argv override)
  end.

(** Behind the loop: open the program, replace its name. *)
Definition from_parsed (prg : list Z) (r : parsed) : ent (Z * Z * nat) :=
  fd ← (match p_exec r with
        | Some p =>
          emit (EvOpen (cstr p)) ≫= fun _ =>
          let fd := openat_ (cstr p) in
          if sys_err fd then emit (EvPrint 2 (MOpenFailed (cstr p) (2 ^ 64 - fd))) ≫= fun _ => throw (Returned 1)
          else mret (as_i32 fd)
        | None => emit (EvPrint 2 (MUsage prg)) ≫= fun _ => throw (Returned 1)
        end);
  (if negb (p_override r =? 0) then
     st ← get_stack;
     match (if decide (p_argv r < length st)%nat then Some (<[p_argv r := p_override r]> st) else None) with
     | Some st => set_stack st
     | None => crash
     end
   else mret tt) ≫= fun _ =>
  mret (fd, p_argc r, p_argv r).

(** The program named on the command line: its descriptor, [argc] and [argv]. *)
Definition from_command_line (argc : Z) : ent (Z * Z * nat) :=
  if argc <? 1 then crash else
  p0 ← stack_word 0;
  prg ← lift (from_utf8_expect (cstr p0));
  st ← get_stack;
  r ← parse_args prg (drop 1 st) (usize_wrap (argc - 1)) 1 0;
  from_parsed prg r.

(** The block labelled ['a]. *)
Definition find_program (c : scan) (argc : Z) : ent (Z * Z * nat) :=
  if s_execfd c =? -1 then
    if negb (s_execfn c =? 0) then
      _ ← lift (from_utf8_expect (cstr (s_execfn c)));
      if negb (s_base c =? 0) then
        emit (EvOpen (cstr (s_execfn c))) ≫= fun _ => mret (as_i32 (open_ (cstr (s_execfn c))), argc, 0%nat)
      else from_command_line argc
    else from_command_line argc
  else mret (s_execfd c, argc, 0%nat).

(** ** Setting up *)

(** The environment as [env::get_env] sees it. *)
Definition environ_at (st : list Z) (envp : nat) : option (list (option (list Z))) :=
  Some ((fun p => if p =? 0 then None else Some (cstr p ++ [0])) <$> drop envp st).

(** [WL_LD_DEBUG], [LD_DEBUG], or the default of the build. *)
Definition set_debug (envp : nat) : ent unit :=
  st ← get_stack;
  v ← lift (get_env (environ_at st envp) (lit "WL_LD_DEBUG"));
  v ← (match v with
       | Some _ => mret v
       | None => lift (get_env (environ_at st envp) (lit "LD_DEBUG"))
       end);
  match (match v with Some _ => v | None => WL_LD_DEBUG_DEFAULT end) with
  | Some n =>
    match parse_debug n with
    | Some dbg => emit (EvDebug dbg)
    | None => panics Explicit
    end
  | None => mret tt
  end.

(** One block of thread-local storage: reserved, its middle made writable. *)
Definition tls_block (call : nat) (ptr : Z) : ent Z :=
  emit (EvMmap ptr TLS_BLOCK_SIZE) ≫= fun _ =>
  if sys_err (mmap_ call) then crash else
  let tp := usize_wrap (mmap_ call + Z.shiftr TLS_BLOCK_SIZE 1) in
  emit (EvMprotect tp TCB_SIZE) ≫= fun _ =>
  if negb (mprotect_ok tp) then crash else mret tp.

(** The master block and the block of the first thread. *)
Definition setup_tls : ent unit :=
  tlsmc ← tls_block 0 (tls_block_ptr vaddr_end);
  emit (EvSetupTlsMc tlsmc) ≫= fun _ =>
  tp ← tls_block 1 (tls_block_ptr vaddr_end);
  emit (EvSetTp tp).

(** [resolve_error]. *)
Definition resolve_error {A} (c : list Z) : ent A :=
  emit (EvPrint 2 (MNotFound c)) ≫= fun _ => sys_exit 1.

(** [RESOLVER.find_sym] and [RESOLVER.find_sym_in] with [weak = false]. *)
Definition find_sym (scope : option (list Z)) (name : list Z) : ent unit :=
  if symbol scope name then mret tt else resolve_error name.

(** [load_subsystem] behind the choice of the file. *)
Definition load_subsystem (name : list Z) : ent unit :=
  emit (EvLoadSubsystem name) ≫= fun _ =>
  match unresolved name with Some c => resolve_error c | None => emit EvUpdateTls end.
Definition load_and_init_subsystem (name : list Z) : ent unit :=
  load_subsystem name ≫= fun _ =>
  find_sym (Some name) wl_init_subsystem_name ≫= fun _ =>
  emit (EvInitSubsystem name).

(** [__rtld_wl_load_subsystem_by_name], with the text of the string. *)
Definition rtld_wl_load_subsystem_by_name (p : list Z) : ent unit := load_and_init_subsystem p.

Fixpoint load_and_init_all (names : list (list Z)) : ent unit :=
  match names with
  | [] => mret tt
  | n :: r => load_and_init_subsystem n ≫= fun _ => load_and_init_all r
  end.

(** The base subsystem is loaded, the process set up, the base initialised, then the
    other five. *)
Definition start_subsystems (g : H) : ent H :=
  load_subsystem (lit "base") ≫= fun _ =>
  find_sym None wl_setup_process_name ≫= fun _ =>
  let '(r0, g) := next g in
  let '(r1, g) := next g in
  find_sym (Some (lit "base")) wl_init_subsystem_name ≫= fun _ =>
  emit (EvSetupProcess (native_region_base vaddr_end) NATIVE_REGION_SIZE (r0, r1)) ≫= fun _ =>
  emit (EvInitSubsystem (lit "base")) ≫= fun _ =>
  load_and_init_all [lit "thread"; lit "io"; lit "process"; lit "debug"; lit "kmgmt"] ≫= fun _ =>
  mret g.

(** The program: its load address plus the entry point of its header. *)
Definition start_program (execfd : Z) : ent Z :=
  emit (EvLoadProgram execfd) ≫= fun _ =>
  match load_program execfd with
  | Err c => resolve_error c
  | Ok base =>
    match read_entry execfd with
    | None => panics Explicit
    | Some e_entry =>
      emit (EvClose execfd) ≫= fun _ => emit EvUpdateTls ≫= fun _ => mret (usize_wrap (base + e_entry))
    end
  end.

(** ** Handing over *)

(** The arguments of [__call_entry_point]; [argv] and [envp] are positions on the stack. *)
Record guest_call : Type := mkGuest {
  g_argc : Z; g_argv : nat; g_envp : nat; g_envpc : Z; g_aux : list (Z * Z); g_numaux : Z; g_entry : Z }.

(** The locals of [__setup_auxv], and what [get_init_handles] of wl-impl works with: the
    address of the handle array of the thread and a constant of lilium-sys. *)
Context (random_ptr handles_ptr : Z) (handle_array HANDLE_TYPE_IO : Z).
(** Tags of the Lilium auxiliary vector. *)
Context (LILIUM_AT_RANDOM AT_LILIUM_INIT_HANDLES AT_LILIUM_INIT_HANDLES_LEN : Z).

(** [__setup_auxv]: 16 zeroed entries, of which three are filled; the handles are put into
    a slice of 64 entries, whose length [get_init_handles] changes. *)
Definition setup_auxv (entry : Z) (argv : nat) (argc : Z) (envp : nat) (envpc : Z) (g : H) : ent ((Z * Z) * guest_call) :=
  let '(r0, g) := next g in
  let '(r1, g) := next g in
  find_sym None wl_get_init_handles_name ≫= fun _ =>
  '(_, (_, init_handles_len)) ← lift (get_init_handles handle_array HANDLE_TYPE_IO hinit (replicate 64 0));
  let aux := [(LILIUM_AT_RANDOM, random_ptr); (AT_LILIUM_INIT_HANDLES, handles_ptr);
              (AT_LILIUM_INIT_HANDLES_LEN, init_handles_len)] ++ replicate 13 (0, 0) in
  mret ((r0, r1), mkGuest argc argv envp envpc aux 3 entry).

(** [__rust_entry]: [argv] is position 0 of the stack, [envp] and [auxv] are later ones. *)
Definition rust_entry (argc : Z) (envp auxv : nat) (stack_addr : Z) : ent guest_call :=
  emit (EvName stack_addr) ≫= fun _ =>
  let envpc := Z.of_nat auxv - Z.of_nat envp in
  set_statics envp (mmap_region vaddr_end) (native_region_base vaddr_end) ≫= fun _ =>
  st ← get_stack;
  aux ← lift (aux_slice (drop auxv st));
  c ← scan_auxv scan_init aux;
  emit EvResolveSelf ≫= fun _ =>
  let g := gen_seed from_keys (s_rand c) in
  let '(r, g) := next g in
  set_winter (lilium_base_addr r) ≫= fun _ =>
  set_debug envp ≫= fun _ =>
  '(execfd, argc, argv) ← find_program c argc;
  setup_tls ≫= fun _ =>
  g ← start_subsystems g;
  entry ← start_program execfd;
  call ← setup_auxv entry argv argc envp envpc g;
  mret call.2.
End Entry.

(** ** The address space *)

Lemma land_shiftl x m k : 0 <= k -> Z.land x (Z.shiftl m k) = Z.shiftl (Z.land (Z.shiftr x k) m) k.
Proof.
  intros Hk. apply Z.bits_inj'. intros i Hi. rewrite Z.land_spec, !Z.shiftl_spec by lia.
  destruct (Z.lt_ge_cases i k).
  - rewrite !(Z.testbit_neg_r _ (i - k)) by lia. apply andb_false_r.
  - rewrite Z.land_spec, Z.shiftr_spec by lia. by replace (i - k + k) with i by lia.
Qed.

Lemma layout_facts vaddr_end r :
  2 ^ 31 <= vaddr_end < 2 ^ 63 -> 0 <= r < 2 ^ 64 ->
  let e := vaddr_end_aligned vaddr_end in
  (vaddr_end <= e < vaddr_end + 4096 /\ e mod 4096 = 0) /\
  tls_block_ptr vaddr_end + TLS_BLOCK_SIZE = mmap_region vaddr_end /\
  mmap_region vaddr_end + MMAP_REGION_SIZE = native_region_base vaddr_end /\
  native_region_base vaddr_end + NATIVE_REGION_SIZE = e /\
  tls_block_ptr vaddr_end mod 4096 = 0 /\
  lilium_base_addr r mod 4096 = 0 /\ 2 ^ 24 <= lilium_base_addr r < 2 ^ 24 + 2 ^ 27 /\
  lilium_base_addr r < tls_block_ptr vaddr_end.
Proof.
  intros Hv Hr e. subst e.
  assert (Ha : vaddr_end_aligned vaddr_end = vaddr_end + (- vaddr_end) mod 4096).
  { unfold vaddr_end_aligned, align_offset. pose proof (Z.mod_pos_bound (- vaddr_end) 4096 ltac:(lia)).
    apply wrap_small. lia. }
  assert (Hm : (vaddr_end + (- vaddr_end) mod 4096) mod 4096 = 0).
  { rewrite Zplus_mod_idemp_r. replace (vaddr_end + - vaddr_end) with 0 by lia. done. }
  pose proof (Z.mod_pos_bound (- vaddr_end) 4096 ltac:(lia)).
  assert (Hl : lilium_base_addr r = 4096 * (4096 + Z.shiftr r 12 mod 2 ^ 15)).
  { unfold lilium_base_addr, SLIDE_MASK. rewrite land_shiftl by lia.
    change (4096 * 8 - 1) with (Z.ones 15). rewrite Z.land_ones by lia. rewrite Z.shiftl_mul_pow2 by lia. lia. }
  pose proof (Z.mod_pos_bound (Z.shiftr r 12) (2 ^ 15) ltac:(lia)).
  set (e := vaddr_end + (- vaddr_end) mod 4096) in *.
  assert (Hn : native_region_base vaddr_end = e - 2 ^ 30).
  { unfold native_region_base, NATIVE_REGION_SIZE. rewrite Ha. apply wrap_small. lia. }
  assert (Hmm : mmap_region vaddr_end = e - 2 ^ 30 - 2 ^ 20).
  { unfold mmap_region, MMAP_REGION_SIZE. rewrite Hn. apply wrap_small. lia. }
  assert (Ht : tls_block_ptr vaddr_end = e - 2 ^ 30 - 2 ^ 20 - 2 ^ 26).
  { unfold tls_block_ptr, TLS_BLOCK_SIZE. rewrite Hmm. apply wrap_small. lia. }
  rewrite Ha, Ht, Hmm, Hn, Hl. unfold MMAP_REGION_SIZE, NATIVE_REGION_SIZE, TLS_BLOCK_SIZE. split_and!; try lia.
  - replace (e - 2 ^ 30 - 2 ^ 20 - 2 ^ 26) with (e + (- (2 ^ 18 + 2 ^ 8 + 2 ^ 14)) * 4096) by lia. by rewrite Z_mod_plus_full.
  - rewrite Z.mul_comm. apply Z_mod_mult.
Qed.

(** C26: the loader's areas lie directly below the end of its image, one after the other
    and each at a page boundary: the thread-local block, the mapping region, the native
    region.  The base address of Lilium modules is a page between 16 MiB and 144 MiB,
    below all of them. *)
Theorem address_layout vaddr_end r :
  2 ^ 31 <= vaddr_end < 2 ^ 63 -> 0 <= r < 2 ^ 64 ->
  let e := vaddr_end_aligned vaddr_end in
  (vaddr_end <= e < vaddr_end + 4096 /\ e mod 4096 = 0) /\
  tls_block_ptr vaddr_end + TLS_BLOCK_SIZE = mmap_region vaddr_end /\
  mmap_region vaddr_end + MMAP_REGION_SIZE = native_region_base vaddr_end /\
  native_region_base vaddr_end + NATIVE_REGION_SIZE = e /\
  tls_block_ptr vaddr_end mod 4096 = 0 /\
  lilium_base_addr r mod 4096 = 0 /\ 2 ^ 24 <= lilium_base_addr r < 2 ^ 24 + 2 ^ 27 /\
  lilium_base_addr r < tls_block_ptr vaddr_end.
Proof. apply layout_facts. Qed.

(** ** The auxiliary vector *)

Section Theorems.
Context (cstr : Z -> list Z) (bytes16 : Z -> list Z) (vaddr_end : Z).
Context (open_ openat_ : list Z -> Z) (mmap_ : nat -> Z) (mprotect_ok : Z -> bool).
Context (unresolved : list Z -> option (list Z)) (symbol : option (list Z) -> list Z -> bool).
Context (load_program : Z -> result Z (list Z)) (read_entry : Z -> option Z).
Context {H : Type} (from_keys : Z -> Z -> H) (update : H -> Z -> H) (finish : H -> Z).
Context (parse_debug : list Z -> option Z) (WL_LD_DEBUG_DEFAULT : option (list Z)).
Context (random_ptr handles_ptr : Z) (handle_array HANDLE_TYPE_IO : Z).
Context (LILIUM_AT_RANDOM AT_LILIUM_INIT_HANDLES AT_LILIUM_INIT_HANDLES_LEN : Z).

Abbreviation entry_point :=
  (rust_entry cstr bytes16 vaddr_end open_ openat_ mmap_ mprotect_ok unresolved symbol load_program read_entry from_keys update finish
     parse_debug WL_LD_DEBUG_DEFAULT random_ptr handles_ptr handle_array HANDLE_TYPE_IO
     LILIUM_AT_RANDOM AT_LILIUM_INIT_HANDLES AT_LILIUM_INIT_HANDLES_LEN).

(** Running the primitive steps. *)
Lemma emit_bind {B} e (f : unit -> ent B) s : (emit e ≫= f) s = f tt (log e s).
Proof. done. Qed.
Lemma set_statics_bind {B} a b c (f : unit -> ent B) s :
  (set_statics a b c ≫= f) s = f tt (mkBoot a b c (winter_base s) (stack s) (trace s)).
Proof. done. Qed.
Lemma get_stack_bind {B} (f : list Z -> ent B) s : (get_stack ≫= f) s = f (stack s) s.
Proof. done. Qed.
Lemma stack_word_bind {B} i v (f : Z -> ent B) s : stack s !! i = Some v -> (stack_word i ≫= f) s = f v s.
Proof. intros E. apply stm_bind_ok. unfold stack_word. by rewrite E. Qed.
Lemma lift_bind {A B} (m : outcome A) a (f : A -> ent B) s : m = Ret a -> (lift m ≫= f) s = f a s.
Proof. intros E. by apply stm_bind_ok, lift_ret. Qed.
Lemma mret_bind {A B} (a : A) (f : A -> ent B) s : (mret a ≫= f) s = f a s.
Proof. done. Qed.
Lemma bind_assoc {A B C} (m : ent A) (f : A -> ent B) (g : B -> ent C) s : ((m ≫= f) ≫= g) s = (m ≫= fun a => f a ≫= g) s.
Proof. unfold mbind, stm_bind. by destruct (m s) as [[s' []]|]. Qed.
Lemma throw_bind {A B} e (f : A -> ent B) s : (throw e ≫= f) s = Ret (s, Err e).
Proof. done. Qed.
Ltac ent_eval := repeat (rewrite ?bind_assoc, ?emit_bind, ?set_statics_bind, ?get_stack_bind, ?mret_bind, ?throw_bind; cbn beta iota).

(** The words of an auxiliary vector. *)
Definition aux_words (l : list (Z * Z)) : list Z := l ≫= fun e => [e.1; e.2].

Lemma aux_slice_words l rest :
  Forall (fun e => e.1 <> 0) l -> aux_slice (aux_words l ++ 0 :: rest) = Ret l.
Proof.
  induction 1 as [|[t v] l Ht _ IH]; [done|]. simpl in *. rewrite (proj2 (Z.eqb_neq t 0)) by done. by rewrite IH.
Qed.

(** The entry that ends the process. *)
Definition is_secure (e : Z * Z) : bool := (as_u32 e.1 =? AT_SECURE) && negb (e.2 =? 0).

(** The value of the last entry with a tag. *)
Fixpoint last_aux (tag : Z) (l : list (Z * Z)) : option Z :=
  match l with
  | [] => None
  | e :: r => match last_aux tag r with Some v => Some v | None => if as_u32 e.1 =? tag then Some e.2 else None end
  end.
Definition pick {A} (f : Z -> A) (tag : Z) (l : list (Z * Z)) (d : A) : A :=
  match last_aux tag l with Some v => f v | None => d end.

Lemma scan_entry_spec c e s :
  scan_entry bytes16 c e s =
  if is_secure e then Ret (log (EvExit 1) (log (EvPrint 2 MSecure) s), Err (Exited 1))
  else Ret (s, Ok (mkScan (pick bytes16 AT_RANDOM [e] (s_rand c)) (pick as_i32 AT_EXECFD [e] (s_execfd c))
                     (pick id AT_EXECFN [e] (s_execfn c)) (pick id AT_BASE [e] (s_base c)))).
Proof.
  destruct e as [t v], c as [ra fd fn ba]. unfold scan_entry, is_secure, pick, last_aux. cbn [fst snd s_rand s_execfd s_execfn s_base].
  generalize (as_u32 t). clear t. intros t. unfold AT_BASE, AT_RANDOM, AT_SECURE, AT_EXECFD, AT_EXECFN, id.
  repeat match goal with |- context [t =? ?x] => destruct (Z.eqb_spec t x); [subst t|] end; try done.
  cbn. by destruct (v =? 0).
Qed.

Lemma pick_cons {A} (f : Z -> A) tag e l d : pick f tag l (pick f tag [e] d) = pick f tag (e :: l) d.
Proof. unfold pick. simpl. destruct (last_aux tag l); [done|]. by destruct (as_u32 e.1 =? tag). Qed.

Lemma scan_auxv_spec l : forall c s,
  scan_auxv bytes16 c l s =
  if existsb is_secure l then Ret (log (EvExit 1) (log (EvPrint 2 MSecure) s), Err (Exited 1))
  else Ret (s, Ok (mkScan (pick bytes16 AT_RANDOM l (s_rand c)) (pick as_i32 AT_EXECFD l (s_execfd c))
                     (pick id AT_EXECFN l (s_execfn c)) (pick id AT_BASE l (s_base c)))).
Proof.
  induction l as [|e l IH]; intros c s; [by destruct c|]. cbn [scan_auxv existsb].
  pose proof (scan_entry_spec c e s) as E. destruct (is_secure e); cbn [orb].
  - by rewrite (stm_bind_err _ _ _ _ _ E).
  - rewrite (stm_bind_ok _ _ _ _ _ E), IH. cbn [s_rand s_execfd s_execfn s_base]. by rewrite !pick_cons.
Qed.

(** C25: a process marked secure in its auxiliary vector is ended with status 1 before
    anything is opened, loaded or mapped: the loader's only acts are to name its stack
    and to print the reason. *)
Theorem secure_mode_exits argc envp auxv sa s aux rest :
  drop auxv (stack s) = aux_words aux ++ 0 :: rest -> Forall (fun e => e.1 <> 0) aux ->
  existsb is_secure aux = true ->
  exists s', entry_point argc envp auxv sa s = Ret (s', Err (Exited 1)) /\ stack s' = stack s /\
    trace s' = trace s ++ [EvName sa; EvPrint 2 MSecure; EvExit 1].
Proof.
  intros Hd Hne Hsec. unfold rust_entry. ent_eval. cbn [stack log].
  erewrite lift_bind by (rewrite Hd; by apply aux_slice_words).
  eexists. split; [apply stm_bind_err; rewrite scan_auxv_spec, Hsec; reflexivity|]. split; [done|]. cbn. by rewrite <- !app_assoc.
Qed.

(** ** The command line *)

Abbreviation command_line := (from_command_line cstr openat_).

(** An argument that names the program: not an option, or not even text. *)
Definition names_program (a : list Z) : Prop := utf8_ok a = false \/ has_prefix a (lit "--") = false.

Lemma parse_any_program prg p rest argc argv ov s :
  p <> 0 -> names_program (cstr p) ->
  parse_args cstr prg (p :: rest) (usize_wrap argc) argv ov s = Ret (s, Ok (mkParsed (Some p) (usize_wrap argc) argv ov)).
Proof.
  intros Hp Hn. cbn [parse_args]. rewrite (proj2 (Z.eqb_neq p 0)) by done.
  assert (usize_wrap (usize_wrap (usize_wrap argc - 1) + 1) = usize_wrap argc) as ->.
  { unfold usize_wrap, wrap. rewrite Zminus_mod_idemp_l, Zplus_mod_idemp_l. f_equal. lia. }
  destruct (utf8_ok (cstr p)) eqn:Eu; [|done]. destruct Hn as [?|Hn]; [congruence|]. cbn [negb].
  assert (Hopt : forall o, has_prefix (lit o) (lit "--") = true -> eq_arg (cstr p) o = false).
  { intros o Ho. apply bool_decide_eq_false. intros E. rewrite E in Hn. by rewrite Ho in Hn. }
  rewrite !Hopt by reflexivity. by rewrite Hn.
Qed.

Lemma parse_program prg p rest argc argv ov s :
  p <> 0 -> names_program (cstr p) -> 0 < argc < 2 ^ 64 ->
  parse_args cstr prg (p :: rest) argc argv ov s = Ret (s, Ok (mkParsed (Some p) argc argv ov)).
Proof. intros Hp Hn Ha. rewrite <- (usize_small argc) by lia. by apply parse_any_program. Qed.

(** On a command line without options the loader opens the first argument and
    hands on the arguments from there: [argc] is one less, [argv] one further, the
    stack is as it was.  When the file cannot be opened it reports this and returns 1. *)
Theorem plain_command_line s p0 p1 args env :
  stack s = p0 :: p1 :: args ++ 0 :: env -> p1 <> 0 -> utf8_ok (cstr p0) = true -> names_program (cstr p1) ->
  Z.of_nat (length args) < 2 ^ 32 ->
  let argc := 2 + Z.of_nat (length args) in
  let fd := openat_ (cstr p1) in
  exists s', stack s' = stack s /\
    if sys_err fd then
      command_line argc s = Ret (s', Err (Returned 1)) /\
      trace s' = trace s ++ [EvOpen (cstr p1); EvPrint 2 (MOpenFailed (cstr p1) (2 ^ 64 - fd))]
    else
      command_line argc s = Ret (s', Ok (as_i32 fd, argc - 1, 1%nat)) /\ trace s' = trace s ++ [EvOpen (cstr p1)].
Proof.
  intros Hs Hp Hu Hn Hl argc fd. unfold from_command_line. rewrite (proj2 (Z.ltb_ge argc 1)) by lia.
  rewrite (stack_word_bind 0 p0) by (by rewrite Hs). rewrite (lift_bind _ (cstr p0)) by (unfold from_utf8_expect; by rewrite Hu).
  ent_eval. rewrite Hs. cbn [drop skipn]. rewrite (usize_small (argc - 1)) by lia.
  erewrite stm_bind_ok by (apply parse_program; done || lia). unfold from_parsed. cbn [p_exec p_argc p_argv p_override].
  ent_eval. fold fd. destruct (sys_err fd).
  - eexists. split; [|split; [ent_eval; reflexivity|]]; cbn; [done|by rewrite <- app_assoc].
  - eexists. split; [|split; [ent_eval; reflexivity|]]; done.
Qed.

(** The arguments that only move [argv]. *)
Definition is_argv0 (p : Z) : Prop := p <> 0 /\ cstr p = lit "--argv0".
#[local] Instance is_argv0_dec p : Decision (is_argv0 p).
Proof. unfold is_argv0. apply _. Defined.

(** The override after [k] of them, counted from position [argv]: the word behind the
    position that [argv] had at the last one. *)
Definition override_at (st : list Z) (argv k : nat) (ov : Z) : Z :=
  match k with O => ov | S k => default 0 (st !! (argv + 2 * k + 1)%nat) end.

Lemma parse_argv0s prg ps rest s : Forall is_argv0 ps -> forall argc argv ov,
  (argv + 2 * length ps <= length (stack s))%nat ->
  parse_args cstr prg (ps ++ rest) (usize_wrap argc) argv ov s =
  parse_args cstr prg rest (usize_wrap (argc - Z.of_nat (length ps))) (argv + 2 * length ps)
    (override_at (stack s) argv (length ps) ov) s.
Proof.
  induction 1 as [|p ps [Hp Ho] _ IH]; intros argc argv ov Hn.
  { cbn [app length]. by rewrite Nat.mul_0_r, Nat.add_0_r, Z.sub_0_r. }
  cbn [app parse_args length] in *. rewrite (proj2 (Z.eqb_neq p 0)) by done. rewrite Ho.
  change (negb (utf8_ok (lit "--argv0"))) with false. change (eq_arg (lit "--argv0") "--help") with false.
  change (eq_arg (lit "--argv0") "--version") with false. change (eq_arg (lit "--argv0") "--argv0") with true. cbn iota.
  destruct (lookup_lt_is_Some_2 (stack s) (argv + 1)) as [w Hw]; [lia|]. rewrite (stack_word_bind _ w) by done.
  replace (usize_wrap (usize_wrap argc - 1)) with (usize_wrap (argc - 1)) by (unfold usize_wrap, wrap; by rewrite Zminus_mod_idemp_l).
  rewrite IH by lia. f_equal.
  - f_equal. lia.
  - lia.
  - destruct ps as [|p' ps]; cbn [length override_at].
    + rewrite Nat.mul_0_r, Nat.add_0_r. by rewrite Hw.
    + do 2 f_equal. lia.
Qed.

Lemma command_line_parse s p0 argc r :
  head (stack s) = Some p0 -> utf8_ok (cstr p0) = true -> 1 <= argc ->
  parse_args cstr (cstr p0) (drop 1 (stack s)) (usize_wrap (argc - 1)) 1 0 s = r ->
  command_line argc s =
  (r' ← r; match r' with (s', Err e) => Ret (s', Err e) | (s', Ok r) => from_parsed cstr openat_ (cstr p0) r s' end).
Proof.
  intros Hs Hu Ha Hr. unfold from_command_line. rewrite (proj2 (Z.ltb_ge argc 1)) by lia.
  rewrite (stack_word_bind 0 p0) by (by destruct (stack s)). rewrite (lift_bind _ (cstr p0)) by (unfold from_utf8_expect; by rewrite Hu).
  ent_eval. unfold mbind at 1, stm_bind at 1. rewrite Hr. by destruct r as [[s' [x|]]|].
Qed.

(** The program [p] is opened; [argv] is at position [i], where the override goes. *)
Lemma open_program s prg p argc i ov :
  let fd := openat_ (cstr p) in
  from_parsed cstr openat_ prg (mkParsed (Some p) argc i ov) s =
  if sys_err fd then Ret (log (EvPrint 2 (MOpenFailed (cstr p) (2 ^ 64 - fd))) (log (EvOpen (cstr p)) s), Err (Returned 1))
  else if ov =? 0 then Ret (log (EvOpen (cstr p)) s, Ok (as_i32 fd, argc, i))
  else if decide (i < length (stack s))%nat then
    Ret (mkBoot (__environ s) (__MMAP_ADDR s) (native_base s) (winter_base s) (<[i := ov]> (stack s)) (trace s ++ [EvOpen (cstr p)]),
         Ok (as_i32 fd, argc, i))
  else Panic Fault.
Proof.
  cbn zeta. unfold from_parsed. cbn [p_exec p_argc p_argv p_override]. ent_eval.
  destruct (sys_err (openat_ (cstr p))); [by ent_eval|]. ent_eval. destruct (ov =? 0); cbn [negb]; [by ent_eval|].
  ent_eval. cbn [stack log]. by case_decide.
Qed.

Definition preload_options : list (list Z) := [lit "--preload-subsystem"; lit "--preload-native"; lit "--preload-lilium"].
Definition other_options : list (list Z) := lit "--help" :: lit "--version" :: preload_options.

(** C27: what the loader does with its command line, for every list of arguments.  It skips
    a number [k] of leading [--argv0]; each moves [argv] by two words, and the word behind
    its last position is kept as a name.  The next word decides.  [--help] and [--version]
    print and return 0; the end of the arguments and an unknown option, [--preload-subsys]
    as the help text calls it among them, print and return 1; the three [--preload-*] options
    the code knows, which the help text documents as loading a module, panic as unfinished.
    In all these cases no file is opened.  Any other argument is opened as the program: when
    this fails it is reported with status 1, otherwise [argc] has gone down by [k + 1],
    [argv] is [2 k + 1] words further, and the kept name, if any, is stored there.  So
    [--argv0 name program] opens [name]. *)
Theorem option_outcomes s p0 args env argc :
  stack s = p0 :: args ++ 0 :: env -> utf8_ok (cstr p0) = true -> 1 <= argc ->
  let says m code := command_line argc s = Ret (log m s, Err (Returned code)) in
  exists ps p rest, args ++ 0 :: env = ps ++ p :: rest /\ Forall is_argv0 ps /\ ~ is_argv0 p /\
    let k := length ps in
    let ov := override_at (stack s) 1 k 0 in
    ((2 * k < length (stack s))%nat ->
    (p = 0 -> says (EvPrint 2 (MUsage (cstr p0))) 1) /\
    (p <> 0 -> cstr p = lit "--help" -> says (EvPrint 1 (MHelp (cstr p0))) 0) /\
    (p <> 0 -> cstr p = lit "--version" -> says (EvPrint 1 MVersion) 0) /\
    (p <> 0 -> cstr p ∈ preload_options -> command_line argc s = Panic Todo) /\
    (p <> 0 -> utf8_ok (cstr p) = true -> has_prefix (cstr p) (lit "--") = true -> cstr p ∉ other_options ->
       says (EvPrint 2 (MUnknown (cstr p))) 1) /\
    (p <> 0 -> cstr p = lit "--preload-subsys" -> says (EvPrint 2 (MUnknown (lit "--preload-subsys"))) 1) /\
    (p <> 0 -> names_program (cstr p) ->
       let fd := openat_ (cstr p) in
       command_line argc s =
       if sys_err fd then Ret (log (EvPrint 2 (MOpenFailed (cstr p) (2 ^ 64 - fd))) (log (EvOpen (cstr p)) s), Err (Returned 1))
       else if ov =? 0 then Ret (log (EvOpen (cstr p)) s, Ok (as_i32 fd, usize_wrap (argc - 1 - Z.of_nat k), 1 + 2 * k)%nat)
       else if decide (1 + 2 * k < length (stack s))%nat then
         Ret (mkBoot (__environ s) (__MMAP_ADDR s) (native_base s) (winter_base s) (<[(1 + 2 * k)%nat := ov]> (stack s))
                (trace s ++ [EvOpen (cstr p)]), Ok (as_i32 fd, usize_wrap (argc - 1 - Z.of_nat k), 1 + 2 * k)%nat)
       else Panic Fault)).
Proof.
  intros Hs Hu Ha says.
  assert (exists ps p rest, args ++ 0 :: env = ps ++ p :: rest /\ Forall is_argv0 ps /\ ~ is_argv0 p) as (ps & p & rest & E & Hps & Hp).
  { clear Hs. induction args as [|x args (ps & p & rest & E & Hps & Hp)].
    - exists [], 0, env. split; [done|]. split; [constructor|]. by intros [? _].
    - destruct (decide (is_argv0 x)).
      + exists (x :: ps), p, rest. split; [cbn [app]; by f_equal|]. split; [by constructor|done].
      + exists [], x, (args ++ 0 :: env). split; [done|]. split; [constructor|done]. }
  exists ps, p, rest. split_and!; [done..|]. cbn zeta. intros Hk.
  assert (C : forall r, parse_args cstr (cstr p0) (p :: rest) (usize_wrap (argc - 1 - Z.of_nat (length ps))) (1 + 2 * length ps)
                (override_at (stack s) 1 (length ps) 0) s = r ->
    command_line argc s = (r' ← r; match r' with (s', Err e) => Ret (s', Err e) | (s', Ok r) => from_parsed cstr openat_ (cstr p0) r s' end)).
  { intros r Hr. apply (command_line_parse s p0); [by rewrite Hs|done|done|].
    replace (drop 1 (stack s)) with (ps ++ p :: rest) by (rewrite Hs; by rewrite <- E).
    rewrite parse_argv0s by (done || lia). done. }
  assert (Hz : p <> 0 -> (p =? 0) = false) by (intros; by apply Z.eqb_neq).
  assert (Unk : p <> 0 -> utf8_ok (cstr p) = true -> has_prefix (cstr p) (lit "--") = true -> cstr p ∉ other_options ->
       says (EvPrint 2 (MUnknown (cstr p))) 1).
  { intros Hp0 Hu1 Hpre Hno. unfold says. erewrite C; [|cbn [parse_args]; rewrite Hz, Hu1 by done; cbn [negb]].
    2:{ unfold eq_arg. rewrite (bool_decide_eq_false_2 (cstr p = lit "--argv0")) by (intros E'; by apply Hp).
        rewrite !bool_decide_eq_false_2 by (intros E'; apply Hno; rewrite E'; apply list_elem_of_In; simpl; auto 10).
        rewrite Hpre. reflexivity. }
    done. }
  split_and!; unfold says in *.
  - intros ->. erewrite C by reflexivity. done.
  - intros Hp0 Hc. erewrite C by (cbn [parse_args]; rewrite Hz, Hc by done; reflexivity). done.
  - intros Hp0 Hc. erewrite C by (cbn [parse_args]; rewrite Hz, Hc by done; reflexivity). done.
  - intros Hp0 Hc. apply list_elem_of_In in Hc. destruct Hc as [Hc|[Hc|[Hc|[]]]];
      erewrite C by (cbn [parse_args]; rewrite Hz, <- Hc by done; reflexivity); done.
  - done.
  - intros Hp0 Hc. rewrite <- Hc. apply Unk; [done|by rewrite Hc..|]. rewrite Hc. apply (bool_decide_unpack _). by vm_compute.
  - intros Hp0 Hn. erewrite C by (apply parse_any_program; done). cbn [mbind outcome_bind]. apply open_program.
Qed.

(** [--argv0 name program ..] does not run [program] under another name: the loop
    meets [name] as its next argument, so [name] is the file that is opened; [argv] points
    at the program's argument, now replaced by [name], and [argc] counts one argument
    more than there are (with no argument behind the name, the null word that ends the
    array is what is replaced). *)
Theorem argv0_opens_name s p0 p1 p2 rest env :
  stack s = p0 :: p1 :: p2 :: rest ++ 0 :: env -> p1 <> 0 -> p2 <> 0 ->
  utf8_ok (cstr p0) = true -> cstr p1 = lit "--argv0" -> names_program (cstr p2) ->
  Z.of_nat (length rest) < 2 ^ 32 -> sys_err (openat_ (cstr p2)) = false ->
  exists s',
    command_line (3 + Z.of_nat (length rest)) s =
      Ret (s', Ok (as_i32 (openat_ (cstr p2)), Z.of_nat (length rest) + 1, 3%nat)) /\
    stack s' = p0 :: p1 :: p2 :: <[0%nat := p2]> (rest ++ 0 :: env) /\ trace s' = trace s ++ [EvOpen (cstr p2)].
Proof.
  intros Hs Hp1 Hp2 Hu Ho Hn Hl Hfd. unfold from_command_line. rewrite (proj2 (Z.ltb_ge _ 1)) by lia.
  rewrite (stack_word_bind 0 p0) by (by rewrite Hs). rewrite (lift_bind _ (cstr p0)) by (unfold from_utf8_expect; by rewrite Hu).
  ent_eval. rewrite (usize_small (3 + _ - 1)) by lia.
  assert (P : parse_args cstr (cstr p0) (drop 1 (stack s)) (3 + Z.of_nat (length rest) - 1) 1 0 s =
    Ret (s, Ok (mkParsed (Some p2) (Z.of_nat (length rest) + 1) 3 p2))).
  { rewrite Hs. cbn [drop skipn parse_args]. rewrite (proj2 (Z.eqb_neq p1 0)) by done.
    rewrite Ho. change (negb (utf8_ok (lit "--argv0"))) with false. change (eq_arg (lit "--argv0") "--help") with false.
    change (eq_arg (lit "--argv0") "--version") with false. change (eq_arg (lit "--argv0") "--argv0") with true. cbn iota.
    rewrite (stack_word_bind _ p2) by (by rewrite Hs). cbn [Nat.add].
    rewrite (usize_small (3 + _ - 1 - 1)) by lia.
    replace (3 + Z.of_nat (length rest) - 1 - 1) with (Z.of_nat (length rest) + 1) by lia.
    apply parse_program; [done..|lia]. }
  rewrite (stm_bind_ok _ _ _ _ _ P). unfold from_parsed. cbn [p_exec p_argc p_argv p_override]. ent_eval. rewrite Hfd. ent_eval.
  rewrite (proj2 (Z.eqb_neq p2 0)) by done. cbn [negb]. ent_eval. cbn [stack log]. rewrite Hs.
  rewrite decide_True by (cbn [length]; rewrite length_app; cbn [length]; lia).
  eexists. split; [reflexivity|]. split; [|done]. cbn [stack log]. 
  change (<[3%nat := p2]> (p0 :: p1 :: p2 :: rest ++ 0 :: env)) with (p0 :: p1 :: p2 :: <[0%nat := p2]> (rest ++ 0 :: env)).
  done.
Qed.

(** ** The order of the start *)

Definition init_events (n : list Z) : list event := [EvLoadSubsystem n; EvUpdateTls; EvInitSubsystem n].
(** A subsystem that can be started, and the events when it cannot. *)
Definition starts (n : list Z) : bool := bool_decide (unresolved n = None) && symbol (Some n) wl_init_subsystem_name.
Definition missing_events (n : list Z) : list event :=
  EvLoadSubsystem n ::
  match unresolved n with
  | Some c => [EvPrint 2 (MNotFound c); EvExit 1]
  | None => [EvUpdateTls; EvPrint 2 (MNotFound wl_init_subsystem_name); EvExit 1]
  end.
Definition extend (s : boot_state) (l : list event) : boot_state :=
  mkBoot (__environ s) (__MMAP_ADDR s) (native_base s) (winter_base s) (stack s) (trace s ++ l).

Lemma extend_extend s l1 l2 : extend (extend s l1) l2 = extend s (l1 ++ l2).
Proof. unfold extend. cbn. by rewrite app_assoc. Qed.
Lemma log_extend e s : log e s = extend s [e].
Proof. done. Qed.

Lemma load_and_init_ok n s :
  starts n = true -> load_and_init_subsystem unresolved symbol n s = Ret (extend s (init_events n), Ok tt).
Proof.
  intros Hn. apply andb_true_iff in Hn as [Hu Hs]. apply bool_decide_eq_true in Hu.
  unfold load_and_init_subsystem, load_subsystem, find_sym. ent_eval. rewrite Hu. ent_eval. rewrite Hs. ent_eval.
  unfold emit. rewrite !log_extend, !extend_extend. done.
Qed.
Lemma load_and_init_missing n s :
  starts n = false -> load_and_init_subsystem unresolved symbol n s = Ret (extend s (missing_events n), Err (Exited 1)).
Proof.
  intros Hn. unfold load_and_init_subsystem, load_subsystem, find_sym, missing_events, resolve_error, sys_exit. ent_eval.
  unfold starts in Hn. destruct (unresolved n) as [c|]; ent_eval.
  - rewrite !log_extend, !extend_extend. done.
  - rewrite bool_decide_eq_true_2 in Hn by done. cbn [andb] in Hn. rewrite Hn. ent_eval. rewrite !log_extend, !extend_extend. done.
Qed.

Lemma load_and_init_all_ok names : forall s,
  forallb starts names = true ->
  load_and_init_all unresolved symbol names s = Ret (extend s (names ≫= init_events), Ok tt).
Proof.
  induction names as [|n names IH]; intros s Hl.
  - cbn. unfold extend. by rewrite app_nil_r; destruct s.
  - cbn [forallb] in Hl. apply andb_true_iff in Hl as [Hn Hl]. cbn [load_and_init_all].
    rewrite (stm_bind_ok _ _ _ _ _ (load_and_init_ok _ _ Hn)), IH by done. by rewrite extend_extend.
Qed.

Lemma load_and_init_all_missing a n b : forall s,
  forallb starts a = true -> starts n = false ->
  load_and_init_all unresolved symbol (a ++ n :: b) s =
  Ret (extend s ((a ≫= init_events) ++ missing_events n), Err (Exited 1)).
Proof.
  induction a as [|m a IH]; intros s Hl Hn; cbn [app load_and_init_all].
  - by rewrite (stm_bind_err _ _ _ _ _ (load_and_init_missing _ _ Hn)).
  - cbn [forallb] in Hl. apply andb_true_iff in Hl as [Hm Hl].
    rewrite (stm_bind_ok _ _ _ _ _ (load_and_init_ok _ _ Hm)), IH by done. by rewrite extend_extend.
Qed.

Definition others : list (list Z) := [lit "thread"; lit "io"; lit "process"; lit "debug"; lit "kmgmt"].
Definition tls_events : list event :=
  let tp k := usize_wrap (mmap_ k + Z.shiftr TLS_BLOCK_SIZE 1) in
  [EvMmap (tls_block_ptr vaddr_end) TLS_BLOCK_SIZE; EvMprotect (tp 0%nat) TCB_SIZE; EvSetupTlsMc (tp 0%nat);
   EvMmap (tls_block_ptr vaddr_end) TLS_BLOCK_SIZE; EvMprotect (tp 1%nat) TCB_SIZE; EvSetTp (tp 1%nat)].
Definition base_events (rand : Z * Z) : list event :=
  [EvLoadSubsystem (lit "base"); EvUpdateTls;
   EvSetupProcess (native_region_base vaddr_end) NATIVE_REGION_SIZE rand; EvInitSubsystem (lit "base")].
Definition subsystem_events (rand : Z * Z) : list event := base_events rand ++ (others ≫= init_events).

Lemma setup_tls_ok s :
  (forall k, sys_err (mmap_ k) = false) -> (forall a, mprotect_ok a = true) ->
  setup_tls vaddr_end mmap_ mprotect_ok s = Ret (extend s tls_events, Ok tt).
Proof.
  intros Hm Hp. unfold setup_tls, tls_block. ent_eval. rewrite Hm. ent_eval. rewrite Hp. cbn [negb]. ent_eval.
  rewrite Hm. ent_eval. rewrite Hp. cbn [negb]. ent_eval. unfold emit. rewrite !log_extend, !extend_extend. done.
Qed.

Lemma start_base g s :
  starts (lit "base") = true -> symbol None wl_setup_process_name = true ->
  start_subsystems vaddr_end unresolved symbol update finish g s =
  (load_and_init_all unresolved symbol others ≫= fun _ => mret (skip update finish g 2))
    (extend s (base_events (draw update finish g 0, draw update finish g 1))).
Proof.
  intros Hb Hp. apply andb_true_iff in Hb as [Hu Hs]. apply bool_decide_eq_true in Hu.
  unfold start_subsystems, load_subsystem, find_sym. ent_eval. rewrite Hu. ent_eval. rewrite Hp, Hs. cbn [gen_next]. ent_eval.
  rewrite !log_extend, !extend_extend. done.
Qed.

Lemma start_subsystems_ok g s :
  forallb starts (lit "base" :: others) = true -> symbol None wl_setup_process_name = true ->
  start_subsystems vaddr_end unresolved symbol update finish g s =
  Ret (extend s (subsystem_events (draw update finish g 0, draw update finish g 1)), Ok (skip update finish g 2)).
Proof.
  intros Hl Hp. cbn [forallb] in Hl. apply andb_true_iff in Hl as [Hb Hl]. rewrite start_base by done.
  erewrite stm_bind_ok by (apply load_and_init_all_ok; exact Hl). by rewrite extend_extend.
Qed.

(** The subsystems start in a fixed order: the base is loaded first, the process is
    set up before any subsystem initialises, the base initialises before the others are
    loaded, and each of those is initialised before the next is loaded.  When one is
    missing, the process ends with status 1 and nothing behind it is loaded. *)
Theorem subsystem_order g s :
  let rand := (draw update finish g 0, draw update finish g 1) in
  (forallb starts (lit "base" :: others) = true -> symbol None wl_setup_process_name = true ->
     exists g', start_subsystems vaddr_end unresolved symbol update finish g s = Ret (extend s (subsystem_events rand), Ok g')) /\
  (forall c, unresolved (lit "base") = Some c ->
     start_subsystems vaddr_end unresolved symbol update finish g s =
       Ret (extend s (missing_events (lit "base")), Err (Exited 1))) /\
  (forall a n b, others = a ++ n :: b -> forallb starts (lit "base" :: a) = true -> symbol None wl_setup_process_name = true ->
     starts n = false ->
     start_subsystems vaddr_end unresolved symbol update finish g s =
       Ret (extend s (base_events rand ++ (a ≫= init_events) ++ missing_events n), Err (Exited 1))).
Proof.
  intros rand. split_and!.
  - intros Hl Hp. eexists. by apply start_subsystems_ok.
  - intros c Hb. unfold start_subsystems, load_subsystem, missing_events, resolve_error, sys_exit. ent_eval. rewrite Hb. ent_eval.
    rewrite !log_extend, !extend_extend. done.
  - intros a n b Ho Hb Hp Hn. cbn [forallb] in Hb. apply andb_true_iff in Hb as [Hb Ha]. rewrite start_base, Ho by done.
    erewrite stm_bind_err by (by apply load_and_init_all_missing). by rewrite extend_extend.
Qed.

(** The state when the program is looked for. *)
Definition scanned (s : boot_state) (envp : nat) (sa : Z) (c : scan) : boot_state :=
  mkBoot envp (mmap_region vaddr_end) (native_region_base vaddr_end)
    (lilium_base_addr (draw update finish (gen_seed from_keys (s_rand c)) 0)) (stack s) (trace s ++ [EvName sa; EvResolveSelf]).
Definition scan_result (aux : list (Z * Z)) : scan :=
  mkScan (pick bytes16 AT_RANDOM aux (replicate 16 0)) (pick as_i32 AT_EXECFD aux (-1)) (pick id AT_EXECFN aux 0) (pick id AT_BASE aux 0).

(** C24: when nothing fails, [__rust_entry] reaches the hand-over, having set up thread-local
    storage, then the subsystems, then the program, in this order; the program is entered
    at its load address plus its entry point with three auxiliary entries, the last of which
    counts the three handles of the standard streams, and the count
    of the environment is the distance from [envp] to [auxv], which includes the null
    word between them. *)
Theorem rust_entry_hands_over s argc envp auxv sa aux rest dbg s3 fd argc' argv' base e_entry :
  drop auxv (stack s) = aux_words aux ++ 0 :: rest -> Forall (fun e => e.1 <> 0) aux -> existsb is_secure aux = false ->
  let c := scan_result aux in
  set_debug cstr parse_debug WL_LD_DEBUG_DEFAULT envp (scanned s envp sa c) = Ret (extend (scanned s envp sa c) dbg, Ok tt) ->
  find_program cstr open_ openat_ c argc (extend (scanned s envp sa c) dbg) = Ret (s3, Ok (fd, argc', argv')) ->
  (forall k, sys_err (mmap_ k) = false) -> (forall a, mprotect_ok a = true) ->
  forallb starts (lit "base" :: others) = true ->
  symbol None wl_setup_process_name = true -> symbol None wl_get_init_handles_name = true ->
  load_program fd = Ok base -> read_entry fd = Some e_entry ->
  let g := gen_seed from_keys (s_rand c) in
  entry_point argc envp auxv sa s =
  Ret (extend s3 (tls_events ++ subsystem_events (draw update finish g 1, draw update finish g 2) ++ [EvLoadProgram fd; EvClose fd; EvUpdateTls]),
       Ok (mkGuest argc' argv' envp (Z.of_nat auxv - Z.of_nat envp)
             ([(LILIUM_AT_RANDOM, random_ptr); (AT_LILIUM_INIT_HANDLES, handles_ptr);
               (AT_LILIUM_INIT_HANDLES_LEN, 3)] ++ replicate 13 (0, 0)) 3
             (usize_wrap (base + e_entry)))).
Proof.
  intros Hd Hne Hsec c Hdbg Hfind Hm Hp Hl Hsp Hgh Hb He g. unfold rust_entry. ent_eval. cbn [stack log].
  erewrite lift_bind by (rewrite Hd; by apply aux_slice_words).
  erewrite stm_bind_ok by (rewrite scan_auxv_spec, Hsec; reflexivity). ent_eval. cbn [scan_init s_rand s_execfd s_execfn s_base].
  change (mkScan _ _ _ _) with c. change (pick bytes16 AT_RANDOM aux (replicate 16 0)) with (s_rand c). fold g. cbn [gen_next].
  rewrite (stm_bind_ok _ _ _ (scanned s envp sa c) tt)
    by (unfold set_winter, scanned; cbn [log __environ __MMAP_ADDR native_base winter_base stack trace]; by rewrite <- app_assoc).
  rewrite (stm_bind_ok _ _ _ _ _ Hdbg), (stm_bind_ok _ _ _ _ _ Hfind), (stm_bind_ok _ _ _ _ _ (setup_tls_ok _ Hm Hp)).
  rewrite (stm_bind_ok _ _ _ _ _ (start_subsystems_ok _ _ Hl Hsp)). unfold start_program. ent_eval. rewrite Hb, He. ent_eval.
  unfold setup_auxv, find_sym. cbn [gen_next]. rewrite Hgh. ent_eval.
  destruct (get_init_handles_len handle_array HANDLE_TYPE_IO 0 0 0 (replicate 61 0)) as (hs & sl & Eh).
  rewrite (lift_bind _ (hs, (sl, 3))) by exact Eh. ent_eval.
  rewrite !log_extend, !extend_extend. done.
Qed.
End Theorems.

(** ** Concrete inputs *)

Definition sample_cstr (p : Z) : list Z :=
  default [] ([lit ""; lit "ld"; lit "prog"; lit "--argv0"; lit "name"; lit "--help"; lit "HOME=/"] !! Z.to_nat p).

Lemma address_layout_witness :
  native_region_base 0x80000123 + NATIVE_REGION_SIZE = 0x80001000 /\
  lilium_base_addr 0xFFFFFFFFFFFFFFFF < tls_block_ptr 0x80000123.
Proof.
  destruct (address_layout 0x80000123 0xFFFFFFFFFFFFFFFF ltac:(lia) ltac:(lia)) as (_ & _ & _ & E & _ & _ & _ & L).
  by split.
Defined.

Definition boot0 (st : list Z) : boot_state := mkBoot 0 0 0 0 st [].
Definition sample_stack (aux : list Z) : list Z := [1; 2; 4; 0; 6; 0] ++ aux ++ [0; 0].

Lemma secure_mode_exits_witness :
  exists s', rust_entry sample_cstr (fun _ => replicate 16 7) (2 ^ 40) (fun _ => 3) (fun _ => 3) (fun _ => 65536) (fun _ => true)
    (fun _ => None) (fun _ _ => true) (fun _ => Ok 0) (fun _ => Some 0) (fun a _ => a) (fun h x => h + x) (fun h => h) (fun _ => None) None 0 0 8192 1 1 2 3
    3 4 6 0 (boot0 (sample_stack [7; 0; 23; 1])) = Ret (s', Err (Exited 1)) /\
    trace s' = [EvName 0; EvPrint 2 MSecure; EvExit 1].
Proof.
  destruct (secure_mode_exits sample_cstr (fun _ => replicate 16 7) (2 ^ 40) (fun _ => 3) (fun _ => 3) (fun _ => 65536) (fun _ => true)
    (fun _ => None) (fun _ _ => true) (fun _ => Ok 0) (fun _ => Some 0) (fun a _ => a) (fun h x => h + x) (fun h => h) (fun _ => None) None 0 0 8192 1 1 2 3
    3 4%nat 6%nat 0 (boot0 (sample_stack [7; 0; 23; 1])) [(7, 0); (23, 1)] [0] eq_refl) as (s' & E & _ & T);
    [repeat constructor; simpl; lia|reflexivity|].
  exists s'. by split.
Defined.

Lemma plain_command_line_witness :
  exists s', from_command_line sample_cstr (fun _ => 5) 3 (boot0 (sample_stack [])) = Ret (s', Ok (5, 2, 1%nat)) /\
    trace s' = [EvOpen (lit "prog")].
Proof.
  destruct (plain_command_line sample_cstr (fun _ => 5) (boot0 (sample_stack [])) 1 2 [4] [6; 0; 0; 0]) as (s' & _ & E & T);
    [reflexivity|lia|reflexivity|right; reflexivity|simpl; lia|].
  exists s'. by split.
Defined.

(** [ld --argv0 name prog] with one more [--argv0] in front: the third word decides. *)
Lemma option_outcomes_witness :
  exists s', from_command_line sample_cstr (fun _ => 5) 5 (boot0 [1; 3; 3; 4; 2; 0; 6; 0]) = Ret (s', Ok (5, 2, 5%nat)) /\
    stack s' = [1; 3; 3; 4; 2; 2; 6; 0] /\ trace s' = [EvOpen (lit "name")].
Proof.
  destruct (option_outcomes sample_cstr (fun _ => 5) (boot0 [1; 3; 3; 4; 2; 0; 6; 0]) 1 [3; 3; 4; 2] [6; 0] 5 eq_refl eq_refl)
    as (ps & p & rest & E & Hps & Hp & H0); [lia|].
  assert (ps = [3; 3] /\ p = 4) as [-> ->].
  { destruct ps as [|x ps]; [cbn in E; injection E as <- _; by destruct Hp|].
    apply Forall_cons_1 in Hps as [_ Hps]. cbn in E. injection E as <- E.
    destruct ps as [|y ps]; [cbn in E; injection E as <- _; by destruct Hp|].
    apply Forall_cons_1 in Hps as [_ Hps]. cbn in E. injection E as <- E.
    destruct ps as [|z ps]; cbn in E; [by injection E as <- _|].
    apply Forall_cons_1 in Hps as [[_ Hz] _]. injection E as <- E. by vm_compute in Hz. }
  destruct (H0 ltac:(vm_compute; lia)) as (_ & _ & _ & _ & _ & _ & Ho).
  eexists. split; [etrans; [apply Ho; [done|right; reflexivity]|vm_compute; reflexivity]|]. by split.
Defined.

Lemma argv0_opens_name_witness :
  exists s', from_command_line sample_cstr (fun _ => 5) 4 (boot0 ([1; 3; 4; 2; 0; 6; 0])) = Ret (s', Ok (5, 2, 3%nat)) /\
    stack s' = [1; 3; 4; 4; 0; 6; 0] /\ trace s' = [EvOpen (lit "name")].
Proof.
  destruct (argv0_opens_name sample_cstr (fun _ => 5) (boot0 ([1; 3; 4; 2; 0; 6; 0])) 1 3 4 [2] [6; 0]) as (s' & E & S & T);
    [reflexivity|lia|lia|reflexivity|reflexivity|right; reflexivity|simpl; lia|reflexivity|].
  exists s'. by split_and!.
Defined.

Lemma rust_entry_hands_over_witness :
  exists s', rust_entry sample_cstr (fun _ => replicate 16 7) (2 ^ 40) (fun _ => 3) (fun _ => 5) (fun _ => 65536) (fun _ => true)
    (fun _ => None) (fun _ _ => true) (fun _ => Ok 4096) (fun _ => Some 64) (fun a _ => a) (fun h x => h + x) (fun h => h) (fun _ => None) None 8 9 8192 1 1 2 3
    3 4 6 0 (boot0 (sample_stack [25; 100])) =
    Ret (s', Ok (mkGuest 2 1 4 2 ([(1, 8); (2, 9); (3, 3)] ++ replicate 13 (0, 0)) 3 4160)).
Proof.
  eexists.
  refine (rust_entry_hands_over sample_cstr (fun _ => replicate 16 7) (2 ^ 40) (fun _ => 3) (fun _ => 5) (fun _ => 65536) (fun _ => true)
    (fun _ => None) (fun _ _ => true) (fun _ => Ok 4096) (fun _ => Some 64) (fun a _ => a) (fun h x => h + x) (fun h => h) (fun _ => None) None 8 9 8192 1 1 2 3
    (boot0 (sample_stack [25; 100])) 3 4 6 0 [(25, 100)] [0] [] _ 5 2 1 4096 64 eq_refl _ _ _ _ _ _ _ _ _ _ _);
    [repeat constructor; simpl; lia|reflexivity|vm_compute; reflexivity|vm_compute; reflexivity|reflexivity|reflexivity|reflexivity|reflexivity|reflexivity|reflexivity|reflexivity].
Defined.
