(* ===== verification/SysInfo.v ===== *)
(** * System information (wl-usi-base/src/info.rs)

    [GetSystemInfo] answers an array of requests in the caller's memory: each has a header
    that names its type; a string, version numbers or a subsystem's registration is written
    into it and into the buffers it points to, and the first error is the result of the
    call.  The requests are read and written in the same memory as the buffers
    ([CheckedMem.mem]); where the fields of a request are is a parameter, since the union
    is declared in another crate. *)

From Stdlib Require Import ZArith Lia.
From stdpp Require Import base numbers list option strings gmap sets.
From S2P Require Import Prelude.
From S2P Require Import Utf8.
From S2P Require Import Errors.
From S2P Require Import Syscalls.
From S2P Require Import Features.
From S2P Require Import CheckedMem.

Local Open Scope Z_scope.

(** ** Requests *)

(** The string descriptors of [union SysInfoRequest], each a pointer and a length. *)
Inductive str_field : Type := OsvendorName | KvendorName | Hostname | SysDisplayName | SysLabel.

(** The fields of [union SysInfoRequest] the code accesses: those of the header and those
    of the view of each type. *)
Inductive field : Type :=
| Ty | Flags | Reserved
| StrPtr (s : str_field) | StrLen (s : str_field)
| OsMajor | OsMinor
| BuildId | KernelMajor | KernelMinor
| ArchType | ArchVersion
| SysId
| MaxSysno | SubsysVersion | SubsystemNo.

Inductive view : Type := Head | OsVersion | KernelVendor | ArchInfo | ComputerName | SupportedSubsystem.
#[export] Instance view_eq_dec : EqDecision view.
Proof. solve_decision. Defined.

Definition str_view (s : str_field) : view :=
  match s with OsvendorName => OsVersion | KvendorName => KernelVendor | _ => ComputerName end.
Definition view_of (f : field) : view :=
  match f with
  | Ty | Flags | Reserved => Head
  | StrPtr s | StrLen s => str_view s
  | OsMajor | OsMinor => OsVersion
  | BuildId | KernelMajor | KernelMinor => KernelVendor
  | ArchType | ArchVersion => ArchInfo
  | SysId => ComputerName
  | MaxSysno | SubsysVersion | SubsystemNo => SupportedSubsystem
  end.

(** A static string: its address and its bytes. *)
Record static_str : Type := mkStr { s_ptr : Z; s_bytes : list Z }.
Definition s_len (s : static_str) : Z := Z.of_nat (length (s_bytes s)).

(** [COMPUTER_NAME]: the host name up to its first null, or a fallback. *)
Fixpoint take_while (p : Z -> bool) (l : list Z) : list Z :=
  match l with [] => [] | b :: r => if p b then b :: take_while p r else [] end.
Definition computer_name (fallback : list Z) (uname : option (list Z)) : list Z :=
  match uname with
  | Some nodename =>
    let b := take_while (fun c => negb (c =? 0)) nodename in
    if utf8_ok b then b else fallback
  | None => fallback
  end.

(** [consts]. *)
Definition OS_ELAB_NAME_bytes : list Z := [76; 105; 108; 105; 117; 109].
Definition OS_VERSION_MAJOR : Z := 0.
Definition OS_VERSION_MINOR : Z := 1.

(** The bytes from [a] on; unmapped ones read as 0. *)
Definition peek (m : mem) (a : Z) (n : nat) : list Z :=
  (fun i => default 0 (cells m !! (a + Z.of_nat i))) <$> seq 0 n.

Section Info.
(** Types of requests, by the value of their UUID, and the UUIDs of names. *)
Context (SYSINFO_REQUEST_OSVER SYSINFO_REQUEST_KVENDOR SYSINFO_REQUEST_ARCH_INFO SYSINFO_REQUEST_COMPUTER_NAME : Z).
Context (uuid_value : string -> Z).
(** Where the constant strings are; the constants of the build, the version's UUID, the
    name of the machine with its UUID. *)
Context (elab_name : Z) (KVENDOR_NAME COMPUTER_NAME : static_str) (VERSION ARCH_TYPE_X86_64 COMPUTER_ID : Z).
Context (VERSION_MAJOR VERSION_MINOR : Z).
(** The x86-64 level found by [march_ver], and the registered subsystems. *)
Context (arch_level : Z) (reg : registry).
(** The layout of a request: the offset of each field, the number of reserved bytes of the
    header, the size. *)
Context (off : field -> Z) (nreserved : nat) (size : Z).

Definition OS_ELAB_NAME : static_str := mkStr elab_name OS_ELAB_NAME_bytes.

(** The size of a field, from the type of what the code reads or stores there: UUIDs
    have 16 bytes, flags and versions are [u32], numbers of calls and subsystems [u16]. *)
Definition width (f : field) : nat :=
  match f with
  | Ty | BuildId | ArchType | SysId => 16
  | Flags | OsMajor | OsMinor | KernelMajor | KernelMinor | ArchVersion => 4
  | Reserved => nreserved
  | StrPtr _ | StrLen _ | SubsysVersion => 8
  | MaxSysno | SubsystemNo => 2
  end.

Definition read_field (m : mem) (p : Z) (f : field) : outcome Z :=
  bs ← load_bytes m (p + off f) (width f); Ret (le_value bs).
Definition write_field (m : mem) (p : Z) (f : field) (v : Z) : outcome mem :=
  store_bytes m (p + off f) (le_bytes (width f) v).
Definition read_head (m : mem) (p : Z) : outcome ExtendedOptionHead :=
  ty ← read_field m p Ty;
  flags ← read_field m p Flags;
  reserved ← load_bytes m (p + off Reserved) (width Reserved);
  Ret (mkHead ty flags reserved).

(** [req.head.flags &= !0x0001]. *)
Definition clear_ignore (m : mem) (p : Z) : outcome mem :=
  flags ← read_field m p Flags;
  write_field m p Flags (Z.land flags (not_w 32 0x0001)).

(** [fill_str(&mut req.s, st)]. *)
Definition fill (m : mem) (p : Z) (s : str_field) (st : static_str) : outcome (mem * result unit SysError) :=
  fill_str m (p + off (StrPtr s)) (p + off (StrLen s)) (s_ptr st) (s_len st).

(** [all_subsystems().find(|(_, subsys)| subsys.uuid == id)]. *)
Definition find_subsystem (id : Z) : option (Z * SubsysInfo) :=
  match find_index (fun x => uuid_value (uuid x.2) =? id) (all_subsystems reg) with
  | Some i => all_subsystems reg !! i
  | None => None
  end.

(** A request that is not known: refused unless it may be ignored. *)
Definition refuse (h : ExtendedOptionHead) : result unit SysError :=
  if Z.land (flags h) 0x0001 =? 0 then Err InvalidOption else Ok tt.

Definition process_request (m : mem) (p : Z) : outcome (mem * result unit SysError) :=
  h ← read_head m p;
  match validate_option_head h 0x0001 with
  | Err e => Ret (m, Err e)
  | Ok _ =>
    if negb (Z.land (flags h) 0x00010000 =? 0) then Ret (m, refuse h)
    else if oty h =? SYSINFO_REQUEST_OSVER then
      m ← clear_ignore m p;
      '(m, r) ← fill m p OsvendorName OS_ELAB_NAME;
      match r with
      | Err e => Ret (m, Err e)
      | Ok _ =>
        m ← write_field m p OsMajor OS_VERSION_MAJOR;
        m ← write_field m p OsMinor OS_VERSION_MINOR;
        Ret (m, Ok tt)
      end
    else if oty h =? SYSINFO_REQUEST_KVENDOR then
      m ← clear_ignore m p;
      '(m, r) ← fill m p KvendorName KVENDOR_NAME;
      match r with
      | Err e => Ret (m, Err e)
      | Ok _ =>
        m ← write_field m p BuildId VERSION;
        m ← write_field m p KernelMajor VERSION_MAJOR;
        m ← write_field m p KernelMinor VERSION_MINOR;
        Ret (m, Ok tt)
      end
    else if oty h =? SYSINFO_REQUEST_ARCH_INFO then
      m ← clear_ignore m p;
      m ← write_field m p ArchType ARCH_TYPE_X86_64;
      m ← write_field m p ArchVersion arch_level;
      Ret (m, Ok tt)
    else if oty h =? SYSINFO_REQUEST_COMPUTER_NAME then
      m ← clear_ignore m p;
      m ← write_field m p SysId COMPUTER_ID;
      let ret := Ok tt in
      '(m, r) ← fill m p Hostname COMPUTER_NAME;
      let ret := result_and r ret in
      '(m, r) ← fill m p SysDisplayName COMPUTER_NAME;
      let ret := result_and r ret in
      '(m, r) ← fill m p SysLabel COMPUTER_NAME;
      let ret := result_and r ret in
      Ret (m, ret)
    else
      match find_subsystem (oty h) with
      | Some (subsys, info) =>
        m ← write_field m p MaxSysno (max_sysno info);
        m ← write_field m p SubsysVersion (subsys_version info);
        m ← write_field m p SubsystemNo subsys;
        Ret (m, Ok tt)
      | None => Ret (m, refuse h)
      end
  end.

(** [GetSystemInfo]: the iterator probes each request for reading; [local] is the probe's
    local variable. *)
Context (local : Z).

Fixpoint get_loop (fuel : nat) (m : mem) (it : slice_iter) (res : result unit SysError) :
    outcome (mem * result unit SysError) :=
  match fuel with
  | O => Panic Explicit   (** not reached: see [get_loop_ok] *)
  | S k =>
    '(m, it, x) ← iter_step_next false local size m it;
    match x with
    | None => Ret (m, res)
    | Some (Err _) => Ret (m, Err InvalidMemory)
    | Some (Ok p) =>
      '(m, r) ← process_request m p;
      get_loop k m it (result_and res r)
    end
  end.
Definition GetSystemInfo (m : mem) (base len : Z) : outcome (mem * result unit SysError) :=
  get_loop (S (Z.to_nat len)) m (iter_new size base len) (Ok tt).

(** ** Specification *)

(** What a type of request asks for: whether the flag that lets it be ignored is cleared,
    the numbers stored in any case, the strings, and the numbers stored once all strings
    fit. *)
Record info : Type := mkInfo {
  i_clears : bool; i_before : list (field * Z); i_strings : list (str_field * static_str); i_after : list (field * Z) }.

Definition info_of (ty : Z) : option info :=
  if ty =? SYSINFO_REQUEST_OSVER then
    Some (mkInfo true [] [(OsvendorName, OS_ELAB_NAME)] [(OsMajor, OS_VERSION_MAJOR); (OsMinor, OS_VERSION_MINOR)])
  else if ty =? SYSINFO_REQUEST_KVENDOR then
    Some (mkInfo true [] [(KvendorName, KVENDOR_NAME)]
      [(BuildId, VERSION); (KernelMajor, VERSION_MAJOR); (KernelMinor, VERSION_MINOR)])
  else if ty =? SYSINFO_REQUEST_ARCH_INFO then
    Some (mkInfo true [] [] [(ArchType, ARCH_TYPE_X86_64); (ArchVersion, arch_level)])
  else if ty =? SYSINFO_REQUEST_COMPUTER_NAME then
    Some (mkInfo true [(SysId, COMPUTER_ID)]
      [(Hostname, COMPUTER_NAME); (SysDisplayName, COMPUTER_NAME); (SysLabel, COMPUTER_NAME)] [])
  else
    (fun x => mkInfo false [] [] [(MaxSysno, max_sysno x.2); (SubsysVersion, subsys_version x.2); (SubsystemNo, x.1)])
      <$> find_subsystem ty.

(** The request at [p] of the memory [m]. *)
Section Request.
Context (m : mem) (p : Z).
Definition get (f : field) : Z := le_value (peek m (p + off f) (width f)).
(** The reserved bytes are 0, and no flag other than bits 0 and 16 is set. *)
Definition well_formed : bool :=
  forallb (fun b => b =? 0) (peek m (p + off Reserved) (width Reserved)) && (Z.land (get Flags) (not_w 32 0x10001) =? 0).
Definition ignorable : bool := Z.testbit (get Flags) 0.
Definition handled : option info :=
  if well_formed && negb (Z.testbit (get Flags) 16) then info_of (get Ty) else None.

Definition fits (x : str_field * static_str) : bool := s_len x.2 <=? get (StrLen x.1).
Definition verdict : result unit SysError :=
  match handled with
  | Some i => if forallb fits (i_strings i) then Ok tt else Err InsufficientLength
  | None => if well_formed && ignorable then Ok tt else Err InvalidOption
  end.

(** The writes: addresses with the bytes stored there. *)
Definition set_field (x : field * Z) : Z * list Z := (p + off x.1, le_bytes (width x.1) x.2).
(** How many bytes of a string are copied into its buffer. *)
Definition room (x : str_field * static_str) : nat := Nat.min (Z.to_nat (get (StrLen x.1))) (length (s_bytes x.2)).
Definition string_writes (x : str_field * static_str) : list (Z * list Z) :=
  [(get (StrPtr x.1), take (Z.to_nat (copied (Z.of_nat (room x)))) (s_bytes x.2)); set_field (StrLen x.1, s_len x.2)].
Definition request_writes : list (Z * list Z) :=
  match handled with
  | Some i =>
    (if i_clears i then [set_field (Flags, Z.land (get Flags) (not_w 32 0x0001))] else []) ++
    (set_field <$> i_before i) ++ (i_strings i ≫= string_writes) ++
    (if forallb fits (i_strings i) then set_field <$> i_after i else [])
  | None => []
  end.
End Request.

Definition apply_writes (m : mem) (ws : list (Z * list Z)) : mem :=
  foldl (fun m w => write_bytes m w.1 w.2) m ws.
Fixpoint first_error (rs : list (result unit SysError)) : result unit SysError :=
  match rs with [] => Ok tt | Ok _ :: r => first_error r | Err e :: _ => Err e end.
Definition address (base : Z) (i : nat) : Z := base + Z.of_nat i * size.
(** The verdicts and the writes of all requests of an array, each from the memory [m]. *)
Definition verdicts (m : mem) (base : Z) (n : nat) : list (result unit SysError) :=
  (fun i => verdict m (address base i)) <$> seq 0 n.
Definition all_writes (m : mem) (base : Z) (n : nat) : list (Z * list Z) :=
  concat ((fun i => request_writes m (address base i)) <$> seq 0 n).

(** ** What the caller and the layout have to provide *)

(** The regions of [n] bytes at [a] and of [k] bytes at [b] do not meet. *)
Definition apart (a n b k : Z) : Prop := a + n <= b \/ b + k <= a.

(** Fields lie in the request, and two fields that a view has together do not overlap. *)
Record layout_ok : Prop := {
  lo_inside : forall f, 0 <= off f /\ off f + Z.of_nat (width f) <= size;
  lo_apart : forall f g, f <> g -> view_of f = view_of g \/ view_of f = Head \/ view_of g = Head ->
    apart (off f) (Z.of_nat (width f)) (off g) (Z.of_nat (width g)) }.

Definition statics : list static_str := [OS_ELAB_NAME; KVENDOR_NAME; COMPUTER_NAME].
(** A static string is intact, and away from [n] bytes at [a]. *)
Definition static_ok (m : mem) (a n : Z) (s : static_str) : Prop :=
  bytes_at m (s_ptr s) (s_bytes s) /\ in_address_space (s_ptr s) (length (s_bytes s)) /\ apart (s_ptr s) (s_len s) a n.

(** The buffer for a string of the request at [p]: its length is an unsigned number, it is
    writable for what is copied, away from the static strings and from the [n] bytes at [a]. *)
Definition buffer_ok (m : mem) (p a n : Z) (x : str_field * static_str) : Prop :=
  let b := get m p (StrPtr x.1) in
  let k := room m p x in
  0 <= get m p (StrLen x.1) /\ writable_at m b k /\ in_address_space b k /\ apart b (Z.of_nat k) a n /\
  Forall (fun s => apart b (Z.of_nat k) (s_ptr s) (s_len s)) statics.

(** The request at [p] may be accessed; its buffers are away from the [n] bytes at [a]. *)
Record request_ok (m : mem) (p a n : Z) : Prop := {
  ro_usable : writable_at m p (Z.to_nat size);
  ro_buffers : forall i, handled m p = Some i -> Forall (buffer_ok m p a n) (i_strings i) }.

(** An array of [n] requests at [base]: requests, buffers, static strings and the probe's
    local are mapped; buffers may overlap one another, but neither the array nor the
    strings, and the local is away from both. *)
Record array_ok (m : mem) (base : Z) (n : nat) : Prop := {
  ao_space : 0 <= base /\ base + Z.of_nat n * size < 2 ^ 64;
  ao_statics : Forall (static_ok m base (Z.of_nat n * size)) statics;
  ao_local : writable_at m local 1 /\ apart local 1 base (Z.of_nat n * size) /\
    Forall (fun s => apart local 1 (s_ptr s) (s_len s)) statics;
  ao_requests : forall i, (i < n)%nat -> request_ok m (address base i) base (Z.of_nat n * size) }.

(** ** Reading and writing *)

Definition same_on (m m' : mem) (a n : Z) : Prop := forall x, a <= x < a + n -> cells m' !! x = cells m !! x.

Lemma peek_same m m' a n : same_on m m' a (Z.of_nat n) -> peek m' a n = peek m a n.
Proof.
  intros H. unfold peek. apply list_fmap_ext. intros j i Hi. apply lookup_seq in Hi as [-> Hi]. rewrite H; [done|lia].
Qed.
Lemma same_on_write m a bs b n : apart a (Z.of_nat (length bs)) b n -> same_on m (write_bytes m a bs) b n.
Proof. intros H x Hx. cbn [write_bytes cells]. rewrite insert_bytes_lookup, decide_False; [done|]. unfold apart in H. lia. Qed.
Lemma same_on_trans m m' m'' a n : same_on m m' a n -> same_on m' m'' a n -> same_on m m'' a n.
Proof. intros H1 H2 x Hx. by rewrite H2, H1. Qed.
Lemma same_on_sub m m' a n b k : a <= b -> b + k <= a + n -> same_on m m' a n -> same_on m m' b k.
Proof. intros H1 H2 H x Hx. apply H. lia. Qed.

Lemma load_bytes_peek m a n : (forall i, (i < n)%nat -> is_Some (cells m !! (a + Z.of_nat i))) -> load_bytes m a n = Ret (peek m a n).
Proof.
  intros H. rewrite <- (load_bytes_ok m a (peek m a n)); [unfold peek; by rewrite length_fmap, length_seq|].
  intros i b Hi. unfold peek in Hi. apply list_lookup_fmap_Some in Hi as (j & -> & [-> Hi]%lookup_seq).
  destruct (H i Hi) as [b Hb]. cbn [Nat.add]. by rewrite Hb.
Qed.

Lemma writable_sub m a n b k : a <= b -> b + Z.of_nat k <= a + Z.of_nat n -> writable_at m a n -> writable_at m b k.
Proof. intros H1 H2 H i Hi. specialize (H (Z.to_nat (b + Z.of_nat i - a)) ltac:(lia)). by rewrite Z2Nat.id, Zplus_minus in H by lia. Qed.

Section Layout.
Hypothesis Hlay : layout_ok.
Lemma field_in p f : p <= p + off f /\ p + off f + Z.of_nat (width f) <= p + size.
Proof using Hlay. destruct (lo_inside Hlay f). lia. Qed.

Lemma field_usable m p f : writable_at m p (Z.to_nat size) -> writable_at m (p + off f) (width f).
Proof using Hlay. destruct (field_in p f). apply writable_sub; lia. Qed.
Lemma read_field_ok m p f : writable_at m p (Z.to_nat size) -> read_field m p f = Ret (get m p f).
Proof using Hlay. intros H. unfold read_field. rewrite load_bytes_peek; [done|]. intros i Hi. by apply (field_usable m p f H i Hi). Qed.
Lemma write_field_ok m p f v :
  writable_at m p (Z.to_nat size) -> write_field m p f v = Ret (apply_writes m [set_field p (f, v)]).
Proof using Hlay. intros H. unfold write_field, store_bytes. rewrite length_le_bytes, can_write_ok; [done|]. by apply field_usable. Qed.

Lemma get_same m m' p f : same_on m m' p size -> get m' p f = get m p f.
Proof using Hlay.
  intros H. unfold get. rewrite (peek_same m m'); [done|]. destruct (field_in p f). eapply same_on_sub; [..|exact H]; lia.
Qed.
Lemma reserved_same m m' p :
  same_on m m' p size -> peek m' (p + off Reserved) (width Reserved) = peek m (p + off Reserved) (width Reserved).
Proof using Hlay. intros H. apply peek_same. destruct (field_in p Reserved). eapply same_on_sub; [..|exact H]; lia. Qed.
Lemma handled_same m m' p : same_on m m' p size -> handled m' p = handled m p.
Proof using Hlay. intros H. unfold handled, well_formed. by rewrite !(get_same m m'), (reserved_same m m') by done. Qed.
Lemma fits_same m m' p l : same_on m m' p size -> forallb (fits m' p) l = forallb (fits m p) l.
Proof using Hlay. intros H. induction l as [|x l IH]; [done|]. cbn [forallb]. rewrite IH. unfold fits. by rewrite (get_same m m'). Qed.
Lemma verdict_same m m' p : same_on m m' p size -> verdict m' p = verdict m p.
Proof using Hlay.
  intros H. unfold verdict, well_formed, ignorable. rewrite (handled_same m m'), !(get_same m m'), (reserved_same m m') by done.
  destruct (handled m p) as [i|]; [|done]. by rewrite (fits_same m m').
Qed.
Lemma room_same m m' p x : same_on m m' p size -> room m' p x = room m p x.
Proof using Hlay. intros H. unfold room. by rewrite (get_same m m'). Qed.
Lemma request_writes_same m m' p : same_on m m' p size -> request_writes m' p = request_writes m p.
Proof using Hlay.
  intros H. unfold request_writes. rewrite (handled_same m m'), !(get_same m m') by done. destruct (handled m p) as [i|]; [|done].
  rewrite (fits_same m m') by done.
  do 3 f_equal. induction (i_strings i) as [|x l IH]; [done|]. cbn [mbind list_bind]. rewrite IH. f_equal.
  unfold string_writes. by rewrite (get_same m m'), (room_same m m').
Qed.

(** ** One request *)

(** What a memory [m'] on the way from [m] still has: permissions, mapped addresses, the
    static strings and the fields [fs] of the request at [p]. *)
Record kept (m : mem) (p : Z) (m' : mem) (fs : list field) : Prop := {
  k_writable : writable m' = writable m;
  k_mapped : forall a, is_Some (cells m !! a) -> is_Some (cells m' !! a);
  k_statics : Forall (fun s => bytes_at m' (s_ptr s) (s_bytes s)) statics;
  k_fields : Forall (fun f => same_on m m' (p + off f) (Z.of_nat (width f))) fs }.

Lemma kept_usable m p m' fs a n : kept m p m' fs -> writable_at m a n -> writable_at m' a n.
Proof. intros [W C _ _] H i Hi. destruct (H i Hi). rewrite W. auto. Qed.
Lemma kept_get m p m' fs f : kept m p m' fs -> f ∈ fs -> get m' p f = get m p f.
Proof. intros H Hf. unfold get. rewrite (peek_same m m'); [done|]. exact (proj1 (Forall_forall _ _) (k_fields _ _ _ _ H) f Hf). Qed.
Lemma kept_write m p m' fs gs a bs :
  kept m p m' fs -> gs ⊆ fs -> Forall (fun s => apart a (Z.of_nat (length bs)) (s_ptr s) (s_len s)) statics ->
  Forall (fun f => apart a (Z.of_nat (length bs)) (p + off f) (Z.of_nat (width f))) gs ->
  kept m p (write_bytes m' a bs) gs.
Proof.
  intros [W C S F] Hgs Hs Hf. split; [done| | |].
  - intros x Hx. cbn [write_bytes cells]. rewrite insert_bytes_lookup. case_decide; [|by apply C]. apply lookup_lt_is_Some_2. lia.
  - rewrite Forall_forall in *. intros s0 H0. apply bytes_at_write; [by apply S|]. specialize (Hs s0 H0). unfold apart, s_len in Hs. lia.
  - rewrite Forall_forall in *. intros f Hfg. eapply same_on_trans; [apply F; set_solver|]. by apply same_on_write, Hf.
Qed.

(** Decides [Forall (beside f) gs] on given fields. *)
Ltac solve_beside := repeat (apply Forall_cons; split); try apply Forall_nil_2; (split; [discriminate|cbn; auto]).

Section OneRequest.
Context (m : mem) (p : Z).
Hypothesis Hstat : Forall (static_ok m p size) statics.
Hypothesis Hok : request_ok m p p size.

(** A field that shares a view with [f] and is another one. *)
Definition beside (f g : field) : Prop := f <> g /\ (view_of f = view_of g \/ view_of f = Head \/ view_of g = Head).

Lemma kept_refl fs : kept m p m fs.
Proof using Hstat.
  split; [done|done| |]; apply Forall_forall; [|done]. intros s Hs. apply (proj1 (Forall_forall _ _) Hstat s Hs).
Qed.

Lemma field_apart f : Forall (fun s => apart (p + off f) (Z.of_nat (width f)) (s_ptr s) (s_len s)) statics.
Proof using Hlay Hstat.
  apply (Forall_impl _ _ _ Hstat). intros s (_ & _ & H). pose proof (field_in p f). unfold apart in *. lia.
Qed.

Lemma kept_field m' fs gs f v :
  kept m p m' fs -> gs ⊆ fs -> Forall (beside f) gs ->
  write_field m' p f v = Ret (apply_writes m' [set_field p (f, v)]) /\ kept m p (apply_writes m' [set_field p (f, v)]) gs.
Proof using Hlay Hstat Hok.
  intros Hk Hsub Hb. split; [apply write_field_ok; eapply kept_usable; [done|apply Hok]|].
  cbn [apply_writes foldl set_field fst snd]. apply kept_write with (1 := Hk); rewrite ?length_le_bytes; [done|apply field_apart|].
  apply (Forall_impl _ _ _ Hb). intros g [Hne Hv]. pose proof (lo_apart Hlay f g Hne Hv) as H. unfold apart in *. cbn [fst]. lia.
Qed.

Lemma kept_fill m' fs gs x :
  kept m p m' fs -> gs ⊆ fs -> StrPtr x.1 ∈ fs -> StrLen x.1 ∈ fs -> Forall (beside (StrLen x.1)) gs ->
  x.2 ∈ statics -> buffer_ok m p p size x ->
  fill m' p x.1 x.2 = Ret (apply_writes m' (string_writes m p x), if fits m p x then Ok tt else Err InsufficientLength) /\
  kept m p (apply_writes m' (string_writes m p x)) gs.
Proof using Hlay Hstat Hok.
  destruct x as [s st]. cbn [fst snd]. intros Hk Hsub Hin1 Hin2 Hb Hst (Hpos & Hw & Ha & Hd & Hds). cbn [fst snd] in *.
  set (k := room m p (s, st)) in *. set (bs := take k (s_bytes st)).
  assert (Hlen : length bs = k) by (unfold bs, k, room; rewrite length_take; cbn [fst snd]; lia).
  destruct (proj1 (Forall_forall _ _) Hstat st Hst) as (Hbst & Hast & Hdst).
  pose proof (proj1 (Forall_forall _ _) (k_statics _ _ _ _ Hk) st Hst) as Hbm. cbn beta in Hbm.
  pose proof (proj1 (Forall_forall _ _) Hds st Hst) as Hbd. cbn beta in Hbd.
  assert (Hk1 : kept m p (write_bytes m' (get m p (StrPtr s)) (take (Z.to_nat (copied (Z.of_nat k))) (s_bytes st))) fs).
  { assert (Hcl : Z.of_nat (length (take (Z.to_nat (copied (Z.of_nat k))) (s_bytes st))) <= Z.of_nat k)
      by (rewrite length_take; unfold copied; case_match; lia).
    apply kept_write with (1 := Hk); [done| |].
    - apply (Forall_impl _ _ _ Hds). unfold apart, s_len. intros s0 H0. lia.
    - apply Forall_forall. intros f _. pose proof (field_in p f). unfold apart in *. lia. }
  assert (Hu1 : writable_at (write_bytes m' (get m p (StrPtr s)) (take (Z.to_nat (copied (Z.of_nat k))) (s_bytes st))) p (Z.to_nat size))
    by (eapply kept_usable; [exact Hk1|apply Hok]).
  assert (Hu : writable_at m' p (Z.to_nat size)) by (eapply kept_usable; [exact Hk|apply Hok]).
  split.
  - unfold fill, fill_str.
    change (load_word m' (p + off (StrLen s))) with (read_field m' p (StrLen s)).
    change (load_word m' (p + off (StrPtr s))) with (read_field m' p (StrPtr s)).
    rewrite !read_field_ok by done. cbn [mbind outcome_bind]. rewrite !(kept_get m p m' fs) by done.
    replace (Z.min (get m p (StrLen s)) (s_len st)) with (Z.of_nat (length bs))
      by (rewrite Hlen; unfold k, room, s_len; cbn [fst snd]; lia).
    rewrite copy_bytes_ok.
    2:{ by apply bytes_at_take. }
    2:{ rewrite Hlen. by eapply kept_usable. }
    2:{ unfold disjoint_at, apart, s_len in *. rewrite Hlen. unfold k, room in *. cbn [fst snd] in *. lia. }
    2:{ unfold in_address_space in *. rewrite Hlen. unfold k, room in *. cbn [fst snd] in *. lia. }
    2:{ by rewrite Hlen. }
    cbn [mbind outcome_bind]. rewrite Hlen.
    replace (take (Z.to_nat (copied (Z.of_nat k))) bs) with (take (Z.to_nat (copied (Z.of_nat k))) (s_bytes st))
      by (unfold bs; rewrite take_take; f_equal; unfold copied; case_match; lia).
    match goal with |- context [load_word ?mm _] => change (load_word mm (p + off (StrLen s))) with (read_field mm p (StrLen s)) end.
    rewrite read_field_ok by done. cbn [mbind outcome_bind].
    match goal with |- context [store_word ?mm _ ?v] =>
      change (store_word mm (p + off (StrLen s)) v) with (write_field mm p (StrLen s) v) end.
    rewrite write_field_ok by done. cbn [mbind outcome_bind]. rewrite (kept_get _ _ _ _ (StrLen s) Hk1) by done.
    unfold fits. cbn [fst snd]. do 2 f_equal. by case_goal; case_goal; reflect_bools; try lia.
  - cbn [string_writes apply_writes foldl fst snd]. by apply (kept_field _ fs gs (StrLen s) (s_len st) Hk1 Hsub Hb).
Qed.

Lemma read_head_ok : read_head m p = Ret (mkHead (get m p Ty) (get m p Flags) (peek m (p + off Reserved) (width Reserved))).
Proof using Hlay Hok.
  unfold read_head. rewrite !read_field_ok by apply Hok. cbn [mbind outcome_bind]. rewrite load_bytes_peek; [done|].
  intros i Hi. by apply (field_usable m p Reserved (ro_usable _ _ _ _ Hok) i Hi).
Qed.
Lemma zeros_spec (l : list Z) : bool_decide (l = replicate (length l) 0) = forallb (fun b => b =? 0) l.
Proof.
  induction l as [|b l IH]; [done|]. cbn [length replicate forallb]. rewrite <- IH.
  destruct (Z.eqb_spec b 0) as [->|]; [apply bool_decide_ext; split; [by intros [=]|by intros <-]|].
  apply bool_decide_eq_false_2. by intros [=].
Qed.
Lemma validate_spec ty fl l :
  validate_option_head (mkHead ty fl l) 0x0001 =
    if forallb (fun b => b =? 0) l && (Z.land fl (not_w 32 0x10001) =? 0) then Ok tt else Err InvalidOption.
Proof.
  unfold validate_option_head. cbn [reserved flags]. rewrite zeros_spec.
  change (Z.lor STANDARD_OPTION_MASK (Z.shiftl 0x0001 16)) with 0x10001. by destruct (forallb _ l), (_ =? 0).
Qed.
(** The numbers at the end of an answer. *)
Lemma fields_ok m' fs l : kept m p m' fs ->
  foldr (fun x k m => m ← write_field m p x.1 x.2; k m) (fun m => Ret (m, Ok tt : result unit SysError)) l m' =
    Ret (apply_writes m' (set_field p <$> l), Ok tt).
Proof using Hlay Hstat Hok.
  revert m' fs. induction l as [|[f v] l IH]; intros m' fs Hk; [done|]. cbn [foldr fst snd].
  destruct (kept_field m' fs [] f v Hk) as [-> Hk']; [set_solver|constructor|]. cbn [mbind outcome_bind]. by rewrite (IH _ _ Hk').
Qed.

Lemma clear_ok fs : Forall (beside Flags) fs ->
  let m1 := apply_writes m [set_field p (Flags, Z.land (get m p Flags) (not_w 32 0x0001))] in
  clear_ignore m p = Ret m1 /\ kept m p m1 fs.
Proof using Hlay Hstat Hok.
  intros Hb. unfold clear_ignore. rewrite read_field_ok by apply Hok. cbn [mbind outcome_bind].
  by apply (kept_field m fs fs); [apply kept_refl|set_solver|].
Qed.

(** A memory and a verdict, as the specification of a known type says. *)
Definition answered (i : info) : outcome (mem * result unit SysError) :=
  Ret (apply_writes m
         ((if i_clears i then [set_field p (Flags, Z.land (get m p Flags) (not_w 32 0x0001))] else []) ++
          (set_field p <$> i_before i) ++ (i_strings i ≫= string_writes m p) ++
          (if forallb (fits m p) (i_strings i) then set_field p <$> i_after i else [])),
       if forallb (fits m p) (i_strings i) then Ok tt else Err InsufficientLength).

Lemma apply_writes_app m' ws ws' : apply_writes m' (ws ++ ws') = apply_writes (apply_writes m' ws) ws'.
Proof. unfold apply_writes. apply foldl_app. Qed.

Lemma string_request_ok s st l :
  st ∈ statics -> buffer_ok m p p size (s, st) ->
  (m1 ← clear_ignore m p;
   '(m2, r) ← fill m1 p s st;
   match r with
   | Err e => Ret (m2, Err e)
   | Ok _ => foldr (fun x k m => m ← write_field m p x.1 x.2; k m) (fun m => Ret (m, Ok tt)) l m2
   end) = answered (mkInfo true [] [(s, st)] l).
Proof using Hlay Hstat Hok.
  intros Hst Hb. destruct (clear_ok [StrPtr s; StrLen s]) as [-> Hk].
  { solve_beside. }
  cbn [mbind outcome_bind].
  destruct (kept_fill _ _ [] (s, st) Hk) as [E Hk2]; [set_solver..|constructor|done|done|].
  cbn [fst snd] in E. rewrite E. cbn [mbind outcome_bind]. unfold answered.
  cbn [i_clears i_before i_strings i_after fmap list_fmap mbind list_bind forallb app]. rewrite andb_true_r.
  destruct (fits m p (s, st)); [|by rewrite app_nil_r].
  rewrite (fields_ok _ _ _ Hk2). by rewrite <- apply_writes_app, !app_nil_l || by rewrite <- !apply_writes_app.
Qed.

Lemma names_request_ok st :
  st ∈ statics -> Forall (buffer_ok m p p size) [(Hostname, st); (SysDisplayName, st); (SysLabel, st)] ->
  (m1 ← clear_ignore m p;
   m1 ← write_field m1 p SysId COMPUTER_ID;
   '(m2, r1) ← fill m1 p Hostname st;
   '(m3, r2) ← fill m2 p SysDisplayName st;
   '(m4, r3) ← fill m3 p SysLabel st;
   Ret (m4, result_and r3 (result_and r2 (result_and r1 (Ok tt))))) =
  answered (mkInfo true [(SysId, COMPUTER_ID)] [(Hostname, st); (SysDisplayName, st); (SysLabel, st)] []).
Proof using Hlay Hstat Hok.
  intros Hst Hb. rewrite !Forall_cons in Hb. destruct Hb as (Hb1 & Hb2 & Hb3 & _).
  set (fs3 := [StrPtr SysLabel; StrLen SysLabel]). set (fs2 := StrPtr SysDisplayName :: StrLen SysDisplayName :: fs3).
  set (fs1 := StrPtr Hostname :: StrLen Hostname :: fs2).
  destruct (clear_ok fs1) as [-> Hk0]; [solve_beside|]. cbn [mbind outcome_bind].
  destruct (kept_field _ _ fs1 SysId COMPUTER_ID Hk0) as [-> Hk1]; [done|solve_beside|]. cbn [mbind outcome_bind].
  destruct (kept_fill _ _ fs2 (Hostname, st) Hk1) as [E Hk2];
    [unfold fs1; set_solver..|solve_beside|done|done|]. cbn [fst snd] in E. rewrite E. cbn [mbind outcome_bind].
  destruct (kept_fill _ _ fs3 (SysDisplayName, st) Hk2) as [E2 Hk3];
    [unfold fs2; set_solver..|solve_beside|done|done|]. cbn [fst snd] in E2. rewrite E2. cbn [mbind outcome_bind].
  destruct (kept_fill _ _ [] (SysLabel, st) Hk3) as [E3 _];
    [unfold fs3; set_solver..|constructor|done|done|]. cbn [fst snd] in E3. rewrite E3. cbn [mbind outcome_bind].
  unfold answered. cbn [i_clears i_before i_strings i_after]. f_equal. f_equal.
  - rewrite <- !apply_writes_app. by destruct (forallb _ _).
  - cbn [forallb]. by destruct (fits m p _), (fits m p _), (fits m p _).
Qed.

Lemma process_request_ok : process_request m p = Ret (apply_writes m (request_writes m p), verdict m p).
Proof using Hlay Hstat Hok.
  pose proof (ro_buffers _ _ _ _ Hok) as Hb. revert Hb.
  unfold process_request, request_writes, verdict, ignorable, handled. rewrite read_head_ok. cbn [mbind outcome_bind].
  rewrite validate_spec. fold (well_formed m p). destruct (well_formed m p); cbn [andb]; [|done]. unfold refuse. cbn [oty flags].
  change (Z.land (get m p Flags) 0x00010000) with (Z.land (get m p Flags) (Z.shiftl 1 16)). rewrite land_bit by lia.
  assert (E0 : (Z.land (get m p Flags) 0x0001 =? 0) = negb (Z.testbit (get m p Flags) 0))
    by (rewrite <- (land_bit _ 0), negb_involutive by lia; done). rewrite E0.
  destruct (Z.testbit (get m p Flags) 16); cbn [negb]; [by destruct (Z.testbit _ 0)|].
  unfold info_of. intros Hb.
  destruct (_ =? SYSINFO_REQUEST_OSVER).
  { specialize (Hb _ eq_refl). apply Forall_cons_1 in Hb as [Hb _].
    exact (string_request_ok _ OS_ELAB_NAME [(OsMajor, _); (OsMinor, _)] ltac:(unfold statics; set_solver) Hb). }
  destruct (_ =? SYSINFO_REQUEST_KVENDOR).
  { specialize (Hb _ eq_refl). apply Forall_cons_1 in Hb as [Hb _].
    exact (string_request_ok _ KVENDOR_NAME [(BuildId, _); (KernelMajor, _); (KernelMinor, _)] ltac:(unfold statics; set_solver) Hb). }
  destruct (_ =? SYSINFO_REQUEST_ARCH_INFO).
  { destruct (clear_ok []) as [-> Hk]; [constructor|]. cbn [mbind outcome_bind].
    exact (fields_ok _ _ [(ArchType, _); (ArchVersion, _)] Hk). }
  destruct (_ =? SYSINFO_REQUEST_COMPUTER_NAME).
  { exact (names_request_ok COMPUTER_NAME ltac:(unfold statics; set_solver) (Hb _ eq_refl)). }
  destruct (find_subsystem _) as [[n inf]|]; [|by destruct (Z.testbit _ 0)].
  exact (fields_ok m [] [(MaxSysno, _); (SubsysVersion, _); (SubsystemNo, _)] (kept_refl _)).
Qed.
End OneRequest.

(** ** The loop *)

Lemma apply_writes_same m ws a n :
  Forall (fun w => apart w.1 (Z.of_nat (length w.2)) a n) ws -> same_on m (apply_writes m ws) a n.
Proof.
  intros H. revert m. induction H as [|w ws Hw _ IH]; intros m; [done|]. eapply same_on_trans; [|apply IH]. by apply same_on_write.
Qed.
Lemma apply_writes_writable m ws : writable (apply_writes m ws) = writable m.
Proof. revert m. induction ws as [|w ws IH]; intros m; [done|]. cbn [apply_writes foldl]. unfold apply_writes in IH. by rewrite IH. Qed.
Lemma apply_writes_mapped m ws a : is_Some (cells m !! a) -> is_Some (cells (apply_writes m ws) !! a).
Proof.
  revert m. induction ws as [|w ws IH]; intros m H; [done|]. apply IH. cbn [write_bytes cells]. rewrite insert_bytes_lookup.
  case_decide; [|done]. apply lookup_lt_is_Some_2. lia.
Qed.
Lemma apply_writes_ext m m' ws (P : Z -> Prop) :
  (forall a, P a -> cells m' !! a = cells m !! a) -> forall a, P a -> cells (apply_writes m' ws) !! a = cells (apply_writes m ws) !! a.
Proof.
  revert m m'. induction ws as [|w ws IH]; intros m m' H a Ha; [by apply H|]. apply IH; [|done].
  intros x Hx. cbn [write_bytes cells]. rewrite !insert_bytes_lookup. case_decide; [done|]. by apply H.
Qed.

(** What the writes of a request keep away from. *)
Lemma request_writes_apart m p b k :
  apart p size b k ->
  (forall i, handled m p = Some i ->
     Forall (fun x => apart (get m p (StrPtr x.1)) (Z.of_nat (room m p x)) b k) (i_strings i)) ->
  Forall (fun w => apart w.1 (Z.of_nat (length w.2)) b k) (request_writes m p).
Proof using Hlay.
  intros Hp Hs. unfold request_writes. destruct (handled m p) as [i|]; [|constructor]. specialize (Hs i eq_refl).
  assert (Hf : forall x, apart (set_field p x).1 (Z.of_nat (length (set_field p x).2)) b k).
  { intros [f v]. cbn [set_field fst snd]. rewrite length_le_bytes. pose proof (field_in p f). unfold apart in *. lia. }
  assert (Hfs : forall l, Forall (fun w => apart w.1 (Z.of_nat (length w.2)) b k) (set_field p <$> l))
    by (intros l; apply Forall_fmap, Forall_forall; intros x _; apply Hf).
  rewrite !Forall_app. split_and!; [destruct (i_clears i); [by constructor|constructor]|apply Hfs| |destruct (forallb _ _); [apply Hfs|constructor]].
  apply Forall_bind. apply (Forall_impl _ _ _ Hs). intros x Hx. unfold string_writes.
  apply Forall_cons; split; [|apply Forall_cons; split; [apply Hf|constructor]]. cbn [fst snd]. rewrite length_take. unfold apart, copied in *. case_match; lia.
Qed.

(** A memory that has the requests, the static strings and the mappings of another. *)
Lemma array_preserved m m' base n :
  array_ok m base n -> writable m' = writable m -> (forall a, is_Some (cells m !! a) -> is_Some (cells m' !! a)) ->
  same_on m m' base (Z.of_nat n * size) -> Forall (fun s => same_on m m' (s_ptr s) (s_len s)) statics -> array_ok m' base n.
Proof using Hlay.
  intros [Hs Hst Hl Hr] W C S1 S2.
  assert (Hw : forall a k, writable_at m a k -> writable_at m' a k) by (intros a k H i Hi; destruct (H i Hi); rewrite W; auto).
  split; [done| |destruct Hl; auto|].
  - rewrite Forall_forall in *. intros s Hin. destruct (Hst s Hin) as (Hb & Ha & Hd). split; [|done].
    intros i b Hi. rewrite (S2 s Hin); [by apply Hb|]. apply lookup_lt_Some in Hi. unfold s_len. lia.
  - intros i Hi. destruct (Hr i Hi) as [Hu Hb]. split; [auto|]. pose proof (proj1 (lo_inside Hlay Ty)).
    assert (Hsz : 0 <= size) by (pose proof (lo_inside Hlay Ty); lia).
    assert (Hsi : same_on m m' (address base i) size) by (eapply same_on_sub; [..|exact S1]; unfold address; nia).
    intros inf. rewrite (handled_same m m') by done. intros Hh. specialize (Hb inf Hh). apply (Forall_impl _ _ _ Hb).
    intros x. unfold buffer_ok. rewrite !(get_same m m'), (room_same m m') by done. intros (H1 & H2 & H3). auto.
Qed.

Lemma apart_sub a n b k c j : b <= c -> c + j <= b + k -> apart a n b k -> apart a n c j.
Proof. unfold apart. lia. Qed.
Lemma request_sub m p a n c j : a <= c -> c + j <= a + n -> request_ok m p a n -> request_ok m p c j.
Proof.
  intros H1 H2 [Hu Hb]. split; [done|]. intros i Hi. apply (Forall_impl _ _ _ (Hb i Hi)).
  intros x (B1 & B2 & B3 & B4 & B5). split_and!; try done. by eapply apart_sub.
Qed.
Lemma static_sub m a n c j : a <= c -> c + j <= a + n -> Forall (static_ok m a n) statics -> Forall (static_ok m c j) statics.
Proof. intros H1 H2 H. apply (Forall_impl _ _ _ H). intros s (S1 & S2 & S3). split_and!; try done. by eapply apart_sub. Qed.
Lemma address_tail base i : address (base + size) i = address base (S i).
Proof. unfold address. lia. Qed.

Section Loop.
Hypothesis Hsize : 1 <= size <= 4096.
Hypothesis Hlocal : in_address_space local 1.

Lemma array_tail m base n : array_ok m base (S n) -> array_ok m (base + size) n.
Proof using Hsize.
  intros [Hs Hst (L1 & L2 & L3) Hr]. split; [nia|eapply static_sub; [..|exact Hst]; lia|split_and!; [done|eapply apart_sub; [..|exact L2]; lia|done]|].
  intros i Hi. rewrite address_tail. eapply request_sub; [..|apply Hr]; lia.
Qed.

Lemma array_probed m m' base n : array_ok m base n -> probe_eq local m m' -> array_ok m' base n.
Proof using Hlay.
  intros Hok (W & C & L). pose proof (ao_local _ _ _ Hok) as (_ & L2 & L3). apply array_preserved with (1 := Hok); [done| | |].
  - intros a Ha. destruct (decide (a = local)) as [->|]; [done|]. by rewrite C.
  - intros x Hx. apply C. unfold apart in L2. lia.
  - apply (Forall_impl _ _ _ L3). intros s Hd x Hx. apply C. unfold apart in Hd. lia.
Qed.

Lemma array_answered m base n :
  array_ok m base (S n) -> array_ok (apply_writes m (request_writes m base)) (base + size) n /\
  same_on m (apply_writes m (request_writes m base)) (base + size) (Z.of_nat n * size).
Proof using Hlay Hsize.
  intros Hok. pose proof (ao_requests _ _ _ Hok 0%nat ltac:(lia)) as [Hu Hb]. unfold address in Hu, Hb. rewrite Z.add_0_r in Hu, Hb.
  assert (Hs : same_on m (apply_writes m (request_writes m base)) (base + size) (Z.of_nat n * size)).
  { apply apply_writes_same, request_writes_apart; [unfold apart; lia|]. intros i Hi. apply (Forall_impl _ _ _ (Hb i Hi)).
    intros x (_ & _ & _ & B & _). eapply apart_sub; [..|exact B]; lia. }
  split; [|done]. apply array_preserved with (m := m); [by apply array_tail|apply apply_writes_writable|apply apply_writes_mapped|done|].
  pose proof (ao_statics _ _ _ Hok) as Hst. rewrite Forall_forall in *. intros s Hin. destruct (Hst s Hin) as (_ & _ & Hd).
  apply apply_writes_same, request_writes_apart; [unfold apart in *; nia|]. intros i Hi. apply (Forall_impl _ _ _ (Hb i Hi)).
  intros x (_ & _ & _ & _ & B). exact (proj1 (Forall_forall _ _) B s Hin).
Qed.

(** The specification of the rest of an array only depends on the rest. *)
Lemma spec_same m m' base n :
  same_on m m' base (Z.of_nat n * size) -> verdicts m' base n = verdicts m base n /\ all_writes m' base n = all_writes m base n.
Proof using Hlay Hsize.
  intros H. assert (Hi : forall j i, seq 0 n !! j = Some i -> same_on m m' (address base i) size).
  { intros j i Hj. apply lookup_seq in Hj as [-> Hj]. eapply same_on_sub; [..|exact H]; unfold address; nia. }
  split; [|unfold all_writes; f_equal]; apply list_fmap_ext; intros j i Hj; [apply verdict_same|apply request_writes_same]; eauto.
Qed.
Lemma spec_cons m base n :
  verdicts m base (S n) = verdict m base :: verdicts m (base + size) n /\
  all_writes m base (S n) = request_writes m base ++ all_writes m (base + size) n.
Proof.
  unfold verdicts, all_writes. cbn [seq fmap list_fmap concat]. rewrite <- fmap_S_seq, <- !list_fmap_compose.
  replace (address base 0) with base by (unfold address; lia).
  split; f_equal; [|f_equal]; apply list_fmap_ext; intros j i _; cbn [compose]; by rewrite address_tail.
Qed.

Lemma get_loop_ok n : forall fuel m base res, (n < fuel)%nat -> array_ok m base n ->
  exists m', get_loop fuel m (iter_new size base (Z.of_nat n)) res = Ret (m', result_and res (first_error (verdicts m base n))) /\
    writable m' = writable m /\
    forall a, a <> local -> cells m' !! a = cells (apply_writes m (all_writes m base n)) !! a.
Proof using Hlay Hsize Hlocal.
  induction n as [|n IH]; intros fuel m base res Hf Hok; (destruct fuel as [|fuel]; [lia|]); cbn [get_loop];
    unfold iter_step_next, iter_new; cbn [pos end_].
  - rewrite (proj2 (Z.eqb_eq _ _)) by lia. cbn [mbind outcome_bind]. exists m. split_and!; [by destruct res as [[]|]|done|done].
  - rewrite (proj2 (Z.eqb_neq _ _)) by nia. pose proof (ao_requests _ _ _ Hok 0%nat ltac:(lia)) as Hr0.
    replace (address base 0) with base in Hr0 by (unfold address; lia). pose proof (ao_local _ _ _ Hok) as (L1 & L2 & _).
    destruct (probe_one local Hlocal false m size base) as (m1 & -> & Heq); [done|done| |].
    { destruct (ro_usable _ _ _ _ Hr0 0%nat ltac:(lia)) as [_ H0]. rewrite Z.add_0_r in H0. pose proof (ao_space _ _ _ Hok).
      split_and!; [done|done|unfold apart in L2; nia|nia|nia]. }
    cbn [mbind outcome_bind probed fst snd]. pose proof (array_probed _ _ _ _ Hok Heq) as Hok1.
    pose proof (ao_requests _ _ _ Hok1 0%nat ltac:(lia)) as Hr1. replace (address base 0) with base in Hr1 by (unfold address; lia).
    rewrite (process_request_ok m1 base);
      [|eapply static_sub; [..|apply Hok1]; nia|eapply request_sub; [..|exact Hr1]; nia].
    cbn [mbind outcome_bind]. destruct (array_answered _ _ _ Hok1) as [Hok2 Hs2].
    destruct (IH fuel _ (base + size) (result_and res (verdict m1 base)) ltac:(lia) Hok2) as (m3 & E3 & W3 & C3).
    unfold iter_new in E3. replace (base + size + Z.of_nat n * size) with (base + Z.of_nat (S n) * size) in E3 by lia.
    destruct (spec_same _ _ _ _ Hs2) as [V2 A2].
    destruct (spec_same m m1 base (S n)) as [V1 A1].
    { destruct Heq as (_ & C & _). intros x Hx. apply C. unfold apart in L2. lia. }
    destruct (spec_cons m1 base n) as [V A].
    exists m3. rewrite E3, V2, <- V1, V, <- A1, A, apply_writes_app. split_and!.
    + by destruct res as [[]|], (verdict m1 base) as [[]|].
    + rewrite W3, apply_writes_writable. apply Heq.
    + intros a Ha. rewrite (C3 a Ha), A2, <- !apply_writes_app. apply (apply_writes_ext m m1 _ (fun a => a <> local)); [|done]. apply Heq.
Qed.
End Loop.
End Layout.

(** C12: [GetSystemInfo] returns on every array of requests in mapped memory whose buffers
    do not overlap the array or the static strings (they may overlap one another).  Its
    result is the first error among the verdicts on the requests, and the memory it leaves
    is, at every address but the probe's local, the one it was given with the writes of the
    requests done in order: each request, judged and answered from the memory given,
    has its flag cleared, its numbers stored, the static strings copied to its buffers as
    far as they fit (less the last byte at the lengths where the checked copy drops it)
    and the full lengths stored, when its header is well formed and its type known; any
    other request writes nothing. *)
Theorem get_system_info_answers m base n :
  layout_ok -> 1 <= size <= 4096 -> in_address_space local 1 -> array_ok m base n ->
  exists m', GetSystemInfo m base (Z.of_nat n) = Ret (m', first_error (verdicts m base n)) /\
    writable m' = writable m /\
    forall a, a <> local -> cells m' !! a = cells (apply_writes m (all_writes m base n)) !! a.
Proof.
  intros Hlay Hs Hl Hok. unfold GetSystemInfo. rewrite Nat2Z.id.
  exact (get_loop_ok Hlay Hs Hl n (S n) m base (Ok tt) ltac:(lia) Hok).
Qed.
End Info.

(** ** The registered subsystems *)

Lemma find_index_nodup {A} (f : A -> Z) l : forall i x,
  NoDup (f <$> l) -> l !! i = Some x -> find_index (fun y => f y =? f x) l = Some i.
Proof.
  induction l as [|y l IH]; intros [|i] x Hn Hi; cbn [find_index] in *; [done|done| |].
  - injection Hi as ->. by rewrite Z.eqb_refl.
  - apply NoDup_cons in Hn as [Hy Hn]. cbn in Hi. rewrite (IH i x) by done.
    rewrite (proj2 (Z.eqb_neq _ _)); [done|]. intros E. apply Hy. rewrite E. apply list_elem_of_fmap_2, list_elem_of_lookup_2 with (1 := Hi).
Qed.

(** After the six default subsystems have registered, a well-formed request whose type is
    the identifier of one of them is answered with the number under which the dispatcher
    reaches its system calls, its version and its highest call number; its flags stay. *)
Theorem booted_subsystem_info OSV KV ARCH NAME uuid_value elab kv cn V X86 CID VMA VMI lvl off nres size SYS_A SYS_B (n : nat) info m p :
  (SYS_A < SYSCALLS_PER_SUBSYS)%nat -> (SYS_B < SYSCALLS_PER_SUBSYS)%nat -> SYS_A <> SYS_B ->
  NoDup (uuid_value <$> (uuid <$> boot_tables)) -> boot_tables !! n = Some info ->
  layout_ok off nres size -> Forall (static_ok m p size) (statics elab kv cn) -> writable_at m p (Z.to_nat size) ->
  get off nres m p Ty = uuid_value (uuid info) -> get off nres m p Ty ∉ [OSV; KV; ARCH; NAME] ->
  well_formed off nres m p = true -> Z.testbit (get off nres m p Flags) 16 = false ->
  exists r, boot SYS_A SYS_B reg_init = Ret r /\
    process_request OSV KV ARCH NAME uuid_value elab kv cn V X86 CID VMA VMI lvl r off nres m p =
      Ret (apply_writes m (set_field off nres p <$>
             [(MaxSysno, max_sysno info); (SubsysVersion, subsys_version info); (SubsystemNo, Z.of_nat n)]), Ok tt).
Proof.
  intros HA HB Hne Hnd Hn Hlay Hst Hu Ht Hno Hwf Hf. exists (booted SYS_A SYS_B). split; [by apply boot_ok|].
  assert (Hall : all_subsystems (booted SYS_A SYS_B) = zip [0; 1; 2; 3; 4; 5] boot_tables) by done.
  assert (Hk : zip [0; 1; 2; 3; 4; 5] boot_tables !! n = Some (Z.of_nat n, info)).
  { do 6 (destruct n as [|n]; [by injection Hn as <-|]). done. }
  assert (Hh : handled OSV KV ARCH NAME uuid_value elab kv cn V X86 CID VMA VMI lvl (booted SYS_A SYS_B) off nres m p =
    Some (mkInfo false [] [] [(MaxSysno, max_sysno info); (SubsysVersion, subsys_version info); (SubsystemNo, Z.of_nat n)])).
  { unfold handled. rewrite Hwf, Hf. cbn [andb negb]. unfold info_of.
    rewrite !not_elem_of_cons in Hno. destruct Hno as (N1 & N2 & N3 & N4 & _).
    do 4 rewrite (proj2 (Z.eqb_neq _ _)) by done. unfold find_subsystem. rewrite Hall, Ht.
    rewrite (find_index_nodup (fun x => uuid_value (uuid x.2)) _ n (Z.of_nat n, info)); [|exact Hnd|done]. by rewrite Hk. }
  rewrite process_request_ok with (2 := Hst); [|done|].
  - unfold request_writes, verdict. by rewrite Hh.
  - split; [done|]. rewrite Hh. intros i [= <-]. constructor.
Qed.

(** ** Concrete inputs *)

Lemma can_write_inv m n : forall a, can_write m a n = true -> writable_at m a n.
Proof.
  induction n as [|n IH]; intros a H i Hi; [lia|]. cbn [can_write] in H. apply andb_prop in H as [H1 H2]. apply andb_prop in H1 as [Hw Hc].
  destruct i as [|i]; [rewrite Z.add_0_r; split; [done|by eapply bool_decide_eq_true_1]|].
  replace (a + Z.of_nat (S i)) with (a + 1 + Z.of_nat i) by lia. apply (IH _ H2). lia.
Qed.

(** A layout of 96 bytes. *)
Definition sample_off (f : field) : Z :=
  match f with
  | Ty => 0 | Flags => 16 | Reserved => 20
  | StrPtr OsvendorName | StrPtr KvendorName => 32 | StrLen OsvendorName | StrLen KvendorName => 40
  | OsMajor => 48 | OsMinor => 52
  | BuildId => 48 | KernelMajor => 64 | KernelMinor => 68
  | ArchType => 32 | ArchVersion => 48
  | SysId => 32
  | StrPtr Hostname => 48 | StrLen Hostname => 56
  | StrPtr SysDisplayName => 64 | StrLen SysDisplayName => 72
  | StrPtr SysLabel => 80 | StrLen SysLabel => 88
  | MaxSysno => 32 | SubsysVersion => 40 | SubsystemNo => 48
  end.
Lemma sample_layout : layout_ok sample_off 12 96.
Proof.
  split.
  - intros [| | |[]|[]| | | | | | | | | | |]; cbn; lia.
  - intros [| | |[]|[]| | | | | | | | | | |] [| | |[]|[]| | | | | | | | | | |] Hne Hv; cbn in Hv;
      first [by destruct Hne | by destruct Hv as [|[|]] | unfold apart; cbn; lia].
Qed.

(** A request with a string descriptor after the header. *)
Definition sample_req (ty fl ptr len : Z) : list Z :=
  le_bytes 16 ty ++ le_bytes 4 fl ++ replicate 12 0 ++ le_bytes 8 ptr ++ le_bytes 8 len ++ replicate 48 9.
(** Two requests at 4096, the first with a buffer at 200; the string is at 100, the local at 8. *)
Definition sample_mem (r1 r2 : list Z) : mem :=
  mkMem (insert_bytes (insert_bytes (insert_bytes (insert_bytes ∅ 100 OS_ELAB_NAME_bytes) 200 (replicate 6 0)) 4096 (r1 ++ r2)) 8 [0])
    (fun _ => true).
Definition two_requests : mem := sample_mem (sample_req 1 1 200 6) (sample_req 77 0 0 0).
Definition nothing (a : Z) : static_str := mkStr a [].

Lemma sample_static m a n : can_write m 100 6 = true -> load_bytes m 100 6 = Ret OS_ELAB_NAME_bytes -> 160 <= a ->
  Forall (static_ok m a n) (statics 100 (nothing 150) (nothing 160)).
Proof.
  intros Hw Hl Ha. repeat (apply Forall_cons; split); [| | |apply Forall_nil_2];
    (split; [|split; [split; by vm_compute|left; change (s_len _) with 6 || change (s_len _) with 0; cbn [s_ptr nothing OS_ELAB_NAME]; lia]]);
    [|done|done]. intros i b Hi. cbn [s_ptr s_bytes OS_ELAB_NAME] in *. pose proof (lookup_lt_Some _ _ _ Hi) as Hlt.
  destruct (can_write_inv _ _ _ Hw i Hlt) as [_ Hs]. rewrite load_bytes_peek in Hl; [|intros j Hj; by apply (can_write_inv _ _ _ Hw)].
  assert (peek m 100 6 = OS_ELAB_NAME_bytes) as Hp by congruence. rewrite <- Hp in Hi. unfold peek in Hi. apply list_lookup_fmap_Some in Hi as (j & -> & [-> _]%lookup_seq).
  destruct Hs as [x Hx]. cbn [Nat.add]. by rewrite Hx.
Qed.

Lemma sample_array :
  array_ok 1 2 3 4 (fun _ => 0) 100 (nothing 150) (nothing 160) 0 0 0 0 0 1 reg_init sample_off 12 96 8 two_requests 4096 2.
Proof.
  split.
  - lia.
  - apply sample_static; [by vm_compute|by vm_compute|lia].
  - split_and!; [apply can_write_inv; by vm_compute|left; cbn; lia|].
    repeat (apply Forall_cons; split); [| | |apply Forall_nil_2]; left; cbn; lia.
  - intros [|[|i]] Hi; [..|lia]; (split; [apply can_write_inv; by vm_compute|]); intros inf H; vm_compute in H; [|done].
    injection H as <-. apply Forall_cons; split; [|apply Forall_nil_2]. unfold buffer_ok. cbn zeta.
    split; [by vm_compute|]. split; [apply can_write_inv; by vm_compute|]. split; [split; by vm_compute|]. split; [left; by vm_compute|].
    repeat (apply Forall_cons; split); [| | |apply Forall_nil_2]; right; by vm_compute.
Qed.

(** The first request is answered although the second is refused. *)
Lemma get_system_info_answers_witness :
  exists m', GetSystemInfo 1 2 3 4 (fun _ => 0) 100 (nothing 150) (nothing 160) 0 0 0 0 0 1 reg_init sample_off 12 96 8
      two_requests 4096 2 = Ret (m', Err InvalidOption) /\
    cells m' !! 205 = Some 109 /\ cells m' !! (4096 + 52) = Some 1 /\ cells m' !! (4096 + 16) = Some 0.
Proof.
  destruct (get_system_info_answers 1 2 3 4 (fun _ => 0) 100 (nothing 150) (nothing 160) 0 0 0 0 0 1 reg_init sample_off 12 96 8
              two_requests 4096 2 sample_layout ltac:(lia) ltac:(unfold in_address_space; lia) sample_array) as (m' & E & _ & C).
  exists m'. split; [exact E|]. split_and!; (rewrite C; [by vm_compute|lia]).
Defined.

(** The first two characters of an identifier. *)
Definition short_id (s : string) : Z :=
  match s with
  | String a (String b _) => Z.of_nat (Ascii.nat_of_ascii a) * 256 + Z.of_nat (Ascii.nat_of_ascii b)
  | _ => 0
  end.

Definition subsystem_request : mem := sample_mem (sample_req (short_id "14") 0 0 0) [].

Lemma booted_subsystem_info_witness :
  exists r, boot 0 1 reg_init = Ret r /\
    process_request 1 2 3 4 short_id 100 (nothing 150) (nothing 160) 0 0 0 0 0 1 r sample_off 12 subsystem_request 4096 =
      Ret (apply_writes subsystem_request (set_field sample_off 12 4096 <$> [(MaxSysno, 128); (SubsysVersion, 0); (SubsystemNo, 2)]), Ok tt).
Proof.
  apply (booted_subsystem_info 1 2 3 4 short_id 100 (nothing 150) (nothing 160) 0 0 0 0 0 1 sample_off 12 96 0 1 2 io_info);
    [apply (bool_decide_unpack _); by vm_compute..|done| |done|exact sample_layout| | |by vm_compute| |by vm_compute|by vm_compute].
  - apply (bool_decide_unpack _); by vm_compute.
  - apply sample_static; [by vm_compute|by vm_compute|lia].
  - apply can_write_inv; by vm_compute.
  - apply (bool_decide_unpack _); by vm_compute.
Defined.
