(* ===== verification/Shmem.v ===== *)
(** * The shared-memory allocator (wl-impl/src/global.rs, [ShmemAlloc])

    Every block is a mapping of a memory file of its own, and a table from block to
    descriptor lets the file be passed to other processes.  The kernel is its set of open
    descriptors and its mappings; which descriptor or address a call returns, and whether
    it fails, is the kernel's choice. *)

From Stdlib Require Import ZArith Lia.
From stdpp Require Import base numbers list option gmap sets.
From S2P Require Import Prelude.
From S2P Require Import EnvMap.
From S2P Require Import Alloc.

Local Open Scope Z_scope.

(** ** State *)

(** The descriptors of memory files, and the mappings: start to length and descriptor. *)
Record kernel : Type := mkKernel { open_fds : gset Z; mapped : gmap Z (Z * Z) }.
Record shmem : Type := mkShmem { kern : kernel; shm_fd : gmap Z Z }.

(** The kernel's answers to the calls of one operation. *)
Record choices : Type := mkChoices {
  c_memfd : option Z; c_ftruncate : bool; c_mmap : option Z; c_mremap : option Z }.

Definition k_memfd_create (k : kernel) (c : choices) : kernel * option Z :=
  match c_memfd c with
  | Some fd => (mkKernel ({[fd]} ∪ open_fds k) (mapped k), Some fd)
  | None => (k, None)
  end.
Definition k_close (k : kernel) (fd : Z) : kernel := mkKernel (open_fds k ∖ {[fd]}) (mapped k).
Definition k_map (k : kernel) (c : choices) (len fd : Z) : kernel * option Z :=
  match c_mmap c with
  | Some a => (mkKernel (open_fds k) (<[a := (len, fd)]> (mapped k)), Some a)
  | None => (k, None)
  end.
Definition k_unmap (k : kernel) (a : Z) : kernel := mkKernel (open_fds k) (delete a (mapped k)).
(** [mremap] of a whole mapping, to another address when it may move. *)
Definition k_remap (k : kernel) (a len : Z) (to : option Z) : kernel * option Z :=
  match to, mapped k !! a with
  | Some b, Some (_, fd) => (mkKernel (open_fds k) (<[b := (len, fd)]> (delete a (mapped k))), Some b)
  | _, _ => (k, None)
  end.

(** Dropping an [OwnedFd] closes it; a table entry that is replaced is dropped. *)
Definition table_insert (s : shmem) (p fd : Z) : shmem :=
  mkShmem (match shm_fd s !! p with Some old => k_close (kern s) old | None => kern s end) (<[p := fd]> (shm_fd s)).
Definition table_remove_drop (s : shmem) (p : Z) : shmem :=
  mkShmem (match shm_fd s !! p with Some old => k_close (kern s) old | None => kern s end) (delete p (shm_fd s)).

(** ** Operations; [None] is [AllocError] *)

(** [new], through [HashMap::new]. *)
Definition shm_new : outcome shmem := _ ← RandomState_new; Ret (mkShmem (mkKernel ∅ ∅) ∅).

Definition fd_for_alloc (s : shmem) (addr : Z) : option Z := shm_fd s !! addr.

Definition shm_allocate_zeroed (s : shmem) (c : choices) (l : Layout) : outcome (shmem * option (Z * Z)) :=
  if size l =? 0 then Ret (s, Some (dangling l, 0)) else
  if 4096 <? align l then Ret (s, None) else
  match k_memfd_create (kern s) c with
  | (k, None) => Ret (mkShmem k (shm_fd s), None)
  | (k, Some fd) =>
    if fd <? 0 then Ret (mkShmem k (shm_fd s), None) else
    if negb (c_ftruncate c) then Ret (mkShmem (k_close k fd) (shm_fd s), None) else
    match k_map k c (size l) fd with
    | (k, None) => Ret (mkShmem (k_close k fd) (shm_fd s), None)
    | (k, Some ptr) =>
      if ptr =? 0 then Panic Explicit else
      Ret (table_insert (mkShmem k (shm_fd s)) ptr fd, Some (ptr, size l))
    end
  end.
Definition shm_allocate : shmem -> choices -> Layout -> outcome (shmem * option (Z * Z)) := shm_allocate_zeroed.

Definition shm_deallocate (s : shmem) (ptr : Z) (l : Layout) : shmem :=
  if size l =? 0 then s else table_remove_drop (mkShmem (k_unmap (kern s) ptr) (shm_fd s)) ptr.

Definition shm_grow_zeroed (s : shmem) (c : choices) (ptr : Z) (old new : Layout) : outcome (shmem * option (Z * Z)) :=
  if 4096 <? align new then Ret (s, None) else
  if size old =? 0 then shm_allocate_zeroed s c new else
  match fd_for_alloc s ptr with
  | None => Panic Todo
  | Some _ =>
    if negb (c_ftruncate c) then Ret (s, None) else
    match k_remap (kern s) ptr (size new) (c_mremap c) with
    | (k, None) => Ret (mkShmem k (shm_fd s), None)
    | (k, Some new_addr) =>
      if as_isize new_addr <? 0 then Ret (mkShmem k (shm_fd s), None) else
      match shm_fd s !! ptr with
      | None => Panic Explicit
      | Some fd =>
        let s := mkShmem k (delete ptr (shm_fd s)) in
        if new_addr =? 0 then Panic Explicit else
        Ret (table_insert s new_addr fd, Some (new_addr, size new))
      end
    end
  end.
Definition shm_grow : shmem -> choices -> Z -> Layout -> Layout -> outcome (shmem * option (Z * Z)) := shm_grow_zeroed.

(** [mremap] without [MREMAP_MAYMOVE] leaves the mapping where it is. *)
Definition shm_shrink (s : shmem) (c : choices) (ptr : Z) (old new : Layout) : outcome (shmem * option (Z * Z)) :=
  if size new =? 0 then Ret (shm_deallocate s ptr old, Some (dangling new, 0)) else
  match k_remap (kern s) ptr (size new) (match c_mremap c with Some _ => Some ptr | None => None end) with
  | (k, None) => Ret (mkShmem k (shm_fd s), None)
  | (k, Some new_addr) =>
    if new_addr =? 0 then Panic Explicit else Ret (mkShmem k (shm_fd s), Some (new_addr, size new))
  end.

(** ** Reachable states *)

(** What the kernel may answer: a descriptor that is not open, an address in user space
    where nothing is mapped (or, for a moving [mremap], the old one). *)
Definition choice_ok (s : shmem) (p : Z) (c : choices) : Prop :=
  (forall fd, c_memfd c = Some fd -> 0 <= fd /\ fd ∉ open_fds (kern s)) /\
  (forall a, c_mmap c = Some a -> 0 < a < 2 ^ 63 /\ mapped (kern s) !! a = None) /\
  (forall a, c_mremap c = Some a -> 0 < a < 2 ^ 63 /\ (a = p \/ mapped (kern s) !! a = None)).

(** The client's blocks that are not empty, with their layouts. *)
Abbreviation blocks := (gmap Z Layout).
Definition add_block (b : blocks) (l : Layout) (r : option (Z * Z)) : blocks :=
  match r with Some (p, n) => if n =? 0 then b else <[p := l]> b | None => b end.
(** A block that moved or changed; when the call fails it is as before. *)
Definition move_block (b : blocks) (p : Z) (l : Layout) (r : option (Z * Z)) : blocks :=
  match r with Some _ => add_block (delete p b) l r | None => b end.

(** The first state is the empty allocator [new] would return; as it stands [new] panics
    in [RandomState::new] (see [shm_new]). *)
Inductive reachable : shmem -> blocks -> Prop :=
| R_new : reachable (mkShmem (mkKernel ∅ ∅) ∅) ∅
| R_alloc s b c l s' r :
    reachable s b -> choice_ok s 0 c -> 0 <= size l ->
    shm_allocate s c l = Ret (s', r) -> reachable s' (add_block b l r)
| R_free s b p l :
    reachable s b -> b !! p = Some l -> reachable (shm_deallocate s p l) (delete p b)
| R_grow s b c p l l' s' r :
    reachable s b -> b !! p = Some l -> choice_ok s p c -> size l <= size l' ->
    shm_grow s c p l l' = Ret (s', r) -> reachable s' (move_block b p l' r)
| R_shrink s b c p l l' s' r :
    reachable s b -> b !! p = Some l -> choice_ok s p c -> 0 <= size l' <= size l ->
    shm_shrink s c p l l' = Ret (s', r) -> reachable s' (move_block b p l' r).

(** ** The invariant *)

(** The blocks are what is mapped and what the table lists, each with a descriptor of its
    own, and no other descriptor is open. *)
Record shm_ok (s : shmem) (b : blocks) : Prop := {
  so_block : forall p l, b !! p = Some l -> 0 < size l /\ exists fd, shm_fd s !! p = Some fd /\ mapped (kern s) !! p = Some (size l, fd);
  so_table : forall p fd, shm_fd s !! p = Some fd -> is_Some (b !! p) /\ fd ∈ open_fds (kern s);
  so_mapped : forall p x, mapped (kern s) !! p = Some x -> is_Some (b !! p);
  so_open : forall fd, fd ∈ open_fds (kern s) -> exists p, shm_fd s !! p = Some fd;
  so_inj : forall p q fd, shm_fd s !! p = Some fd -> shm_fd s !! q = Some fd -> p = q }.

Lemma shm_ok_empty : shm_ok (mkShmem (mkKernel ∅ ∅) ∅) ∅.
Proof. split; intros *; rewrite ?lookup_empty; try done; set_solver. Qed.

(** The same descriptors, table and mappings. *)
Lemma shm_ok_same s b k : open_fds k = open_fds (kern s) -> mapped k = mapped (kern s) -> shm_ok s b -> shm_ok (mkShmem k (shm_fd s)) b.
Proof. intros E1 E2 [H1 H2 H3 H4 H5]. split; cbn [kern shm_fd]; rewrite ?E1, ?E2; done. Qed.

(** Opening a descriptor and closing it again. *)
Lemma close_fresh s fd :
  fd ∉ open_fds (kern s) -> open_fds (k_close (mkKernel ({[fd]} ∪ open_fds (kern s)) (mapped (kern s))) fd) = open_fds (kern s).
Proof. intros H. cbn. set_solver. Qed.

Lemma shm_ok_insert s b p l fd :
  shm_ok s b -> fd ∉ open_fds (kern s) -> mapped (kern s) !! p = None -> 0 < size l ->
  shm_ok (table_insert (mkShmem (mkKernel ({[fd]} ∪ open_fds (kern s)) (<[p := (size l, fd)]> (mapped (kern s)))) (shm_fd s)) p fd)
    (<[p := l]> b).
Proof.
  intros [H1 H2 H3 H4 H5] Hfd Hp Hl.
  assert (Hb : b !! p = None) by (destruct (b !! p) eqn:E; [|done]; destruct (H1 _ _ E) as (_ & ? & _ & ?); congruence).
  assert (Hs : shm_fd s !! p = None) by (destruct (shm_fd s !! p) eqn:E; [|done]; destruct (H2 _ _ E) as [[? ?] _]; congruence).
  assert (Hf : forall q, shm_fd s !! q <> Some fd) by (intros q E; by destruct (H2 _ _ E)).
  unfold table_insert. cbn [shm_fd kern]. rewrite Hs. split; cbn [kern shm_fd open_fds mapped].
  - intros q l' [[<- <-]|[Hne Hq]]%lookup_insert_Some; [split; [done|]; exists fd; by rewrite !lookup_insert_eq|].
    rewrite !lookup_insert_ne by done. by apply H1.
  - intros q fd' [[<- <-]|[Hne Hq]]%lookup_insert_Some; [rewrite lookup_insert_eq; set_solver|].
    rewrite lookup_insert_ne by done. destruct (H2 _ _ Hq). set_solver.
  - intros q x [[<- _]|[Hne Hq]]%lookup_insert_Some; [by rewrite lookup_insert_eq|]. rewrite lookup_insert_ne by done. by eapply H3.
  - intros fd' [->%elem_of_singleton|Hin]%elem_of_union; [exists p; by rewrite lookup_insert_eq|].
    destruct (H4 _ Hin) as [q Hq]. exists q. by rewrite lookup_insert_ne by congruence.
  - intros q q' fd' [[<- <-]|[Hne Hq]]%lookup_insert_Some [[<- E]|[Hne' Hq']]%lookup_insert_Some; subst; try done;
      [by apply Hf in Hq'|by apply Hf in Hq|by eapply H5].
Qed.

Lemma shm_ok_alloc s b c l s' r :
  shm_ok s b -> choice_ok s 0 c -> 0 <= size l -> shm_allocate_zeroed s c l = Ret (s', r) -> shm_ok s' (add_block b l r).
Proof.
  intros Hok (Hfd & Hmap & _) Hl. unfold shm_allocate_zeroed.
  destruct (Z.eqb_spec (size l) 0) as [|Hne]; [by intros [= <- <-]|]. destruct (4096 <? align l); [by intros [= <- <-]|].
  unfold k_memfd_create. destruct (c_memfd c) as [fd|]; [|intros [= <- <-]; by apply shm_ok_same].
  destruct (Hfd fd eq_refl) as [Hfd0 Hfd1]. rewrite (proj2 (Z.ltb_ge fd 0)) by done.
  destruct (c_ftruncate c); cbn [negb]; [|intros [= <- <-]; apply shm_ok_same; [by apply close_fresh|done|done]].
  unfold k_map. destruct (c_mmap c) as [a|]; [|intros [= <- <-]; apply shm_ok_same; [by apply close_fresh|done|done]].
  destruct (Hmap a eq_refl) as [Ha Hn]. rewrite (proj2 (Z.eqb_neq a 0)) by lia. intros [= <- <-].
  cbn [add_block]. rewrite (proj2 (Z.eqb_neq (size l) 0)) by done. cbn [open_fds mapped].
  apply shm_ok_insert; [done..|lia].
Qed.

Lemma shm_ok_free s b p l : shm_ok s b -> b !! p = Some l -> shm_ok (shm_deallocate s p l) (delete p b).
Proof.
  intros [H1 H2 H3 H4 H5] Hp. destruct (H1 _ _ Hp) as (Hl & fd & Hs & Hm). unfold shm_deallocate.
  rewrite (proj2 (Z.eqb_neq (size l) 0)) by lia. unfold table_remove_drop. cbn [shm_fd kern]. rewrite Hs.
  split; cbn [kern shm_fd open_fds mapped k_close k_unmap].
  - intros q l' [Hne Hq]%lookup_delete_Some. rewrite !lookup_delete_ne by done. by apply H1.
  - intros q fd' [Hne Hq]%lookup_delete_Some. rewrite lookup_delete_ne by done. destruct (H2 _ _ Hq). split; [done|].
    apply elem_of_difference. split; [done|]. intros ->%elem_of_singleton. by pose proof (H5 _ _ _ Hs Hq).
  - intros q x [Hne Hq]%lookup_delete_Some. rewrite lookup_delete_ne by done. by eapply H3.
  - intros fd' [Hin Hne]%elem_of_difference. destruct (H4 _ Hin) as [q Hq]. exists q. rewrite lookup_delete_ne; [done|].
    intros <-. apply Hne, elem_of_singleton. congruence.
  - intros q q' fd' [_ Hq]%lookup_delete_Some [_ Hq']%lookup_delete_Some. by eapply H5.
Qed.

(** A block moved from [p] to [a]. *)
Lemma shm_ok_move s b p a l l' fd :
  shm_ok s b -> b !! p = Some l -> shm_fd s !! p = Some fd -> 0 < size l' -> a = p \/ mapped (kern s) !! a = None ->
  shm_ok (table_insert (mkShmem (mkKernel (open_fds (kern s)) (<[a := (size l', fd)]> (delete p (mapped (kern s))))) (delete p (shm_fd s))) a fd)
    (<[a := l']> (delete p b)).
Proof.
  intros [H1 H2 H3 H4 H5] Hp Hs Hl Ha.
  assert (Hd : delete p (shm_fd s) !! a = None).
  { destruct Ha as [->|Hn]; [by rewrite lookup_delete_eq|]. destruct (delete p (shm_fd s) !! a) eqn:E; [|done].
    apply lookup_delete_Some in E as [Hne E]. destruct (H2 _ _ E) as [[x Hx] _]. destruct (H1 _ _ Hx) as (_ & ? & _ & ?). congruence. }
  unfold table_insert. cbn [shm_fd kern]. rewrite Hd. split; cbn [kern shm_fd open_fds mapped].
  - intros q k [[<- <-]|[Hne [Hne' Hq]%lookup_delete_Some]]%lookup_insert_Some; [split; [done|]; exists fd; by rewrite !lookup_insert_eq|].
    rewrite !lookup_insert_ne, !lookup_delete_ne by done. by apply H1.
  - intros q fd' [[<- <-]|[Hne [Hne' Hq]%lookup_delete_Some]]%lookup_insert_Some; [rewrite lookup_insert_eq; split; [done|by eapply H2]|].
    rewrite lookup_insert_ne, lookup_delete_ne by done. by apply H2.
  - intros q x [[<- _]|[Hne [Hne' Hq]%lookup_delete_Some]]%lookup_insert_Some; [by rewrite lookup_insert_eq|].
    rewrite lookup_insert_ne, lookup_delete_ne by done. by eapply H3.
  - intros fd' Hin. destruct (H4 _ Hin) as [q Hq]. destruct (decide (q = p)) as [->|Hne].
    + exists a. rewrite lookup_insert_eq. congruence.
    + exists q. assert (delete p (shm_fd s) !! q = Some fd') as E by by rewrite lookup_delete_ne.
      rewrite lookup_insert_ne; [done|]. intros ->. congruence.
  - intros q q' fd' [[<- <-]|[Hne [Hne1 Hq]%lookup_delete_Some]]%lookup_insert_Some
      [[<- E]|[Hne' [Hne2 Hq']%lookup_delete_Some]]%lookup_insert_Some; subst; try done.
    + by destruct Hne2; eapply H5.
    + by destruct Hne1; eapply H5.
    + by eapply H5.
Qed.

Lemma shm_ok_grow s b c p l l' s' r :
  shm_ok s b -> b !! p = Some l -> choice_ok s p c -> size l <= size l' ->
  shm_grow_zeroed s c p l l' = Ret (s', r) -> shm_ok s' (move_block b p l' r).
Proof.
  intros Hok Hp (_ & _ & Hre) Hle. destruct (so_block _ _ Hok _ _ Hp) as (Hl & fd & Hs & Hm). unfold shm_grow_zeroed, fd_for_alloc.
  destruct (4096 <? align l'); [by intros [= <- <-]|]. rewrite (proj2 (Z.eqb_neq (size l) 0)) by lia. rewrite Hs.
  destruct (c_ftruncate c); cbn [negb]; [|by intros [= <- <-]].
  unfold k_remap. destruct (c_mremap c) as [a|]; [|intros [= <- <-]; by apply shm_ok_same]. rewrite Hm.
  destruct (Hre a eq_refl) as [Ha Hn].
  assert (as_isize a = a) as -> by (unfold as_isize, swrap; rewrite wrap_small by lia; by rewrite (proj2 (Z.ltb_lt a _)) by lia).
  rewrite (proj2 (Z.ltb_ge a 0)), (proj2 (Z.eqb_neq a 0)) by lia. intros [= <- <-].
  cbn [move_block add_block]. rewrite (proj2 (Z.eqb_neq (size l') 0)) by lia. eapply shm_ok_move; [done..|lia|done].
Qed.

Lemma shm_ok_shrink s b c p l l' s' r :
  shm_ok s b -> b !! p = Some l -> 0 <= size l' ->
  shm_shrink s c p l l' = Ret (s', r) -> shm_ok s' (move_block b p l' r).
Proof.
  intros Hok Hp Hle. destruct (so_block _ _ Hok _ _ Hp) as (Hl & fd & Hs & Hm). unfold shm_shrink.
  destruct (Z.eqb_spec (size l') 0) as [|Hne]; [intros [= <- <-]; cbn [move_block add_block]; by apply shm_ok_free|].
  unfold k_remap. destruct (c_mremap c) as [a|]; [|intros [= <- <-]; by apply shm_ok_same]. rewrite Hm.
  destruct (p =? 0); [done|]. intros [= <- <-]. cbn [move_block add_block]. rewrite (proj2 (Z.eqb_neq (size l') 0)) by done.
  pose proof (shm_ok_move s b p p l l' fd Hok Hp Hs ltac:(lia) ltac:(auto)) as H. unfold table_insert in H. cbn [shm_fd kern] in H.
  rewrite lookup_delete_eq in H. cbn [open_fds mapped] in H. 
  replace (<[p := fd]> (delete p (shm_fd s))) with (shm_fd s) in H; [done|]. by rewrite insert_delete_eq, insert_id.
Qed.

(** In every state the allocator can reach, whatever the kernel answers, the blocks
    the client holds are exactly the mappings and exactly the entries of the table; each
    has a memory file of its own, and no other descriptor is open: none is leaked when an
    allocation fails half way, and none is closed under a block that is still held. *)
Theorem shmem_descriptors s b :
  reachable s b ->
  (forall p l, b !! p = Some l -> exists fd, fd_for_alloc s p = Some fd /\ mapped (kern s) !! p = Some (size l, fd) /\ fd ∈ open_fds (kern s)) /\
  (forall p, b !! p = None -> fd_for_alloc s p = None /\ mapped (kern s) !! p = None) /\
  (forall fd, fd ∈ open_fds (kern s) -> exists p, is_Some (b !! p) /\ fd_for_alloc s p = Some fd /\
     forall q, fd_for_alloc s q = Some fd -> q = p).
Proof.
  intros Hr. assert (Hok : shm_ok s b).
  { induction Hr; [apply shm_ok_empty|by eapply shm_ok_alloc|by apply shm_ok_free|by eapply shm_ok_grow|].
    eapply shm_ok_shrink; [done|done| |done]. lia. }
  destruct Hok as [H1 H2 H3 H4 H5]. unfold fd_for_alloc. split_and!.
  - intros p l Hp. destruct (H1 _ _ Hp) as (_ & fd & Hs & Hm). exists fd. split_and!; [done|done|by eapply H2].
  - intros p Hp. split.
    + destruct (shm_fd s !! p) eqn:E; [|done]. destruct (H2 _ _ E) as [[? ?] _]. congruence.
    + destruct (mapped (kern s) !! p) eqn:E; [|done]. destruct (H3 _ _ E) as [? ?]. congruence.
  - intros fd Hin. destruct (H4 _ Hin) as [p Hp]. exists p. split_and!; [by eapply H2|done|]. intros q Hq. by eapply H5.
Qed.

(** ** Concrete inputs *)

Definition first_choice : choices := mkChoices (Some 5) true (Some 8192) None.
Definition second_choice : choices := mkChoices None true None (Some 65536).

Definition after_alloc : shmem := mkShmem (mkKernel ({[5]} ∪ ∅) (<[8192 := (100, 5)]> ∅)) (<[8192 := 5]> ∅).

(** A block of 100 bytes, grown to 9000 bytes at another address. *)
Lemma sample_reachable :
  exists s, reachable s {[65536 := mkLayout 9000 8]} /\ fd_for_alloc s 65536 = Some 5.
Proof.
  eexists. split.
  - change {[65536 := mkLayout 9000 8]} with (move_block {[8192 := mkLayout 100 8]} 8192 (mkLayout 9000 8) (Some (65536, 9000))).
    eapply (R_grow after_alloc _ second_choice 8192 (mkLayout 100 8)); [|reflexivity| |cbn; lia|vm_compute; reflexivity].
    + apply (R_alloc (mkShmem (mkKernel ∅ ∅) ∅) ∅ first_choice (mkLayout 100 8) after_alloc (Some (8192, 100)));
        [constructor| |cbn; lia|reflexivity].
      split_and!; cbn; intros a [= <-]; (split; [lia|set_solver]).
    + split_and!; cbn; intros a; try done. intros [= <-]. split; [lia|]. by right.
  - reflexivity.
Qed.

Lemma shmem_descriptors_witness :
  exists s, reachable s {[65536 := mkLayout 9000 8]} /\ mapped (kern s) !! 65536 = Some (9000, 5).
Proof.
  destruct sample_reachable as (s & Hr & Hf). exists s. split; [done|].
  destruct (shmem_descriptors s _ Hr) as (H & _). destruct (H 65536 (mkLayout 9000 8) ltac:(by rewrite lookup_singleton_eq)) as (fd & E & M & _).
  rewrite M. rewrite Hf in E. by injection E as <-.
Defined.
