(* ===== verification/ShmemThreads.v ===== *)
(** * The shared-memory allocator under threads (wl-impl/src/global.rs)

    The operations of [Shmem] as programs with one step per call to Linux, per access to
    the table and per operation of its lock, for any lock with the laws of [RwLocks].
    Only the table is under the lock: the calls to Linux are made before it is taken.
    The theorems: what holds in every interleaving as long as Linux does not hand out an
    address whose entry is still in the table, and what happens when it does. *)

From Stdlib Require Import ZArith Lia.
From stdpp Require Import base numbers list option gmap sets.
From S2P Require Import Prelude.
From S2P Require Import Alloc.
From S2P Require Import Futex.
From S2P Require Import RwLocks.
From S2P Require Import Shmem.

Local Open Scope Z_scope.

(** ** Program points *)

Inductive spc : Type :=
| SIdle
| AMemfd (l : Layout)                    (** [allocate_zeroed] *)
| ATrunc (l : Layout) (fd : Z)
| AMap (l : Layout) (fd : Z)
| AClose (fd : Z)                        (** an early return *)
| AWant (l : Layout) (fd p : Z)          (** in [shm_fd.write()] *)
| AInsert (l : Layout) (fd p : Z)
| ADone (l : Layout) (p : Z)             (** the guard is dropped *)
| DUnmap (p : Z) (l : Layout)            (** [deallocate] *)
| DWant (p : Z)
| DRemove (p : Z)
| DDone
| GRead (p : Z) (old new : Layout)       (** [grow_zeroed]: [fd_for_alloc], in [shm_fd.read()] *)
| GGet (p : Z) (old new : Layout)
| GGot (p : Z) (old new : Layout) (r : option Z)
| GTrunc (p : Z) (old new : Layout)
| GRemap (p : Z) (old new : Layout)
| GWant (p : Z) (new : Layout) (a : Z)
| GRemove (p : Z) (new : Layout) (a : Z)
| GInsert (new : Layout) (a fd : Z)
| GDone (new : Layout) (a : Z)
| SRemap (p : Z) (old new : Layout).     (** [shrink] *)

(** Points under the write guard, under the read guard, and in front of one. *)
Definition in_write (p : spc) : bool :=
  match p with AInsert _ _ _ | ADone _ _ | DRemove _ | DDone | GRemove _ _ _ | GInsert _ _ _ | GDone _ _ => true | _ => false end.
Definition in_read (p : spc) : bool := match p with GGet _ _ _ | GGot _ _ _ _ => true | _ => false end.
Definition wanting (p : spc) : bool :=
  match p with AWant _ _ _ | DWant _ | GRead _ _ _ | GWant _ _ _ => true | _ => false end.

(** The guards of [allocate_zeroed] before its first call. *)
Definition enter_allocate (l : Layout) : spc :=
  if size l =? 0 then SIdle else if 4096 <? align l then SIdle else AMemfd l.

(** ** Steps *)

(** What the schedule asks: a call with its arguments, a step inside the lock, or the
    next step with the answer of Linux. *)
Inductive sact : Type :=
| CallAlloc (l : Layout)
| CallFree (p : Z) (l : Layout)
| CallGrow (p : Z) (old new : Layout)
| CallShrink (p : Z) (old new : Layout)
| LockStep (a : act)
| Next (ch : choices).

Section Threads.
Context {L : Type} `{RwLock L}.

(** [pool] is the blocks of the program that no call under way has been given, with
    their layouts; [up] is [false] once a thread has panicked. *)
Record sconf : Type := mkS {
  slock : L; smem : shmem; sthreads : list spc; pool : gmap Z Layout; up : bool }.

Definition goto (c : sconf) (i : nat) (p : spc) : sconf :=
  mkS (slock c) (smem c) (<[i := p]> (sthreads c)) (pool c) (up c).
Definition lock_step (c : sconf) (i : nat) (a : act) : sconf :=
  mkS (rw_step (slock c) i a) (smem c) (sthreads c) (pool c) (up c).
Definition with_mem (c : sconf) (m : shmem) : sconf := mkS (slock c) m (sthreads c) (pool c) (up c).
Definition with_kern (c : sconf) (k : kernel) : sconf := with_mem c (mkShmem k (shm_fd (smem c))).
Definition take (c : sconf) (p : Z) : sconf := mkS (slock c) (smem c) (sthreads c) (delete p (pool c)) (up c).
Definition give (c : sconf) (p : Z) (l : Layout) : sconf :=
  mkS (slock c) (smem c) (sthreads c) (<[p := l]> (pool c)) (up c).
Definition panicked (c : sconf) : sconf := mkS (slock c) (smem c) (sthreads c) (pool c) false.

Definition alloc_step (c : sconf) (i : nat) (p : spc) (ch : choices) : sconf :=
  let m := smem c in
  match p with
  | AMemfd l =>
    match k_memfd_create (kern m) ch with
    | (k, None) => goto (with_kern c k) i SIdle
    | (k, Some fd) => goto (with_kern c k) i (if fd <? 0 then SIdle else ATrunc l fd)
    end
  | ATrunc l fd => goto c i (if c_ftruncate ch then AMap l fd else AClose fd)
  | AMap l fd =>
    match k_map (kern m) ch (size l) fd with
    | (k, None) => goto (with_kern c k) i (AClose fd)
    | (k, Some a) =>
      if a =? 0 then panicked (with_kern c k) else goto (lock_step (with_kern c k) i DoLock) i (AWant l fd a)
    end
  | AClose fd => goto (with_kern c (k_close (kern m) fd)) i SIdle
  | AWant l fd a => match rw_mode (slock c) i with Exclusive => goto c i (AInsert l fd a) | _ => c end
  | AInsert l fd a => goto (with_mem c (table_insert m a fd)) i (ADone l a)
  | ADone l a => goto (give (lock_step c i DoUnlock) a l) i SIdle
  | _ => c
  end.

Definition free_step (c : sconf) (i : nat) (p : spc) : sconf :=
  match p with
  | DUnmap q l => goto (lock_step (with_kern c (k_unmap (kern (smem c)) q)) i DoLock) i (DWant q)
  | DWant q => match rw_mode (slock c) i with Exclusive => goto c i (DRemove q) | _ => c end
  | DRemove q => goto (with_mem c (table_remove_drop (smem c) q)) i DDone
  | DDone => goto (lock_step c i DoUnlock) i SIdle
  | _ => c
  end.

Definition grow_step (c : sconf) (i : nat) (p : spc) (ch : choices) : sconf :=
  let m := smem c in
  match p with
  | GRead q old new => match rw_mode (slock c) i with Shared => goto c i (GGet q old new) | _ => c end
  | GGet q old new => goto c i (GGot q old new (fd_for_alloc m q))
  | GGot q old new r =>
    let c := lock_step c i DoUnlockShared in
    match r with Some _ => goto c i (GTrunc q old new) | None => panicked c end
  | GTrunc q old new => if c_ftruncate ch then goto c i (GRemap q old new) else goto (give c q old) i SIdle
  | GRemap q old new =>
    match k_remap (kern m) q (size new) (c_mremap ch) with
    | (k, None) => goto (give (with_kern c k) q old) i SIdle
    | (k, Some a) =>
      if as_isize a <? 0 then goto (give (with_kern c k) q old) i SIdle
      else goto (lock_step (with_kern c k) i DoLock) i (GWant q new a)
    end
  | GWant q new a => match rw_mode (slock c) i with Exclusive => goto c i (GRemove q new a) | _ => c end
  | GRemove q new a =>
    match shm_fd m !! q with
    | None => panicked c
    | Some fd =>
      let c := with_mem c (mkShmem (kern m) (delete q (shm_fd m))) in
      if a =? 0 then panicked c else goto c i (GInsert new a fd)
    end
  | GInsert new a fd => goto (with_mem c (table_insert m a fd)) i (GDone new a)
  | GDone new a => goto (give (lock_step c i DoUnlock) a new) i SIdle
  | _ => c
  end.

Definition shrink_step (c : sconf) (i : nat) (p : spc) (ch : choices) : sconf :=
  match p with
  | SRemap q old new =>
    match k_remap (kern (smem c)) q (size new) (match c_mremap ch with Some _ => Some q | None => None end) with
    | (k, None) => goto (give (with_kern c k) q old) i SIdle
    | (k, Some a) => if a =? 0 then panicked (with_kern c k) else goto (give (with_kern c k) a new) i SIdle
    end
  | _ => c
  end.

(** Requests that do not fit the program point change nothing. *)
Definition sthread_step (c : sconf) (i : nat) (p : spc) (a : sact) : sconf :=
  match a, p with
  | CallAlloc l, SIdle => goto c i (enter_allocate l)
  | CallFree q l, SIdle => if size l =? 0 then c else goto (take c q) i (DUnmap q l)
  | CallGrow q old new, SIdle =>
    if 4096 <? align new then c
    else if size old =? 0 then goto c i (enter_allocate new)
    else goto (lock_step (take c q) i DoLockShared) i (GRead q old new)
  | CallShrink q old new, SIdle =>
    if size new =? 0 then (if size old =? 0 then c else goto (take c q) i (DUnmap q old))
    else goto (take c q) i (SRemap q old new)
  | LockStep (Go b), _ => if wanting p then lock_step c i (Go b) else c
  | LockStep Wake, _ => if wanting p then lock_step c i Wake else c
  | Next ch, (AMemfd _ | ATrunc _ _ | AMap _ _ | AClose _ | AWant _ _ _ | AInsert _ _ _ | ADone _ _) => alloc_step c i p ch
  | Next ch, (DUnmap _ _ | DWant _ | DRemove _ | DDone) => free_step c i p
  | Next ch, SRemap _ _ _ => shrink_step c i p ch
  | Next ch, _ => grow_step c i p ch
  | _, _ => c
  end.

Definition ssched (c : sconf) (ia : nat * sact) : sconf :=
  if up c then match sthreads c !! ia.1 with Some p => sthread_step c ia.1 p ia.2 | None => c end else c.
Definition srun (c : sconf) (sched : list (nat * sact)) : sconf := foldl ssched c sched.
Definition sinitial (n : nat) : sconf := mkS (rw_init n) (mkShmem (mkKernel ∅ ∅) ∅) (replicate n SIdle) ∅ true.

(** ** What callers and Linux may do *)

(** The block an operation under way would move. *)
Definition moving (p : spc) : Z := match p with GRemap q _ _ | SRemap q _ _ => q | _ => 0 end.

(** An address is not handed out while the table lists it. *)
Definition no_reuse (m : shmem) (p : Z) (ch : choices) : Prop :=
  (forall a, c_mmap ch = Some a -> shm_fd m !! a = None) /\
  (forall a, c_mremap ch = Some a -> a = p \/ shm_fd m !! a = None).

(** The caller passes a block it holds with its layout, or an empty one; Linux answers
    as [choice_ok] says, and when [strict] as [no_reuse] says. *)
Definition legal (strict : bool) (c : sconf) (ia : nat * sact) : Prop :=
  match ia.2 with
  | CallAlloc l => 0 <= size l
  | CallFree q l => size l = 0 \/ pool c !! q = Some l
  | CallGrow q old new => (size old = 0 \/ pool c !! q = Some old) /\ 0 <= size old <= size new
  | CallShrink q old new => (size old = 0 \/ pool c !! q = Some old) /\ 0 <= size new <= size old
  | LockStep _ => True
  | Next ch =>
    let p := from_option moving 0 (sthreads c !! ia.1) in
    choice_ok (smem c) p ch /\ if strict then no_reuse (smem c) p ch else True
  end.

Inductive sreach (strict : bool) (n : nat) : sconf -> Prop :=
| SR_initial : sreach strict n (sinitial n)
| SR_step c ia : sreach strict n c -> legal strict c ia -> sreach strict n (ssched c ia).
End Threads.
Arguments sconf : clear implicits.

(** ** Who owns which memory file *)

(** An open memory file: the table lists it for an address, it is mapped at an address
    with a length, and a thread or ([None]) the pool holds it. *)
Record file : Type := mkFile { listed : option Z; placed : option (Z * Z); holder : option nat }.
Abbreviation files := (gmap Z file).

(** The files account for the descriptors, the table and the mappings; an address where
    one file is mapped is not listed for another. *)
Record files_ok (m : shmem) (own : files) : Prop := {
  fo_open : forall fd, fd ∈ open_fds (kern m) <-> is_Some (own !! fd);
  fo_table : forall p fd, shm_fd m !! p = Some fd <-> exists f, own !! fd = Some f /\ listed f = Some p;
  fo_map : forall a len fd, mapped (kern m) !! a = Some (len, fd) <-> exists f, own !! fd = Some f /\ placed f = Some (a, len);
  fo_apart : forall fd f a len fd', own !! fd = Some f -> placed f = Some (a, len) -> shm_fd m !! a = Some fd' -> fd' = fd }.

Section Files.
Context (m : shmem) (own : files) (Hok : files_ok m own).

Lemma files_table_one p fd f fd' f' :
  own !! fd = Some f -> listed f = Some p -> own !! fd' = Some f' -> listed f' = Some p -> fd = fd'.
Proof using Hok.
  intros. assert (shm_fd m !! p = Some fd) by (apply (fo_table _ _ Hok); eauto).
  assert (shm_fd m !! p = Some fd') by (apply (fo_table _ _ Hok); eauto). congruence.
Qed.

Lemma files_map_one a len len' fd f fd' f' :
  own !! fd = Some f -> placed f = Some (a, len) -> own !! fd' = Some f' -> placed f' = Some (a, len') -> fd = fd'.
Proof using Hok.
  intros. assert (mapped (kern m) !! a = Some (len, fd)) by (apply (fo_map _ _ Hok); eauto).
  assert (mapped (kern m) !! a = Some (len', fd')) by (apply (fo_map _ _ Hok); eauto). congruence.
Qed.

(** [memfd_create] and [close]. *)
Lemma files_create fd i :
  fd ∉ open_fds (kern m) ->
  files_ok (mkShmem (mkKernel ({[fd]} ∪ open_fds (kern m)) (mapped (kern m))) (shm_fd m)) (<[fd := mkFile None None i]> own).
Proof using Hok.
  intros Hfd. assert (Hn : own !! fd = None) by (apply eq_None_not_Some; by rewrite <- (fo_open _ _ Hok)).
  destruct Hok as [H1 H2 H3 H4]. split; cbn [kern open_fds mapped shm_fd].
  - intros x. rewrite elem_of_union, elem_of_singleton, H1. destruct (decide (x = fd)) as [->|].
    + rewrite lookup_insert_eq. naive_solver.
    + rewrite lookup_insert_ne by done. naive_solver.
  - intros p x. rewrite H2. destruct (decide (x = fd)) as [->|].
    + rewrite lookup_insert_eq. naive_solver.
    + by rewrite lookup_insert_ne by done.
  - intros a len x. rewrite H3. destruct (decide (x = fd)) as [->|].
    + rewrite lookup_insert_eq. naive_solver.
    + by rewrite lookup_insert_ne by done.
  - intros x f a len x' [[<- <-]|[Hne Hx]]%lookup_insert_Some; [done|]. by apply H4.
Qed.

Lemma files_close fd i :
  own !! fd = Some (mkFile None None i) -> files_ok (mkShmem (k_close (kern m) fd) (shm_fd m)) (delete fd own).
Proof using Hok.
  intros Hfd. destruct Hok as [H1 H2 H3 H4]. split; cbn [kern open_fds mapped shm_fd k_close].
  - intros x. rewrite elem_of_difference, elem_of_singleton, H1. destruct (decide (x = fd)) as [->|].
    + rewrite lookup_delete_eq. split; [naive_solver|by intros [? ?]].
    + rewrite lookup_delete_ne by done. naive_solver.
  - intros p x. rewrite H2. destruct (decide (x = fd)) as [->|].
    + rewrite lookup_delete_eq. naive_solver.
    + by rewrite lookup_delete_ne by done.
  - intros a len x. rewrite H3. destruct (decide (x = fd)) as [->|].
    + rewrite lookup_delete_eq. naive_solver.
    + by rewrite lookup_delete_ne by done.
  - intros x f a len x' [Hne Hx]%lookup_delete_Some. by apply H4.
Qed.

(** A change to a file that stays open. *)
Lemma files_still_open fd f f' : own !! fd = Some f -> forall x, x ∈ open_fds (kern m) <-> is_Some (<[fd := f']> own !! x).
Proof using Hok.
  intros Hfd x. rewrite (fo_open _ _ Hok). destruct (decide (x = fd)) as [->|].
  - rewrite lookup_insert_eq, Hfd. naive_solver.
  - by rewrite lookup_insert_ne by done.
Qed.

Lemma files_same_table fd f f' : own !! fd = Some f -> listed f' = listed f ->
  forall p x, shm_fd m !! p = Some x <-> exists g, <[fd := f']> own !! x = Some g /\ listed g = Some p.
Proof using Hok.
  intros Hfd E p x. rewrite (fo_table _ _ Hok). destruct (decide (x = fd)) as [->|].
  - rewrite lookup_insert_eq, Hfd. split; intros (g & [= <-] & ?); eexists; (split; [done|congruence]).
  - by rewrite lookup_insert_ne by done.
Qed.

Lemma files_same_map fd f f' : own !! fd = Some f -> placed f' = placed f ->
  forall a len x, mapped (kern m) !! a = Some (len, x) <-> exists g, <[fd := f']> own !! x = Some g /\ placed g = Some (a, len).
Proof using Hok.
  intros Hfd E a len x. rewrite (fo_map _ _ Hok). destruct (decide (x = fd)) as [->|].
  - rewrite lookup_insert_eq, Hfd. split; intros (g & [= <-] & ?); eexists; (split; [done|congruence]).
  - by rewrite lookup_insert_ne by done.
Qed.

Lemma files_holder fd x y i j : own !! fd = Some (mkFile x y i) -> files_ok m (<[fd := mkFile x y j]> own).
Proof using Hok.
  intros Hfd. split; [by eapply files_still_open|by eapply files_same_table|by eapply files_same_map|].
  intros z f a len z' [[<- <-]|[_ Hz]]%lookup_insert_Some; [by apply (fo_apart _ _ Hok _ _ _ _ _ Hfd)|by apply (fo_apart _ _ Hok _ _ _ _ _ Hz)].
Qed.

(** [munmap] and [mmap]. *)
Lemma files_unmap fd x a len i :
  own !! fd = Some (mkFile x (Some (a, len)) i) ->
  files_ok (mkShmem (k_unmap (kern m) a) (shm_fd m)) (<[fd := mkFile x None i]> own).
Proof using Hok.
  intros Hfd. split; cbn [kern open_fds mapped shm_fd k_unmap]; [by eapply files_still_open|by eapply files_same_table| |].
  - intros a' len' z. rewrite lookup_delete_Some, (fo_map _ _ Hok). destruct (decide (z = fd)) as [->|Hne].
    + rewrite lookup_insert_eq, Hfd. naive_solver.
    + rewrite lookup_insert_ne by done. split; [naive_solver|]. intros (g & Hg & Hp). split; [|by exists g].
      intros <-. by destruct Hne; eapply (files_map_one a len' len z g fd _ Hg Hp Hfd).
  - intros z f a' len' z' [[<- <-]|[_ Hz]]%lookup_insert_Some; [done|]. by apply (fo_apart _ _ Hok _ _ _ _ _ Hz).
Qed.

Lemma files_map fd x a len i :
  own !! fd = Some (mkFile x None i) -> mapped (kern m) !! a = None -> shm_fd m !! a = None \/ x = Some a ->
  files_ok (mkShmem (mkKernel (open_fds (kern m)) (<[a := (len, fd)]> (mapped (kern m)))) (shm_fd m))
    (<[fd := mkFile x (Some (a, len)) i]> own).
Proof using Hok.
  intros Hfd Ha Hx. split; cbn [kern open_fds mapped shm_fd]; [by eapply files_still_open|by eapply files_same_table| |].
  - intros a' len' z. rewrite lookup_insert_Some, (fo_map _ _ Hok). destruct (decide (z = fd)) as [->|Hne].
    + rewrite lookup_insert_eq, Hfd. naive_solver.
    + rewrite lookup_insert_ne by done. split; [naive_solver|]. intros Hg. right. split; [|done].
      intros <-. apply (fo_map _ _ Hok) in Hg. congruence.
  - intros z f a' len' z' [[<- <-]|[_ Hz]]%lookup_insert_Some; [|by apply (fo_apart _ _ Hok _ _ _ _ _ Hz)].
    intros [= -> ->] Hz'. destruct Hx as [?| ->]; [congruence|]. apply (fo_table _ _ Hok) in Hz' as (g & Hg & Hl).
    by eapply (files_table_one a' z' g fd _ Hg Hl Hfd).
Qed.

(** The table. *)
Lemma files_unlist fd p y i :
  own !! fd = Some (mkFile (Some p) y i) ->
  files_ok (mkShmem (kern m) (delete p (shm_fd m))) (<[fd := mkFile None y i]> own).
Proof using Hok.
  intros Hfd. split; cbn [kern open_fds mapped shm_fd]; [by eapply files_still_open| |by eapply files_same_map|].
  - intros p' z. rewrite lookup_delete_Some, (fo_table _ _ Hok). destruct (decide (z = fd)) as [->|Hne].
    + rewrite lookup_insert_eq, Hfd. naive_solver.
    + rewrite lookup_insert_ne by done. split; [naive_solver|]. intros (g & Hg & Hp). split; [|by exists g].
      intros <-. by destruct Hne; eapply (files_table_one p z g fd _ Hg Hp Hfd).
  - intros z f a len z' [[<- <-]|[_ Hz]]%lookup_insert_Some Hp [_ Hz']%lookup_delete_Some;
      [by apply (fo_apart _ _ Hok _ _ a len _ Hfd)|by apply (fo_apart _ _ Hok _ _ _ _ _ Hz Hp)].
Qed.

Lemma files_free_entry fd p len i : own !! fd = Some (mkFile None (Some (p, len)) i) -> shm_fd m !! p = None.
Proof using Hok.
  intros Hfd. destruct (shm_fd m !! p) as [z|] eqn:E; [|done].
  rewrite (fo_apart _ _ Hok _ _ _ _ _ Hfd eq_refl E) in E. apply (fo_table _ _ Hok) in E as (f & Hf & Hl).
  rewrite Hfd in Hf. by injection Hf as <-.
Qed.

Lemma files_list fd p len i :
  own !! fd = Some (mkFile None (Some (p, len)) i) ->
  files_ok (table_insert m p fd) (<[fd := mkFile (Some p) (Some (p, len)) i]> own).
Proof using Hok.
  intros Hfd. pose proof (files_free_entry _ _ _ _ Hfd) as Hn. unfold table_insert. rewrite Hn.
  split; cbn [kern open_fds mapped shm_fd]; [by eapply files_still_open| |by eapply files_same_map|].
  - intros p' z. rewrite lookup_insert_Some, (fo_table _ _ Hok). destruct (decide (z = fd)) as [->|Hne].
    + rewrite lookup_insert_eq, Hfd. naive_solver.
    + rewrite lookup_insert_ne by done. split; [naive_solver|]. intros Hg. right. split; [|done].
      intros <-. apply (fo_table _ _ Hok) in Hg. congruence.
  - intros z f a len' z' [[<- <-]|[_ Hz]]%lookup_insert_Some Hp [[<- <-]|[_ Hz']]%lookup_insert_Some.
    + done.
    + by apply (fo_apart _ _ Hok _ _ a len' _ Hfd).
    + by eapply (files_map_one p len len' fd _ z f Hfd).
    + by apply (fo_apart _ _ Hok _ _ _ _ _ Hz Hp).
Qed.
End Files.

Lemma files_remap m own fd x q len a len' i :
  files_ok m own -> own !! fd = Some (mkFile x (Some (q, len)) i) ->
  a = q \/ mapped (kern m) !! a = None -> shm_fd m !! a = None \/ x = Some a ->
  files_ok (mkShmem (mkKernel (open_fds (kern m)) (<[a := (len', fd)]> (delete q (mapped (kern m))))) (shm_fd m))
    (<[fd := mkFile x (Some (a, len')) i]> own).
Proof.
  intros Hok Hfd Ha Hx. pose proof (files_unmap m own Hok fd x q len i Hfd) as Hu.
  apply (files_map _ _ Hu fd x a len' i) in Hx as H; [by rewrite insert_insert_eq in H|by rewrite lookup_insert_eq|].
  cbn. destruct Ha as [->|Ha]; [by rewrite lookup_delete_eq|]. destruct (decide (a = q)) as [->|]; [by rewrite lookup_delete_eq|].
  by rewrite lookup_delete_ne.
Qed.

Lemma files_drop m own fd p i :
  files_ok m own -> own !! fd = Some (mkFile (Some p) None i) -> files_ok (table_remove_drop m p) (delete fd own).
Proof.
  intros Hok Hfd. pose proof (files_unlist m own Hok fd p None i Hfd) as Hu.
  pose proof (files_close _ _ Hu fd i ltac:(by rewrite lookup_insert_eq)) as Hc. rewrite delete_insert_eq in Hc.
  unfold table_remove_drop. assert (shm_fd m !! p = Some fd) as -> by (apply (fo_table _ _ Hok); eauto). done.
Qed.

(** ** What each thread holds *)

Definition block_file (q : Z) (l : Layout) (f : file) : Prop :=
  listed f = Some q /\ placed f = Some (q, size l) /\ 0 < size l /\ 0 < q.

(** Whether a thread at [p] holds a file, and in which state. *)
Definition busy (p : spc) : bool := match p with SIdle | AMemfd _ | DDone => false | _ => true end.
Definition holds (p : spc) (fd : Z) (f : file) : Prop :=
  match p with
  | ATrunc l fd' | AMap l fd' => fd = fd' /\ listed f = None /\ placed f = None /\ 0 < size l
  | AClose fd' => fd = fd' /\ listed f = None /\ placed f = None
  | AWant l fd' q | AInsert l fd' q => fd = fd' /\ listed f = None /\ placed f = Some (q, size l) /\ 0 < size l /\ 0 < q
  | ADone l q | DUnmap q l | GDone l q => block_file q l f
  | DWant q | DRemove q => listed f = Some q /\ placed f = None
  | GRead q old new | GGet q old new | GTrunc q old new | GRemap q old new => block_file q old f /\ 0 < size new
  | GGot q old new r => block_file q old f /\ 0 < size new /\ r = Some fd
  | GWant q new a | GRemove q new a => listed f = Some q /\ placed f = Some (a, size new) /\ 0 < size new /\ 0 < a
  | GInsert new a fd' => fd = fd' /\ listed f = None /\ placed f = Some (a, size new) /\ 0 < size new /\ 0 < a
  | SRemap q old new => block_file q old f /\ 0 < size new
  | SIdle | AMemfd _ | DDone => False
  end.

Definition sthread_ok (own : files) (i : nat) (p : spc) : Prop :=
  (match p with AMemfd l => 0 < size l | _ => True end) /\
  if busy p then
    exists fd f, own !! fd = Some f /\ holder f = Some i /\ holds p fd f /\
      forall fd' f', own !! fd' = Some f' -> holder f' = Some i -> fd' = fd
  else forall fd f, own !! fd = Some f -> holder f <> Some i.

Definition pool_ok (own : files) (pl : gmap Z Layout) : Prop :=
  (forall q l, pl !! q = Some l -> exists fd f, own !! fd = Some f /\ holder f = None /\ block_file q l f) /\
  (forall fd f, own !! fd = Some f -> holder f = None -> exists q l, pl !! q = Some l /\ block_file q l f).

(** Only files of thread [i] and of the pool change. *)
Definition local_to (i : nat) (own own' : files) : Prop :=
  forall j fd f, j <> i -> holder f = Some j -> own' !! fd = Some f <-> own !! fd = Some f.

Lemma local_refl i own : local_to i own own.
Proof. done. Qed.

Lemma local_insert i own fd f' :
  (forall f j, own !! fd = Some f -> holder f = Some j -> j = i) -> (forall j, holder f' = Some j -> j = i) ->
  local_to i own (<[fd := f']> own).
Proof.
  intros H1 H2 j x f Hj Hf. destruct (decide (x = fd)) as [->|]; [|by rewrite lookup_insert_ne].
  rewrite lookup_insert_eq. split.
  - intros [= <-]. by destruct Hj; apply H2.
  - intros Hx. by destruct Hj; eapply H1.
Qed.

Lemma sthread_ok_local own own' i j p : local_to i own own' -> j <> i -> sthread_ok own j p -> sthread_ok own' j p.
Proof.
  intros Hl Hj [Hp Hb]. split; [done|]. destruct (busy p).
  - destruct Hb as (fd & f & Hf & Hh & Hx & Hu). exists fd, f. split; [by apply (Hl j)|]. do 2 (split; [done|]).
    intros fd' f' Hf' Hh'. apply (Hu fd' f'); [by apply (Hl j)|done].
  - intros fd f Hf Hh. apply (Hb fd f); [by apply (Hl j)|done].
Qed.

(** Only files of thread [i] change. *)
Definition private (i : nat) (own own' : files) : Prop :=
  forall fd f, holder f <> Some i -> own' !! fd = Some f <-> own !! fd = Some f.

Lemma private_local i own own' : private i own own' -> local_to i own own'.
Proof. intros Hp j fd f Hj Hf. apply Hp. congruence. Qed.

Lemma private_pool i own own' pl : private i own own' -> pool_ok own pl -> pool_ok own' pl.
Proof.
  intros Hp [H1 H2]. split.
  - intros q l Hq. destruct (H1 q l Hq) as (fd & f & Hf & Hh & Hb). exists fd, f. split; [|done]. apply Hp; [congruence|done].
  - intros fd f Hf Hh. apply (H2 fd); [|done]. apply Hp in Hf; [done|congruence].
Qed.

Lemma private_insert i own fd f' :
  (forall f, own !! fd = Some f -> holder f = Some i) -> holder f' = Some i -> private i own (<[fd := f']> own).
Proof.
  intros H1 H2 x f Hf. destruct (decide (x = fd)) as [->|]; [|by rewrite lookup_insert_ne].
  rewrite lookup_insert_eq. split; [congruence|]. intros Hx. by apply H1 in Hx.
Qed.

Lemma private_delete i own fd f : own !! fd = Some f -> holder f = Some i -> private i own (delete fd own).
Proof.
  intros Hfd Hh x f' Hf'. destruct (decide (x = fd)) as [->|]; [|by rewrite lookup_delete_ne].
  rewrite lookup_delete_eq. split; [done|]. congruence.
Qed.

Section Invariant.
Context {L : Type} `{RwLock L} {n : nat} {ok : L -> Prop} {laws : RwLockLaws L n ok}.

Definition guard_ok (l : L) (i : nat) (p : spc) : Prop :=
  (in_write p = true -> rw_mode l i = Exclusive) /\ (in_read p = true -> rw_mode l i = Shared).

Record sinv (c : sconf L) (own : files) : Prop := {
  si_lock : ok (slock c);
  si_files : files_ok (smem c) own;
  si_pool : pool_ok own (pool c);
  si_thread : forall i p, sthreads c !! i = Some p -> sthread_ok own i p /\ guard_ok (slock c) i p;
  si_holder : forall fd f i, own !! fd = Some f -> holder f = Some i -> is_Some (sthreads c !! i);
  si_up : up c = true }.

(** One thread moves, with the files it holds and those of the pool. *)
Lemma sinv_move c own i p p' l m own' pl :
  sinv c own -> sthreads c !! i = Some p ->
  l = slock c \/ (exists a, l = rw_step (slock c) i a) ->
  local_to i own own' -> files_ok m own' -> pool_ok own' pl -> sthread_ok own' i p' -> guard_ok l i p' ->
  sinv (mkS l m (<[i := p']> (sthreads c)) pl true) own'.
Proof using laws.
  intros [H1 H2 H3 H4 H5 H6] Hi Hl Hloc Hm Hp Ht Hg. assert (Hlt := lookup_lt_Some _ _ _ Hi).
  split; cbn [slock smem sthreads pool up]; try done.
  - destruct Hl as [->|[a ->]]; [done|]. by apply (rw_step_ok (ok := ok)).
  - intros j q Hj. apply list_lookup_insert_Some in Hj as [(<- & <- & _)|[Hne Hj]]; [done|].
    destruct (H4 _ _ Hj) as [Hq Gq]. split; [by eapply sthread_ok_local|]. unfold guard_ok.
    assert (rw_mode l j = rw_mode (slock c) j) as ->; [|done].
    destruct Hl as [->|[a ->]]; [done|]. by apply (rw_step_frame (ok := ok)).
  - intros fd f j Hf Hh. destruct (decide (j = i)) as [->|Hne]; [by rewrite list_lookup_insert_eq|].
    rewrite list_lookup_insert_ne by done. apply (H5 fd f j); [by apply (Hloc j)|done].
Qed.

(** Steps that keep the file, change it, let go of it, or hold none before and after. *)
Lemma sinv_file c own i p p' l m fd f f' :
  sinv c own -> sthreads c !! i = Some p -> l = slock c \/ (exists a, l = rw_step (slock c) i a) ->
  own !! fd = Some f -> holder f = Some i -> (forall x g, own !! x = Some g -> holder g = Some i -> x = fd) ->
  files_ok m (<[fd := f']> own) -> holder f' = Some i -> busy p' = true -> holds p' fd f' -> guard_ok l i p' ->
  exists own', sinv (mkS l m (<[i := p']> (sthreads c)) (pool c) true) own'.
Proof using laws.
  intros Hc Hi Hl Hfd Hh Hu Hm Hh' Hb Hx Hg. exists (<[fd := f']> own).
  assert (Hp : private i own (<[fd := f']> own)) by (apply private_insert; [intros g; congruence|done]).
  apply (sinv_move c own i p); [done|done|done|by apply private_local|done|by eapply private_pool, si_pool| |done].
  split; [by destruct p'|]. rewrite Hb. exists fd, f'. rewrite lookup_insert_eq. do 3 (split; [done|]).
  intros x g [[<- _]|[_ Hg']]%lookup_insert_Some Hhg; [done|by eapply Hu].
Qed.

Lemma sinv_keep c own i p p' l :
  sinv c own -> sthreads c !! i = Some p -> l = slock c \/ (exists a, l = rw_step (slock c) i a) ->
  busy p = true -> busy p' = true ->
  (forall fd f, own !! fd = Some f -> holds p fd f -> holds p' fd f) -> guard_ok l i p' ->
  exists own', sinv (mkS l (smem c) (<[i := p']> (sthreads c)) (pool c) true) own'.
Proof using laws.
  intros Hc Hi Hl Hb Hb' Hx Hg. destruct (proj1 (si_thread _ _ Hc _ _ Hi)) as [_ Ht]. rewrite Hb in Ht.
  destruct Ht as (fd & f & Hf & Hh & Hxf & Hu).
  eapply (sinv_file c own i p p' l (smem c) fd f f); eauto. rewrite insert_id by done. apply Hc.
Qed.

Lemma sinv_release c own i p p' l m fd f :
  sinv c own -> sthreads c !! i = Some p -> l = slock c \/ (exists a, l = rw_step (slock c) i a) ->
  own !! fd = Some f -> holder f = Some i -> (forall x g, own !! x = Some g -> holder g = Some i -> x = fd) ->
  files_ok m (delete fd own) -> p' = SIdle \/ p' = DDone -> guard_ok l i p' ->
  exists own', sinv (mkS l m (<[i := p']> (sthreads c)) (pool c) true) own'.
Proof using laws.
  intros Hc Hi Hl Hfd Hh Hu Hm Hp' Hg. exists (delete fd own).
  assert (Hp : private i own (delete fd own)) by (by eapply private_delete).
  apply (sinv_move c own i p); [done|done|done|by apply private_local|done|by eapply private_pool, si_pool| |done].
  split; [by destruct Hp' as [-> | ->]|]. assert (busy p' = false) as -> by (by destruct Hp' as [-> | ->]).
  intros x g [Hne Hx]%lookup_delete_Some Hhg. by destruct Hne; eapply eq_sym, Hu.
Qed.

Lemma sinv_none c own i p p' l :
  sinv c own -> sthreads c !! i = Some p -> l = slock c \/ (exists a, l = rw_step (slock c) i a) ->
  busy p = false -> busy p' = false -> (match p' with AMemfd y => 0 < size y | _ => True end) -> guard_ok l i p' ->
  exists own', sinv (mkS l (smem c) (<[i := p']> (sthreads c)) (pool c) true) own'.
Proof using laws.
  intros Hc Hi Hl Hb Hb' Hs Hg. exists own. destruct (proj1 (si_thread _ _ Hc _ _ Hi)) as [_ Ht]. rewrite Hb in Ht.
  apply (sinv_move c own i p); [done|done|done|by apply local_refl|apply Hc|apply Hc| |done].
  split; [done|]. by rewrite Hb'.
Qed.

(** A block goes to the pool, and comes from it. *)
Lemma sinv_give c own i p l m q y fd f x z :
  sinv c own -> sthreads c !! i = Some p -> l = slock c \/ (exists a, l = rw_step (slock c) i a) ->
  own !! fd = Some f -> holder f = Some i -> (forall x g, own !! x = Some g -> holder g = Some i -> x = fd) ->
  files_ok m (<[fd := mkFile x z None]> own) -> block_file q y (mkFile x z None) -> listed f = Some q ->
  exists own', sinv (mkS l m (<[i := SIdle]> (sthreads c)) (<[q := y]> (pool c)) true) own'.
Proof using laws.
  intros Hc Hi Hl Hfd Hh Hu Hm Hbk Hlq. exists (<[fd := mkFile x z None]> own). destruct (si_pool _ _ Hc) as [P1 P2].
  assert (Hone : forall q' y' fd' f', pool c !! q' = Some y' -> own !! fd' = Some f' -> holder f' = None -> block_file q' y' f' ->
    fd' <> fd /\ q' <> q).
  { intros q' y' fd' f' Hq' Hf' Hh' (Hl' & _). assert (Hdiff : fd' <> fd) by (intros ->; congruence). split; [done|]. intros ->.
    by eapply Hdiff, (files_table_one _ _ (si_files _ _ Hc) q fd' f' fd f). }
  apply (sinv_move c own i p); try done.
  - apply local_insert; [|done]. intros g j. congruence.
  - split.
    + intros q' y' [[<- <-]|[Hne Hq']]%lookup_insert_Some; [exists fd; eexists; by rewrite lookup_insert_eq|].
      destruct (P1 _ _ Hq') as (fd' & f' & Hf' & Hh' & Hb'). destruct (Hone _ _ _ _ Hq' Hf' Hh' Hb').
      exists fd', f'. by rewrite lookup_insert_ne by done.
    + intros fd' f' [[<- <-]|[Hne Hf']]%lookup_insert_Some Hh'; [exists q, y; by rewrite lookup_insert_eq|].
      destruct (P2 _ _ Hf' Hh') as (q' & y' & Hq' & Hb'). destruct (Hone _ _ _ _ Hq' Hf' Hh' Hb').
      exists q', y'. by rewrite lookup_insert_ne by done.
  - split; [done|]. intros fd' f' [[<- <-]|[Hne Hf']]%lookup_insert_Some; [done|]. intros Hh'. by destruct Hne; eapply eq_sym, Hu.
Qed.

Lemma sinv_take c own i p' l q y :
  sinv c own -> sthreads c !! i = Some SIdle -> l = slock c \/ (exists a, l = rw_step (slock c) i a) ->
  pool c !! q = Some y -> busy p' = true -> (forall fd f, block_file q y f -> holds p' fd f) -> guard_ok l i p' ->
  exists own', sinv (mkS l (smem c) (<[i := p']> (sthreads c)) (delete q (pool c)) true) own'.
Proof using laws.
  intros Hc Hi Hl Hq Hb Hx Hg. destruct (si_pool _ _ Hc) as [P1 P2]. destruct (P1 _ _ Hq) as (fd & [x z h] & Hf & Hh & Hbk).
  cbn in Hh. subst h. exists (<[fd := mkFile x z (Some i)]> own). destruct (proj1 (si_thread _ _ Hc _ _ Hi)) as [_ Hno]. cbn in Hno.
  assert (Hone : forall q' y' fd' f', own !! fd' = Some f' -> block_file q' y' f' -> fd' = fd <-> q' = q).
  { intros q' y' fd' f' Hf' (Hl' & _). split; [|intros ->; by apply (files_table_one _ _ (si_files _ _ Hc) q fd' f' fd _ Hf' Hl' Hf), Hbk].
    intros ->. rewrite Hf in Hf'. injection Hf' as <-. destruct Hbk as [E _]. congruence. }
  apply (sinv_move c own i SIdle); try done.
  - apply local_insert; [|by intros j [= <-]]. intros g j. rewrite Hf. by intros [= <-].
  - by apply (files_holder _ _ (si_files _ _ Hc) fd x z None).
  - split.
    + intros q' y' [Hne Hq']%lookup_delete_Some. destruct (P1 _ _ Hq') as (fd' & f' & Hf' & Hh' & Hb').
      exists fd', f'. rewrite lookup_insert_ne; [done|]. intros <-. by apply Hne, eq_sym, (Hone q' y' fd f').
    + intros fd' f' [[_ <-]|[Hne Hf']]%lookup_insert_Some Hh'; [done|]. destruct (P2 _ _ Hf' Hh') as (q' & y' & Hq' & Hb').
      exists q', y'. rewrite lookup_delete_ne; [done|]. intros <-. by apply Hne, eq_sym, (Hone q y' fd' f').
  - split; [by destruct p'|]. rewrite Hb. exists fd, (mkFile x z (Some i)). rewrite lookup_insert_eq. do 2 (split; [done|]).
    split; [by apply Hx|]. intros fd' f' [[<- _]|[_ Hf']]%lookup_insert_Some Hh'; [done|]. by destruct (Hno _ _ Hf').
Qed.

(** What thread [i] holds at its program point. *)
Ltac held Hc Hi fd Hf Hu Hx :=
  let x := fresh "x" in let z := fresh "z" in let h := fresh "h" in let Hh := fresh "Hh" in
  destruct (proj1 (si_thread _ _ Hc _ _ Hi)) as [_ (fd & [x z h] & Hf & Hh & Hx & Hu)];
  cbn [holder holds listed placed block_file] in Hh, Hx; unfold block_file in Hx; cbn [listed placed] in Hx; subst h.

Lemma sinv_alloc_step c own i p ch :
  sinv c own -> sthreads c !! i = Some p -> choice_ok (smem c) (moving p) ch -> no_reuse (smem c) (moving p) ch ->
  exists own', sinv (alloc_step c i p ch) own'.
Proof using laws.
  intros Hc Hi (Cfd & Cmap & _) [Nmap _]. pose proof (si_files _ _ Hc) as Hm. pose proof (proj2 (si_thread _ _ Hc _ _ Hi)) as [Gw _].
  destruct c as [lk m ts pl u]. assert (u = true) as -> by apply (si_up _ _ Hc). cbn in Hi, Cfd, Cmap, Nmap, Hm, Gw.
  destruct p; try (by exists own); cbn [alloc_step smem].
  - unfold k_memfd_create. destruct (proj1 (si_thread _ _ Hc _ _ Hi)) as [Hs Hno]. cbn in Hno.
    destruct (c_memfd ch) as [fd|]; [|destruct m as [k tb]; by apply (sinv_none (mkS lk (mkShmem k tb) ts pl true) own i (AMemfd l)); [done|done|left|..]].
    destruct (Cfd fd eq_refl) as [Hpos Hfresh]. rewrite (proj2 (Z.ltb_ge fd 0)) by done.
    assert (Hn : own !! fd = None) by (apply eq_None_not_Some; by rewrite <- (fo_open _ _ Hm)).
    exists (<[fd := mkFile None None (Some i)]> own).
    assert (Hp : private i own (<[fd := mkFile None None (Some i)]> own)) by (apply private_insert; [intros g; congruence|done]).
    apply (sinv_move (mkS lk m ts pl true) own i (AMemfd l)); [done|done|by left|by apply private_local|by apply files_create
      |exact (private_pool _ _ _ _ Hp (si_pool _ _ Hc))| |done].
    split; [done|]. cbn [busy]. exists fd, (mkFile None None (Some i)). rewrite lookup_insert_eq. do 2 (split; [done|]). split; [done|].
    intros fd' f' [[<- _]|[_ Hf']]%lookup_insert_Some Hh'; [done|]. by destruct (Hno _ _ Hf').
  - apply (sinv_keep (mkS lk m ts pl true) own i (ATrunc l fd)); [done|done|by left|done|by destruct (c_ftruncate ch)| |by destruct (c_ftruncate ch)].
    intros x f _ (-> & E1 & E2 & ?). by destruct (c_ftruncate ch).
  - unfold k_map. destruct (c_mmap ch) as [a|].
    + destruct (Cmap a eq_refl) as [Ha Hfree]. rewrite (proj2 (Z.eqb_neq a 0)) by lia. held Hc Hi fd' Hf Hu Hx.
      destruct Hx as (-> & -> & -> & Hs).
      eapply (sinv_file (mkS lk m ts pl true) own i (AMap l fd)); [done|done|by right; eexists|exact Hf|done|done
        |apply (files_map m own Hm fd None a (size l) (Some i)); [done|done|left; by apply Nmap]|done|done|split_and!; done || lia|done].
    + destruct m as [k tb]. apply (sinv_keep (mkS lk (mkShmem k tb) ts pl true) own i (AMap l fd)); [done|done|by left|done|done| |done].
      intros x f _ (-> & E1 & E2 & ?). done.
  - held Hc Hi fd' Hf Hu Hx. destruct Hx as (-> & -> & ->).
    eapply (sinv_release (mkS lk m ts pl true) own i (AClose fd)); [done|done|by left|exact Hf|done|done| |by left|done]. by eapply files_close.
  - cbn [slock]. destruct (rw_mode lk i) eqn:Em; [by exists own|by exists own|].
    by apply (sinv_keep (mkS lk m ts pl true) own i (AWant l fd p)); [done|done|by left|..].
  - held Hc Hi fd' Hf Hu Hx. destruct Hx as (-> & -> & -> & Hs & Hp).
    eapply (sinv_file (mkS lk m ts pl true) own i (AInsert l fd p));
      [done|done|by left|exact Hf|done|done|by apply files_list|done|done|done|by split].
  - held Hc Hi fd' Hf Hu Hx. destruct Hx as (-> & -> & Hs & Hp).
    eapply (sinv_give (mkS lk m ts pl true) own i (ADone l p)); [done|done|by right; eexists|exact Hf|done|done| |done|done].
    by eapply files_holder.
Qed.

Lemma sinv_free_step c own i p :
  sinv c own -> sthreads c !! i = Some p -> exists own', sinv (free_step c i p) own'.
Proof using laws.
  intros Hc Hi. pose proof (si_files _ _ Hc) as Hm. pose proof (proj2 (si_thread _ _ Hc _ _ Hi)) as [Gw _].
  destruct c as [lk m ts pl u]. assert (u = true) as -> by apply (si_up _ _ Hc). cbn in Hi, Hm, Gw.
  destruct p; try (by exists own); cbn [free_step smem slock].
  - held Hc Hi fd Hf Hu Hx. destruct Hx as (-> & -> & Hs & Hp).
    eapply (sinv_file (mkS lk m ts pl true) own i (DUnmap p l));
      [done|done|by right; eexists|exact Hf|done|done|by eapply files_unmap|done|done|done|done].
  - destruct (rw_mode lk i) eqn:Em; [by exists own|by exists own|].
    by apply (sinv_keep (mkS lk m ts pl true) own i (DWant p)); [done|done|by left|..].
  - held Hc Hi fd Hf Hu Hx. destruct Hx as (-> & ->).
    eapply (sinv_release (mkS lk m ts pl true) own i (DRemove p));
      [done|done|by left|exact Hf|done|done|by eapply files_drop|by right|by split].
  - by apply (sinv_none (mkS lk m ts pl true) own i DDone); [done|done|by right; eexists|..].
Qed.

Lemma sinv_grow_step c own i p ch :
  sinv c own -> sthreads c !! i = Some p -> choice_ok (smem c) (moving p) ch -> no_reuse (smem c) (moving p) ch ->
  exists own', sinv (grow_step c i p ch) own'.
Proof using laws.
  intros Hc Hi (_ & _ & Cre) [_ Nre]. pose proof (si_files _ _ Hc) as Hm. pose proof (proj2 (si_thread _ _ Hc _ _ Hi)) as [Gw Gr].
  destruct c as [lk m ts pl u]. assert (u = true) as -> by apply (si_up _ _ Hc). cbn in Hi, Cre, Nre, Hm, Gw, Gr.
  destruct p; try (by exists own); cbn [grow_step smem slock].
  - destruct (rw_mode lk i) eqn:Em; [by exists own| |by exists own].
    by apply (sinv_keep (mkS lk m ts pl true) own i (GRead p old new)); [done|done|by left|..].
  - apply (sinv_keep (mkS lk m ts pl true) own i (GGet p old new)); [done|done|by left|done|done| |by split].
    intros fd f Hf (Hb & Hs). split; [done|]. split; [done|]. apply (fo_table _ _ Hm). exists f. split; [done|apply Hb].
  - held Hc Hi fd Hf Hu Hx. destruct Hx as (_ & _ & ->).
    apply (sinv_keep (mkS lk m ts pl true) own i (GGot p old new (Some fd))); [done|done|by right; eexists|done|done| |done].
    by intros y f _ (? & ? & _).
  - held Hc Hi fd Hf Hu Hx. destruct Hx as ((-> & -> & Hs & Hp) & Hn). destruct (c_ftruncate ch).
    + by apply (sinv_keep (mkS lk m ts pl true) own i (GTrunc p old new)); [done|done|by left|..].
    + eapply (sinv_give (mkS lk m ts pl true) own i (GTrunc p old new)); [done|done|by left|exact Hf|done|done|by eapply files_holder|done|done].
  - held Hc Hi fd Hf Hu Hx. destruct Hx as ((-> & -> & Hs & Hp) & Hn).
    assert (Hmp : mapped (kern m) !! p = Some (size old, fd)) by (apply (fo_map _ _ Hm); eauto).
    unfold k_remap. destruct (c_mremap ch) as [a|].
    + destruct (Cre a eq_refl) as [Ha Hfree]. rewrite Hmp.
      assert (as_isize a = a) as -> by (unfold as_isize, swrap; rewrite wrap_small by lia; by rewrite (proj2 (Z.ltb_lt a _)) by lia).
      rewrite (proj2 (Z.ltb_ge a 0)) by lia.
      eapply (sinv_file (mkS lk m ts pl true) own i (GRemap p old new)); [done|done|by right; eexists|exact Hf|done|done
        |eapply (files_remap m own fd (Some p) p (size old) a (size new) (Some i)); [done|done|done|]|done|done|split_and!; done || lia|done].
      destruct (Nre a eq_refl) as [->|?]; [by right|by left].
    + destruct m as [k tb]. eapply (sinv_give (mkS lk (mkShmem k tb) ts pl true) own i (GRemap p old new));
        [done|done|by left|exact Hf|done|done|by eapply files_holder|done|done].
  - destruct (rw_mode lk i) eqn:Em; [by exists own|by exists own|].
    by apply (sinv_keep (mkS lk m ts pl true) own i (GWant p new a)); [done|done|by left|..].
  - held Hc Hi fd Hf Hu Hx. destruct Hx as (-> & -> & Hs & Ha).
    assert (shm_fd m !! p = Some fd) as -> by (apply (fo_table _ _ Hm); eauto). rewrite (proj2 (Z.eqb_neq a 0)) by lia.
    eapply (sinv_file (mkS lk m ts pl true) own i (GRemove p new a));
      [done|done|by left|exact Hf|done|done|by apply files_unlist|done|done|done|by split].
  - held Hc Hi fd' Hf Hu Hx. destruct Hx as (-> & -> & -> & Hs & Ha).
    eapply (sinv_file (mkS lk m ts pl true) own i (GInsert new a fd));
      [done|done|by left|exact Hf|done|done|by apply files_list|done|done|done|by split].
  - held Hc Hi fd Hf Hu Hx. destruct Hx as (-> & -> & Hs & Ha).
    eapply (sinv_give (mkS lk m ts pl true) own i (GDone new a)); [done|done|by right; eexists|exact Hf|done|done|by eapply files_holder|done|done].
Qed.

Lemma sinv_shrink_step c own i p ch :
  sinv c own -> sthreads c !! i = Some p -> exists own', sinv (shrink_step c i p ch) own'.
Proof using laws.
  intros Hc Hi. pose proof (si_files _ _ Hc) as Hm.
  destruct c as [lk m ts pl u]. assert (u = true) as -> by apply (si_up _ _ Hc). cbn in Hi, Hm.
  destruct p; try (by exists own); cbn [shrink_step smem slock].
  held Hc Hi fd Hf Hu Hx. destruct Hx as ((-> & -> & Hs & Hp) & Hn).
  assert (Hmp : mapped (kern m) !! p = Some (size old, fd)) by (apply (fo_map _ _ Hm); eauto).
  unfold k_remap. destruct (c_mremap ch) as [a|].
  - rewrite Hmp, (proj2 (Z.eqb_neq p 0)) by lia.
    pose proof (files_remap m own fd (Some p) p (size old) p (size new) (Some i) Hm Hf ltac:(by left) ltac:(by right)) as Hr.
    pose proof (files_holder _ _ Hr fd (Some p) (Some (p, size new)) (Some i) None ltac:(by rewrite lookup_insert_eq)) as Hr'.
    rewrite insert_insert_eq in Hr'.
    eapply (sinv_give (mkS lk m ts pl true) own i (SRemap p old new)); [done|done|by left|exact Hf|done|done|exact Hr'|done|done].
  - destruct m as [k tb]. eapply (sinv_give (mkS lk (mkShmem k tb) ts pl true) own i (SRemap p old new));
      [done|done|by left|exact Hf|done|done|by eapply files_holder|done|done].
Qed.

Lemma sinv_lock_step c own i p a :
  sinv c own -> sthreads c !! i = Some p -> exists own', sinv (if wanting p then lock_step c i a else c) own'.
Proof using laws.
  intros Hc Hi. exists own. destruct (wanting p) eqn:Hw; [|done]. destruct (si_thread _ _ Hc _ _ Hi) as [Ht _].
  pose proof (sinv_move c own i p p (rw_step (slock c) i a) (smem c) own (pool c) Hc Hi ltac:(by right; eexists) (local_refl i own)
    (si_files _ _ Hc) (si_pool _ _ Hc) Ht ltac:(by destruct p)) as Hs.
  rewrite list_insert_id in Hs by done. destruct c as [lk m ts pl u]. by rewrite (si_up _ _ Hc : u = true).
Qed.

Lemma sinv_enter c own i l :
  sinv c own -> sthreads c !! i = Some SIdle -> 0 <= size l -> exists own', sinv (goto c i (enter_allocate l)) own'.
Proof using laws.
  intros Hc Hi Hl. destruct c as [lk m ts pl u]. assert (u = true) as -> by apply (si_up _ _ Hc). unfold enter_allocate, goto. cbn.
  destruct (Z.eqb_spec (size l) 0); [by apply (sinv_none _ own i SIdle _ _ Hc Hi); [left|..]|].
  destruct (4096 <? align l); apply (sinv_none _ own i SIdle _ _ Hc Hi); try done; try (by left); lia.
Qed.

Lemma sinv_step c own ia : sinv c own -> legal true c ia -> exists own', sinv (ssched c ia) own'.
Proof using laws.
  intros Hc Hleg. destruct ia as [i a]. unfold ssched. rewrite (si_up _ _ Hc). cbn [fst snd].
  destruct (sthreads c !! i) as [p|] eqn:Hi; [|by exists own]. unfold legal in Hleg. cbn [fst snd] in Hleg. rewrite Hi in Hleg.
  assert (Hpos : forall q l, pool c !! q = Some l -> 0 < size l).
  { intros q l Hq. by destruct (proj1 (si_pool _ _ Hc) _ _ Hq) as (? & ? & _ & _ & _ & _ & ? & _). }
  assert (Htake : forall q l a l', pool c !! q = Some l -> l' = slock c \/ l' = rw_step (slock c) i a ->
    forall p', p = SIdle -> busy p' = true -> in_write p' = false -> in_read p' = false ->
    (forall fd f, block_file q l f -> holds p' fd f) ->
    exists own', sinv (mkS l' (smem c) (<[i := p']> (sthreads c)) (delete q (pool c)) (up c)) own').
  { intros q l a' l' Hq Hl' p' -> Hb Hw Hr Hx. rewrite (si_up _ _ Hc).
    eapply (sinv_take c own i p' l' q l); eauto; [by destruct Hl' as [->| ->]; [left|right; eexists]|]. unfold guard_ok. by rewrite Hw, Hr. }
  destruct a as [l|q l|q old new|q old new|a|ch]; cbn [from_option] in Hleg.
  - destruct p; try (by exists own). by apply (sinv_enter c own).
  - destruct p; try (by exists own). cbn [sthread_step]. destruct (Z.eqb_spec (size l) 0); [by exists own|].
    destruct Hleg as [?|Hq]; [done|]. by eapply (Htake q l DoLock); [done|left|..].
  - destruct p; try (by exists own). cbn [sthread_step]. destruct Hleg as [Hq [H0 H1]]. destruct (4096 <? align new); [by exists own|].
    destruct (Z.eqb_spec (size old) 0); [by apply (sinv_enter c own); [..|lia]|]. destruct Hq as [?|Hq]; [done|]. pose proof (Hpos _ _ Hq).
    eapply (Htake q old DoLockShared); [done|by right|done|done|done|done|]. intros fd f Hb. split; [done|lia].
  - destruct p; try (by exists own). cbn [sthread_step]. destruct Hleg as [Hq [H0 H1]]. destruct (Z.eqb_spec (size new) 0).
    + destruct (Z.eqb_spec (size old) 0); [by exists own|]. destruct Hq as [?|Hq]; [done|].
      by eapply (Htake q old DoLock); [done|left|..].
    + destruct Hq as [?|Hq]; [lia|]. eapply (Htake q old DoLock); [done|by left|done|done|done|done|]. intros fd f Hb. split; [done|lia].
  - destruct a; try (by exists own; destruct p); by eapply (sinv_lock_step c own); destruct p.
  - destruct Hleg as [Hch Hno]. destruct p; cbn [sthread_step];
      by (apply (sinv_alloc_step c own) || apply (sinv_free_step c own) || apply (sinv_grow_step c own) || apply (sinv_shrink_step c own)).
Qed.

Lemma sinv_initial : sinv (sinitial n) ∅.
Proof using laws.
  split; cbn; [apply (rw_init_ok (ok := ok))| | | | |done].
  - split; cbn.
    + intros fd. rewrite lookup_empty. split; [set_solver|by intros [? ?]].
    + intros p fd. split; [by rewrite lookup_empty|]. intros (f & Hf & _). by rewrite lookup_empty in Hf.
    + intros a len fd. split; [by rewrite lookup_empty|]. intros (f & Hf & _). by rewrite lookup_empty in Hf.
    + intros *. by rewrite lookup_empty.
  - split; intros *; by rewrite lookup_empty.
  - intros i p Hp. apply lookup_replicate in Hp as [-> _]. split; [|done]. split; [done|]. intros fd f. by rewrite lookup_empty.
  - intros fd f i. by rewrite lookup_empty.
Qed.

Lemma sreach_inv c : sreach true n c -> exists own, sinv c own.
Proof using laws.
  induction 1 as [|c ia Hr [own IH] Hl]; [exists ∅; apply sinv_initial|by eapply sinv_step].
Qed.
End Invariant.

(** ** Blocks and descriptors in every interleaving *)

Section Strict.
Context {n : nat} (Hn : Z.of_nat n < 2 ^ 31) (c : sconf fconf) (Hr : sreach true n c).

Lemma table_accesses_excluded i j p q :
  sthreads c !! i = Some p -> sthreads c !! j = Some q -> i <> j -> in_write p = true -> in_write q = false /\ in_read q = false.
Proof using Hn Hr.
  pose proof (futex_laws n Hn) as laws. destruct (sreach_inv c Hr) as [own Hc]. intros Hi Hj Hne Hw.
  destruct (si_thread _ _ Hc _ _ Hi) as [_ [Gw _]]. destruct (si_thread _ _ Hc _ _ Hj) as [_ [Gw' Gr']].
  pose proof (rw_exclusive (ok := futex_ok n) (slock c) i j (si_lock _ _ Hc) (Gw Hw) Hne) as Hf. split.
  - destruct (in_write q); [|done]. rewrite Gw' in Hf; done.
  - destruct (in_read q); [|done]. rewrite Gr' in Hf; done.
Qed.

Lemma pool_block_intact p l :
  pool c !! p = Some l ->
  exists fd, fd_for_alloc (smem c) p = Some fd /\ mapped (kern (smem c)) !! p = Some (size l, fd) /\ fd ∈ open_fds (kern (smem c)).
Proof using Hn Hr.
  pose proof (futex_laws n Hn) as laws. destruct (sreach_inv c Hr) as [own Hc]. intros Hp.
  destruct (proj1 (si_pool _ _ Hc) _ _ Hp) as (fd & f & Hf & _ & Hl & Hpl & _). exists fd.
  pose proof (si_files _ _ Hc) as Hm. split_and!; [apply (fo_table _ _ Hm)|apply (fo_map _ _ Hm)|apply (fo_open _ _ Hm)]; eauto.
Qed.

Lemma quiet_all_pool fd :
  (forall i p, sthreads c !! i = Some p -> p = SIdle) -> fd ∈ open_fds (kern (smem c)) ->
  exists p, is_Some (pool c !! p) /\ fd_for_alloc (smem c) p = Some fd /\ forall q, fd_for_alloc (smem c) q = Some fd -> q = p.
Proof using Hn Hr.
  pose proof (futex_laws n Hn) as laws. destruct (sreach_inv c Hr) as [own Hc]. intros Hq Hin. pose proof (si_files _ _ Hc) as Hm.
  apply (fo_open _ _ Hm) in Hin as [f Hf]. destruct (holder f) as [i|] eqn:Hh.
  - exfalso. destruct (si_holder _ _ Hc _ _ _ Hf Hh) as [p Hp]. rewrite (Hq _ _ Hp) in Hp.
    destruct (proj1 (si_thread _ _ Hc _ _ Hp)) as [_ Hno]. by destruct (Hno _ _ Hf).
  - destruct (proj2 (si_pool _ _ Hc) _ _ Hf Hh) as (p & l & Hp & Hl & _). exists p. split; [by eexists|].
    split; [apply (fo_table _ _ Hm); eauto|]. intros q Hq'. apply (fo_table _ _ Hm) in Hq' as (g & Hg & Hlg). congruence.
Qed.
End Strict.

(** C15: in every interleaving of fewer than 2^31 threads that allocate, free, grow and
    shrink blocks, in which Linux does not hand out an address while the table still
    lists it: no thread panics; no two threads are in the table at once unless both only
    read; every block the program holds keeps its entry, its mapping of the requested
    size and its open memory file, whatever other threads are in the middle of; and when
    no operation is under way every open descriptor is that of exactly one block. *)
Theorem shmem_threads_safe n (c : sconf fconf) :
  Z.of_nat n < 2 ^ 31 -> sreach true n c ->
  up c = true /\
  (forall i j p q, sthreads c !! i = Some p -> sthreads c !! j = Some q -> i <> j ->
     in_write p = true -> in_write q = false /\ in_read q = false) /\
  (forall p l, pool c !! p = Some l -> exists fd, fd_for_alloc (smem c) p = Some fd /\
     mapped (kern (smem c)) !! p = Some (size l, fd) /\ fd ∈ open_fds (kern (smem c))) /\
  ((forall i p, sthreads c !! i = Some p -> p = SIdle) -> forall fd, fd ∈ open_fds (kern (smem c)) ->
     exists p, is_Some (pool c !! p) /\ fd_for_alloc (smem c) p = Some fd /\ forall q, fd_for_alloc (smem c) q = Some fd -> q = p).
Proof.
  intros Hn Hr. split; [|split_and!].
  - pose proof (futex_laws n Hn) as laws. destruct (sreach_inv c Hr) as [own Hc]. apply Hc.
  - by apply (table_accesses_excluded Hn).
  - by apply (pool_block_intact Hn).
  - intros Hq fd. by apply (quiet_all_pool Hn).
Qed.

(** ** Executions *)

#[export] Instance Layout_eq_dec : EqDecision Layout.
Proof. solve_decision. Defined.
#[local] Instance option_all_dec {A} (o : option A) (P : A -> Prop) `{forall x, Decision (P x)} :
  Decision (forall x, o = Some x -> P x).
Proof.
  destruct o as [x|]; [|by left]. destruct (decide (P x)) as [Hx|Hx]; [left; congruence|right; eauto].
Defined.
#[local] Instance choice_ok_dec m p ch : Decision (choice_ok m p ch).
Proof. unfold choice_ok. apply _. Defined.
#[local] Instance no_reuse_dec m p ch : Decision (no_reuse m p ch).
Proof. unfold no_reuse. apply _. Defined.
#[local] Instance legal_dec strict (c : sconf fconf) ia : Decision (legal strict c ia).
Proof. destruct ia as [i []]; unfold legal; cbn [snd]; try apply _. destruct strict; apply _. Defined.

Fixpoint legal_run (strict : bool) (c : sconf fconf) (sched : list (nat * sact)) : bool :=
  match sched with
  | [] => true
  | ia :: s => bool_decide (legal strict c ia) && legal_run strict (ssched c ia) s
  end.

Lemma sreach_run strict n c sched : sreach strict n c -> legal_run strict c sched = true -> sreach strict n (srun c sched).
Proof.
  revert c. induction sched as [|ia s IH]; intros c Hr Hl; [done|]. apply andb_prop in Hl as [H1 H2].
  apply IH; [|done]. constructor; [done|]. by apply bool_decide_eq_true in H1.
Qed.

Lemma not_open (fd : Z) (s : gset Z) : bool_decide (fd ∈ s) = false -> fd ∉ s.
Proof. apply bool_decide_eq_false_1. Qed.

Definition quiet_kernel : choices := mkChoices None true None None.
(** Allocation with the given descriptor and address; the steps from the lock on. *)
Definition alloc_calls (i : nat) (l : Layout) (fd a : Z) : list (nat * sact) :=
  [(i, CallAlloc l); (i, Next (mkChoices (Some fd) true None None)); (i, Next quiet_kernel); (i, Next (mkChoices None true (Some a) None))].
Definition table_calls (i k : nat) : list (nat * sact) := (i, LockStep (Go true)) :: replicate k (i, Next quiet_kernel).
Definition block_a : Layout := mkLayout 100 8.
Definition block_b : Layout := mkLayout 5000 8.

(** Thread 0 frees its block at 8192; between its [munmap] and its lock, thread 1
    allocates and Linux hands out the address that has become free. *)
Definition free_race : list (nat * sact) :=
  alloc_calls 0 block_a 5 8192 ++ table_calls 0 3 ++
  [(0%nat, CallFree 8192 block_a); (0%nat, Next quiet_kernel)] ++
  alloc_calls 1 block_b 6 8192 ++ table_calls 1 3 ++ table_calls 0 3.

(** Thread 0 grows its block, which moves from 8192 to 65536; before it locks, thread 1
    allocates at 8192. *)
Definition grow_race : list (nat * sact) :=
  alloc_calls 0 block_a 5 8192 ++ table_calls 0 3 ++
  [(0%nat, CallGrow 8192 block_a block_b)] ++ table_calls 0 4 ++ [(0%nat, Next (mkChoices None true None (Some 65536)))] ++
  alloc_calls 1 block_a 6 8192 ++ table_calls 1 3 ++ table_calls 0 4.

(** The table is only locked after the call to Linux, so an address can come back
    while its entry is still there: executions of two threads with answers Linux may give
    that end quietly with (1) a block that is mapped but has no entry and whose memory
    file the other thread has closed, so that growing it panics, and (2) a block that
    moved while another took its place: its entry names the other block's file, its own
    file is closed, and the other block has no entry. *)
Theorem shmem_address_reuse :
  (exists c : sconf fconf, sreach false 2 c /\ sthreads c = [SIdle; SIdle] /\ up c = true /\
     pool c !! 8192 = Some block_b /\ mapped (kern (smem c)) !! 8192 = Some (5000, 6) /\
     fd_for_alloc (smem c) 8192 = None /\ (6 ∉ open_fds (kern (smem c))) /\
     exists sched, legal_run false c ((1%nat, CallGrow 8192 block_b block_b) :: sched) = true /\
       up (srun c ((1%nat, CallGrow 8192 block_b block_b) :: sched)) = false) /\
  (exists c : sconf fconf, sreach false 2 c /\ sthreads c = [SIdle; SIdle] /\ up c = true /\
     pool c !! 65536 = Some block_b /\ mapped (kern (smem c)) !! 65536 = Some (5000, 5) /\
     pool c !! 8192 = Some block_a /\ mapped (kern (smem c)) !! 8192 = Some (100, 6) /\
     fd_for_alloc (smem c) 65536 = Some 6 /\ fd_for_alloc (smem c) 8192 = None /\ 5 ∉ open_fds (kern (smem c))).
Proof.
  split.
  - exists (srun (sinitial 2) free_race). split; [apply sreach_run; [constructor|vm_compute; reflexivity]|].
    do 5 (split; [vm_compute; reflexivity|]).
    split; [apply not_open; vm_compute; reflexivity|]. exists (table_calls 1 3). split; vm_compute; reflexivity.
  - exists (srun (sinitial 2) grow_race). split; [apply sreach_run; [constructor|vm_compute; reflexivity]|].
    do 8 (split; [vm_compute; reflexivity|]). apply not_open; vm_compute; reflexivity.
Qed.

(** Thread 1 allocates while thread 0 is between its [mremap] and the lock. *)
Definition apart_run : list (nat * sact) :=
  alloc_calls 0 block_a 5 8192 ++ table_calls 0 3 ++
  [(0%nat, CallGrow 8192 block_a block_b)] ++ table_calls 0 4 ++ [(0%nat, Next (mkChoices None true None (Some 65536)))] ++
  alloc_calls 1 block_a 6 131072 ++ table_calls 1 3.

Lemma shmem_threads_safe_witness :
  sthreads (srun (L := fconf) (sinitial 2) apart_run) = [GWant 8192 block_b 65536; SIdle] /\
  exists fd, fd_for_alloc (smem (srun (L := fconf) (sinitial 2) apart_run)) 131072 = Some fd.
Proof.
  split; [vm_compute; reflexivity|].
  assert (Hr : sreach true 2 (srun (L := fconf) (sinitial 2) apart_run)).
  { apply sreach_run; [constructor|vm_compute; reflexivity]. }
  destruct (shmem_threads_safe 2 _ ltac:(done) Hr) as (_ & _ & Hp & _).
  destruct (Hp 131072 block_a ltac:(vm_compute; reflexivity)) as (fd & E & _). by exists fd.
Defined.
