(* ===== verification/CRuntime.v ===== *)
(** * The C library surface (wl-impl/src/libc.rs, libc/libc_defs.rs, ministd.rs)

    Wrappers of system calls, [malloc] and its relatives on top of the global allocator,
    [sigaction], and the writers behind [println!]. *)

From Stdlib Require Import ZArith Lia.
From stdpp Require Import base numbers list option strings.
From S2P Require Import Prelude.

Local Open Scope Z_scope.

(** ** System call wrappers ([def_syscall!], [FromSysVal]) *)

(** [Check::check]: the last 4095 values are error numbers. *)
Definition check (raw : Z) : result unit Z :=
  if 2 ^ 64 - 4096 <? raw then Err (2 ^ 64 - raw) else Ok tt.

Definition from_raw_usize (raw : Z) : outcome Z := Ret raw.
Definition from_raw_c_int (raw : Z) : outcome Z := Ret (as_i32 raw).
Definition from_raw_isize (raw : Z) : outcome Z := Ret (as_isize raw).
Definition from_raw_ptr (raw : Z) : outcome Z := Ret raw.
Definition from_raw_unit (raw : Z) : outcome unit := Ret tt.
(** [unreachable!()]. *)
Definition from_raw_never (raw : Z) : outcome Empty_set := Panic Explicit.

Definition def_syscall {A} (from_raw : Z -> outcome A) (raw : Z) : outcome (result A Z) :=
  match check raw with
  | Err e => Ret (Err e)
  | Ok _ => a ← from_raw raw; Ret (Ok a)
  end.

(** A wrapper reports an error exactly for the values the kernel uses for errors; a small
    [int] result comes back as itself. *)
Theorem def_syscall_spec raw :
  0 <= raw < 2 ^ 64 ->
  (forall e, def_syscall from_raw_c_int raw = Ret (Err e) <-> raw = 2 ^ 64 - e /\ 0 < e < 4096) /\
  (raw < 2 ^ 31 -> def_syscall from_raw_c_int raw = Ret (Ok raw)) /\
  (forall r, def_syscall from_raw_never raw = Ret r -> exists e, r = Err e).
Proof.
  intros Hr. unfold def_syscall, check, from_raw_c_int, from_raw_never.
  destruct (Z.ltb_spec (2 ^ 64 - 4096) raw) as [Hlt|Hge]; cbn [mbind outcome_bind].
  - split_and!; [|lia|by intros r [= <-]; eexists]. intros e. split; [intros [= <-]; lia|]. intros [-> ?]. repeat f_equal. lia.
  - split_and!; [|intros Hs|done].
    + intros e. split; [done|lia].
    + repeat f_equal. unfold as_i32, swrap. rewrite wrap_small by lia. by rewrite (proj2 (Z.ltb_lt _ _)) by lia.
Qed.

(** The wrappers: number of parameters and result type. *)
Inductive ret_ty : Type := RInt | RUsize | RPtr | RUnit | RNever.
Definition libc_wrappers : list (string * (nat * ret_ty)) :=
  [("ftruncate", (2%nat, RInt)); ("close", (1%nat, RUnit)); ("memfd_create", (2%nat, RInt)); ("mmap", (6%nat, RPtr));
   ("munmap", (2%nat, RUnit)); ("mremap", (4%nat, RPtr)); ("mprotect", (3%nat, RUnit)); ("write", (3%nat, RUsize));
   ("read", (3%nat, RUsize)); ("exit", (1%nat, RNever)); ("exit_group", (1%nat, RNever)); ("getpid", (0%nat, RInt));
   ("pidfd_open", (2%nat, RInt)); ("fork", (0%nat, RInt)); ("execve", (3%nat, RNever)); ("uname", (1%nat, RUnit))]%string.

Definition wrapper_value (t : ret_ty) (raw : Z) : outcome (result (option Z) Z) :=
  match t with
  | RInt => r ← def_syscall from_raw_c_int raw; Ret (match r with Ok v => Ok (Some v) | Err e => Err e end)
  | RUsize => r ← def_syscall from_raw_usize raw; Ret (match r with Ok v => Ok (Some v) | Err e => Err e end)
  | RPtr => r ← def_syscall from_raw_ptr raw; Ret (match r with Ok v => Ok (Some v) | Err e => Err e end)
  | RUnit => r ← def_syscall from_raw_unit raw; Ret (match r with Ok _ => Ok None | Err e => Err e end)
  | RNever => r ← def_syscall from_raw_never raw; Ret (match r with Ok _ => Ok None | Err e => Err e end)
  end.
Definition call_wrapper (name : string) (raw : Z) : outcome (result (option Z) Z) :=
  match find (fun w => bool_decide (w.1 = name)) libc_wrappers with
  | Some (_, (_, t)) => wrapper_value t raw
  | None => Panic Explicit
  end.

(** Every wrapper: the last 4095 values are error numbers, for all result types; any
    other value is a value of the result type, and a panic where the call cannot have
    returned ([exit], [exit_group], [execve]). *)
Theorem wrapper_results name ty raw :
  find (fun w => bool_decide (w.1 = name)) libc_wrappers = Some (name, ty) -> 0 <= raw < 2 ^ 64 ->
  match call_wrapper name raw with
  | Ret (Err e) => raw = 2 ^ 64 - e /\ 0 < e < 4096
  | Ret (Ok v) => raw <= 2 ^ 64 - 4096 /\
      match ty.2, v with
      | RInt, Some v => - 2 ^ 31 <= v < 2 ^ 31 /\ wrap 32 v = wrap 32 raw
      | RUsize, Some v | RPtr, Some v => v = raw
      | RUnit, None => True
      | _, _ => False
      end
  | Panic p => p = Explicit /\ ty.2 = RNever /\ raw <= 2 ^ 64 - 4096
  end.
Proof.
  intros Hf Hr. unfold call_wrapper. rewrite Hf. destruct ty as [n ty]. unfold wrapper_value, def_syscall, check.
  destruct (Z.ltb_spec (2 ^ 64 - 4096) raw) as [Hlt|Hge].
  - destruct ty; cbn [mbind outcome_bind]; lia.
  - destruct ty; cbn [mbind outcome_bind from_raw_c_int from_raw_usize from_raw_ptr from_raw_unit from_raw_never snd]; try done.
    split; [done|]. unfold as_i32, swrap. pose proof (wrap_range 32 raw ltac:(lia)) as Hw.
    unfold wrap in *. destruct (Z.ltb_spec (raw mod 2 ^ 32) (2 ^ (32 - 1))).
    + split; [lia|]. by rewrite Z.mod_mod by lia.
    + split; [lia|]. replace (raw mod 2 ^ 32 - 2 ^ 32) with (raw mod 2 ^ 32 + (-1) * 2 ^ 32) by lia.
      rewrite Z_mod_plus_full. by rewrite Z.mod_mod by lia.
Qed.

(** ** [malloc], [aligned_alloc] and [free] *)

(** [Layout::from_size_align]: a power of two, and a size that does not overflow
    [isize] when rounded up to it. *)
Definition is_pow2 (a : Z) : bool := (0 <? a) && (Z.land a (a - 1) =? 0).
Definition layout_from (size align : Z) : option (Z * Z) :=
  if is_pow2 align && (size <=? 2 ^ 63 - align) then Some (size, align) else None.

(** [usize::isolate_lowest_one]. *)
Definition isolate_lowest_one (n : Z) : Z := Z.land n (usize_wrap (- n)).
(** [size_of::<max_align_t>()]: a structure without fields. *)
Definition MAX_ALIGN_SIZE : Z := 0.
(** [size + 2 * size_of::<usize>()], with overflow checks. *)
Definition with_header (size : Z) : outcome Z := if size + 16 <? 2 ^ 64 then Ret (size + 16) else Panic Overflow.

(** Words of memory by address. *)
Abbreviation memory := (Z -> Z).
Definition put (w : memory) (a v : Z) : memory := fun x => if x =? a then v else w x.

Section Malloc.
(** The global allocator, by layout: the address of a new block, or null. *)
Context (alloc : Z -> Z -> option Z).

Definition malloc (w : memory) (size : Z) : outcome (memory * Z) :=
  if size =? 0 then Ret (w, 0) else
  let align := Z.max (isolate_lowest_one size) MAX_ALIGN_SIZE in
  total ← with_header size;
  match layout_from total align with
  | None => Ret (w, 0)
  | Some (sz, al) =>
    match alloc sz al with
    | None => Ret (w, 0)
    | Some ptr => Ret (put (put w ptr size) (ptr + 8) align, ptr + 16)
    end
  end.

Definition aligned_alloc (w : memory) (size align : Z) : outcome (memory * Z) :=
  if size =? 0 then Ret (w, 0) else
  total ← with_header size;
  match layout_from total align with
  | None => Ret (w, 0)
  | Some (sz, al) =>
    match alloc sz al with
    | None => Ret (w, 0)
    | Some ptr =>
      let offset := 16 + (- (ptr + 16)) mod align in
      let new_base := ptr + offset in
      let hdr := ptr - 16 in
      Ret (put (put w hdr size) (hdr + 8) align, new_base)
    end
  end.

(** [free]: the call of [dealloc], if any. *)
Definition free (w : memory) (ptr : Z) : outcome (option (Z * (Z * Z))) :=
  if ptr =? 0 then Ret None else
  let base := ptr - 16 in
  let size := w base in
  let align := w (base + 8) in
  total ← with_header size;
  match layout_from total align with
  | None => Panic Explicit
  | Some l => Ret (Some (Z.land base (not_w 64 (align - 1)), l))
  end.
End Malloc.

Lemma put_same w a v : put w a v a = v.
Proof. unfold put. by rewrite Z.eqb_refl. Qed.
Lemma put_ne w a v x : x <> a -> put w a v x = w x.
Proof. intros. unfold put. by rewrite (proj2 (Z.eqb_neq x a)). Qed.

(** The lowest set bit as a power of two. *)
Lemma odd_part p : exists k j, 0 <= k /\ 0 <= j /\ Z.pos p = 2 ^ k * (2 * j + 1).
Proof.
  induction p as [p _|p (k & j & Hk & Hj & E)|].
  - exists 0, (Z.pos p). lia.
  - exists (k + 1), j. rewrite Z.pow_add_r by lia. lia.
  - exists 0, 0. lia.
Qed.

Lemma isolate_pow2 n k j :
  0 <= k -> n = 2 ^ k * (2 * j + 1) -> 0 <= j -> n < 2 ^ 64 -> isolate_lowest_one n = 2 ^ k.
Proof.
  intros Hk Hn Hj Hlt. assert (0 < 2 ^ k) by lia. unfold isolate_lowest_one, usize_wrap, wrap.
  replace (- n) with (Z.lnot (n - 1)) by (unfold Z.lnot; lia). rewrite <- Z.land_ones by lia.
  apply Z.bits_inj'. intros i Hi. rewrite !Z.land_spec, Z.lnot_spec by lia.
  assert (Hlow : forall m i, k <= i -> Z.testbit m (i - k + k) = Z.testbit m i) by (intros; f_equal; lia).
  destruct (Z.lt_ge_cases i k) as [Hik|Hik].
  - rewrite Hn, Z.mul_comm, Z.mul_pow2_bits_low, Z.pow2_bits_false by lia. done.
  - assert (En : Z.testbit n i = Z.testbit (2 * j + 1) (i - k)) by (by rewrite Hn, Z.mul_comm, Z.mul_pow2_bits by lia).
    assert (Em : Z.testbit (n - 1) i = Z.testbit (2 * j) (i - k)).
    { rewrite <- (Hlow (n - 1) i Hik), <- Z.div_pow2_bits by lia. f_equal. symmetry. apply (Z.div_unique _ _ _ (2 ^ k - 1)); lia. }
    rewrite En, Em. destruct (Z.eq_dec i k) as [->|Hne].
    + rewrite Z.sub_diag, Z.pow2_bits_true, Z.testbit_odd_0, Z.testbit_even_0 by lia. cbn. apply Z.ones_spec_low. split; [lia|].
      destruct (Z.lt_ge_cases k 64); [done|]. assert (2 ^ 64 <= 2 ^ k) by (apply Z.pow_le_mono_r; lia). nia.
    + rewrite Z.pow2_bits_false by lia. replace (i - k) with (Z.succ (i - k - 1)) by lia.
      rewrite Z.testbit_odd_succ, Z.testbit_even_succ by lia. rewrite andb_assoc. by rewrite andb_negb_r.
Qed.

Lemma is_pow2_pow k : 0 <= k -> is_pow2 (2 ^ k) = true.
Proof.
  intros Hk. assert (0 < 2 ^ k) by lia. unfold is_pow2. rewrite (proj2 (Z.ltb_lt 0 _)) by lia. apply Z.eqb_eq.
  rewrite Z.sub_1_r, <- Z.ones_equiv, Z.land_ones, Z.mod_same by lia. done.
Qed.

(** A block from [malloc] is given back by [free] exactly as it was taken: as long as
    the two words in front of it are intact, [free] passes the allocator the address it
    returned, with the same size and alignment.  The block lies inside the allocation,
    behind the header, and it is aligned as the lowest set bit of the size, at most 16. *)
Theorem malloc_free_roundtrip alloc w size w' p :
  0 < size < 2 ^ 61 -> malloc alloc w size = Ret (w', p) -> p <> 0 ->
  (forall sz al a, alloc sz al = Some a -> 0 < a /\ a + sz < 2 ^ 63 /\ a mod al = 0) ->
  exists ptr align, alloc (size + 16) align = Some ptr /\ p = ptr + 16 /\ p + size = ptr + (size + 16) /\
    align = isolate_lowest_one size /\ p mod (Z.min align 16) = 0 /\
    forall w'', w'' (p - 16) = w' (p - 16) -> w'' (p - 8) = w' (p - 8) ->
      free w'' p = Ret (Some (ptr, (size + 16, align))).
Proof.
  intros Hs Hm Hp Ha. destruct size as [|n|]; [lia| |lia]. destruct (odd_part n) as (k & j & Hk & Hj & E).
  pose proof (isolate_pow2 _ k j Hk E Hj ltac:(lia)) as Hi. set (size := Z.pos n) in *.
  assert (Hkk : 0 < 2 ^ k <= size) by nia.
  unfold malloc in Hm. rewrite (proj2 (Z.eqb_neq size 0)) in Hm by lia. rewrite Hi in Hm.
  replace (Z.max (2 ^ k) MAX_ALIGN_SIZE) with (2 ^ k) in Hm by (unfold MAX_ALIGN_SIZE; lia).
  assert (Hw : with_header size = Ret (size + 16)) by (unfold with_header; by rewrite (proj2 (Z.ltb_lt _ _)) by lia).
  assert (Hl : layout_from (size + 16) (2 ^ k) = Some (size + 16, 2 ^ k)).
  { unfold layout_from. rewrite is_pow2_pow by done. by rewrite (proj2 (Z.leb_le _ _)) by lia. }
  rewrite Hw in Hm. cbn [mbind outcome_bind] in Hm. rewrite Hl in Hm.
  destruct (alloc (size + 16) (2 ^ k)) as [ptr|] eqn:Ea; [|by injection Hm as _ <-].
  injection Hm as <- <-. destruct (Ha _ _ _ Ea) as (H0 & H1 & H2). exists ptr, (2 ^ k). split_and!; [done|done|lia|done| |].
  - destruct (Z.le_ge_cases k 4).
    + assert (2 ^ k <= 2 ^ 4) by (apply Z.pow_le_mono_r; lia). rewrite Z.min_l by lia.
      rewrite Z.add_mod, H2 by lia. change 16 with (2 ^ 4). replace 4 with (k + (4 - k)) by lia. rewrite Z.pow_add_r by lia.
      rewrite (Z.mul_comm (2 ^ k)), Z_mod_mult. done.
    + assert (2 ^ 4 <= 2 ^ k) by (apply Z.pow_le_mono_r; lia). rewrite Z.min_r by lia.
      apply Z.mod_divide in H2 as [q ->]; [|lia]. replace k with (4 + (k - 4)) by lia. rewrite Z.pow_add_r by lia.
      change (2 ^ 4) with 16. apply Z.mod_divide; [lia|]. exists (q * 2 ^ (k - 4) + 1). lia.
  - intros w'' E1 E2. unfold free. rewrite (proj2 (Z.eqb_neq _ 0)) by done.
    replace (ptr + 16 - 16 + 8) with (ptr + 16 - 8) by lia. rewrite E1, E2.
    replace (ptr + 16 - 16) with ptr by lia. replace (ptr + 16 - 8) with (ptr + 8) by lia.
    rewrite put_same, put_ne, put_same by lia. rewrite Hw. cbn [mbind outcome_bind]. rewrite Hl.
    rewrite land_not_ones; [|split; [lia|]|lia].
    + apply Z.mod_divide in H2 as [q Hq]; [|lia]. rewrite Hq, Z.div_mul by lia. done.
    + destruct (Z.le_gt_cases k 64); [done|]. assert (2 ^ 64 <= 2 ^ k) by (apply Z.pow_le_mono_r; lia). lia.
Qed.

(** A block from [aligned_alloc] cannot be freed: its size and alignment are written
    in front of the allocation, outside it, while [free] reads the two words in front of
    the block, which [aligned_alloc] leaves as they were; and for an alignment above 16
    the block reaches past the end of the allocation, by the alignment less 16. *)
Theorem aligned_alloc_header_lost alloc w size k ptr :
  0 <= k < 62 -> 0 < size < 2 ^ 61 -> alloc (size + 16) (2 ^ k) = Some ptr -> ptr mod 2 ^ k = 0 -> 16 < ptr ->
  exists w' p, aligned_alloc alloc w size (2 ^ k) = Ret (w', p) /\
    ptr + 16 <= p /\ p mod 2 ^ k = 0 /\
    (4 <= k -> p + size = ptr + (size + 16) + (2 ^ k - 16)) /\
    w' (ptr - 16) = size /\ w' (p - 16) = w (p - 16) /\ w' (p - 8) = w (p - 8) /\ free w' p = free w p.
Proof.
  intros Hk Hs Ha Hm Hp. assert (H2 : 0 < 2 ^ k <= 2 ^ 61) by (split; [lia|apply Z.pow_le_mono_r; lia]).
  unfold aligned_alloc. rewrite (proj2 (Z.eqb_neq size 0)) by lia. unfold with_header at 1.
  rewrite (proj2 (Z.ltb_lt _ _)) by lia. cbn [mbind outcome_bind]. unfold layout_from at 1. rewrite is_pow2_pow by lia.
  rewrite (proj2 (Z.leb_le _ _)) by lia. cbn [andb]. rewrite Ha.
  pose proof (Z.mod_pos_bound (- (ptr + 16)) (2 ^ k) ltac:(lia)) as Hb. set (o := (- (ptr + 16)) mod 2 ^ k) in *.
  set (p := ptr + (16 + o)). set (w' := put _ _ _).
  assert (E1 : w' (p - 16) = w (p - 16)) by (unfold w'; rewrite !put_ne by lia; done).
  assert (E2 : w' (p - 8) = w (p - 8)) by (unfold w'; rewrite !put_ne by lia; done).
  exists w', p. split_and!; [done|lia| | |unfold w'; rewrite put_ne, put_same by lia; done|done|done|].
  - unfold p, o. replace (ptr + (16 + (- (ptr + 16)) mod 2 ^ k)) with ((ptr + 16) + (- (ptr + 16)) mod 2 ^ k) by lia.
    rewrite Zplus_mod_idemp_r. by replace (ptr + 16 + - (ptr + 16)) with 0 by lia.
  - intros H4. unfold p. enough (o = 2 ^ k - 16) by lia. unfold o. apply Z.mod_divide in Hm as [q Hq]; [|lia].
    symmetry. assert (2 ^ 4 <= 2 ^ k) by (apply Z.pow_le_mono_r; lia).
    destruct (Z.eq_dec k 4) as [->|Hne].
    + change (2 ^ 4) with 16 in *. rewrite Hq. replace (- (q * 16 + 16)) with ((- q - 1) * 16) by lia. by rewrite Z_mod_mult.
    + assert (2 ^ 5 <= 2 ^ k) by (apply Z.pow_le_mono_r; lia). apply (Z.mod_unique _ _ (- q - 1)); lia.
  - unfold free. destruct (p =? 0); [done|]. replace (p - 16 + 8) with (p - 8) by lia. by rewrite E1, E2.
Qed.

(** ** [sigaction] *)

Definition SA_SIGINFO : Z := 0x00000004.
Definition SA_RESTORER : Z := 0x04000000.
Definition SA_RESTART : Z := 0x10000000.

Record sigaction_t : Type := mkSa { sa_handler : Z; sa_mask : Z; sa_flags : Z }.
Record kernel_sigaction : Type := mkKsa { k_handler : Z; k_flags : Z; k_restorer : Z; k_mask : Z }.

Section Sigaction.
Context (impl_restorer : Z).

(** The kernel: the action of every signal; signals that cannot be caught are refused
    with an error number. *)
Context (refused : Z -> option Z).
Definition rt_sigaction (t : Z -> kernel_sigaction) (signum : Z) (act : option kernel_sigaction) :
    (Z -> kernel_sigaction) * (Z * kernel_sigaction) :=
  match refused signum with
  | Some e => (t, (usize_wrap (- e), mkKsa 0 0 0 0))
  | None => (match act with Some a => fun s => if s =? signum then a else t s | None => t end, (0, t signum))
  end.

(** [action] and [src] are [None] for null pointers; [src] is the old contents. *)
Definition sigaction (t : Z -> kernel_sigaction) (signum : Z) (action : option sigaction_t) (src : option sigaction_t) :
    (Z -> kernel_sigaction) * (Z * option sigaction_t) :=
  let ksig_action := (fun a => mkKsa (sa_handler a)
    (Z.lor (Z.lor (Z.lor (sa_flags a) SA_RESTORER) SA_SIGINFO) SA_RESTART) impl_restorer (sa_mask a)) <$> action in
  let '(t', (res, old)) := rt_sigaction t signum ksig_action in
  let r := as_i32 res in
  let src' := match src with
    | Some _ =>
      if 0 <=? r then Some (mkSa (k_handler old) (k_mask old) (Z.land (as_u32 (k_flags old)) (not_w 32 SA_RESTORER))) else src
    | None => None
    end in
  (t', (r, src')).

(** An action that was installed is the one read back: its handler and mask, and its
    flags with [SA_SIGINFO] and [SA_RESTART] added and the restorer flag hidden; the
    actions of other signals stay, reading changes nothing, and a refused signal reports
    its error, changes nothing and leaves the caller's structure alone. *)
Theorem sigaction_roundtrip t signum a src1 src2 :
  0 <= sa_flags a < 2 ^ 32 ->
  match refused signum with
  | None =>
    exists t' r1, sigaction t signum (Some a) src1 = (t', (0, r1)) /\
      (forall s, s <> signum -> t' s = t s) /\ k_restorer (t' signum) = impl_restorer /\
      exists f, sigaction t' signum None (Some src2) = (t', (0, Some (mkSa (sa_handler a) (sa_mask a) f))) /\
        forall i, 0 <= i < 32 -> Z.testbit f i =
          if (i =? 26) then false else if (i =? 2) || (i =? 28) then true else Z.testbit (sa_flags a) i
  | Some e =>
    0 < e < 4096 -> sigaction t signum (Some a) src1 = (t, (- e, src1))
  end.
Proof.
  intros Hf. unfold sigaction, rt_sigaction. destruct (refused signum) as [e|] eqn:Er.
  - intros He. assert (as_i32 (usize_wrap (- e)) = - e) as ->.
    { unfold as_i32, swrap, usize_wrap, wrap. replace ((- e) mod 2 ^ 64) with (2 ^ 64 - e) by (apply (Z.mod_unique _ _ (-1)); lia).
      replace ((2 ^ 64 - e) mod 2 ^ 32) with (2 ^ 32 - e) by (apply (Z.mod_unique _ _ (2 ^ 32 - 1)); lia).
      rewrite (proj2 (Z.ltb_ge _ _)) by lia. lia. }
    rewrite (proj2 (Z.leb_gt 0 (- e))) by lia. by destruct src1.
  - change (as_i32 0) with 0. cbn [Z.leb Z.compare fmap option_fmap option_map].
    eexists _, _. split; [reflexivity|]. cbn beta. split; [|split].
    + intros s Hs. by rewrite (proj2 (Z.eqb_neq _ _)).
    + by rewrite Z.eqb_refl.
    + rewrite Z.eqb_refl. cbn [k_handler k_mask k_flags]. eexists. split; [reflexivity|].
      intros i Hi. rewrite Z.land_spec. unfold as_u32, wrap. rewrite Z.mod_pow2_bits_low by lia. rewrite !Z.lor_spec.
      unfold not_w. rewrite Z.lxor_spec, Z.ones_spec_low by lia.
      change SA_RESTORER with (2 ^ 26). change SA_SIGINFO with (2 ^ 2). change SA_RESTART with (2 ^ 28).
      rewrite !Z.pow2_bits_eqb by lia. rewrite !(Z.eqb_sym _ i).
      destruct (Z.eqb_spec i 26) as [->|]; cbn [xorb]; [by rewrite andb_false_r|]. rewrite andb_true_r, orb_false_r.
      destruct (i =? 2), (i =? 28); cbn [orb]; by rewrite ?orb_true_r, ?orb_false_r.
Qed.
End Sigaction.

(** ** Standard streams *)

(** [Stdio::write_str]: what reached the stream, and the result; [writes] are the results
    of the calls. *)
Fixpoint write_str (b : list Z) (writes : list (result nat Z)) : outcome (list Z * result unit unit) :=
  match b with
  | [] => Ret ([], Ok tt)
  | _ =>
    match writes with
    | [] => Ret ([], Err tt)          (** the script ends *)
    | Ok O :: _ => Ret ([], Err tt)
    | Err _ :: _ => Ret ([], Err tt)
    | Ok v :: r =>
      rest ← slice_from b v;
      '(out, res) ← write_str rest r;
      Ret (take v b ++ out, res)
    end
  end.

(** A call accepts no more than it is offered. *)
Fixpoint honest (n : nat) (writes : list (result nat Z)) : Prop :=
  match writes with
  | Ok v :: r => (v <= n)%nat /\ honest (n - v) r
  | _ => True
  end.
(** What the calls accept before the first error or empty write. *)
Fixpoint accepted (writes : list (result nat Z)) : nat :=
  match writes with Ok (S v) :: r => (S v + accepted r)%nat | _ => 0%nat end.

(** A string is written completely, however the kernel cuts it, and then the result is
    success; when a call fails or accepts nothing first, the result is an error and what
    reached the stream is the part that was accepted. *)
Theorem stdio_write_str writes : forall s,
  honest (length s) writes ->
  write_str s writes = Ret (take (accepted writes) s,
    if decide (length s <= accepted writes)%nat then Ok tt else Err tt).
Proof.
  induction writes as [|[[|v]|e] writes IH]; intros [|b s] Hh; try done.
  cbn [honest] in Hh. destruct Hh as [Hv Hh]. cbn [write_str]. rewrite slice_from_ok by done. cbn [mbind outcome_bind].
  rewrite IH by (by rewrite length_drop). cbn [mbind outcome_bind]. rewrite length_drop.
  cbn [accepted]. rewrite <- take_take_drop.
  destruct (decide (length (b :: s) - S v <= accepted writes)%nat), (decide (length (b :: s) <= S v + accepted writes)%nat);
    (done || lia).
Qed.

(** ** Concrete inputs *)

Definition one_block (sz al : Z) : option Z := Some 4096.

Lemma malloc_free_roundtrip_witness :
  exists w' p, malloc (fun sz al => if al =? 8 then Some 4096 else None) (fun _ => 0) 24 = Ret (w', p) /\
    free w' p = Ret (Some (4096, (40, 8))).
Proof.
  eexists _, _. split; [reflexivity|].
  destruct (malloc_free_roundtrip (fun sz al => if al =? 8 then (if sz <? 2 ^ 62 then Some 4096 else None) else None) (fun _ => 0) 24 _ _
              ltac:(lia) eq_refl) as (ptr & al & Ea & Ep & _ & Eal & _ & Hf); [lia| |].
  - intros sz al a H. destruct (Z.eqb_spec al 8) as [->|]; [|done]. destruct (Z.ltb_spec sz (2 ^ 62)); [|done]. injection H as <-.
    split; [lia|]. split; [lia|reflexivity].
  - etransitivity; [apply Hf; reflexivity|]. rewrite Eal. assert (ptr = 4096) as -> by lia. reflexivity.
Defined.

Lemma aligned_alloc_header_lost_witness :
  exists w' p, aligned_alloc one_block (fun _ => 3) 100 64 = Ret (w', p) /\ free w' p = Panic Explicit.
Proof.
  destruct (aligned_alloc_header_lost one_block (fun _ => 3) 100 6 4096 ltac:(lia) ltac:(lia) eq_refl eq_refl ltac:(lia))
    as (w' & p & E & Hp & _ & _ & _ & _ & _ & F).
  exists w', p. split; [exact E|]. rewrite F. unfold free. rewrite (proj2 (Z.eqb_neq p 0)) by lia. reflexivity.
Defined.

Lemma sigaction_roundtrip_witness :
  exists t' r1, sigaction 4242 (fun _ => None) (fun _ => mkKsa 0 0 0 0) 11 (Some (mkSa 77 5 0)) None = (t', (0, r1)) /\
    exists f, sigaction 4242 (fun _ => None) t' 11 None (Some (mkSa 0 0 0)) = (t', (0, Some (mkSa 77 5 f))).
Proof.
  destruct (sigaction_roundtrip 4242 (fun _ => None) (fun _ => mkKsa 0 0 0 0) 11 (mkSa 77 5 0) None (mkSa 0 0 0))
    as (t' & r1 & E & _ & _ & f & F & _); [simpl; lia|].
  exists t', r1. split; [exact E|]. by exists f.
Defined.

Lemma stdio_write_str_witness : write_str [104; 105; 33] [Ok 1%nat; Ok 2%nat] = Ret ([104; 105; 33], Ok tt).
Proof. rewrite stdio_write_str; [reflexivity|]. simpl. lia. Defined.

Lemma def_syscall_spec_witness : def_syscall from_raw_c_int (2 ^ 64 - 22) = Ret (Err 22).
Proof. apply (def_syscall_spec (2 ^ 64 - 22)); lia. Defined.

Lemma wrapper_results_witness :
  exists e, call_wrapper "mmap" (2 ^ 64 - 12) = Ret (Err e) /\ e = 12.
Proof.
  pose proof (wrapper_results "mmap" (6%nat, RPtr) (2 ^ 64 - 12) eq_refl ltac:(lia)) as H.
  exists 12. split; [reflexivity|]. change (call_wrapper "mmap" (2 ^ 64 - 12)) with (Ret (Err 12) : outcome (result (option Z) Z)) in H. lia.
Defined.
