(* ===== verification/SliceIter.v ===== *)
(** * Checked slice iterators (wl-impl/src/helpers.rs)

    The iterators that system calls use to walk an array of the caller:
    [CheckedSliceIter] and [CheckedSliceIterMut] are wrappers around
    [RawCheckedSliceIter] (modelled in [CheckedMem]), which probes an element before it
    hands out its address.  An operation is a value of [iop], its result a value of
    [answer]; the specification is a list of addresses. *)

From Stdlib Require Import ZArith Lia.
From stdpp Require Import base numbers list option.
From S2P Require Import Prelude.
From S2P Require Import CheckedMem.
From stdpp Require Import list.

Local Open Scope Z_scope.

(** The methods of the wrappers, and what they return. *)
Inductive iop : Type :=
| Next | NextBack | AdvanceBy (n : nat) | AdvanceBackBy (n : nat) | SizeHint | Count | Len | IsEmpty.
Inductive answer : Type :=
| Item (x : option (result Z CheckedAccessError))
| Advanced (r : result unit Z)
| Hint (lower : Z) (upper : option Z)
| Number (n : Z)
| Flag (b : bool).

(** [trait CheckedAccessType]: whether a probe writes back. *)
Definition DO_WRITEBACK_Read : bool := false.
Definition DO_WRITEBACK_Write : bool := true.

Section Ops.
Context (wb : bool) (local size : Z).

(** [DoubleEndedIterator::advance_back_by] of the standard library: [n] times
    [next_back], the number of missing steps as the error. *)
Fixpoint iter_advance_back_by (n : nat) (m : mem) (it : slice_iter) : outcome (mem * slice_iter * result unit Z) :=
  match n with
  | O => Ret (m, it, Ok tt)
  | S k =>
    '(m, it, x) ← iter_next_back wb local size m it;
    match x with
    | None => Ret (m, it, Err (Z.of_nat n))
    | Some _ => iter_advance_back_by k m it
    end
  end.

(** Each method of a wrapper calls the one of the raw iterator. *)
Definition iter_step (o : iop) (m : mem) (it : slice_iter) : outcome (mem * slice_iter * answer) :=
  match o with
  | Next => '(m, it, x) ← iter_step_next wb local size m it; Ret (m, it, Item x)
  | NextBack => '(m, it, x) ← iter_next_back wb local size m it; Ret (m, it, Item x)
  | AdvanceBy n => let '(it, r) := iter_advance_by size it (Z.of_nat n) in Ret (m, it, Advanced r)
  | AdvanceBackBy n => '(m, it, r) ← iter_advance_back_by n m it; Ret (m, it, Advanced r)
  | SizeHint => Ret (m, it, Hint (iter_len size it) (Some (iter_len size it)))
  | Count => Ret (m, it, Number (iter_len size it))
  | Len => Ret (m, it, Number (iter_len size it))
  | IsEmpty => Ret (m, it, Flag (iter_is_empty it))
  end.
End Ops.

(** The two wrappers hold a raw iterator that probes for reading, also the mutable one. *)
Definition CheckedSliceIter_step : Z -> Z -> iop -> mem -> slice_iter -> outcome (mem * slice_iter * answer) :=
  iter_step DO_WRITEBACK_Read.
Definition CheckedSliceIterMut_step : Z -> Z -> iop -> mem -> slice_iter -> outcome (mem * slice_iter * answer) :=
  iter_step DO_WRITEBACK_Read.

(** A sequence of operations of a wrapper. *)
Fixpoint iter_ops (step : iop -> mem -> slice_iter -> outcome (mem * slice_iter * answer)) (os : list iop)
    (m : mem) (it : slice_iter) : outcome (list answer) :=
  match os with
  | [] => Ret []
  | o :: os => '(m, it, a) ← step o m it; r ← iter_ops step os m it; Ret (a :: r)
  end.

(** [from_kslice_unchecked] of both, and the functions that call them. *)
(** The clones: the same range again. *)
Definition iter_clone (it : slice_iter) : slice_iter := mkIter (pos it) (end_ it).
Definition CheckedSliceIter_clone (it : slice_iter) : slice_iter := iter_clone it.

Definition CheckedSliceIter_from_kslice (size arr_ptr len : Z) : slice_iter := iter_new size arr_ptr len.
Definition CheckedSliceIterMut_from_kslice (size arr_ptr len : Z) : slice_iter := iter_new size arr_ptr len.
Definition iter_checked (size arr_ptr len : Z) : slice_iter := CheckedSliceIter_from_kslice size arr_ptr len.
Definition iter_mut_checked (size arr_ptr len : Z) : slice_iter := CheckedSliceIterMut_from_kslice size arr_ptr len.

(** ** Specification *)

(** The same operations on the list of the addresses that are left. *)
Definition list_step (o : iop) (l : list Z) : list Z * answer :=
  match o with
  | Next => match l with [] => ([], Item None) | x :: r => (r, Item (Some (Ok x))) end
  | NextBack => match last l with None => ([], Item None) | Some x => (take (length l - 1) l, Item (Some (Ok x))) end
  | AdvanceBy n =>
    if decide (n <= length l)%nat then (drop n l, Advanced (Ok tt))
    else (l, Advanced (Err (Z.of_nat n - Z.of_nat (length l))))
  | AdvanceBackBy n =>
    if decide (n <= length l)%nat then (take (length l - n) l, Advanced (Ok tt))
    else ([], Advanced (Err (Z.of_nat n - Z.of_nat (length l))))
  | SizeHint => (l, Hint (Z.of_nat (length l)) (Some (Z.of_nat (length l))))
  | Count | Len => (l, Number (Z.of_nat (length l)))
  | IsEmpty => (l, Flag (bool_decide (l = [])))
  end.
Fixpoint list_ops (os : list iop) (l : list Z) : list answer :=
  match os with
  | [] => []
  | o :: os => let '(l, a) := list_step o l in a :: list_ops os l
  end.

(** The addresses of [n] elements from [base] on. *)
Definition elements (size base : Z) (n : nat) : list Z := (fun i => base + Z.of_nat i * size) <$> seq 0 n.

Lemma elements_length size base n : length (elements size base n) = n.
Proof. unfold elements. by rewrite length_fmap, length_seq. Qed.
Lemma elements_cons size base n : elements size base (S n) = base :: elements size (base + size) n.
Proof.
  unfold elements. cbn [seq fmap list_fmap]. f_equal; [lia|].
  rewrite <- fmap_S_seq, <- list_fmap_compose. apply list_fmap_ext. intros _ i _. simpl. lia.
Qed.
Lemma elements_snoc size base n : elements size base (S n) = elements size base n ++ [base + Z.of_nat n * size].
Proof. unfold elements. by rewrite seq_S, fmap_app. Qed.
Lemma elements_drop size base n k :
  (k <= n)%nat -> drop k (elements size base n) = elements size (base + Z.of_nat k * size) (n - k).
Proof.
  revert base n. induction k as [|k IH]; intros base n Hk.
  - rewrite drop_0, Nat.sub_0_r. f_equal. lia.
  - destruct n as [|n]; [lia|]. rewrite elements_cons. cbn [drop skipn]. rewrite IH by lia. f_equal; lia.
Qed.
Lemma elements_take size base n k : (k <= n)%nat -> take k (elements size base n) = elements size base k.
Proof.
  intros Hk. unfold elements. rewrite <- fmap_take. f_equal. rewrite take_seq. f_equal. lia.
Qed.
Lemma elements_nil size base n : elements size base n = [] <-> n = 0%nat.
Proof. split; [|by intros ->]. intros E. apply (f_equal length) in E. by rewrite elements_length in E. Qed.

(** ** Refinement *)

Section Refine.
Context (local : Z).
Hypothesis Hlocal : in_address_space local 1.
Context (wb : bool) (size : Z).
Hypothesis Hsize : 1 <= size <= 4096.

(** The iterator stands for [n] elements that may be probed. *)
Record stands (m : mem) (it : slice_iter) (n : nat) : Prop := {
  st_end : end_ it = pos it + Z.of_nat n * size;
  st_local : writable_at m local 1;
  st_probe : forall i, (i < n)%nat -> probeable local wb m (pos it + Z.of_nat i * size) }.

Lemma stands_probe m m' it n : probe_eq local m m' -> stands m it n -> stands m' it n.
Proof. intros Heq [He Hl Hp]. split; [done|by eapply probe_eq_local|]. intros i Hi. eapply probeable_eq; eauto. Qed.
Lemma stands_front m it n k :
  (k <= n)%nat -> stands m it n -> stands m (mkIter (pos it + Z.of_nat k * size) (end_ it)) (n - k).
Proof.
  intros Hk [He Hl Hp]. split; cbn [pos end_]; [rewrite He, Nat2Z.inj_sub by done; lia|done|]. intros i Hi.
  replace (pos it + Z.of_nat k * size + Z.of_nat i * size) with (pos it + Z.of_nat (k + i) * size) by lia. apply Hp. lia.
Qed.
Lemma stands_back m it n :
  stands m it (S n) -> stands m (mkIter (pos it) (end_ it - size)) n /\ end_ it - size = pos it + Z.of_nat n * size.
Proof. intros [He Hl Hp]. split; [|lia]. split; cbn [pos end_]; [lia|done|]. intros i Hi. apply Hp. lia. Qed.

Lemma stands_len m it n : stands m it n -> iter_len size it = Z.of_nat n.
Proof using Hsize. intros [He _ _]. unfold iter_len. rewrite He. replace (_ - _) with (Z.of_nat n * size) by lia. apply Z.div_mul. lia. Qed.
Lemma stands_empty m it n : stands m it n -> (pos it =? end_ it) = bool_decide (n = 0%nat).
Proof using Hsize. intros [He _ _]. case_bool_decide; [apply Z.eqb_eq|apply Z.eqb_neq]; nia. Qed.

Lemma next_back_ok m it n :
  stands m it n ->
  exists m' it', iter_next_back wb local size m it =
    Ret (m', it', match n with O => None | S k => Some (Ok (pos it + Z.of_nat k * size)) end) /\
    stands m' it' (n - 1) /\ pos it' = pos it.
Proof using Hlocal Hsize.
  intros H. unfold iter_next_back. rewrite (stands_empty _ _ _ H). destruct n as [|n]; cbn [bool_decide decide_rel decide].
  - exists m, it. by split_and!.
  - rewrite bool_decide_eq_false_2 by done. destruct (stands_back _ _ _ H) as [Hb E].
    destruct (probe_one local Hlocal wb m size (end_ it - size)) as (m' & -> & Heq); [done|apply H| |].
    { rewrite E. apply H. lia. }
    cbn [mbind outcome_bind probed fst snd]. exists m', (mkIter (pos it) (end_ it - size)). split_and!.
    + by rewrite E.
    + replace (S n - 1)%nat with n by lia. by eapply stands_probe.
    + done.
Qed.

Lemma next_ok m it n :
  stands m it n ->
  exists m' it', iter_step_next wb local size m it = Ret (m', it', match n with O => None | S _ => Some (Ok (pos it)) end) /\
    stands m' it' (n - 1) /\ pos it' = pos it + (if decide (n = 0%nat) then 0 else size).
Proof using Hlocal Hsize.
  intros H. unfold iter_step_next. rewrite (stands_empty _ _ _ H). destruct n as [|n].
  - exists m, it. rewrite bool_decide_eq_true_2, decide_True by done. split_and!; [done|done|lia].
  - rewrite bool_decide_eq_false_2, decide_False by done.
    destruct (probe_one local Hlocal wb m size (pos it)) as (m' & -> & Heq); [done|apply H| |].
    { replace (pos it) with (pos it + Z.of_nat 0 * size) by lia. apply H. lia. }
    cbn [mbind outcome_bind probed fst snd]. exists m', (mkIter (pos it + size) (end_ it)). split_and!; [done| |done].
    pose proof (stands_front m it (S n) 1 ltac:(lia) H) as H1. replace (pos it + Z.of_nat 1 * size) with (pos it + size) in H1 by lia.
    by eapply stands_probe.
Qed.

Lemma advance_back_ok k : forall m it n,
  stands m it n ->
  exists m' it', iter_advance_back_by wb local size k m it =
    Ret (m', it', if decide (k <= n)%nat then Ok tt else Err (Z.of_nat k - Z.of_nat n)) /\
    stands m' it' (n - k) /\ pos it' = pos it.
Proof using Hlocal Hsize.
  induction k as [|k IH]; intros m it n H; cbn [iter_advance_back_by].
  - exists m, it. rewrite decide_True, Nat.sub_0_r by lia. by split_and!.
  - destruct (next_back_ok m it n H) as (m1 & it1 & -> & H1 & P1). cbn [mbind outcome_bind]. destruct n as [|n].
    + exists m1, it1. rewrite decide_False by lia. split_and!; [|done|done]. by rewrite Z.sub_0_r.
    + destruct (IH m1 it1 n) as (m2 & it2 & -> & H2 & P2); [by replace (S n - 1)%nat with n in H1 by lia|].
      exists m2, it2. split_and!; [|done|congruence]. do 2 f_equal.
      repeat case_decide; try lia; [done|]. f_equal. lia.
Qed.

(** One operation. *)
Lemma iter_step_ok o m it n :
  stands m it n ->
  exists m' it' n', iter_step wb local size o m it = Ret (m', it', (list_step o (elements size (pos it) n)).2) /\
    stands m' it' n' /\ elements size (pos it') n' = (list_step o (elements size (pos it) n)).1.
Proof using Hlocal Hsize.
  intros H. destruct o as [| |k|k| | | |]; cbn [iter_step list_step]; rewrite ?elements_length.
  - destruct (next_ok m it n H) as (m' & it' & -> & H' & P'). cbn [mbind outcome_bind].
    exists m', it', (n - 1)%nat. destruct n as [|n]; [by split_and!|]. rewrite elements_cons. cbn [fst snd]. split_and!; [done|done|].
    rewrite P', decide_False by done. by replace (S n - 1)%nat with n by lia.
  - destruct (next_back_ok m it n H) as (m' & it' & -> & H' & P'). cbn [mbind outcome_bind].
    exists m', it', (n - 1)%nat. destruct n as [|n]; [by split_and!|]. rewrite elements_snoc, last_snoc. cbn [fst snd]. split_and!; [done|done|].
    rewrite P', take_app_le, elements_take by (rewrite ?elements_length; lia). done.
  - unfold iter_advance_by. rewrite (stands_len _ _ _ H). case_decide.
    + rewrite (proj2 (Z.leb_le _ _)) by lia. eexists _, _, (n - k)%nat. split_and!; [done|by apply stands_front|].
      cbn [pos fst]. by rewrite elements_drop.
    + rewrite (proj2 (Z.leb_gt _ _)) by lia. by eexists _, _, n.
  - destruct (advance_back_ok k m it n H) as (m' & it' & -> & H' & P'). cbn [mbind outcome_bind].
    exists m', it', (n - k)%nat. rewrite P'. case_decide; cbn [fst snd]; split_and!; try done.
    + by rewrite elements_take by lia.
    + by apply elements_nil; lia.
  - rewrite (stands_len _ _ _ H). by eexists _, _, n.
  - rewrite (stands_len _ _ _ H). by eexists _, _, n.
  - rewrite (stands_len _ _ _ H). by eexists _, _, n.
  - unfold iter_is_empty. rewrite (stands_empty _ _ _ H). eexists _, _, n. split_and!; [|done|done]. cbn [snd]. do 3 f_equal.
    apply bool_decide_ext. by rewrite elements_nil.
Qed.

Lemma iter_ops_ok os : forall m it n,
  stands m it n -> iter_ops (iter_step wb local size) os m it = Ret (list_ops os (elements size (pos it) n)).
Proof using Hlocal Hsize.
  induction os as [|o os IH]; intros m it n H; [done|]. cbn [iter_ops list_ops].
  destruct (iter_step_ok o m it n H) as (m' & it' & n' & -> & H' & E). cbn [mbind outcome_bind].
  rewrite (IH _ _ _ H'), E. cbn [mbind outcome_bind]. by destruct (list_step o _).
Qed.
End Refine.

(** C18: a checked iterator over [n] mapped elements behaves as the list of their
    addresses under every sequence of operations from both ends: elements come from the
    front in ascending and from the back in descending order, each at most once, and the
    reported lengths are those of what is left.  Advancing past the end from the front
    is refused without moving; from the back it uses up the iterator. *)
Theorem checked_iter_refines_list local size m arr_ptr n os :
  in_address_space local 1 -> 1 <= size <= 4096 -> writable_at m local 1 ->
  (forall i, (i < n)%nat -> probeable local DO_WRITEBACK_Read m (arr_ptr + Z.of_nat i * size)) ->
  let expected := Ret (list_ops os (elements size arr_ptr n)) in
  iter_ops (CheckedSliceIter_step local size) os m (iter_checked size arr_ptr (Z.of_nat n)) = expected /\
  iter_ops (CheckedSliceIterMut_step local size) os m (iter_mut_checked size arr_ptr (Z.of_nat n)) = expected.
Proof. intros Hl Hs Hw Hp. split; apply (iter_ops_ok local Hl DO_WRITEBACK_Read size Hs); by split. Qed.

(** ** Concrete inputs *)

Definition two_elements : mem := mkMem (insert_bytes ∅ 96 (replicate 24 0)) (fun _ => true).

Lemma checked_iter_refines_list_witness :
  iter_ops (CheckedSliceIterMut_step 96 8) [NextBack; AdvanceBy 3; Next; IsEmpty] two_elements (iter_mut_checked 8 104 2) =
    Ret [Item (Some (Ok 112)); Advanced (Err 2); Item (Some (Ok 104)); Flag true].
Proof.
  refine (proj2 (checked_iter_refines_list 96 8 two_elements 104 2 [NextBack; AdvanceBy 3; Next; IsEmpty] _ _ _ _)).
  - unfold in_address_space. lia.
  - lia.
  - intros [|i] Hi; [|lia]. split; [done|]. by eexists.
  - intros i Hi. do 2 (destruct i as [|i]; [split_and!; [by eexists|done|lia|lia|lia]|]). lia.
Defined.
