(* ===== verification/Spawn.v ===== *)
(** * Both sides of [CreateProcess] (wl-usi-process/src/proc.rs)

    The parent's side is modelled in [IoCalls] with the results of the Linux calls as
    parameters.  Here the child's side is added: between [fork] and [execve] it sends its
    descriptor through a socket, and an error number when something fails.  What the
    parent receives is then a function of what the child did, and the results of the
    whole call follow from the fate of the child. *)

From Stdlib Require Import ZArith Lia.
From stdpp Require Import base numbers list option.
From S2P Require Import Prelude.
From S2P Require Import Errors.
From S2P Require Import Handles.
From S2P Require Import IoCalls.

Local Open Scope Z_scope.

(** ** The child *)

(** What the calls of the child return; [write_ok] is the write of an error number,
    whose result is ignored. *)
Record child_env : Type := mkChild {
  pidfd_res : result Z errno;
  push_ok : bool;
  sendmsg_res : result unit errno;
  execve_res : option errno;
  write_ok : bool }.

(** The messages of the socket: a descriptor without data, or an error number. *)
Inductive message : Type := ScmRights (fd : Z) | Errno (e : errno).

(** How the child ends: as another program, or by [exit_unrecoverably]. *)
Inductive child_end : Type := Execed (path : list Z) (argv : list (list Z)) | Crashed.

Definition report (c : child_env) (e : errno) : list message := if write_ok c then [Errno e] else [].

(** The branch [Ok(0)] of [fork]. *)
Definition spawn_child (c : child_env) (exec_path : list Z) (argv : list (list Z)) : list message * child_end :=
  match pidfd_res c with
  | Err e => (report c e, Crashed)
  | Ok fd =>
    if negb (push_ok c) then (report c EINVAL, Crashed)
    else
      match sendmsg_res c with
      | Err e => (report c e, Crashed)
      | Ok _ =>
        match execve_res c with
        | Some e => (ScmRights fd :: report c e, Crashed)
        | None => ([ScmRights fd], Execed exec_path argv)
        end
      end
  end.

(** ** The socket, seen from the parent *)

(** [recvmsg] with an empty buffer takes one message and keeps its descriptor; a
    message without one is lost.  While the parent holds the other end itself, an empty
    socket does not report its end: the call waits forever ([None]).  Received
    descriptors get the number [received]. *)
Definition parent_recv (received : Z) (msgs : list message) : option (option Z * list message) :=
  match msgs with
  | [] => None
  | ScmRights _ :: r => Some (Some received, r)
  | Errno _ :: r => Some (None, r)
  end.
(** [read] behind [drop(write)]: an error number, or nothing (end of file). *)
Definition parent_read (msgs : list message) : option (option errno) :=
  match msgs with
  | Errno e :: _ => Some (Some e)
  | _ => None
  end.

(** The results the parent sees, when its calls return. *)
Definition parent_view (pid received : Z) (msgs : list message) : option spawn_env :=
  match parent_recv received msgs with
  | None => None
  | Some (fd, r) => Some (mkSpawn true (Ok pid) (Ok fd) (parent_read r))
  end.

(** ** The call *)

Section Create.
Context {T : Type} `{HandleTable T} (c : io_consts).
Context (show_fd : Z -> list Z) (proc_self_fd : list Z).

(** The argument vector: the arguments given, or the path alone. *)
Definition argv_of (path : list Z) (args : list (list Z)) (given : bool) : list (list Z) :=
  if given then args else [path].

(** What the child is asked to execute, when the call gets that far. *)
Definition exec_request (t : T) (resolution_base : Z) (path : list Z) (opts : list CreateProcessOption) :
    option (list Z * list (list Z)) :=
  match exec_path c show_fd proc_self_fd t resolution_base path with
  | Err _ => None
  | Ok ep =>
    if has_nul ep then None else
    match read_options c opts [] false with
    | Err _ => None
    | Ok (args, given) => Some (ep, argv_of path args given)
    end
  end.

(** [CreateProcess] when [fork] gives [pid]: the fate of the child, and the parent's
    result; [None] when the parent waits forever. *)
Definition CreateProcess_both (ch : child_env) (pid received : Z) (t : T)
    (resolution_base : Z) (path : list Z) (opts : list CreateProcessOption) :
    option (child_end * outcome (T * list Z * result Z SysError)) :=
  let '(ep, argv) := default ([], []) (exec_request t resolution_base path opts) in
  let '(msgs, fate) := spawn_child ch ep argv in
  env ← parent_view pid received msgs;
  Some (fate, CreateProcess c show_fd proc_self_fd env t resolution_base path opts).

(** The fate of the child in one value. *)
Inductive fate : Type :=
| FRuns                     (** the program runs *)
| FFailed (e : errno)       (** [execve] failed, and the error was reported *)
| FSilent                   (** [execve] failed, and the report was lost *)
| FNoHandle (e : errno)     (** the descriptor could not be sent *)
| FVanished.                (** nothing was sent at all *)
Definition fate_of (ch : child_env) : fate :=
  let early e := if write_ok ch then FNoHandle e else FVanished in
  match pidfd_res ch with
  | Err e => early e
  | Ok _ =>
    if negb (push_ok ch) then early EINVAL
    else match sendmsg_res ch with
         | Err e => early e
         | Ok _ =>
           match execve_res ch with
           | None => FRuns
           | Some e => if write_ok ch then FFailed e else FSilent
           end
         end
  end.

(** A valid request on a table with room reaches the parent's side. *)
Lemma create_steps env t base path opts x :
  ht_ok t -> HANDLE_TYPE_PROC c <> 0 -> ~ ht_full t -> socketpair_ok env = true -> exec_request t base path opts = Some x ->
  exists t1 p, ht_ok t1 /\ added t t1 p (mkHandle (HANDLE_TYPE_PROC c) 0 0 (-1)) /\
    CreateProcess c show_fd proc_self_fd env t base path opts = spawn_parent c env t1 p.
Proof.
  intros Hok Hty Hroom Hsock. unfold exec_request, CreateProcess.
  destruct (exec_path c show_fd proc_self_fd t base path) as [q|] eqn:Hep; [|done].
  destruct (has_nul q) eqn:Hn; [done|]. destruct (read_options c opts [] false) as [[args given]|]; [|done]. intros _.
  rewrite (exec_path_nul _ _ _ _ _ _ _ Hep Hn), andb_false_r, Hsock. cbn [negb].
  destruct (ht_insert_spec t (mkHandle (HANDLE_TYPE_PROC c) 0 0 (-1)) Hok Hty) as (t1 & r & -> & Hok1 & Hr).
  cbn [mbind outcome_bind]. destruct r as [p|e]; [by exists t1, p|]. by destruct Hr as (_ & _ & Hfull).
Qed.

(** The parent after a message with a descriptor, and after one without. *)
Lemma parent_with_fd pid received n t t1 p :
  ht_ok t1 -> HANDLE_TYPE_PROC c <> 0 -> added t t1 p (mkHandle (HANDLE_TYPE_PROC c) 0 0 (-1)) -> 0 <= received ->
  exists t', ht_ok t' /\
    match n with
    | None => spawn_parent c (mkSpawn true (Ok pid) (Ok (Some received)) None) t1 p = Ret (t', [], Ok p) /\
              added t t' p (mkHandle (HANDLE_TYPE_PROC c) 0 (usize_wrap pid) received)
    | Some e => spawn_parent c (mkSpawn true (Ok pid) (Ok (Some received)) (Some (Some e))) t1 p =
                  Ret (t', [as_i32 received], Err (linux_error_to_lilium e)) /\ same_handles t t'
    end.
Proof.
  intros Hok Hty Hadd Hfd. unfold spawn_parent. cbn [fork_res recv_res child_error].
  destruct (update_added t t1 p _ (mkHandle (HANDLE_TYPE_PROC c) 0 (usize_wrap pid) received) Hok Hadd Hty) as [Hok2 Hadd2].
  destruct n as [e|]; [|eexists; split; [exact Hok2|]; by split].
  destruct (close_added _ _ _ _ Hok2 Hadd2) as (t2 & -> & Hok3 & Hs). cbn [fd]. rewrite (proj2 (Z.leb_le _ _) Hfd). by exists t2.
Qed.
Lemma parent_without_fd pid n t t1 p :
  ht_ok t1 -> added t t1 p (mkHandle (HANDLE_TYPE_PROC c) 0 0 (-1)) ->
  exists t', ht_ok t' /\ spawn_parent c (mkSpawn true (Ok pid) (Ok None) n) t1 p = Ret (t', [], Err (ErrorCode (-0x802))) /\
    same_handles t t'.
Proof.
  intros Hok Hadd. unfold spawn_parent. cbn [fork_res recv_res].
  destruct (close_added _ _ _ _ Hok Hadd) as (t2 & -> & Hok3 & Hs). by exists t2.
Qed.

(** C17: the result of [CreateProcess] follows the fate of the child.  When the program
    runs, with the requested path and arguments, the caller gets a new handle with the
    child's pid and descriptor.  When [execve] fails, the caller gets its error, and no
    handle is left; but when the child could not report it, the caller gets a handle to
    a dead process.  When the child could not send its descriptor, the error it reports
    is lost and replaced by a fixed code.  When it sends nothing, the caller waits
    forever, because it holds the other end of the socket open itself. *)
Theorem create_process_follows_child ch pid received t base path opts ep argv :
  ht_ok t -> HANDLE_TYPE_PROC c <> 0 -> ~ ht_full t -> 0 <= received ->
  exec_request t base path opts = Some (ep, argv) ->
  let both := CreateProcess_both ch pid received t base path opts in
  match fate_of ch with
  | FRuns => exists t' p, both = Some (Execed ep argv, Ret (t', [], Ok p)) /\ ht_ok t' /\
      added t t' p (mkHandle (HANDLE_TYPE_PROC c) 0 (usize_wrap pid) received)
  | FSilent => exists t' p, both = Some (Crashed, Ret (t', [], Ok p)) /\ ht_ok t' /\
      added t t' p (mkHandle (HANDLE_TYPE_PROC c) 0 (usize_wrap pid) received)
  | FFailed e => exists t', both = Some (Crashed, Ret (t', [as_i32 received], Err (linux_error_to_lilium e))) /\
      ht_ok t' /\ same_handles t t'
  | FNoHandle _ => exists t', both = Some (Crashed, Ret (t', [], Err (ErrorCode (-0x802)))) /\ ht_ok t' /\ same_handles t t'
  | FVanished => both = None
  end.
Proof.
  intros Hok Hty Hroom Hfd Hx both. unfold both, CreateProcess_both, fate_of, spawn_child, report. rewrite Hx. cbn [default].
  assert (HP : forall env, socketpair_ok env = true -> exists t1 p, ht_ok t1 /\ added t t1 p (mkHandle (HANDLE_TYPE_PROC c) 0 0 (-1)) /\
    CreateProcess c show_fd proc_self_fd env t base path opts = spawn_parent c env t1 p) by (intros; by eapply create_steps).
  assert (Hearly : forall e, match (if write_ok ch then FNoHandle e else FVanished) with
    | FNoHandle _ => exists t', (env ← parent_view pid received (if write_ok ch then [Errno e] else []);
        Some (Crashed, CreateProcess c show_fd proc_self_fd env t base path opts)) =
        Some (Crashed, Ret (t', [], Err (ErrorCode (-0x802)))) /\ ht_ok t' /\ same_handles t t'
    | FVanished => (env ← parent_view pid received (if write_ok ch then [Errno e] else []);
        Some (Crashed, CreateProcess c show_fd proc_self_fd env t base path opts)) = None
    | _ => True end).
  { intros e. destruct (write_ok ch); [|done]. cbn [parent_view parent_recv parent_read mbind option_bind].
    destruct (HP (mkSpawn true (Ok pid) (Ok None) None) eq_refl) as (t1 & p & Hok1 & Hadd & ->).
    destruct (parent_without_fd pid None _ _ _ Hok1 Hadd) as (t' & Hok' & -> & Hs). by exists t'. }
  destruct (pidfd_res ch) as [fd|e]; [|specialize (Hearly e); by destruct (write_ok ch)].
  destruct (push_ok ch); cbn [negb]; [|specialize (Hearly EINVAL); by destruct (write_ok ch)].
  destruct (sendmsg_res ch) as [[]|e]; [|specialize (Hearly e); by destruct (write_ok ch)].
  destruct (execve_res ch) as [e|]; [destruct (write_ok ch)|]; cbn [parent_view parent_recv parent_read mbind option_bind].
  - destruct (HP (mkSpawn true (Ok pid) (Ok (Some received)) (Some (Some e))) eq_refl) as (t1 & p & Hok1 & Hadd & ->).
    destruct (parent_with_fd pid received (Some e) _ _ _ Hok1 Hty Hadd Hfd) as (t' & Hok' & -> & Hs). by exists t'.
  - destruct (HP (mkSpawn true (Ok pid) (Ok (Some received)) None) eq_refl) as (t1 & p & Hok1 & Hadd & ->).
    destruct (parent_with_fd pid received None _ _ _ Hok1 Hty Hadd Hfd) as (t' & Hok' & -> & Hs). by exists t', p.
  - destruct (HP (mkSpawn true (Ok pid) (Ok (Some received)) None) eq_refl) as (t1 & p & Hok1 & Hadd & ->).
    destruct (parent_with_fd pid received None _ _ _ Hok1 Hty Hadd Hfd) as (t' & Hok' & -> & Hs). by exists t', p.
Qed.
End Create.

(** ** Concrete inputs *)

(** The program does not exist: the caller gets the error, the table is as before. *)
Lemma create_process_follows_child_witness :
  exists t', CreateProcess_both (H := hstate_table sample_base) sample_io (fun _ => []) []
      (mkChild (Ok 3) true (Ok tt) (Some ENOENT) true) 77 5 hinit 0 [97] [OptArgs [[98]; [99]]] =
      Some (Crashed, Ret (t', [5], Err DoesNotExist)) /\
    ht_ok (HandleTable := hstate_table sample_base) t' /\ same_handles (H := hstate_table sample_base) hinit t'.
Proof.
  refine (create_process_follows_child (H := hstate_table sample_base) sample_io (fun _ => []) []
    (mkChild (Ok 3) true (Ok tt) (Some ENOENT) true) 77 5 hinit 0 [97] [OptArgs [[98]; [99]]] [97] [[98]; [99]] hinit_wf _ _ _ _).
  - discriminate.
  - intros Hf. apply Forall_cons_1 in Hf as [Hf _]. by apply Hf.
  - lia.
  - reflexivity.
Defined.
