(* ===== verification/Threads.v ===== *)
(** * Threads (wl-impl/src/thread.rs)

    The description of the first thread ([__setup_init_thread]), which asks the loader for
    the thread pointer ([TlsMem]), and waiting for a thread ([JoinHandle]). *)

From Stdlib Require Import ZArith Lia.
From stdpp Require Import base numbers list option strings.
From S2P Require Import Prelude.
From S2P Require Import Errors.
From stdpp Require Import list.
From S2P Require Import TlsMem.

Local Open Scope Z_scope.

(** ** The first thread *)

Inductive ThreadKind : Type := Winter | User.
(** [struct ThreadInfo]; the address of the shared block is the thread's identity. *)
Record ThreadInfo : Type := mkInfo {
  tid : Z; pid : Z; pfd : Z; tptr : Z; wake_addr : Z; name : string; tkind : ThreadKind; exit_status : Z }.

(** [__setup_init_thread]: [TH_INFO] is set at most once, by the first attempt whose
    calls all succeed; [arc] is the address of the new block. *)
Definition setup_init_thread (getpid : result Z errno) (pidfd_open : Z -> result Z errno) (arc : Z)
    (mprotect_ok : Z -> Z -> bool) (mc : Z) (th : tstate) (TH_INFO : option ThreadInfo) :
    outcome (tstate * option ThreadInfo * result ThreadInfo errno) :=
  match TH_INFO with
  | Some i => Ret (th, TH_INFO, Ok i)
  | None =>
    match getpid with
    | Err e => Ret (th, None, Err e)
    | Ok p =>
      match pidfd_open p with
      | Err e => Ret (th, None, Err e)
      | Ok fd =>
        '(th, tp) ← rtld_get_thread_ptr mprotect_ok mc th;
        match (tp : result Z Empty_set) with
        | Ok tp => let i := mkInfo arc p fd tp 0 "Main Thread" User 0 in Ret (th, Some i, Ok i)
        | Err e => match (e : Empty_set) with end
        end
      end
    end
  end.

(** The first thread is described once.  The first attempt that succeeds records the
    process, its descriptor and the thread pointer that was set; every later call
    returns the same description without a Linux call; an attempt that fails records
    nothing, so that it can be repeated. *)
Theorem init_thread_once getpid pidfd_open arc mprotect_ok mc th ptr :
  geometry mc ptr -> kernel_ok mprotect_ok ptr -> thread_ok th ptr -> master_ok mc th ->
  exists th' info r, setup_init_thread getpid pidfd_open arc mprotect_ok mc th None = Ret (th', info, r) /\ thread_ok th' ptr /\
    match r with
    | Ok i => info = Some i /\ tptr i = ptr /\ getpid = Ok (pid i) /\ pidfd_open (pid i) = Ok (pfd i) /\
        forall g p a mp mc' th2, setup_init_thread g p a mp mc' th2 info = Ret (th2, info, Ok i)
    | Err e => info = None /\ th' = th /\ (getpid = Err e \/ exists n, getpid = Ok n /\ pidfd_open n = Err e)
    end.
Proof.
  intros G Hk Hon Hm. unfold setup_init_thread at 1.
  destruct getpid as [n|e]; [|exists th, None, (Err e); split_and!; eauto].
  destruct (pidfd_open n) as [fd|e] eqn:Ep; [|exists th, None, (Err e); split_and!; eauto].
  destruct (query_ok mprotect_ok mc th ptr G Hk Hon Hm) as (th' & -> & U). cbn [mbind outcome_bind].
  eexists _, _, (Ok _). split; [reflexivity|]. split; [apply U|]. by split_and!.
Qed.

(** ** Waiting for a thread *)

(** [Thread::name], the status in a [ThreadJoinResult] and the thread of a [JoinHandle]; a
    handle is the thread it waits for. *)
Definition Thread_name (i : ThreadInfo) : string := name i.
Definition raw_status (r : Z) : Z := r.
Definition into_raw (r : Z) : Z := r.
Definition JoinHandle_thread (h : ThreadInfo) : ThreadInfo := h.

Section Join.
(** The kernel and [waitid] on a process descriptor. *)
Context {K : Type} (waitid : K -> Z -> K * result unit errno).

(** [Drop for JoinHandle]: the result is unwrapped. *)
Definition drop_handle (k : K) (i : ThreadInfo) : outcome K :=
  match waitid k (pfd i) with
  | (k, Ok _) => Ret k
  | (_, Err _) => Panic Explicit
  end.
(** [JoinHandle::join]: the handle is dropped on return, also on the error path. *)
Definition join (k : K) (i : ThreadInfo) : outcome (K * result Z errno) :=
  let '(k, w) := waitid k (pfd i) in
  let r := match w with Ok _ => Ok (exit_status i) | Err e => Err e end in
  k ← drop_handle k i;
  Ret (k, r).

(** A process can be waited for once: [waitid] without [WNOWAIT] removes it. *)
Hypothesis waited_once : forall k k' fd, waitid k fd = (k', Ok tt) -> exists e, (waitid k' fd).2 = Err e.

(** [join] never reports the end of a thread: when its wait succeeds, the wait of the
    destructor fails and panics.  It returns only when its own wait fails and the
    destructor's succeeds, with an error. *)
Theorem join_never_succeeds k i :
  join k i = Panic Explicit \/ exists k' e, join k i = Ret (k', Err e).
Proof using waited_once.
  unfold join, drop_handle. destruct (waitid k (pfd i)) as [k1 [[]|e]] eqn:E.
  - destruct (waited_once _ _ _ E) as [e He]. left. destruct (waitid k1 (pfd i)) as [k2 r]. cbn [snd] in He. by rewrite He.
  - destruct (waitid k1 (pfd i)) as [k2 [[]|e2]]; [right|left]; cbn; eauto.
Qed.
End Join.

(** ** Concrete inputs *)

Lemma init_thread_once_witness :
  exists th' i, setup_init_thread (Ok 12) (fun _ => Ok 3) 65536 any_pages sample_mc sample_thread None = Ret (th', Some i, Ok i) /\
    tptr i = sample_tp.
Proof.
  destruct (init_thread_once (Ok 12) (fun _ => Ok 3) 65536 any_pages sample_mc sample_thread sample_tp sample_geometry sample_kernel
    sample_thread_ok sample_thread_master) as (th' & info & r & E & _ & R).
  destruct r as [i|e].
  - destruct R as (-> & T & _). exists th', i. by split.
  - destruct R as (_ & _ & [R|(n & _ & R)]); discriminate R.
Defined.

(** A kernel in which the process is gone after the first wait. *)
Definition one_wait (k : bool) (_ : Z) : bool * result unit errno := if k then (false, Ok tt) else (false, Err (EOther 10)).

Lemma join_never_succeeds_witness :
  let i := mkInfo 0 1 3 0 0 "t" User 0 in join one_wait true i = Panic Explicit.
Proof.
  intros i. destruct (join_never_succeeds one_wait) with (k := true) (i := i) as [E|(k' & e & E)]; [|exact E|discriminate E].
  intros k k' fd Hw. destruct k; [|discriminate Hw]. injection Hw as <-. by eexists.
Defined.
