(* ===== verification/Exits.v ===== *)
(** * Signals installed, crashes and exits

    The installation of the signal handler (wl-impl/c/signal_support/x86_64.c), what a
    signal does afterwards, the end of a process by [exit_unrecoverably]
    (wl-impl/src/helpers.rs) and by a panic (wl-impl/src/panic.rs), the system calls
    that end a thread or a process, and what the parent is told.  The loops of
    wl-usi-io/src/poll.rs are here too. *)

From Stdlib Require Import ZArith Lia.
From stdpp Require Import base numbers list option strings gmap.
From S2P Require Import Prelude.
From S2P Require Import Errors.
From S2P Require Import Syscalls.
From S2P Require Import Signals.
From S2P Require Import IoCalls.
From S2P Require Import CRuntime.

Local Open Scope Z_scope.

(** ** Installation *)

Section Install.
Context (impl_restorer sa_handler_impl : Z) (refused : Z -> option Z).

(** [__install_sa_handler]: [for (int i = 0; i < 32; i++) sigaction(i, &sa, NULL)]. *)
Definition install_sa_handler (t : Z -> kernel_sigaction) : Z -> kernel_sigaction :=
  foldl (fun t i => (sigaction impl_restorer refused t i (Some (mkSa sa_handler_impl 0 SA_SIGINFO)) None).1)
    t (Z.of_nat <$> seq 0 32).

(** The action it installs. *)
Definition installed : kernel_sigaction :=
  mkKsa sa_handler_impl (Z.lor (Z.lor (Z.lor SA_SIGINFO SA_RESTORER) SA_SIGINFO) SA_RESTART) impl_restorer 0.

Lemma sigaction_at t i s :
  (sigaction impl_restorer refused t i (Some (mkSa sa_handler_impl 0 SA_SIGINFO)) None).1 s =
  if decide (s = i /\ refused i = None) then installed else t s.
Proof.
  unfold sigaction, rt_sigaction. destruct (refused i) as [e|] eqn:Er.
  - cbn [fst]. rewrite decide_False; [done|]. by intros [_ ?].
  - cbn [fst fmap option_fmap option_map]. destruct (Z.eqb_spec s i) as [->|].
    + by rewrite decide_True.
    + rewrite decide_False; [done|]. by intros [? _].
Qed.

Lemma install_from l : forall t s,
  foldl (fun t i => (sigaction impl_restorer refused t i (Some (mkSa sa_handler_impl 0 SA_SIGINFO)) None).1) t l s =
  if decide (s ∈ l /\ refused s = None) then installed else t s.
Proof.
  induction l as [|i l IH]; intros t s; cbn [foldl].
  - rewrite decide_False; [done|]. intros [H _]. by apply elem_of_nil in H.
  - rewrite IH, sigaction_at. repeat case_decide; try done; exfalso.
    + match goal with H : ~ (s ∈ i :: l /\ _) |- _ => apply H end. rewrite elem_of_cons. tauto.
    + match goal with H : ~ (s ∈ i :: l /\ _) |- _ => apply H end. destruct_and!. subst. rewrite elem_of_cons. tauto.
    + destruct_and!. match goal with H : s ∈ i :: l |- _ => apply elem_of_cons in H as [->|?] end; tauto.
Qed.

Lemma install_spec t s :
  install_sa_handler t s = if decide (0 <= s < 32 /\ refused s = None) then installed else t s.
Proof.
  unfold install_sa_handler. rewrite install_from.
  assert (s ∈ Z.of_nat <$> seq 0 32 <-> 0 <= s < 32) as E.
  { rewrite list_elem_of_fmap. split.
    - intros (k & -> & Hk). apply elem_of_seq in Hk. lia.
    - intros Hs. exists (Z.to_nat s). split; [lia|]. apply elem_of_seq. lia. }
  repeat case_decide; try done; tauto.
Qed.

(** ** What a signal does *)

(** The program goes on, the process ends with an exception, or the system call that
    trapped does not come back; [Other] is an action this library did not install. *)
Inductive signal_effect {W : Type} : Type :=
| Continues (c : mcontext) (w : W)
| Ends (except : option string)
| InCall (w : W)
| Other.
Definition on_signal {W} (UNSUPPORTED : Z) (impl : sysimpl W) (r : registry) (t : Z -> kernel_sigaction) (signo : Z)
    (c : mcontext) (w : W) : signal_effect :=
  if k_handler (t signo) =? sa_handler_impl then
    match sa_handler_seh UNSUPPORTED impl r signo c w with
    | Resume c' w' => Continues c' w'
    | ExitWith e => Ends e
    | StayInCall w' => InCall w'
    end
  else Other.

(** Once the handler is installed, every catchable signal below 32 goes through it:
    the trap of a system call is answered in the trapped context when the call returns, the
    death of a child is passed over, and every other one ends the process under an exception
    with a name (under none for SIGQUIT).  This includes the signals whose default is to do
    nothing, such as a change of the window size (28), urgent data (23) or a continuation
    (18). *)
Theorem installed_signals_fate {W} UNSUPPORTED (impl : sysimpl W) r t signo c w :
  0 <= signo < 32 -> refused signo = None ->
  on_signal UNSUPPORTED impl r (install_sa_handler t) signo c w =
    (if signo =? SIGSYS then
       match invoke_syscall_uctx UNSUPPORTED impl r c w with Resumed c' w' => Continues c' w' | NotBack w' => InCall w' end
     else if signo =? SIGCHLD then Continues c w
     else Ends (sig_to_except signo)) /\
  (signo ∉@{list Z} [SIGSYS; SIGCHLD; SIGQUIT] ->
     exists e n, on_signal UNSUPPORTED impl r (install_sa_handler t) signo c w = Ends (Some e) /\ strexcept e = Named n).
Proof.
  intros Hs Hr.
  assert (E : on_signal UNSUPPORTED impl r (install_sa_handler t) signo c w =
    (if signo =? SIGSYS then
       match invoke_syscall_uctx UNSUPPORTED impl r c w with Resumed c' w' => Continues c' w' | NotBack w' => InCall w' end
     else if signo =? SIGCHLD then Continues c w else Ends (sig_to_except signo))).
  { unfold on_signal. rewrite install_spec, decide_True by done. cbn [installed k_handler]. rewrite Z.eqb_refl.
    unfold sa_handler_seh. destruct (signo =? SIGSYS), (signo =? SIGCHLD); try done;
      by destruct (invoke_syscall_uctx _ _ _ _ _). }
  split; [exact E|]. rewrite !not_elem_of_cons. intros (N1 & N2 & N3 & _).
  rewrite E, (proj2 (Z.eqb_neq _ _) N1), (proj2 (Z.eqb_neq _ _) N2).
  destruct (sig_to_except signo) as [e|] eqn:Ee.
  - destruct (proj1 (Forall_forall _ _) codes_named e (sig_to_except_code _ _ Ee)) as [n Hn]. by exists e, n.
  - exfalso. apply N3. unfold sig_to_except in Ee. repeat case_hyp Ee; try done. by apply Z.eqb_eq.
Qed.
End Install.
Arguments signal_effect : clear implicits.

(** ** Crashes *)

(** What is printed: the place of a panic, or the name of an exception. *)
Inductive report_line : Type := Panicked | Crashing (e : StrExcept).

(** The functions on the way down: [at_panic], or [exit_unrecoverably]. *)
Inductive frame : Type := AtPanic | ExitUnrecoverably (except : option string).

(** How the way down ends: at the signals of [exit_unrecoverably], or when the stack is
    used up; with the lines printed until then. *)
Inductive crash_end : Type := ReachesSignals (l : list report_line) | Overflows (l : list report_line).
Definition prints (x : report_line) (e : crash_end) : crash_end :=
  match e with ReachesSignals l => ReachesSignals (x :: l) | Overflows l => Overflows (x :: l) end.

Section Crash.
(** Whether the [k]-th message reaches the standard error stream; [unwrap] panics when
    it does not. *)
Context (stderr_ok : nat -> bool).

(** The printing part of [at_panic] and [exit_unrecoverably].  The stack has room for
    [depth] further calls: [at_panic] calls [exit_unrecoverably], and in both a message that
    cannot be printed calls [at_panic]; none of these calls returns. *)
Fixpoint crash (depth k : nat) (f : frame) : crash_end :=
  match depth with
  | O => Overflows []
  | S depth =>
    match f with
    | AtPanic =>
      if stderr_ok k then prints Panicked (crash depth (S k) (ExitUnrecoverably (Some EMUL_ERROR)))
      else crash depth (S k) AtPanic
    | ExitUnrecoverably None => ReachesSignals []
    | ExitUnrecoverably (Some e) =>
      if stderr_ok k then ReachesSignals [Crashing (strexcept e)] else crash depth (S k) AtPanic
    end
  end.

(** The signals at its end: the action of SIGQUIT is reset, SIGQUIT and then SIGKILL are
    sent.  SIGQUIT ends the process unless it is [blocked]. *)
Definition final_signal (blocked : Z -> bool) : Z := if blocked SIGQUIT then SIGKILL else SIGQUIT.

(** The signal the process ends by and the lines it printed.  The fault of a stack without
    room is SIGSEGV; its handler has no stack of its own ([SA_ONSTACK] is not set), so Linux
    cannot call it and ends the process. *)
Definition ended (blocked : Z -> bool) (e : crash_end) : list report_line * Z :=
  match e with ReachesSignals l => (l, final_signal blocked) | Overflows l => (l, SIGSEGV) end.

(** [exit_unrecoverably] and [at_panic] as a whole. *)
Definition exit_unrecoverably (depth : nat) (blocked : Z -> bool) (except : option string) : list report_line * Z :=
  ended blocked (crash depth 0 (ExitUnrecoverably except)).
Definition at_panic (depth : nat) (blocked : Z -> bool) : list report_line * Z := ended blocked (crash depth 0 AtPanic).

(** [UnmanagedException] and [ExceptHandleSynchronous]. *)
Definition UnmanagedException (depth : nat) (blocked : Z -> bool) (except_code : string) : list report_line * Z :=
  exit_unrecoverably depth blocked (Some except_code).
Definition ExceptHandleSynchronous (depth : nat) (blocked : Z -> bool) (except_code : string) : list report_line * Z :=
  exit_unrecoverably depth blocked (Some except_code).
(** [__stack_chk_fail]. *)
Definition stack_chk_fail (depth : nat) (blocked : Z -> bool) : list report_line * Z :=
  exit_unrecoverably depth blocked (Some "466fbae6-be8b-5525-bd04-ee7153b74f55"%string).

(** How many of the [n] messages from the [k]-th on get through. *)
Fixpoint heard (k n : nat) : nat :=
  match n with O => 0 | S n => (if stderr_ok k then 1 else 0) + heard (S k) n end.

(** The [i]-th message and the one after it get through. *)
Definition pair_at (i : nat) : Prop := stderr_ok i = true /\ stderr_ok (S i) = true.

Definition all_panicked (n : nat) : list report_line := replicate n Panicked.

(** A panic with no pair of messages in reach. *)
Lemma crash_overflow depth : forall k, (forall i, (k <= i)%nat -> (i + 2 <= k + depth)%nat -> ~ pair_at i) ->
  crash depth k AtPanic = Overflows (all_panicked (heard k depth)).
Proof.
  induction depth as [depth IH] using (well_founded_induction lt_wf). intros k Hno.
  destruct depth as [|depth]; [done|]. cbn [crash heard]. destruct (stderr_ok k) eqn:Ek.
  - destruct depth as [|depth]; [done|]. cbn [crash heard].
    destruct (stderr_ok (S k)) eqn:Ek'; [by destruct (Hno k); [lia|lia|split]|].
    rewrite IH by (lia || (intros i Hi1 Hi2; apply Hno; lia)). done.
  - rewrite IH by (lia || (intros i Hi1 Hi2; apply Hno; lia)). done.
Qed.

(** A panic whose first pair of messages is in reach. *)
Lemma crash_reaches n : forall depth k, (forall i, (k <= i < k + n)%nat -> ~ pair_at i) -> pair_at (k + n) -> (n + 2 <= depth)%nat ->
  crash depth k AtPanic = ReachesSignals (all_panicked (heard k (S n)) ++ [Crashing (strexcept EMUL_ERROR)]).
Proof.
  induction n as [n IH] using (well_founded_induction lt_wf). intros depth k Hno [H0 H1] Hd.
  destruct depth as [|[|depth]]; [lia..|]. destruct n as [|n].
  - rewrite Nat.add_0_r in *. cbn [crash heard]. by rewrite H0, H1.
  - remember (S depth) as d1. cbn [crash]. cbn [heard]. destruct (stderr_ok k) eqn:Ek.
    + destruct (stderr_ok (S k)) eqn:Ek'; [by destruct (Hno k); [lia|split]|]. subst d1. cbn [crash]. rewrite Ek'.
      destruct n as [|n]; [replace (k + 1)%nat with (S k) in H0 by lia; congruence|].
      rewrite (IH n); [cbn [heard]; by rewrite ?Ek'|lia|intros i Hi; apply Hno; lia| |lia].
      replace (S (S k) + n)%nat with (k + S (S n))%nat by lia. done.
    + rewrite (IH n); [done|lia|intros i Hi; apply Hno; lia| |lia].
      replace (S k + n)%nat with (k + S n)%nat by lia. done.
Qed.

#[local] Instance pair_at_decision i : Decision (pair_at i).
Proof. unfold pair_at. apply _. Defined.

(** Either some pair is the first one in reach, or none is. *)
Lemma first_pair k n :
  (exists j, (j < n)%nat /\ pair_at (k + j) /\ forall i, (k <= i < k + j)%nat -> ~ pair_at i) \/
  (forall i, (k <= i < k + n)%nat -> ~ pair_at i).
Proof.
  induction n as [|n [(j & Hj & Hp & Hno)|Hno]]; [right; lia|left; exists j; split_and!; [lia|done|done]|].
  destruct (decide (pair_at (k + n))) as [Hp|Hp]; [left; exists n; split_and!; [lia|done|done]|right].
  intros i Hi. destruct (decide (i = k + n)%nat) as [->|]; [done|apply Hno; lia].
Qed.

End Crash.

(** What [JoinProcess] tells the parent about a crashed process does not depend on
    why it crashed.  Whatever the exception, or after a panic, the process ends by SIGQUIT,
    which is reported as an exit without an exception, by SIGKILL when SIGQUIT is
    blocked, reported as a kill, or by the fault of the full stack, reported as a memory
    access violation; the exception is only printed.  By contrast a process that Linux ends
    with another signal is reported under the exception of that signal. *)
Theorem crash_hidden_from_parent stderr_ok blocked depth l signo :
  (exists except, exit_unrecoverably stderr_ok depth blocked except = (l, signo)) \/ at_panic stderr_ok depth blocked = (l, signo) ->
  (signo = final_signal blocked /\ join_status (IoCalls.Signaled signo) =
    (if blocked SIGQUIT then ExitException "f2520097-7a84-54f6-baf6-380242841fe9" else ExitCodeDiscr USIZE_MAX) \/
   signo = SIGSEGV /\ join_status (IoCalls.Signaled signo) = ExitException "fcf8d451-89e6-50b5-b2e6-396aec58a74a") /\
  (forall s, s <> SIGQUIT -> exists x, sig_to_except s = Some x /\ join_status (IoCalls.Signaled s) = ExitException x).
Proof.
  intros H. assert (signo = final_signal blocked \/ signo = SIGSEGV) as Hs.
  { unfold exit_unrecoverably, at_panic, ended in H.
    destruct H as [[except H]|H]; destruct (crash _ _ _ _); injection H as _ <-; (by left) || (by right). }
  split.
  - destruct Hs as [->| ->]; [left|right]; (split; [done|]); [|done].
    unfold final_signal, join_status. by destruct (blocked SIGQUIT).
  - intros s Hne. unfold join_status. destruct (sig_to_except s) as [x|] eqn:E; [by exists x|].
    exfalso. apply Hne. unfold sig_to_except in E. repeat case_hyp E; try done. by apply Z.eqb_eq.
Qed.

(** ** Exits *)

(** [ExitThread] and [ExitProcess]: [raw] is what the kernel returns, if it does; the
    wrapper's result is unwrapped. *)
Inductive exit_effect : Type := Exits (code : Z) | Panics.
Definition exit_call (raw : option Z) (code : Z) : exit_effect :=
  match raw with
  | None => Exits code
  | Some raw =>
    match def_syscall from_raw_never raw with
    | Ret (Ok x) => match x with end
    | Ret (Err _) | Panic _ => Panics
    end
  end.
Definition ExitThread (raw : option Z) (code : Z) : exit_effect := exit_call raw code.
Definition ExitProcess (raw : option Z) (code : Z) : exit_effect := exit_call raw code.

(** [AwaitAddress] and [NotifyAddress]: [todo!()]. *)
Definition AwaitAddress : outcome (result unit SysError) := Panic Todo.
Definition NotifyAddress : outcome (result Z SysError) := Panic Todo.

(** ** Polling (wl-usi-io/src/poll.rs) *)

Inductive Status : Type := Done | Waiting | Working.

(** [process_one_job]: [cancel i] is the load of [cancel_slot] in turn [i]; [None] while
    the loop has not ended within [fuel] turns.  On cancellation the slot is stored as
    [true] (again) and the status becomes [Done]. *)
Fixpoint process_one_job (cancel : nat -> bool) (fuel i : nat) (s : Status) : option Status :=
  match fuel with
  | O => None
  | S fuel =>
    match s with
    | Waiting => process_one_job cancel fuel (S i) s
    | Working => if cancel i then Some Done else process_one_job cancel fuel (S i) s
    | Done => Some Waiting
    end
  end.

(** [Drop for CancelationHandle]: [ptr] is the value swapped out, [load i] the [i]-th load
    of the wait for the slot to be filled again. *)
Fixpoint spin_null (load : nat -> Z) (fuel i : nat) : option unit :=
  match fuel with
  | O => None
  | S fuel => if load i =? 0 then spin_null load fuel (S i) else Some tt
  end.
Definition drop_cancelation (load : nat -> Z) (fuel : nat) (ptr : Z) : option unit :=
  if ptr =? USIZE_MAX then Some tt else spin_null load fuel 0.

(** A job: descriptor and direction, the user's buffer, its length, the offset in the file. *)
Record JobBlock : Type := mkJob { fd_and_type : Z; uptr : Z; total_len : Z; job_offset : Z }.
Definition JobBlock_zeroed : JobBlock := mkJob 0 0 0 0.

Section Jobs.
(** [Links], [MpscQueue] and its constructor from a stub, and where the compiler places
    the links inside of a job. *)
Context {Links Queue : Type} (new_stub : Links) (OFF_next_job : Z).

Record PendingJob : Type := mkPending { next_job : Links; processor_waker : Z; job : JobBlock }.
Context (new_with_static_stub : PendingJob -> Queue).

(** Boxes by address.  [Linked::into_ptr] gives the allocation up and keeps its contents,
    [from_ptr] takes it back. *)
Definition into_ptr (owned : gmap Z PendingJob) (r : Z) : gmap Z PendingJob * option (Z * PendingJob) :=
  (delete r owned, (fun j => (r, j)) <$> owned !! r).
Definition from_ptr (owned : gmap Z PendingJob) (p : Z * PendingJob) : gmap Z PendingJob := <[p.1 := p.2]> owned.
Definition links (ptr : Z) : Z := ptr + OFF_next_job.

Record IoJobBuffer : Type := mkBuffer { job_queue : Queue; active_jobs : list Z }.
Definition STUB : PendingJob := mkPending new_stub 0 JobBlock_zeroed.
Definition BUFFER : IoJobBuffer := mkBuffer (new_with_static_stub STUB) (replicate 31 USIZE_MAX).

(** A job that is enqueued and taken out again is owned as before, and meanwhile by the
    queue alone; at the start no slot is in use, and the index 31 that the comment of
    [processor_waker] keeps free is the one past the slots. *)
Theorem job_ownership owned r j :
  owned !! r = Some j ->
  exists p, (into_ptr owned r).2 = Some p /\ (into_ptr owned r).1 !! r = None /\ from_ptr (into_ptr owned r).1 p = owned /\
    (forall k, active_jobs BUFFER !! k = if decide (k < 31)%nat then Some USIZE_MAX else None).
Proof.
  intros Hr. exists (r, j). unfold into_ptr, from_ptr. cbn [fst snd]. rewrite Hr. split_and!; [done|apply lookup_delete_eq| |].
  - by apply insert_delete_id.
  - intros k. cbn [active_jobs BUFFER]. case_decide; [by apply lookup_replicate_2|apply lookup_replicate_None; lia].
Qed.
End Jobs.

Lemma process_waiting cancel fuel : forall i, process_one_job cancel fuel i Waiting = None.
Proof. induction fuel as [|fuel IH]; intros i; [done|]. apply IH. Qed.
Lemma process_working cancel fuel : forall i,
  process_one_job cancel fuel i Working = (if decide (Exists (fun j => cancel j = true) (seq i fuel)) then Some Done else None).
Proof.
  induction fuel as [|fuel IH]; intros i; cbn [process_one_job seq].
  - rewrite decide_False; [done|]. by intros H%Exists_nil.
  - destruct (cancel i) eqn:E.
    + by rewrite decide_True by (by apply Exists_cons; left).
    + rewrite IH. assert (Exists (fun j => cancel j = true) (i :: seq (S i) fuel) <-> Exists (fun j => cancel j = true) (seq (S i) fuel)) as Hi
        by (rewrite Exists_cons; rewrite E; naive_solver).
      by apply decide_ext.
Qed.

Lemma spin_null_forever load : (forall i, load i = 0) -> forall fuel i, spin_null load fuel i = None.
Proof. intros Hl. induction fuel as [|fuel IH]; intros i; [done|]. cbn [spin_null]. rewrite Hl. apply IH. Qed.

(** [process_one_job] returns from [Working] exactly when it sees a cancellation,
    and from [Done] at once; but it leaves [Waiting] behind, from which no call ever
    returns, whatever the other threads do.  So of three calls in a row the third hangs.
    Dropping a cancellation handle whose job is not over spins as long as its slot stays
    empty. *)
Theorem third_job_hangs cancel1 cancel2 cancel3 :
  (forall fuel, process_one_job cancel1 fuel 0 Working = Some Done <-> exists i, (i < fuel)%nat /\ cancel1 i = true) /\
  (forall fuel s, process_one_job cancel1 fuel 0 Working = Some s -> s = Done) /\
  process_one_job cancel2 1 0 Done = Some Waiting /\
  (forall fuel, process_one_job cancel3 fuel 0 Waiting = None) /\
  (forall load fuel ptr, (forall i, load i = 0) -> drop_cancelation load fuel ptr = if ptr =? USIZE_MAX then Some tt else None).
Proof.
  split_and!; [| |done|intros; apply process_waiting|].
  - intros fuel. rewrite process_working. case_decide as D; split; try done.
    + intros _. apply list.Exists_exists in D as (i & Hi & Hc). apply elem_of_seq in Hi. exists i. split; [lia|done].
    + intros (i & Hi & Hc). exfalso. apply D, list.Exists_exists. exists i. split; [apply elem_of_seq; lia|done].
  - intros fuel s. rewrite process_working. case_decide; by intros [= <-].
  - intros load fuel ptr Hl. unfold drop_cancelation. destruct (ptr =? USIZE_MAX); [done|]. by apply spin_null_forever.
Qed.

(** ** Concrete inputs *)

Lemma job_ownership_witness :
  exists p, (into_ptr {[4096 := mkPending tt 0 JobBlock_zeroed]} 4096).2 = Some p /\
    from_ptr (into_ptr {[4096 := mkPending tt 0 JobBlock_zeroed]} 4096).1 p = {[4096 := mkPending tt 0 JobBlock_zeroed]}.
Proof.
  assert (H : ({[4096 := mkPending tt 0 JobBlock_zeroed]} : gmap Z PendingJob) !! 4096 = Some (mkPending tt 0 JobBlock_zeroed)) by reflexivity.
  destruct (job_ownership tt (fun _ => tt) _ _ _ H) as (p & H1 & _ & H2 & _). exists p. split; [exact H1|exact H2].
Defined.

Lemma installed_signals_fate_witness :
  exists e n, on_signal 4096 0 (fun _ _ _ _ _ _ _ w => Returned 0 w) reg_init
      (install_sa_handler 8192 4096 (fun s => if bool_decide (s ∈@{list Z} [0; 9; 19]) then Some 22 else None) (fun _ => mkKsa 0 0 0 0))
      28 (mkCtx 0 0 0 0 0 0 0 []) tt = Ends (Some e) /\ strexcept e = Named n.
Proof.
  destruct (installed_signals_fate 8192 4096 (fun s => if bool_decide (s ∈@{list Z} [0; 9; 19]) then Some 22 else None)
    0 (fun _ _ _ _ _ _ _ w => Returned 0 w) reg_init (fun _ => mkKsa 0 0 0 0) 28 (mkCtx 0 0 0 0 0 0 0 []) tt ltac:(lia) ltac:(by vm_compute)) as [_ H].
  apply H. apply (bool_decide_unpack _). by vm_compute.
Defined.


(** A panic of a process whose first message is lost: the parent sees no exception. *)
Lemma crash_hidden_from_parent_witness :
  at_panic (fun k => negb (Nat.eqb k 0)) 4 (fun _ => false) = ([Panicked; Crashing (strexcept EMUL_ERROR)], SIGQUIT) /\
  (SIGQUIT = final_signal (fun _ => false) /\ join_status (IoCalls.Signaled SIGQUIT) = ExitCodeDiscr USIZE_MAX \/
   SIGQUIT = SIGSEGV /\ join_status (IoCalls.Signaled SIGQUIT) = ExitException "fcf8d451-89e6-50b5-b2e6-396aec58a74a").
Proof.
  split; [reflexivity|].
  refine (proj1 (crash_hidden_from_parent (fun k => negb (Nat.eqb k 0)) (fun _ => false) 4 [Panicked; Crashing (strexcept EMUL_ERROR)] SIGQUIT _)).
  right. reflexivity.
Defined.
