(* ===== verification/Abi.v ===== *)
(** * The types of system calls (wl-impl/src/syscall_helpers.rs)

    [export_syscall!] accepts a function whose parameters implement [SyscallParam] and
    whose result implements [SyscallRet], and makes it an [extern "sysv64"] function.  The
    traits are an inductive predicate on the types that occur, with the decision the
    compiler makes; the functions the subsystems export are data; and the registers a
    trapped call carries are read as their arguments. *)

From Stdlib Require Import ZArith Lia.
From stdpp Require Import base numbers list option strings.
From S2P Require Import Prelude.
From S2P Require Import Errors.
From S2P Require Import Syscalls.

Local Open Scope Z_scope.

(** ** Types *)

Inductive rty : Type :=
| TUsize | TIsize | TU32 | TI32 | TU64 | TI64 | TUnit | TNever
| TNamed (name : string)              (** a type that is only pointed to *)
| THandlePtr (t : rty) | TMut (t : rty) | TConst (t : rty)
| TUuid | TKCSlice (t : rty) | TKSlice (t : rty) | TKStrCPtr
| TMaybeValid (t : rty)
| TFn (unwind : bool) (args : list rty) (ret : rty)   (** [extern "system"(-unwind) fn] *)
| TOption (t : rty).

(** [SysretTy] and [SyscallParam]. *)
Inductive SysretTy : rty -> Prop :=
| R_usize : SysretTy TUsize | R_isize : SysretTy TIsize | R_u32 : SysretTy TU32 | R_i32 : SysretTy TI32
| R_u64 : SysretTy TU64 | R_i64 : SysretTy TI64 | R_unit : SysretTy TUnit | R_never : SysretTy TNever.

(** [def_fn_tys!] is used for up to six parameters. *)
Definition MAX_FN_PARAMS : nat := 6.

Inductive SyscallParam : rty -> Prop :=
| P_usize : SyscallParam TUsize | P_isize : SyscallParam TIsize | P_u32 : SyscallParam TU32 | P_i32 : SyscallParam TI32
| P_u64 : SyscallParam TU64 | P_i64 : SyscallParam TI64
| P_handle t : SyscallParam (THandlePtr t) | P_mut t : SyscallParam (TMut t) | P_const t : SyscallParam (TConst t)
| P_uuid : SyscallParam TUuid | P_kcslice t : SyscallParam (TKCSlice t) | P_kslice t : SyscallParam (TKSlice t)
| P_kstr : SyscallParam TKStrCPtr
| P_maybe t : SyscallParam t -> SyscallParam (TMaybeValid t)
| P_fn u args r : (length args <= MAX_FN_PARAMS)%nat -> Forall SyscallParam args -> SysretTy r -> SyscallParam (TFn u args r)
| P_opt_fn u args r : (length args <= MAX_FN_PARAMS)%nat -> Forall SyscallParam args -> SysretTy r ->
    SyscallParam (TOption (TFn u args r)).

(** What the compiler checks in [__test_params]. *)
Definition is_sysret (t : rty) : bool :=
  match t with TUsize | TIsize | TU32 | TI32 | TU64 | TI64 | TUnit | TNever => true | _ => false end.
Fixpoint is_param (t : rty) : bool :=
  match t with
  | TUsize | TIsize | TU32 | TI32 | TU64 | TI64 | TUuid | TKStrCPtr => true
  | THandlePtr _ | TMut _ | TConst _ | TKCSlice _ | TKSlice _ => true
  | TMaybeValid t => is_param t
  | TFn _ args r | TOption (TFn _ args r) => Nat.leb (length args) MAX_FN_PARAMS && forallb is_param args && is_sysret r
  | _ => false
  end.

(** Induction through the parameters of function types. *)
Lemma rty_nested_ind (P : rty -> Prop) :
  P TUsize -> P TIsize -> P TU32 -> P TI32 -> P TU64 -> P TI64 -> P TUnit -> P TNever ->
  (forall n, P (TNamed n)) -> (forall t, P t -> P (THandlePtr t)) -> (forall t, P t -> P (TMut t)) ->
  (forall t, P t -> P (TConst t)) -> P TUuid -> (forall t, P t -> P (TKCSlice t)) -> (forall t, P t -> P (TKSlice t)) ->
  P TKStrCPtr -> (forall t, P t -> P (TMaybeValid t)) ->
  (forall u args r, Forall P args -> P r -> P (TFn u args r)) -> (forall t, P t -> P (TOption t)) ->
  forall t, P t.
Proof.
  intros H1 H2 H3 H4 H5 H6 H7 H8 Hn Hh Hm Hc Hu Hk Hs Hp Hv Hf Ho.
  exact (fix go (t : rty) : P t :=
    match t with
    | TUsize => H1 | TIsize => H2 | TU32 => H3 | TI32 => H4 | TU64 => H5 | TI64 => H6 | TUnit => H7 | TNever => H8
    | TNamed n => Hn n | THandlePtr t => Hh t (go t) | TMut t => Hm t (go t) | TConst t => Hc t (go t)
    | TUuid => Hu | TKCSlice t => Hk t (go t) | TKSlice t => Hs t (go t) | TKStrCPtr => Hp
    | TMaybeValid t => Hv t (go t)
    | TFn u args r =>
      Hf u args r ((fix all l : Forall P l := match l with [] => Forall_nil_2 P | a :: l => Forall_cons_2 P a l (go a) (all l) end) args) (go r)
    | TOption t => Ho t (go t)
    end).
Qed.

Lemma is_sysret_spec t : is_sysret t = true <-> SysretTy t.
Proof. split; [by destruct t; try done; constructor|by intros []]. Qed.

Lemma fn_params_spec (args : list rty) r :
  Forall (fun t => is_param t = true <-> SyscallParam t) args ->
  Nat.leb (length args) MAX_FN_PARAMS && forallb is_param args && is_sysret r = true <->
  ((length args <= MAX_FN_PARAMS)%nat /\ Forall SyscallParam args /\ SysretTy r).
Proof.
  intros Ha. rewrite !andb_true_iff, Nat.leb_le, is_sysret_spec. enough (forallb is_param args = true <-> Forall SyscallParam args) by tauto.
  induction Ha as [|t args Ht _ IH]; cbn [forallb]; [done|]. rewrite andb_true_iff, Forall_cons. tauto.
Qed.

(** The check accepts exactly the types that implement the trait; [Option] is looked
    through only above a function type, so the induction carries the pair. *)
Lemma is_param_spec t : is_param t = true <-> SyscallParam t.
Proof.
  enough (H : (is_param t = true <-> SyscallParam t) /\
    match t with TFn u args r => Forall (fun t => is_param t = true <-> SyscallParam t) args | _ => True end) by apply H.
  induction t as [| | | | | | | | | | | | | | | |t [IH _]|u args r IHa IHr|t [IHt IH]] using rty_nested_ind;
    try (split; [split; [by intros _; constructor|done]|done]); try (split; [split; [done|by inversion 1]|done]).
  - split; [|done]. cbn [is_param]. rewrite IH. split; [by constructor|by inversion 1].
  - assert (Forall (fun t => is_param t = true <-> SyscallParam t) args) as Hargs
      by (eapply Forall_impl; [exact IHa|]; by intros ? [? _]).
    split; [|done]. cbn [is_param]. rewrite fn_params_spec by done.
    split; [intros (?&?&?); by constructor|by inversion 1].
  - split; [|done]. destruct t; try (split; [done|by inversion 1]).
    cbn [is_param]. rewrite fn_params_spec by done. split; [intros (?&?&?); by constructor|by inversion 1].
Qed.

#[export] Instance SyscallParam_dec t : Decision (SyscallParam t).
Proof. destruct (is_param t) eqn:E; [left; by apply is_param_spec|right; intros ?%is_param_spec; congruence]. Defined.

(** ** Exported functions *)

(** The results that implement [SyscallRet]: [!], [Result<()>] and [Result<usize>]. *)
Inductive sret : Type := RetNever | RetUnit | RetUsize.
Definition Sys (r : sret) : rty := match r with RetNever => TNever | RetUnit | RetUsize => TIsize end.

Record signature : Type := mkSig { s_name : string; s_params : list rty; s_ret : sret }.

Definition sig_UnmanagedException : signature := mkSig "UnmanagedException" [TConst (TNamed "ExceptionStatusInfo")] RetNever.
Definition sig_ExceptHandleSynchronous : signature :=
  mkSig "ExceptHandleSynchronous" [TConst (TNamed "ExceptionStatusInfo"); TConst (TNamed "c_void")] RetUnit.
Definition sig_GetSystemInfo : signature := mkSig "GetSystemInfo" [TKSlice (TNamed "SysInfoRequest")] RetUnit.
Definition sig_OpenDevice : signature := mkSig "OpenDevice" [TMut (THandlePtr (TNamed "DeviceHandle")); TUuid] RetUnit.
Definition sig_IOWrite : signature := mkSig "IOWrite" [THandlePtr (TNamed "IOHandle"); TConst (TNamed "c_void"); TUsize] RetUsize.
Definition sig_IORead : signature := mkSig "IORead" [THandlePtr (TNamed "IOHandle"); TMut (TNamed "c_void"); TUsize] RetUsize.
Definition sig_OpenFile : signature :=
  mkSig "OpenFile" [TMut (THandlePtr (TNamed "FileHandle")); THandlePtr (TNamed "FileHandle"); TKStrCPtr; TConst (TNamed "FileOpenOptions")] RetUnit.
Definition sig_CreateProcess : signature :=
  mkSig "CreateProcess" [TMut (THandlePtr (TNamed "ProcessHandle")); THandlePtr (TNamed "FileHandle"); TConst TKStrCPtr;
                         TConst (TKCSlice (TNamed "CreateProcessOption"))] RetUnit.
Definition sig_JoinProcess : signature := mkSig "JoinProcess" [THandlePtr (TNamed "ProcessHandle"); TMut (TNamed "JoinStatus")] RetUnit.
Definition sig_ExitProcess : signature := mkSig "ExitProcess" [TI32] RetNever.
Definition sig_CreateMapping : signature :=
  mkSig "CreateMapping" [TMut (TMut (TNamed "c_void")); TIsize; TU32; TU32; TConst (TKCSlice (TNamed "MapExtendedAttr"))] RetUnit.
Definition sig_RemoveMapping : signature := mkSig "RemoveMapping" [TMut (TNamed "c_void"); TIsize] RetUnit.
Definition sig_ResizeMapping : signature :=
  mkSig "ResizeMapping" [TMut (TNamed "c_void"); TIsize; TMut (TMut (TNamed "c_void")); TIsize] RetUnit.
Definition sig_ChangeMappingAttributes : signature :=
  mkSig "ChangeMappingAttributes" [TMut (TNamed "c_void"); TIsize; TU32; TConst (TKCSlice (TNamed "MapExtendedAttr"))] RetUnit.
Definition sig_ExitThread : signature := mkSig "ExitThread" [TI32] RetNever.
Definition sig_AwaitAddress : signature :=
  mkSig "AwaitAddress" [TMut TUsize; TMut TUsize; TUsize; TKCSlice (TNamed "AwaitAddrOption")] RetUnit.
Definition sig_NotifyAddress : signature :=
  mkSig "NotifyAddress" [TMut TUsize; TUsize; TUsize; TKCSlice (TNamed "NotifyAddressOption")] RetUsize.

Definition exports : list signature :=
  [sig_UnmanagedException; sig_ExceptHandleSynchronous; sig_GetSystemInfo; sig_OpenDevice; sig_IOWrite; sig_IORead; sig_OpenFile;
   sig_CreateProcess; sig_JoinProcess; sig_ExitProcess; sig_CreateMapping; sig_RemoveMapping; sig_ResizeMapping;
   sig_ChangeMappingAttributes; sig_ExitThread; sig_AwaitAddress; sig_NotifyAddress].

(** ** Arguments in registers *)

(** The sizes in words of the types of [lilium_sys]. *)
Record layout : Type := mkLayout { w_handle : nat; w_slice : nat; w_str : nat; w_uuid : nat }.

Section Registers.
Context (lay : layout).

(** The integer registers a value takes in the calling convention. *)
Fixpoint reg_words (t : rty) : nat :=
  match t with
  | TUnit | TNever | TNamed _ => 0
  | THandlePtr _ => w_handle lay
  | TUuid => w_uuid lay
  | TKCSlice _ | TKSlice _ => w_slice lay
  | TKStrCPtr => w_str lay
  | TMaybeValid t | TOption t => reg_words t
  | _ => 1
  end.

(** The range of a word of a value, and the bits of a register that carry it. *)
Fixpoint word_bits (t : rty) : Z := match t with TU32 | TI32 => 32 | TMaybeValid t => word_bits t | _ => 64 end.
Fixpoint is_signed (t : rty) : bool := match t with TI32 | TIsize | TI64 => true | TMaybeValid t => is_signed t | _ => false end.
Definition word_ok (t : rty) (x : Z) : Prop :=
  if is_signed t then - 2 ^ (word_bits t - 1) <= x < 2 ^ (word_bits t - 1) else 0 <= x < 2 ^ word_bits t.
Definition has_type (t : rty) (v : list Z) : Prop := length v = reg_words t /\ Forall (word_ok t) v.

(** A function of the convention reads its parameters from the registers in order; of a
    register with a 32-bit value it uses the lower half. *)
Definition read_word (t : rty) (w : Z) : Z := if is_signed t then swrap (word_bits t) w else wrap (word_bits t) w.
Fixpoint read_args (ts : list rty) (regs : list Z) : option (list (list Z)) :=
  match ts with
  | [] => Some []
  | t :: r =>
    if decide (reg_words t <= length regs)%nat then
      vs ← read_args r (drop (reg_words t) regs);
      Some ((read_word t <$> take (reg_words t) regs) :: vs)
    else None
  end.

(** The caller puts the words of its arguments into the registers in order; the bits
    above a 32-bit value are arbitrary. *)
Inductive passes : list rty -> list (list Z) -> list Z -> Prop :=
| passes_nil regs : passes [] [] regs
| passes_cons t ts v vs ws regs :
    length v = reg_words t -> Forall2 (fun x w => wrap (word_bits t) w = wrap (word_bits t) x) v ws ->
    passes ts vs regs -> passes (t :: ts) (v :: vs) (ws ++ regs).

Lemma word_bits_range t : word_bits t = 32 \/ word_bits t = 64.
Proof. induction t; simpl; auto. Qed.

Lemma read_word_typed t w : word_ok t (read_word t w).
Proof.
  unfold word_ok, read_word, swrap, wrap. destruct (word_bits_range t) as [-> | ->]; destruct (is_signed t);
    (match goal with |- context [w mod 2 ^ ?b] => pose proof (Z.mod_pos_bound w (2 ^ b) ltac:(lia)) end);
    try case_match; reflect_bools; lia.
Qed.

Lemma read_word_passes t x w : word_ok t x -> wrap (word_bits t) w = wrap (word_bits t) x -> read_word t w = x.
Proof.
  unfold word_ok, read_word, swrap. intros Hx ->. unfold wrap.
  destruct (word_bits_range t) as [E | E]; rewrite E in *; destruct (is_signed t); try (apply Z.mod_small; lia);
    (destruct (Z.lt_ge_cases x 0);
     [rewrite <- (Z_mod_plus_full x 1), (Z.mod_small (x + _)) by lia|rewrite (Z.mod_small x) by lia]; case_match; reflect_bools; lia).
Qed.

Lemma read_args_typed ts regs :
  (sum_list_with reg_words ts <= length regs)%nat ->
  exists vs, read_args ts regs = Some vs /\ Forall2 has_type ts vs.
Proof.
  revert regs. induction ts as [|t ts IH]; intros regs Hn; cbn [read_args sum_list_with] in *; [by exists []|].
  rewrite decide_True by lia. destruct (IH (drop (reg_words t) regs)) as (vs & -> & Hvs); [rewrite length_drop; lia|].
  cbn [mbind option_bind]. eexists. split; [done|]. constructor; [|done]. split.
  - rewrite length_fmap, length_take. lia.
  - apply Forall_fmap, Forall_true. intros w. apply read_word_typed.
Qed.

Lemma read_args_passes ts vs regs : Forall2 has_type ts vs -> passes ts vs regs -> read_args ts regs = Some vs.
Proof.
  intros Ht Hp. induction Hp as [regs|t ts v vs ws regs Hl Hw Hp IH]; [done|].
  apply Forall2_cons in Ht as [[_ Hv] Ht]. pose proof (Forall2_length _ _ _ Hw) as Hlen. cbn [read_args].
  rewrite decide_True by (rewrite length_app; lia).
  rewrite drop_app_length', take_app_length' by lia. rewrite IH by done. cbn [mbind option_bind]. do 2 f_equal.
  clear -Hv Hw. induction Hw as [|x w v ws Hx _ IH]; [done|]. apply Forall_cons in Hv as [Hx' Hv].
  cbn [fmap list_fmap]. f_equal; [by apply read_word_passes|by apply IH].
Qed.
End Registers.

(** The layouts the sources rely on: a handle is a pointer, a slice or string a pointer
    and a length, a UUID 128 bits. *)
Definition lilium_layout (lay : layout) : Prop := lay = mkLayout 1 2 2 2.

Definition exported (n : string) : option signature := find (fun e => bool_decide (s_name e = n)) exports.

Lemma exported_in n e : exported n = Some e -> e ∈ exports.
Proof. intros E. apply list_elem_of_In. by apply find_some in E as [? _]. Qed.

(** Every function the subsystems export type-checks as a system call, its result is a
    register type, and its arguments fit into the six registers a trapped call carries:
    whatever these registers hold, the function gets well-typed arguments, and when the
    caller put well-typed arguments there (with anything above 32-bit values) it gets
    exactly those.  The functions the default subsystems register are among them. *)
Theorem exported_calls_typed lay regs :
  lilium_layout lay -> length regs = 6%nat ->
  (forall e, e ∈ exports ->
     Forall SyscallParam (s_params e) /\ SysretTy (Sys (s_ret e)) /\
     exists args, read_args lay (s_params e) regs = Some args /\ Forall2 (has_type lay) (s_params e) args /\
       forall vs, Forall2 (has_type lay) (s_params e) vs -> passes lay (s_params e) vs regs -> args = vs) /\
  (forall a b x, x ∈ boot_entries a b -> exists e, exported x.2 = Some e /\ e ∈ exports).
Proof.
  intros -> Hr.
  assert (Hall : forallb (fun e => forallb is_param (s_params e) && Nat.leb (sum_list_with (reg_words (mkLayout 1 2 2 2)) (s_params e)) 6) exports = true)
    by reflexivity.
  split.
  - intros e He. rewrite forallb_forall in Hall. specialize (Hall e (proj1 (list_elem_of_In _ _) He)).
    apply andb_true_iff in Hall as [Hp Hn]. apply Nat.leb_le in Hn. split; [|split].
    + apply Forall_forall. intros t Ht. apply is_param_spec. rewrite forallb_forall in Hp. by apply Hp, list_elem_of_In.
    + destruct (s_ret e); constructor.
    + destruct (read_args_typed (mkLayout 1 2 2 2) (s_params e) regs) as (args & E & Ht); [lia|].
      exists args. split_and!; [done..|]. intros vs Hv Hpass. rewrite (read_args_passes _ _ _ _ Hv Hpass) in E. congruence.
  - intros a b x Hx. unfold boot_entries in Hx.
    enough (exists e, exported x.2 = Some e) as [e E] by (exists e; split; [done|by apply exported_in in E]).
    repeat (apply elem_of_cons in Hx as [->|Hx]; [by eexists; vm_compute|]). by apply elem_of_nil in Hx.
Qed.

(** ** Exported bodies *)

Section Bodies.
Context (lay : layout) (into_code : SysError -> Z).

(** The function [export_syscall!] makes of a body, for each of the results: it reads its
    parameters, runs the body to its end ([?] and [return] leave only the body) and turns
    the result into a register. *)
Definition export_syscall {R} (into_sys : R -> Z) (params : list rty) (body : list (list Z) -> outcome R)
    (regs : list Z) : option (outcome Z) :=
  args ← read_args lay params regs; Some (ret_val ← body args; Ret (into_sys ret_val)).
Definition export_unit := export_syscall (into_sys_unit into_code).
Definition export_usize := export_syscall (into_sys_usize into_code).
(** [!] has no values: the body does not return. *)
Definition into_sys_never (r : Empty_set) : Z := match r with end.
Definition export_never := export_syscall into_sys_never.

(** Error codes are negative, as the interface of the kernel says: the sign of the
    returned register then tells a failure from a success, the code or the value is in
    it, and a call with result [!] returns nothing. *)
Theorem exported_results params regs args :
  (forall e, -2 ^ 63 <= into_code e < 0) -> read_args lay params regs = Some args ->
  (forall body r, body args = Ret r -> exists x, export_unit params body regs = Some (Ret x) /\
     match r with Ok _ => x = 0 | Err e => x = into_code e /\ x < 0 end) /\
  (forall body r, body args = Ret r -> exists x, export_usize params body regs = Some (Ret x) /\
     match r with Ok v => 0 <= v < 2 ^ 63 -> x = v | Err e => x = into_code e /\ x < 0 end) /\
  (forall R into (body : list (list Z) -> outcome R) p, body args = Panic p -> export_syscall into params body regs = Some (Panic p)) /\
  (forall body x, export_never params body regs <> Some (Ret x)).
Proof.
  intros Hc Ha. unfold export_unit, export_usize, export_never, export_syscall. rewrite Ha.
  cbn [mbind option_bind]. split_and!.
  - intros body r ->. eexists. split; [done|]. destruct r as [[]|e]; [done|]. split; [done|apply Hc].
  - intros body r ->. eexists. split; [done|]. destruct r as [v|e]; [|split; [done|apply Hc]].
    intros Hv. cbn. unfold as_isize, swrap. rewrite wrap_small by lia. case_match; reflect_bools; lia.
  - by intros R into body p ->.
  - intros body x. destruct (body args) as [[]|p]; done.
Qed.
End Bodies.

(** ** Concrete inputs *)

Definition sample_code (e : SysError) : Z := match e with Permission => -1 | _ => -2048 end.

(** [IOWrite] of three bytes. *)
Definition write_all (args : list (list Z)) : outcome (result Z SysError) :=
  match args with [_; _; [n]] => Ret (Ok n) | _ => Ret (Err InvalidOption) end.

Lemma exported_results_witness :
  export_usize (mkLayout 1 2 2 2) sample_code (s_params sig_IOWrite) write_all [1; 4096; 3; 0; 0; 0] = Some (Ret 3).
Proof.
  assert (Hc : forall e, -2 ^ 63 <= sample_code e < 0) by (intros []; cbn; lia).
  destruct (exported_results (mkLayout 1 2 2 2) sample_code (s_params sig_IOWrite) [1; 4096; 3; 0; 0; 0] [[1]; [4096]; [3]] Hc eq_refl)
    as (_ & H & _).
  destruct (H write_all (Ok 3) eq_refl) as (x & E & Hx). rewrite E, Hx by lia. reflexivity.
Defined.

(** [CreateMapping] with a page count of -1 and a garbage upper half around the flags. *)
Definition sample_regs : list Z := [4096; 2 ^ 64 - 1; 2 ^ 32 * 77 + 3; 2 ^ 32 * 5 + 1; 0; 99].
Definition sample_args : list (list Z) := [[4096]; [-1]; [3]; [1]; [0]].

Lemma passes_word lay t ts x vs w regs :
  reg_words lay t = 1%nat -> wrap (word_bits t) w = wrap (word_bits t) x -> passes lay ts vs regs ->
  passes lay (t :: ts) ([x] :: vs) (w :: regs).
Proof. intros Ht Hw Hp. apply (passes_cons lay t ts [x] vs [w] regs); [done|by constructor|done]. Qed.

Lemma exported_calls_typed_witness :
  read_args (mkLayout 1 2 2 2) (s_params sig_CreateMapping) sample_regs = Some sample_args.
Proof.
  destruct (exported_calls_typed (mkLayout 1 2 2 2) sample_regs eq_refl eq_refl) as [H _].
  destruct (H sig_CreateMapping) as (_ & _ & args & E & _ & U); [do 10 right; left|].
  rewrite E, (U sample_args); [done| |].
  - repeat constructor; vm_compute; congruence.
  - do 5 (apply passes_word; [done|by vm_compute|]). constructor.
Defined.
