(* ===== verification/Emulate.v ===== *)
(** * A system call of the emulated program, from end to end

    [__wl_impl_setup_process] (wl-impl/src/lib.rs) installs the signal handler, seeds the
    random generator and asks Linux to turn the system calls made outside the native
    region into signals; the region is the one [__rust_entry] reserves.  Here the address
    space of [Entry], the handler of [Exits] and [Signals], and the tables of [Syscalls]
    meet: which instruction reaches which function. *)

From Stdlib Require Import ZArith Lia.
From stdpp Require Import base numbers list option strings gmap.
From S2P Require Import Prelude.
From S2P Require Import Syscalls.
From S2P Require Import Signals.
From S2P Require Import CRuntime.
From S2P Require Import Rand.
From S2P Require Import Tls.
From S2P Require Import Entry.
From S2P Require Import Exits.
From S2P Require Import Abi.

Local Open Scope Z_scope.

(** Constants of wl-impl/src/libc.rs. *)
Definition PR_SET_SYSCALL_USER_DISPATCH : Z := 59.
Definition PR_SYS_DISPATCH_OFF : Z := 0.
Definition PR_SYS_DISPATCH_ON : Z := 1.
Definition SYSCALL_DISPATCH_FILTER_ALLOW : Z := 0.
Definition SYSCALL_DISPATCH_FILTER_BLOCK : Z := 1.

(** [SYS_INTERCEPT_STOP]: the selector byte of the thread, which nothing changes. *)
Definition SYS_INTERCEPT_STOP : Z := 1.

Section Emulate.
Context {H : Type} (seed : Z -> Z -> H).
(** The C side of the handler, and the signals Linux refuses to change. *)
Context (impl_restorer sa_handler_impl : Z) (refused : Z -> option Z).
(** The answer to [prctl] with its five arguments, and the address of the selector. *)
Context (prctl : list Z -> Z) (selector : Z).

(** A process after its set-up: the actions of its signals, the filter [prctl] was given
    and the generators. *)
Record process : Type := mkProc {
  actions : Z -> kernel_sigaction;
  filter : option (list Z);
  gens : @rand_state H }.

Definition wl_impl_setup_process (wl_load_base wl_load_size : Z) (mode : FilterMode) (rand_init : list Z) (p : process) :
    outcome process :=
  let acts := install_sa_handler impl_restorer sa_handler_impl refused (actions p) in
  let args := [59; 1; wl_load_base; wl_load_size; selector] in
  g ← setup_process seed mode rand_init (prctl args) (gens p);
  Ret (mkProc acts (Some args) g).

(** ** Instructions that make a system call *)

(** The world the calls act on; Linux: whether a call from the address [ip] becomes SIGSYS
    under a filter and a value of the selector, and the call otherwise. *)
Context {W : Type} (dispatched : list Z -> Z -> Z -> bool) (linux : mcontext -> W -> trap_result W).
(** The implementations of the subsystems. *)
Context (UNSUPPORTED : Z) (impl : sysimpl W).

(** The effect of a call that Linux makes itself. *)
Definition linux_effect (c : mcontext) (w : W) : signal_effect W :=
  match linux c w with Resumed c' w' => Continues c' w' | NotBack w' => InCall w' end.

Definition syscall_insn (p : process) (r : registry) (ip : Z) (c : mcontext) (w : W) : signal_effect W :=
  match filter p with
  | Some f =>
    if dispatched f SYS_INTERCEPT_STOP ip
    then on_signal sa_handler_impl UNSUPPORTED impl r (actions p) SIGSYS c w else linux_effect c w
  | None => linux_effect c w
  end.

(** Syscall user dispatch as the kernel documents it: calls from the given region are
    made, the others are made or turned into SIGSYS as the selector says. *)
Hypothesis user_dispatch : forall base len sel_addr sel ip,
  dispatched [PR_SET_SYSCALL_USER_DISPATCH; PR_SYS_DISPATCH_ON; base; len; sel_addr] sel ip =
  negb ((base <=? ip) && (ip <? base + len)) && (sel =? SYSCALL_DISPATCH_FILTER_BLOCK).

(** What the types say: an exported function with the result [!] does not return. *)
Hypothesis never_returns : forall f sg, exported f = Some sg -> s_ret sg = RetNever ->
  forall a1 a2 a3 a4 a5 a6 w, exists w', impl f a1 a2 a3 a4 a5 a6 w = Signals.Gone w'.

(** The answer to a call: the function booted for its number on the six argument
    registers, whose result reaches [rax] when it returns, or the error. *)
Definition answer (entries : list (Z * sysfn)) (c : mcontext) (w : W) : signal_effect W :=
  match lookup_entry entries (c_rax c) with
  | Jump f =>
    match impl f (c_rdi c) (c_rsi c) (c_rdx c) (c_r10 c) (c_r8 c) (c_r9 c) w with
    | Signals.Returned v w' => Continues (set_rax v c) w'
    | Signals.Gone w' => InCall w'
    end
  | Unsupported => Continues (set_rax UNSUPPORTED c) w
  end.

(** The calls of the booted subsystems that have the result [!]. *)
Definition exit_calls (SYS_UnmanagedException : nat) : list Z := [Z.of_nat SYS_UnmanagedException; 0x3000].

Lemma exit_calls_stay a b c w :
  (a < SYSCALLS_PER_SUBSYS)%nat -> (b < SYSCALLS_PER_SUBSYS)%nat -> c_rax c ∈ exit_calls a ->
  exists w', answer (boot_entries a b) c w = InCall w'.
Proof using never_returns.
  intros Ha Hb Hc. unfold SYSCALLS_PER_SUBSYS in *.
  assert (exists f sg, lookup_entry (boot_entries a b) (c_rax c) = Jump f /\ exported f = Some sg /\ s_ret sg = RetNever)
    as (f & sg & Hl & He & Hn).
  { apply elem_of_cons in Hc as [-> | ->%list_elem_of_singleton]; unfold lookup_entry, boot_entries; cbn [find fst snd].
    - rewrite Z.eqb_refl. eexists _, sig_UnmanagedException. split; [done|by vm_compute].
    - rewrite !(proj2 (Z.eqb_neq (Z.of_nat _) _)) by lia. cbn. eexists _, sig_ExitProcess. split; [done|by vm_compute]. }
  unfold answer. rewrite Hl. destruct (never_returns f sg He Hn (c_rdi c) (c_rsi c) (c_rdx c) (c_r10 c) (c_r8 c) (c_r9 c) w) as [w' ->].
  by exists w'.
Qed.

Lemma setup_process_ret base len rand_init p :
  0 <= prctl [59; 1; base; len; selector] < 2 ^ 63 ->
  exists g, wl_impl_setup_process base len Prctl rand_init p =
    Ret (mkProc (install_sa_handler impl_restorer sa_handler_impl refused (actions p)) (Some [59; 1; base; len; selector]) g).
Proof.
  intros Hp. unfold wl_impl_setup_process, setup_process.
  assert (as_isize (prctl [59; 1; base; len; selector]) = prctl [59; 1; base; len; selector]) as ->.
  { unfold as_isize, swrap. rewrite wrap_small by lia. by rewrite (proj2 (Z.ltb_lt (prctl _) _)) by lia. }
  rewrite (proj2 (Z.ltb_ge _ 0)) by lia. cbn [mbind outcome_bind]. by eexists.
Qed.

(** C6: a system call of the emulated program, from the instruction to the result.  When
    [prctl] is accepted, the process set up by the loader and booted with its six
    subsystems hands every call made outside the native region to the function its 64-bit
    number is listed for, on the six argument registers; when that function returns, the
    program continues with its result in [rax], no other register changed and the world the
    function left; when it does not, the program never continues, which is always so for
    [UnmanagedException] and [ExitProcess]; a number that is not listed is answered with the
    error for unsupported calls.  Every call from the native region, where the loader and
    the subsystems are, goes to Linux.  The program, which is loaded from the random base on,
    is outside: all addresses up to the thread-local block are. *)
Theorem guest_calls_emulated vaddr_end rnd rand_init p0 SYS_UnmanagedException SYS_GetSystemInfo :
  2 ^ 31 <= vaddr_end < 2 ^ 63 -> 0 <= rnd < 2 ^ 64 ->
  (SYS_UnmanagedException < SYSCALLS_PER_SUBSYS)%nat -> (SYS_GetSystemInfo < SYSCALLS_PER_SUBSYS)%nat ->
  SYS_UnmanagedException <> SYS_GetSystemInfo -> refused SIGSYS = None ->
  0 <= prctl [59; 1; native_region_base vaddr_end; NATIVE_REGION_SIZE; selector] < 2 ^ 63 ->
  exists p r,
    wl_impl_setup_process (native_region_base vaddr_end) NATIVE_REGION_SIZE Prctl rand_init p0 = Ret p /\
    boot SYS_UnmanagedException SYS_GetSystemInfo reg_init = Ret r /\
    (forall ip c w, ~ (native_region_base vaddr_end <= ip < vaddr_end_aligned vaddr_end) -> 0 <= c_rax c < 2 ^ 64 ->
       syscall_insn p r ip c w = answer (boot_entries SYS_UnmanagedException SYS_GetSystemInfo) c w /\
       (c_rax c ∈ exit_calls SYS_UnmanagedException -> exists w', syscall_insn p r ip c w = InCall w')) /\
    (forall ip c w, native_region_base vaddr_end <= ip < vaddr_end_aligned vaddr_end ->
       syscall_insn p r ip c w = linux_effect c w) /\
    (forall ip, lilium_base_addr rnd <= ip < tls_block_ptr vaddr_end ->
       ~ (native_region_base vaddr_end <= ip < vaddr_end_aligned vaddr_end)).
Proof using user_dispatch never_returns.
  intros Hv Hrnd H0 H1 Hne Hsys Hp.
  destruct (layout_facts vaddr_end rnd Hv Hrnd) as (_ & L1 & L2 & L3 & _ & _ & _ & _).
  destruct (setup_process_ret _ _ rand_init p0 Hp) as [g E].
  eexists _, (booted SYS_UnmanagedException SYS_GetSystemInfo). split; [exact E|].
  split; [by apply boot_ok|]. unfold syscall_insn. cbn [filter actions].
  assert (D : forall ip, dispatched [59; 1; native_region_base vaddr_end; NATIVE_REGION_SIZE; selector] SYS_INTERCEPT_STOP ip =
    negb ((native_region_base vaddr_end <=? ip) && (ip <? vaddr_end_aligned vaddr_end))).
  { intros ip. rewrite <- L3. etrans; [apply user_dispatch|]. by rewrite andb_true_r. }
  split_and!.
  - intros ip c w Hip Hc. rewrite D. replace (_ && _) with false by (symmetry; apply andb_false_iff; lia). cbn [negb].
    unfold on_signal. rewrite install_spec, decide_True by (split; [by vm_compute|done]). cbn [installed k_handler].
    rewrite Z.eqb_refl. unfold sa_handler_seh. rewrite Z.eqb_refl. unfold invoke_syscall_uctx.
    rewrite booted_dispatch, entries_of_calls by (done || lia).
    match goal with |- ?x = ?y /\ _ => assert (x = y) as -> end.
    { unfold answer. destruct (lookup_entry _ _) as [f|]; [|done]. by destruct (impl _ _ _ _ _ _ _ _). }
    split; [done|]. by apply exit_calls_stay.
  - intros ip c w [Hlo Hhi]. rewrite D. by rewrite (proj2 (Z.leb_le _ _) Hlo), (proj2 (Z.ltb_lt _ _) Hhi).
  - unfold TLS_BLOCK_SIZE, MMAP_REGION_SIZE, NATIVE_REGION_SIZE in *. lia.
Qed.
End Emulate.

(** ** Concrete inputs *)

(** Linux with the documented behaviour, and a program that asks for function 1 of the
    io subsystem from its own code and from the native region. *)
Definition sample_dispatched (f : list Z) (sel ip : Z) : bool :=
  match f with
  | [_; _; base; len; _] => negb ((base <=? ip) && (ip <? base + len)) && (sel =? SYSCALL_DISPATCH_FILTER_BLOCK)
  | _ => false
  end.
Definition sample_ctx : mcontext := mkCtx 0x2001 1 2 3 4 5 6 [].
Definition sample_proc : process (H := Z) := mkProc (fun _ => mkKsa 0 0 0 0) None (mkRand None ∅ false false).
(** The world counts the calls. *)
Definition sample_call (f : sysfn) (a b c d e g : Z) (w : nat) : call_result nat :=
  match exported f with
  | Some (mkSig _ _ RetNever) => Signals.Gone w
  | _ => Signals.Returned (if bool_decide (f = "IOWrite"%string) then a + d else 0) (S w)
  end.
Definition sample_linux (c : mcontext) (w : nat) : trap_result nat := Resumed c w.

Lemma sample_call_never f sg : exported f = Some sg -> s_ret sg = RetNever ->
  forall a1 a2 a3 a4 a5 a6 w, exists w', sample_call f a1 a2 a3 a4 a5 a6 w = Signals.Gone w'.
Proof. intros E Hn. unfold sample_call. rewrite E. destruct sg as [n ps []]; [|done|done]. intros. by eexists. Qed.

Lemma guest_calls_emulated_witness :
  exists p r,
    wl_impl_setup_process (fun a b => a + b) 4096 8192 (fun _ => None) (fun _ => 0) 77
      (native_region_base 0x80000123) NATIVE_REGION_SIZE Prctl (replicate 16 1) sample_proc = Ret p /\
    boot 0 1 reg_init = Ret r /\
    syscall_insn 8192 sample_dispatched sample_linux (-1) sample_call p r (lilium_base_addr 0) sample_ctx 7%nat =
      Continues (mkCtx 5 1 2 3 4 5 6 []) 8%nat /\
    (exists w, syscall_insn 8192 sample_dispatched sample_linux (-1) sample_call p r (lilium_base_addr 0)
      (mkCtx 0x3000 1 2 3 4 5 6 []) 7%nat = InCall w) /\
    syscall_insn 8192 sample_dispatched sample_linux (-1) sample_call p r 0x80000000 sample_ctx 7%nat = Continues sample_ctx 7%nat.
Proof.
  destruct (guest_calls_emulated (fun a b => a + b) 4096 8192 (fun _ => None) (fun _ => 0) 77 sample_dispatched sample_linux (-1)
              sample_call ltac:(reflexivity) sample_call_never 0x80000123 0 (replicate 16 1) sample_proc 0%nat 1%nat)
    as (p & r & E1 & E2 & Hg & Hn & Hp);
    [lia|lia|by apply (bool_decide_unpack _); vm_compute|by apply (bool_decide_unpack _); vm_compute|done|done|lia|].
  assert (~ (native_region_base 0x80000123 <= lilium_base_addr 0 < vaddr_end_aligned 0x80000123)) as Ho.
  { apply Hp. split; [lia|by vm_compute]. }
  exists p, r. split; [exact E1|]. split; [exact E2|]. split_and!.
  - rewrite (proj1 (Hg (lilium_base_addr 0) sample_ctx 7%nat Ho ltac:(cbn; lia))). by vm_compute.
  - apply (Hg (lilium_base_addr 0) (mkCtx 0x3000 1 2 3 4 5 6 []) 7%nat Ho); [cbn; lia|]. by right; left.
  - rewrite Hn; [done|]. split; by vm_compute.
Defined.
