(* ===== verification/Build.v ===== *)
(** * Build scripts and version constants

    The build script of wl-impl (wl-impl/build.rs) takes the Lilium target apart, that of
    the subsystems (build-usi-lib.rs) names the library after the package, that of the
    loader (wl-ld-lilium/build.rs) names the loader; the constants of wl-impl/src/lib.rs
    are computed from what they put into the environment of the compiler.  Text is a list
    of bytes, an instruction to cargo a constructor. *)

From Stdlib Require Import ZArith Lia.
From stdpp Require Import base numbers list option strings sets.
From S2P Require Import Prelude.
From S2P Require Import CheckedMem.
From S2P Require Import Bytes.
From S2P Require Import Ldso.

Local Open Scope Z_scope.

Abbreviation text := (list Z).

(** [std::env::var]. *)
Inductive var : Type := Present (v : text) | NotUnicode | NotPresent.

(** What a script prints for cargo, and the C file it has compiled. *)
Inductive line : Type :=
| RustcEnv (name value : text)
| RerunIfChanged (file : text)
| LinkArg (arg : text)
| LinkLib (kind_name : text)
| LinkSearch (dir : text)
| CompileC (file : text) (includes flags : list text)
| Note (t : text).     (** standard error *)

(** ** The target ([wl-impl/build.rs]) *)

Definition DASH : Z := 45.
(** [str::split("-")]: the pieces between the separators, empty ones included. *)
Fixpoint split_on (sep : Z) (s : text) : list text :=
  match s with
  | [] => [[]]
  | b :: r =>
    match split_on sep r with
    | p :: ps => if b =? sep then [] :: p :: ps else (b :: p) :: ps
    | [] => [[]]
    end
  end.
Definition join_with (sep : Z) (ps : list text) : text :=
  match ps with [] => [] | p :: r => p ++ concat ((fun q => sep :: q) <$> r) end.

Record target : Type := mkTarget { t_arch : text; t_vendor : text; t_os : text; t_env : text }.

(** [next_chunk] or what is left of the iterator: the first four pieces. *)
Definition lilium_target (st : text) : outcome target :=
  let v := split_on DASH st in
  match v !! 0%nat, v !! 1%nat with
  | Some arch, Some second =>
    let third := v !! 2%nat in
    let fourth := v !! 3%nat in
    let is_lilium := bool_decide (second = lit "lilium") in
    let vendor :=
      if bool_decide (is_Some third) && bool_decide (is_Some fourth) then second
      else if bool_decide (is_Some third) && negb is_lilium then second
      else lit "pc" in
    let os :=
      match third with
      | Some third =>
        match fourth with
        | Some _ => third
        | None => if negb is_lilium then second else third
        end
      | None => second
      end in
    let env :=
      match fourth with
      | Some fourth => fourth
      | None =>
        match third with
        | Some third => if is_lilium then third else lit "std"
        | None => lit "std"
        end
      end in
    Ret (mkTarget arch vendor os env)
  | _, _ => Panic Explicit
  end.

(** [str::ends_with]. *)
Definition ends_with (s suf : text) : bool := bool_decide (drop (length s - length suf) s = suf) && Nat.leb (length suf) (length s).

(** [main] of wl-impl/build.rs; [compile_ok] is whether the C compiler succeeds. *)
Definition build_impl (arch : var) (WL_LILIUM_TARGET WL_VENDOR_NAME OUT_DIR LINK_TARGET_DIR : var) (compile_ok : bool) :
    outcome (list line) :=
  match arch with
  | Present arch =>
    '(t, l1) ← (match WL_LILIUM_TARGET with
      | Present st => t ← lilium_target st; Ret (t, [])
      | NotUnicode => Panic Explicit
      | NotPresent =>
        Ret (mkTarget arch (lit "pc") (lit "lilium") (lit "std"),
             [RustcEnv (lit "WL_LILIUM_TARGET") (arch ++ lit "-pc-lilium-std")])
      end);
    let l2 := [RustcEnv (lit "WL_LILIUM_TARGET_ARCH") (t_arch t); RustcEnv (lit "WL_LILIUM_TARGET_VENDOR") (t_vendor t);
               RustcEnv (lit "WL_LILIUM_TARGET_OS") (t_os t); RustcEnv (lit "WL_LILIUM_TARGET_ENV") (t_env t)] in
    l3 ← (match WL_VENDOR_NAME with
      | Present _ => Ret []
      | NotUnicode => Panic Explicit
      | NotPresent => Ret [RustcEnv (lit "WL_VENDOR_NAME") (lit "winter-lily")]
      end);
    let file := lit "c/signal_support/" ++ arch ++ lit ".c" in
    match OUT_DIR with
    | Present out =>
      let flags := [lit "-ffreestanding"; lit "-ftls-model=initial-exec"; lit "-fvisibility=protected"] ++
        (if bool_decide (arch = lit "x86_64") || ends_with arch (lit "86") then [lit "-masm=intel"] else []) in
      let cc := CompileC file [lit "c/signal_support/include"; lit "c/signal_support/include/" ++ arch ++ lit "/"] flags in
      if negb compile_ok then Panic Explicit else
      let l4 := match LINK_TARGET_DIR with
        | Present d => [LinkSearch (lit "native=" ++ d); LinkLib (lit "dylib=wl_ld_lilium")]
        | _ => [LinkLib (lit "dylib=!rust-analyzer-only!use!build.sh!if!cargo")]
        end in
      Ret (l1 ++ l2 ++ l3 ++ [RerunIfChanged file; LinkSearch (lit "native=" ++ out); cc] ++ l4)
    | _ => Panic Explicit
    end
  | _ => Panic Explicit
  end.

(** ** The other scripts *)

(** [str::strip_prefix]. *)
Definition strip_prefix (pre s : text) : option text := if bool_decide (take (length pre) s = pre) then Some (drop (length pre) s) else None.

(** build-usi-lib.rs. *)
Definition build_usi (CARGO_PKG_NAME LINK_TARGET_DIR : var) : outcome (list line) :=
  match CARGO_PKG_NAME with
  | Present pkg =>
    name ← expect (strip_prefix (lit "wl-usi-") pkg);
    let l := [Note pkg; RerunIfChanged (lit "../build-usi-lib.rs"); LinkLib (lit "dylib=wl_ld_lilium"); LinkArg (lit "-soname");
              LinkArg (lit "libusi-" ++ name ++ lit ".so"); LinkArg (lit "-rpath"); LinkArg (lit "$ORIGIN")] in
    match LINK_TARGET_DIR with
    | Present d => Ret (l ++ [LinkSearch (lit "native=" ++ d)])
    | _ => Ret l
    end
  | _ => Panic Explicit
  end.

(** wl-ld-lilium/build.rs. *)
Definition build_ld (arch CARGO_MANIFEST_DIR : var) : outcome (list line) :=
  match arch, CARGO_MANIFEST_DIR with
  | Present arch, Present d =>
    Ret [RerunIfChanged (lit "build.rs"); LinkArg (lit "-soname"); LinkArg (lit "wl-ld-lilium-" ++ arch ++ lit ".so");
         RustcEnv (lit "ARCH") arch; LinkArg (lit "-T" ++ d ++ lit "/" ++ arch ++ lit ".ld")]
  | _, _ => Panic Explicit
  end.

(** [NAME] of wl-ld-lilium/src/entry.rs, from the variable [ARCH]; without the final NUL. *)
Definition NAME (ARCH : text) : text := lit "wl-ld-lilium-" ++ ARCH ++ lit ".so".

(** The variables a script sets for the compiler; the last one counts. *)
Definition rustc_env (ls : list line) (name : text) : option text :=
  foldl (fun acc l => match l with RustcEnv n v => if bool_decide (n = name) then Some v else acc | _ => acc end) None ls.

(** ** Version constants (wl-impl/src/lib.rs) *)

(** [((MAJOR as u64) << 40) | ((MINOR as u64) << 20) | (PATCH as u64)]; bits shifted out are
    lost. *)
Definition pack_version (major minor patch : Z) : Z :=
  Z.lor (Z.lor (wrap 64 (Z.shiftl major 40)) (wrap 64 (Z.shiftl minor 20))) patch.
Definition KAPI_VERSION (VERSION_MAJOR VERSION_MINOR VERSION_PATCH : text) : outcome Z :=
  major ← const_parse_u32 VERSION_MAJOR 10;
  minor ← const_parse_u32 VERSION_MINOR 10;
  patch ← const_parse_u32 VERSION_PATCH 10;
  Ret (pack_version major minor patch).

(** [mod consts] and [LILIUM_TARGET]: a variable is what the script sets, or else the
    environment; a missing one does not compile. *)
Record consts : Type := mkConsts {
  LILIUM_TARGET : text; ARCH : text; OS_NAME : text; ENV : text; KVENDOR_NAME : text; c_KAPI_VERSION : Z;
  OS_ELAB_NAME : text; OS_VERSION_MAJOR : Z; OS_VERSION_MINOR : Z }.
Definition env_macro (ls : list line) (environment : text -> var) (name : text) : outcome text :=
  match rustc_env ls name with
  | Some v => Ret v
  | None => match environment name with Present v => Ret v | _ => Panic Explicit end
  end.
Definition compiled_consts (ls : list line) (environment : text -> var) : outcome consts :=
  let env := env_macro ls environment in
  target ← env (lit "WL_LILIUM_TARGET"); arch ← env (lit "WL_LILIUM_TARGET_ARCH"); os ← env (lit "WL_LILIUM_TARGET_OS");
  e ← env (lit "WL_LILIUM_TARGET_ENV"); vendor ← env (lit "WL_VENDOR_NAME");
  ma ← env (lit "CARGO_PKG_VERSION_MAJOR"); mi ← env (lit "CARGO_PKG_VERSION_MINOR"); pa ← env (lit "CARGO_PKG_VERSION_PATCH");
  v ← KAPI_VERSION ma mi pa;
  Ret (mkConsts target arch os e vendor v (lit "Lilium") 0 1).

(** ** Targets *)

Lemma outcome_bind_ret {A B} (x : outcome A) (f : A -> outcome B) b : x ≫= f = Ret b -> exists a, x = Ret a /\ f a = Ret b.
Proof. destruct x; [|done]. by eexists. Qed.

Lemma split_on_cons sep s : exists p ps, split_on sep s = p :: ps.
Proof. induction s as [|b s (p & ps & IH)]; simpl; [by eexists _, _|]. rewrite IH. destruct (b =? sep); by eexists _, _. Qed.

Lemma split_on_none sep p : without sep p -> split_on sep p = [p].
Proof.
  induction p as [|b p IH]; intros Hp; [done|]. apply Forall_cons_1 in Hp as [Hb Hp]. cbn [split_on].
  rewrite IH by done. by rewrite Hb.
Qed.

Lemma split_on_sep sep p s : without sep p -> split_on sep (p ++ sep :: s) = p :: split_on sep s.
Proof.
  intros Hp. destruct (split_on_cons sep s) as (q & qs & E). induction p as [|b p IH]; cbn [app split_on].
  - rewrite E. by rewrite Z.eqb_refl.
  - apply Forall_cons_1 in Hp as [Hb Hp]. rewrite IH by done. by rewrite Hb.
Qed.

(** Splitting undoes joining. *)
Lemma split_join sep ps : ps <> [] -> Forall (without sep) ps -> split_on sep (join_with sep ps) = ps.
Proof.
  intros Hne Hps. destruct ps as [|p ps]; [done|]. clear Hne. cbn [join_with].
  revert p Hps. induction ps as [|q ps IH]; intros p Hps; apply Forall_cons_1 in Hps as [Hp Hps].
  - cbn [fmap list_fmap concat]. rewrite app_nil_r. by apply split_on_none.
  - cbn [fmap list_fmap concat]. rewrite <- app_comm_cons. rewrite split_on_sep by done. f_equal. by apply IH.
Qed.

Lemma target_parts ps :
  ps <> [] -> Forall (without DASH) ps ->
  lilium_target (join_with DASH ps) =
  match ps with
  | a :: v :: o :: e :: _ => Ret (mkTarget a v o e)
  | [a; s; t] => if decide (s = lit "lilium") then Ret (mkTarget a (lit "pc") t t) else Ret (mkTarget a s s (lit "std"))
  | [a; s] => Ret (mkTarget a (lit "pc") s (lit "std"))
  | _ => Panic Explicit
  end.
Proof.
  intros Hne Hps. unfold lilium_target. rewrite split_join by done.
  destruct ps as [|a [|s [|t [|e ps]]]]; try done; cbn [lookup list_lookup].
  destruct (decide (s = lit "lilium")) as [->|Hs]; [by vm_compute|].
  rewrite (bool_decide_eq_false_2 (s = _)) by done. reflexivity.
Qed.

(** What the build makes of a target name, by the number of its components.  Four (or
    more) are taken as architecture, vendor, system and environment, so that printing such
    a target and reading it back gives the same; two are completed with "pc" and "std"; one
    is refused.  Of three, the middle one is taken as the vendor and also as the system
    unless it is "lilium", in which case the last one is taken both as the system and as
    the environment: in no name of three components is the system the one named. *)
Theorem target_components ps :
  ps <> [] -> Forall (without DASH) ps ->
  lilium_target (join_with DASH ps) =
  match ps with
  | a :: v :: o :: e :: _ => Ret (mkTarget a v o e)
  | [a; s; t] => if decide (s = lit "lilium") then Ret (mkTarget a (lit "pc") t t) else Ret (mkTarget a s s (lit "std"))
  | [a; s] => Ret (mkTarget a (lit "pc") s (lit "std"))
  | _ => Panic Explicit
  end.
Proof. apply target_parts. Qed.

(** Without [WL_LILIUM_TARGET] the script sets it to a default, and the four parts it
    sets are those it would have read from that. *)
Theorem build_default_target arch vendor out link l :
  without DASH arch -> build_impl (Present arch) NotPresent vendor out link true = Ret l ->
  exists st t, rustc_env l (lit "WL_LILIUM_TARGET") = Some st /\ lilium_target st = Ret t /\
    rustc_env l (lit "WL_LILIUM_TARGET_ARCH") = Some (t_arch t) /\ rustc_env l (lit "WL_LILIUM_TARGET_VENDOR") = Some (t_vendor t) /\
    rustc_env l (lit "WL_LILIUM_TARGET_OS") = Some (t_os t) /\ rustc_env l (lit "WL_LILIUM_TARGET_ENV") = Some (t_env t).
Proof.
  intros Ha E.
  assert (Hst : lilium_target (arch ++ lit "-pc-lilium-std") = Ret (mkTarget arch (lit "pc") (lit "lilium") (lit "std"))).
  { change (arch ++ lit "-pc-lilium-std") with (join_with DASH [arch; lit "pc"; lit "lilium"; lit "std"]).
    unfold lilium_target. rewrite split_join; [done|done|]. constructor; [done|].
    by repeat constructor. }
  unfold build_impl in E. cbn [mbind outcome_bind] in E.
  exists (arch ++ lit "-pc-lilium-std"), (mkTarget arch (lit "pc") (lit "lilium") (lit "std")).
  destruct vendor as [vn| |]; cbn [mbind outcome_bind] in E; [|done|]; (destruct out as [o| |]; [|done|done]);
    cbn [negb] in E; injection E as <-; (split; [|split; [exact Hst|]]); destruct link; by vm_compute.
Qed.

(** The constants compiled into wl-impl are the parts of the target the environment names:
    its four components, when it has four. *)
Theorem consts_of_target arch a v o e vendor out link l environment c :
  Forall (without DASH) [a; v; o; e] ->
  environment (lit "WL_LILIUM_TARGET") = Present (join_with DASH [a; v; o; e]) ->
  build_impl (Present arch) (environment (lit "WL_LILIUM_TARGET")) vendor out link true = Ret l ->
  compiled_consts l environment = Ret c ->
  LILIUM_TARGET c = join_with DASH [a; v; o; e] /\ ARCH c = a /\ OS_NAME c = o /\ ENV c = e.
Proof.
  intros Hps He E. rewrite He in E. unfold build_impl in E. rewrite target_parts in E by done. cbn [mbind outcome_bind] in E.
  assert (L : rustc_env l (lit "WL_LILIUM_TARGET") = None /\ rustc_env l (lit "WL_LILIUM_TARGET_ARCH") = Some a /\
    rustc_env l (lit "WL_LILIUM_TARGET_OS") = Some o /\ rustc_env l (lit "WL_LILIUM_TARGET_ENV") = Some e).
  { destruct vendor as [vn| |]; cbn [mbind outcome_bind] in E; [|done|]; (destruct out as [ou| |]; [|done|done]);
      cbn [negb] in E; injection E as <-; destruct link; by vm_compute. }
  destruct L as (L0 & L1 & L2 & L3). unfold compiled_consts, env_macro. rewrite L0, L1, L2, L3, He. cbn [mbind outcome_bind].
  clear. intros E. repeat (apply outcome_bind_ret in E as (? & _ & E)). by injection E as <-.
Qed.

(** ** Names *)

(** The name the script gives to the library of the package [wl-usi-NAME] is the name
    under which [load_subsystem] reports the subsystem [NAME], and the loader's own name
    is the [NAME] constant compiled into it. *)
Theorem library_names name d :
  (exists l, build_usi (Present (lit "wl-usi-" ++ name)) d = Ret l /\ LinkArg (lit "libusi-" ++ name ++ lit ".so") ∈ l) /\
  (forall pkg, strip_prefix (lit "wl-usi-") pkg = None -> build_usi (Present pkg) d = Panic Explicit) /\
  (forall arch dir, exists l, build_ld (Present arch) (Present dir) = Ret l /\ rustc_env l (lit "ARCH") = Some arch /\
     LinkArg (NAME arch) ∈ l).
Proof.
  split_and!.
  - unfold build_usi, strip_prefix. rewrite take_app_length, bool_decide_true, drop_app_length by done.
    cbn [expect mbind outcome_bind]. destruct d; eexists; (split; [done|]); set_solver.
  - intros pkg Hp. unfold build_usi. by rewrite Hp.
  - intros arch dir. eexists. split; [done|]. split; [by vm_compute|]. unfold NAME. set_solver.
Qed.

(** ** Versions *)

Lemma pack_version_sum major minor patch :
  0 <= major < 2 ^ 24 -> 0 <= minor < 2 ^ 20 -> 0 <= patch < 2 ^ 20 ->
  pack_version major minor patch = (major * 2 ^ 20 + minor) * 2 ^ 20 + patch.
Proof.
  intros Ha Hi Hp. unfold pack_version. rewrite !Z.shiftl_mul_pow2 by lia. rewrite !wrap_small by lia.
  replace (major * 2 ^ 40) with (major * 2 ^ 20 * 2 ^ 20) by lia.
  assert (Z.lor (major * 2 ^ 20 * 2 ^ 20) (minor * 2 ^ 20) = (major * 2 ^ 20 + minor) * 2 ^ 20) as ->.
  { rewrite <- !Z.shiftl_mul_pow2, <- Z.shiftl_lor, !Z.shiftl_mul_pow2 by lia. by rewrite (lor_low major minor 20) by lia. }
  by rewrite lor_low by lia.
Qed.

(** The packed version gives its three numbers back and is ordered as they are, as
    long as they fit their fields (24, 20 and 20 bits); it is computed from any decimal
    strings of such numbers. *)
Theorem kapi_version_roundtrip ma mi pa major minor patch :
  const_parse_u32 ma 10 = Ret major -> const_parse_u32 mi 10 = Ret minor -> const_parse_u32 pa 10 = Ret patch ->
  0 <= major < 2 ^ 24 -> 0 <= minor < 2 ^ 20 -> 0 <= patch < 2 ^ 20 ->
  exists v, KAPI_VERSION ma mi pa = Ret v /\ 0 <= v < 2 ^ 64 /\
    Z.shiftr v 40 = major /\ Z.land (Z.shiftr v 20) (Z.ones 20) = minor /\ Z.land v (Z.ones 20) = patch /\
    (forall a b c, 0 <= a < 2 ^ 24 -> 0 <= b < 2 ^ 20 -> 0 <= c < 2 ^ 20 ->
       v < pack_version a b c <-> major < a \/ (major = a /\ (minor < b \/ (minor = b /\ patch < c)))).
Proof.
  intros E1 E2 E3 Ha Hi Hp. unfold KAPI_VERSION. rewrite E1, E2, E3. cbn [mbind outcome_bind].
  eexists. split; [done|]. rewrite (pack_version_sum major minor patch) by done.
  rewrite !Z.land_ones, !Z.shiftr_div_pow2 by lia.
  assert (D20 : ((major * 2 ^ 20 + minor) * 2 ^ 20 + patch) / 2 ^ 20 = major * 2 ^ 20 + minor).
  { rewrite Z.add_comm, Z.div_add by lia. rewrite Z.div_small by lia. lia. }
  split_and!; [lia|lia| | | |].
  - change (2 ^ 40) with (2 ^ 20 * 2 ^ 20). rewrite <- Z.div_div, D20 by lia.
    rewrite Z.add_comm, Z.div_add by lia. rewrite Z.div_small by lia. lia.
  - rewrite D20, Z.add_comm, Z.mod_add by lia. by apply Z.mod_small.
  - rewrite Z.add_comm, Z.mod_add by lia. by apply Z.mod_small.
  - intros a b c H1 H2 H3. rewrite pack_version_sum by done. nia.
Qed.

(** Beyond them the fields run into each other. *)
Example version_fields_overlap : pack_version 0 (2 ^ 20) 0 = pack_version 1 0 0.
Proof. reflexivity. Qed.

(** ** Concrete inputs *)

Lemma target_components_witness :
  lilium_target (lit "x86_64-pc-lilium-std") = Ret (mkTarget (lit "x86_64") (lit "pc") (lit "lilium") (lit "std")) /\
  lilium_target (lit "x86_64-pc-lilium") = Ret (mkTarget (lit "x86_64") (lit "pc") (lit "pc") (lit "std")) /\
  lilium_target (lit "x86_64-lilium-std") = Ret (mkTarget (lit "x86_64") (lit "pc") (lit "std") (lit "std")).
Proof.
  split_and!; [apply (target_components [lit "x86_64"; lit "pc"; lit "lilium"; lit "std"])
              |apply (target_components [lit "x86_64"; lit "pc"; lit "lilium"])
              |apply (target_components [lit "x86_64"; lit "lilium"; lit "std"])]; try done;
    repeat constructor.
Defined.

Lemma build_default_target_witness :
  exists l st, build_impl (Present (lit "x86_64")) NotPresent NotPresent (Present (lit "/out")) NotPresent true = Ret l /\
    rustc_env l (lit "WL_LILIUM_TARGET") = Some st /\ st = lit "x86_64-pc-lilium-std".
Proof.
  eexists. edestruct (build_default_target (lit "x86_64") NotPresent (Present (lit "/out")) NotPresent) as (st & t & E & _);
    [repeat constructor|reflexivity|].
  exists st. split; [reflexivity|]. split; [exact E|]. vm_compute in E. by injection E as <-.
Defined.

Definition sample_environment (n : text) : var :=
  if bool_decide (n = lit "WL_LILIUM_TARGET") then Present (lit "x86_64-pc-lilium-std")
  else if bool_decide (n = lit "CARGO_PKG_VERSION_MINOR") then Present (lit "1") else Present (lit "0").

Lemma consts_of_target_witness :
  exists l c, build_impl (Present (lit "x86_64")) (sample_environment (lit "WL_LILIUM_TARGET")) NotPresent (Present (lit "/o")) NotPresent true = Ret l /\
    compiled_consts l sample_environment = Ret c /\ OS_NAME c = lit "lilium".
Proof.
  eexists _, _. split; [reflexivity|]. split; [vm_compute; reflexivity|].
  eapply (consts_of_target (lit "x86_64") (lit "x86_64") (lit "pc") (lit "lilium") (lit "std") NotPresent (Present (lit "/o")) NotPresent _ sample_environment);
    [repeat constructor|reflexivity|reflexivity|vm_compute; reflexivity].
Defined.

Lemma kapi_version_roundtrip_witness :
  exists v, KAPI_VERSION (lit "0") (lit "12") (lit "3") = Ret v /\ Z.land (Z.shiftr v 20) (Z.ones 20) = 12.
Proof.
  destruct (kapi_version_roundtrip (lit "0") (lit "12") (lit "3") 0 12 3 eq_refl eq_refl eq_refl ltac:(lia) ltac:(lia) ltac:(lia))
    as (v & E & _ & _ & M & _).
  by exists v.
Defined.
