(* ===== verification/Layouts.v ===== *)
(** * The layout of C structures

    The assembly routines and the pointer code of the repository address the fields of
    [#[repr(C)]] structures by numbers.  Here such structures are data, laid out as the
    language prescribes, in the order of their fields; the theorems say that the layout
    is sound for every structure, and that the numbers in the code are the offsets of the
    declared fields (wl-impl/src/libc/libc_defs.rs, helpers.rs, handle_base.rs,
    wl-ld-lilium/src/loader.rs, iface.rs, auxv.rs, helpers.rs, wl-usi-io/src/poll.rs). *)

From Stdlib Require Import ZArith Lia.
From stdpp Require Import base numbers list option strings.
From S2P Require Import Prelude.
From S2P Require Import Handles.
From S2P Require Import Tls.
From S2P Require Import Bytes.
From S2P Require Import Ldso.
From S2P Require Import Asm.
From S2P Require Import Routines.
From S2P Require Import Trap.

Local Open Scope Z_scope.

(** ** Types and their layout *)

(** A type of given size and alignment, an array, a structure with the alignment its
    attribute asks for (1 when it asks for none). *)
Inductive cty : Type :=
| Prim (size align : Z)
| Arr (t : cty) (n : Z)
| Struct (ralign : Z) (fields : list (string * cty)).

Definition U8 : cty := Prim 1 1.
Definition U16 : cty := Prim 2 2.
Definition U32 : cty := Prim 4 4.
Definition U64 : cty := Prim 8 8.
Definition I64 : cty := Prim 8 8.
Definition USIZE : cty := Prim 8 8.
Definition PTR : cty := Prim 8 8.

(** The next multiple of [a]. *)
Definition pad (n a : Z) : Z := (n + (a - 1)) / a * a.

(** Offsets of the fields from their sizes and alignments, and the end of the last. *)
Fixpoint place (pos : Z) (ls : list (Z * Z)) : list Z * Z :=
  match ls with
  | [] => ([], pos)
  | (s, a) :: r => let o := pad pos a in let '(os, e) := place (o + s) r in (o :: os, e)
  end.

Definition max_align (r : Z) (ls : list (Z * Z)) : Z := foldr (fun l m => Z.max l.2 m) r ls.

(** Size and alignment. *)
Fixpoint lay (t : cty) : Z * Z :=
  match t with
  | Prim s a => (s, a)
  | Arr t n => let '(s, a) := lay t in (s * n, a)
  | Struct r fs =>
    let ls := List.map (fun f => lay f.2) fs in
    (pad (place 0 ls).2 (max_align r ls), max_align r ls)
  end.
Definition size_of (t : cty) : Z := (lay t).1.
Definition align_of (t : cty) : Z := (lay t).2.

Definition fields_of (t : cty) : list (string * cty) := match t with Struct _ fs => fs | _ => [] end.
Definition field_layouts (t : cty) : list (Z * Z) := List.map (fun f => lay f.2) (fields_of t).
Definition offsets (t : cty) : list Z := (place 0 (field_layouts t)).1.
(** [offset_of!]. *)
Definition offset_of (t : cty) (f : string) : option Z :=
  ip ← list_find (fun p : string * cty => p.1 = f) (fields_of t); offsets t !! ip.1.

(** ** Soundness *)

Definition pow2 (a : Z) : Prop := exists k, 0 <= k /\ a = 2 ^ k.

Inductive cty_ok : cty -> Prop :=
| ok_prim s a : pow2 a -> 0 <= s -> (a | s) -> cty_ok (Prim s a)
| ok_arr t n : cty_ok t -> 0 <= n -> cty_ok (Arr t n)
| ok_struct r fs : pow2 r -> Forall (fun f => cty_ok f.2) fs -> cty_ok (Struct r fs).

Section CtyInd.
Context (P : cty -> Prop) (HP : forall s a, P (Prim s a)) (HA : forall t n, P t -> P (Arr t n))
  (HS : forall r fs, Forall (fun f : string * cty => P f.2) fs -> P (Struct r fs)).

Fixpoint cty_nested_ind (t : cty) : P t :=
  match t with
  | Prim s a => HP s a
  | Arr t n => HA t n (cty_nested_ind t)
  | Struct r fs =>
    HS r fs ((fix go (fs : list (string * cty)) : Forall (fun f => P f.2) fs :=
                match fs with
                | [] => @Forall_nil_2 _ _
                | f :: fs => @Forall_cons_2 _ _ f fs (cty_nested_ind f.2) (go fs)
                end) fs)
  end.
End CtyInd.

Lemma pow2_pos a : pow2 a -> 0 < a.
Proof. intros (k & Hk & ->). lia. Qed.

Lemma pow2_divide a b : pow2 a -> pow2 b -> a <= b -> (a | b).
Proof.
  intros (k & Hk & ->) (j & Hj & ->) Hle. exists (2 ^ (j - k)). rewrite <- Z.pow_add_r; [f_equal; lia| |lia].
  enough (k <= j) by lia. apply (Z.pow_le_mono_r_iff 2); lia.
Qed.

Lemma pow2_max a b : pow2 a -> pow2 b -> pow2 (Z.max a b).
Proof. intros Ha Hb. destruct (Z.max_spec a b) as [[_ ->]|[_ ->]]; done. Qed.

Lemma pad_spec n a : 0 < a -> n <= pad n a < n + a /\ (a | pad n a).
Proof.
  intros Ha. unfold pad. split; [|by exists ((n + (a - 1)) / a)].
  pose proof (Z.div_mod (n + (a - 1)) a ltac:(lia)). pose proof (Z.mod_pos_bound (n + (a - 1)) a Ha). lia.
Qed.

(** A type's layout: alignment a power of two, size a multiple of it. *)
Definition lay_ok (l : Z * Z) : Prop := pow2 l.2 /\ 0 <= l.1 /\ (l.2 | l.1).

Lemma max_align_ok r ls : pow2 r -> Forall lay_ok ls -> pow2 (max_align r ls) /\ Forall (fun l => (l.2 | max_align r ls)) ls.
Proof.
  intros Hr. induction 1 as [|l ls (Hl & _) _ [IH1 IH2]]; [by split|]. cbn [max_align foldr]. fold (max_align r ls).
  assert (pow2 (Z.max l.2 (max_align r ls))) as Hm by by apply pow2_max.
  split; [done|]. constructor; [apply pow2_divide; [done|done|lia]|].
  eapply Forall_impl; [exact IH2|]. intros x Hx. etrans; [exact Hx|]. apply pow2_divide; [done|done|lia].
Qed.

(** Fields stand in order behind [pos], aligned and apart. *)
Lemma place_ok pos ls : 0 <= pos -> Forall lay_ok ls ->
  let '(os, e) := place pos ls in
  length os = length ls /\ pos <= e /\
  (forall i o l, os !! i = Some o -> ls !! i = Some l -> pos <= o /\ o + l.1 <= e /\ (l.2 | o)) /\
  (forall i j o l o', (i < j)%nat -> os !! i = Some o -> ls !! i = Some l -> os !! j = Some o' -> o + l.1 <= o').
Proof.
  intros Hpos Hls. revert pos Hpos. induction Hls as [|[s a] ls (Ha & Hs & _) _ IH]; intros pos Hpos; [by split_and!; try lia|].
  cbn [place fst snd] in *. destruct (pad_spec pos a (pow2_pos _ Ha)) as [[Hp0 Hp1] Hp2].
  specialize (IH (pad pos a + s) ltac:(lia)). destruct (place (pad pos a + s) ls) as [os e]. destruct IH as (Hl & He & Hf & Hd).
  split_and!; [cbn; congruence|lia| |].
  - intros [|i] o l Ho Hi; cbn in Ho, Hi; [injection Ho as <-; injection Hi as <-; cbn; by split_and!; try lia|].
    destruct (Hf i o l Ho Hi) as (? & ? & ?). split_and!; [lia|lia|done].
  - intros [|i] [|j] o l o' Hij Ho Hi Hj; cbn in Ho, Hi, Hj; try lia.
    + injection Ho as <-. injection Hi as <-. destruct (ls !! j) as [l'|] eqn:El; [by apply (Hf j o' l')|].
      apply lookup_ge_None in El. apply lookup_lt_Some in Hj. lia.
    + apply (Hd i j o l o'); [lia|done..].
Qed.

Lemma cty_ok_lay t : cty_ok t -> lay_ok (lay t).
Proof.
  induction t as [s a|t n IH|r fs IH] using cty_nested_ind; intros Hok.
  - by inversion Hok.
  - inversion Hok as [|? ? Ht Hn|]; subst. cbn. destruct (IH Ht) as (Ha & Hs & Hd). destruct (lay t) as [s a].
    cbn [fst snd] in *. split_and!; [done|by apply Z.mul_nonneg_nonneg|by apply Z.divide_mul_l].
  - inversion Hok as [| |? ? Hr Hfs]; subst. assert (Hls : Forall lay_ok (List.map (fun f => lay f.2) fs)).
    { apply List.Forall_map. eapply Forall_impl; [apply Forall_and; split; [exact IH|exact Hfs]|]. intros x [? ?]. auto. }
    cbn [lay]. set (ls := List.map _ fs) in *. destruct (max_align_ok r ls Hr Hls) as [Hm _].
    pose proof (place_ok 0 ls ltac:(lia) Hls) as Hp. destruct (place 0 ls) as [os e]. destruct Hp as (_ & He & _).
    destruct (pad_spec e (max_align r ls) (pow2_pos _ Hm)) as [? ?]. split_and!; cbn; [done|lia|done].
Qed.

(** Every [repr(C)] structure is laid out soundly: each field starts at a multiple of
    its alignment, which divides that of the structure, behind the end of the field before
    it and inside the structure, and the size of the structure is a multiple of its
    alignment; so the fields of a structure at an aligned address, alone or in an array,
    are aligned and share no byte. *)
Theorem repr_c_sound r fs :
  cty_ok (Struct r fs) ->
  let t := Struct r fs in
  length (offsets t) = length fs /\ (align_of t | size_of t) /\
  (forall i o f, offsets t !! i = Some o -> fs !! i = Some f ->
     0 <= o /\ o + size_of f.2 <= size_of t /\ (align_of f.2 | o) /\ (align_of f.2 | align_of t)) /\
  (forall i j o f o', (i < j)%nat -> offsets t !! i = Some o -> fs !! i = Some f -> offsets t !! j = Some o' ->
     o + size_of f.2 <= o').
Proof.
  intros Hok. cbv zeta. pose proof (cty_ok_lay _ Hok) as (_ & _ & Hdiv). inversion Hok as [| |? ? Hr Hfs]; subst.
  assert (Hls : Forall lay_ok (List.map (fun f => lay f.2) fs)).
  { apply List.Forall_map. eapply Forall_impl; [exact Hfs|]. intros x. apply cty_ok_lay. }
  destruct (max_align_ok r _ Hr Hls) as [Hm Hmd]. unfold offsets, field_layouts, size_of, align_of in *.
  cbn [lay fields_of fst snd] in *. set (ls := List.map (fun f => lay f.2) fs) in *.
  assert (Hf : forall i f, fs !! i = Some f -> ls !! i = Some (lay f.2)).
  { intros i f Hi. unfold ls. change (List.map (fun f => lay f.2) fs) with ((fun f => lay f.2) <$> fs). by rewrite list_lookup_fmap, Hi. }
  pose proof (place_ok 0 ls ltac:(lia) Hls) as Hp. destruct (place 0 ls) as [os e]. destruct Hp as (Hl & _ & Hin & Hap).
  destruct (pad_spec e (max_align r ls) (pow2_pos _ Hm)) as [[? ?] ?]. cbn [fst snd]. split_and!; [|done| |].
  - rewrite Hl. apply List.length_map.
  - intros i o f Ho Hi. destruct (Hin i o _ Ho (Hf _ _ Hi)) as (? & ? & ?). split_and!; [done|lia|done|].
    exact (proj1 (Forall_lookup _ _) Hmd i _ (Hf _ _ Hi)).
  - intros i j o f o' Hij Ho Hi Hj. exact (Hap i j o _ o' Hij Ho (Hf _ _ Hi) Hj).
Qed.

(** ** The structures of the repository *)

Local Open Scope string_scope.

Definition Handle_t : cty := Struct 32 [("ty", USIZE); ("blob1", PTR); ("blob2", PTR); ("fd", I64)].
Definition Tcb_t : cty := Struct 32 [("tls_base", PTR); ("load_size", USIZE); ("dyn_size", USIZE); ("version", USIZE)].
Definition TlsDesc : cty := Struct 1 [("module", USIZE); ("offset", USIZE)].
Definition AuxEnt : cty := Struct 1 [("at_tag", USIZE); ("at_val", PTR)].
Definition Dirent64 : cty :=
  Struct 1 [("d_ino", I64); ("d_off", I64); ("d_reclen", U16); ("d_type", U8); ("d_name", Arr U8 0)].
Definition jmp_buf : cty := Struct 64 [("__reg_nv", Arr PTR 8)].
Definition max_align_t : cty := Struct 16 [].
Definition mcontext_t : cty :=
  Struct 1 [("gregs", Arr PTR (Z.of_nat NGREGS)); ("fpregs", PTR); ("__reserved", Arr U64 8)].
(** [AccessType] is [repr(usize)]. *)
Definition AccessType : cty := USIZE.
Definition CheckedAccessError : cty := Struct 1 [("ptr", PTR); ("access_ty", AccessType)].
(** The same structure as the C side declares it, in c/signal_support/x86_64.c. *)
Definition CheckedAccessError_c : cty := Struct 1 [("addr", PTR); ("mem_ty", USIZE)].

(** Structures with fields of other crates' types. *)
Section Foreign.
Context (stack_t kernel_sigset_t : cty).
Definition ucontext_t : cty :=
  Struct 1 [("uc_flags", U64); ("uc_link", PTR); ("uc_stack", stack_t); ("uc_mcontext", mcontext_t);
            ("uc_sigmask", kernel_sigset_t); ("__fpregs_mem", Arr U64 64); ("__ssp", Arr U64 4)].
Definition sigaction_c : cty := Struct 1 [("sa_handler", PTR); ("sa_mask", kernel_sigset_t); ("sa_flags", U32)].
End Foreign.

(** [JobQuery]; [Status] and [JobBlock] have no fixed layout. *)
Section Query.
Context (Status JobBlock : cty).
Definition JobQuery : cty :=
  Struct 32 [("cancel_slot", U8); ("slot", U8); ("internal_status", Status); ("current_job", JobBlock)].
End Query.

Local Close Scope string_scope.

(** ** The numbers in the code *)

(** What the routines read and write relative to a register. *)
Definition loads (r : reg) (c : list instr) : list Z :=
  omap (fun i => match i with
                 | MovL _ o | AddM _ o => if decide (o_base o = Some r) then Some (o_disp o) else None
                 | _ => None
                 end) c.
Definition stores (r : reg) (c : list instr) : list Z :=
  omap (fun i => match i with MovS o _ => if decide (o_base o = Some r) then Some (o_disp o) else None | _ => None end) c.

(** The bytes of a structure up to the end of its last field. *)
Definition used (t : cty) : Z := (place 0 (field_layouts t)).2.
Definition off (t : cty) (f : string) : nat := Z.to_nat (default 0 (offset_of t f)).

(** [offset_of!] of the first field of a structure. *)
Lemma offset_first r f t fs : offset_of (Struct r ((f, t) :: fs)) f = Some (pad 0 (align_of t)).
Proof.
  unfold offset_of, offsets, field_layouts. cbn [fields_of list_find fst]. rewrite decide_True by done.
  cbn [mbind option_bind fst List.map place snd]. unfold align_of. destruct (lay t) as [s a].
  by destruct (place _ _).
Qed.

Lemma pad_0 a : 0 < a -> pad 0 a = 0.
Proof. intros Ha. unfold pad. rewrite Z.div_small by lia. lia. Qed.

(** The numbers the code uses for fields are the offsets of the declared structures:
    the size and alignment a handle pointer is checked with, the version word and the
    descriptor [__tls_get_addr] reads, the slots [__setjmp] writes and [longjmp] reads
    (the eight words of [jmp_buf], which fills its 64 bytes), the saved registers the trap
    reads and writes, all inside [gregs], the fields of a directory entry, and the error
    record the C side fills. *)
Theorem code_offsets T U h :
  (lay Handle_t = (HANDLE_SIZE, HANDLE_SIZE) /\ offset_of Handle_t "ty" = Some 0) /\
  (lay Tcb_t = (TCB_SIZE, TCB_SIZE) /\ offset_of Tcb_t "tls_base" = Some 0 /\ offset_of Tcb_t "version" = Some TCB_VERSION) /\
  Some <$> loads RDI (tls_get_addr_code T U) = [offset_of TlsDesc "module"; offset_of TlsDesc "offset"] /\
  (lay jmp_buf = (64, 64) /\ stores RDI setjmp_code = (fun i => 8 * Z.of_nat i) <$> seq 0 (Z.to_nat (used jmp_buf / 8)) /\
   loads RDI longjmp_code = stores RDI setjmp_code) /\
  (offset_of mcontext_t "gregs" = Some 0 /\
   Forall (fun o => (8 | o) /\ 0 <= o /\ o + 8 <= default 0 (offset_of mcontext_t "fpregs"))
     (loads RBX (invoke_syscall_code h) ++ stores RBX (invoke_syscall_code h))) /\
  (forall k b n prefix suffix f buf, (n < length b)%nat ->
     dents_loop (S k) b n prefix suffix f buf =
     (name ← lift (as_slice (drop (n + off Dirent64 "d_name") b));
      let rlen := Z.to_nat (le_value (take (off Dirent64 "d_type" - off Dirent64 "d_reclen") (drop (n + off Dirent64 "d_reclen") b))) in
      if has_prefix name prefix && has_suffix name suffix then
        buf ← f name buf; dents_loop k b (n + rlen) prefix suffix f buf
      else dents_loop k b (n + rlen) prefix suffix f buf)) /\
  (lay CheckedAccessError = lay CheckedAccessError_c /\ offsets CheckedAccessError = offsets CheckedAccessError_c).
Proof.
  split_and!; try (vm_compute; reflexivity).
  - assert (loads RBX (invoke_syscall_code h) ++ stores RBX (invoke_syscall_code h) =
      (fun r => 8 * Z.of_nat (regno r)) <$> [RAX; RDI; RSI; RDX; R10; R8; R9; RAX]) as -> by (vm_compute; reflexivity).
    change (default 0 (offset_of mcontext_t "fpregs")) with (8 * Z.of_nat NGREGS). apply Forall_fmap, Forall_forall.
    intros r _. cbn [compose]. pose proof (regno_lt r). split_and!; [by exists (Z.of_nat (regno r)); lia|lia|lia].
  - intros k b n prefix suffix f buf Hn. cbn [dents_loop]. rewrite decide_True by done. reflexivity.
Qed.

(** With fields of foreign types: the general registers follow the 40 bytes before them in
    the context Linux passes, where a [stack_t] has 24 bytes aligned to 8; the flag of a
    job query stands at its address, a multiple of 32, whatever the types behind it. *)
Theorem foreign_offsets stack_t kernel_sigset_t Status JobBlock :
  lay stack_t = (24, 8) -> cty_ok Status -> cty_ok JobBlock ->
  offset_of (ucontext_t stack_t kernel_sigset_t) "uc_mcontext" = Some 40 /\
  offset_of (JobQuery Status JobBlock) "cancel_slot" = Some 0 /\ (32 | align_of (JobQuery Status JobBlock)).
Proof.
  intros Hs Hst Hjb. split_and!.
  - unfold offset_of, offsets, field_layouts. cbn [ucontext_t fields_of]. vm_compute list_find. cbn [mbind option_bind fst].
    cbn [List.map snd]. rewrite Hs. destruct (lay kernel_sigset_t) as [s a]. reflexivity.
  - unfold JobQuery. rewrite offset_first. reflexivity.
  - destruct (cty_ok_lay _ Hst) as (Ha & _). destruct (cty_ok_lay _ Hjb) as (Hb & _).
    apply pow2_divide; [by exists 5| |].
    + unfold align_of, JobQuery. cbn [lay snd List.map max_align foldr]. repeat apply pow2_max; first [done|by exists 0|by exists 5].
    + unfold align_of, JobQuery. cbn [lay snd List.map max_align foldr]. lia.
Qed.

(** ** Concrete inputs *)

Lemma repr_c_sound_witness : offsets Dirent64 = [0; 8; 16; 18; 19] /\ (align_of Dirent64 | size_of Dirent64).
Proof.
  split; [vm_compute; reflexivity|].
  destruct (repr_c_sound 1 (fields_of Dirent64)) as (_ & Hd & _); [|exact Hd].
  constructor; [by exists 0|]. repeat constructor; try (by exists 0); try (by exists 1); try (by exists 2); try (by exists 3); try lia;
    try apply Z.divide_refl.
Defined.

Definition sample_stack_t : cty := Struct 1 [("ss_sp"%string, PTR); ("ss_flags"%string, U32); ("ss_size"%string, USIZE)].

Lemma foreign_offsets_witness :
  offset_of (ucontext_t sample_stack_t U64) "uc_mcontext" = Some 40 /\ (32 | align_of (JobQuery U8 U64)).
Proof.
  destruct (foreign_offsets sample_stack_t U64 U8 U64) as (H1 & _ & H3); [reflexivity| | |by split].
  - constructor; [by exists 0|lia|apply Z.divide_refl].
  - constructor; [by exists 3|lia|apply Z.divide_refl].
Defined.

(** The general registers of the context: the words of [mcontext_t::fpregs] begin right
    behind the 19 registers, at 192 in the whole context. *)
Example fpregs_at : offset_of mcontext_t "fpregs" = Some 152 /\ size_of mcontext_t = 224.
Proof. by split. Qed.
