(* ===== verification/NullTerm.v ===== *)
(** * Arrays that end in a zero element (wl-ld-lilium/src/helpers.rs)

    [NullTerm<T, R>] is a pointer to elements of type [T] that end with one whose leading
    part, of type [R], is zero in every byte: strings ([u8]), the environment (pointers),
    the auxiliary vector (pairs, of which the first word is looked at).  Memory is the
    bytes that are mapped; reading elsewhere faults. *)

From Stdlib Require Import ZArith Lia.
From stdpp Require Import base numbers list option.
From S2P Require Import Prelude.

Local Open Scope Z_scope.

Section NullTerm.
Context (mem : Z -> option Z).
(** [size_of::<T>()] and [size_of::<R>()]. *)
Context (size_t size_r : nat).

Definition read_byte (p : Z) : outcome Z := match mem p with Some b => Ret b | None => Panic Fault end.

(** [is_zero]: the loop over [i], with the bytes left. *)
Fixpoint is_zero_loop (left : nat) (p : Z) : outcome bool :=
  match left with
  | O => Ret true
  | S k => b ← read_byte p; if negb (b =? 0) then Ret false else is_zero_loop k (p + 1)
  end.
Definition is_zero (p : Z) : outcome bool := is_zero_loop size_r p.

(** [from_ptr_unchecked]: the assertion is checked at compile time. *)
Definition from_ptr_unchecked (p : Z) : outcome Z := if decide (size_r <= size_t)%nat then Ret p else Panic Explicit.

(** [as_slice]: start and end. *)
Fixpoint as_slice_loop (fuel : nat) (start end_ : Z) : outcome (Z * Z) :=
  match fuel with
  | O => Panic Explicit   (** not reached: see [null_slice_ok] *)
  | S k => is_zero end_ ≫= fun z : bool => if z then Ret (start, end_) else as_slice_loop k start (end_ + Z.of_nat size_t)
  end.

(** [Iterator::next], and collecting the iterator. *)
Definition next (self : Z) : outcome (Z * option Z) :=
  is_zero self ≫= fun z : bool =>
  if z then Ret (self, None) else Ret (self + Z.of_nat size_t, Some self).
Fixpoint collect (fuel : nat) (self : Z) : outcome (list Z) :=
  match fuel with
  | O => Panic Explicit
  | S k =>
    '(self, x) ← next self;
    match x with None => Ret [] | Some p => l ← collect k self; Ret (p :: l) end
  end.

(** ** Specification *)

(** The bytes of the key of the element at [p] are mapped, and all zero or not. *)
Definition key_is (zero : bool) (p : Z) : Prop :=
  exists bs, length bs = size_r /\ (forall i b, bs !! i = Some b -> mem (p + Z.of_nat i) = Some b) /\
    forallb (fun b => b =? 0) bs = zero.

(** [n] elements from [p] on, and then the one that ends them. *)
Definition terminated (p : Z) (n : nat) : Prop :=
  (forall k, (k < n)%nat -> key_is false (p + Z.of_nat size_t * Z.of_nat k)) /\ key_is true (p + Z.of_nat size_t * Z.of_nat n).

Lemma is_zero_loop_ok bs : forall p,
  (forall i b, bs !! i = Some b -> mem (p + Z.of_nat i) = Some b) ->
  is_zero_loop (length bs) p = Ret (forallb (fun b => b =? 0) bs).
Proof.
  induction bs as [|b bs IH]; intros p Hb; [done|]. cbn [length is_zero_loop forallb]. unfold read_byte.
  pose proof (Hb 0%nat b eq_refl) as H0. rewrite Z.add_0_r in H0. rewrite H0. cbn [mbind outcome_bind].
  destruct (b =? 0); [|done]. cbn [negb andb]. apply IH. intros i x Hi.
  replace (p + 1 + Z.of_nat i) with (p + Z.of_nat (S i)) by lia. by apply Hb.
Qed.

Lemma is_zero_ok z p : key_is z p -> is_zero p = Ret z.
Proof. intros (bs & Hl & Hb & <-). unfold is_zero. rewrite <- Hl. by apply is_zero_loop_ok. Qed.

Lemma terminated_S p n : terminated p (S n) -> key_is false p /\ terminated (p + Z.of_nat size_t) n.
Proof.
  intros [Hk He]. split.
  - specialize (Hk 0%nat ltac:(lia)). by replace (p + Z.of_nat size_t * Z.of_nat 0) with p in Hk by lia.
  - split.
    + intros k Hlt. specialize (Hk (S k) ltac:(lia)).
      by replace (p + Z.of_nat size_t + _) with (p + Z.of_nat size_t * Z.of_nat (S k)) by lia.
    + by replace (p + Z.of_nat size_t + _) with (p + Z.of_nat size_t * Z.of_nat (S n)) by lia.
Qed.

Lemma terminated_0 p : terminated p 0 -> key_is true p.
Proof. intros [_ He]. by replace (p + Z.of_nat size_t * Z.of_nat 0) with p in He by lia. Qed.

Lemma null_slice_ok fuel start p n :
  terminated p n -> (n < fuel)%nat -> as_slice_loop fuel start p = Ret (start, p + Z.of_nat size_t * Z.of_nat n).
Proof.
  revert fuel p. induction n as [|n IH]; intros [|fuel] p Ht Hf; try lia; cbn [as_slice_loop].
  - rewrite (is_zero_ok true) by by apply terminated_0. cbn [mbind outcome_bind]. do 2 f_equal. lia.
  - apply terminated_S in Ht as [Hk Ht]. rewrite (is_zero_ok false) by done. cbn [mbind outcome_bind].
    rewrite IH by (done || lia). do 2 f_equal. lia.
Qed.

Definition elements (p : Z) (n : nat) : list Z := (fun k => p + Z.of_nat size_t * Z.of_nat k) <$> seq 0 n.

Lemma elements_S p n : elements p (S n) = p :: elements (p + Z.of_nat size_t) n.
Proof.
  unfold elements. cbn [seq fmap list_fmap]. f_equal; [lia|]. rewrite <- seq_shift. change (map S) with (fmap (M := list) S).
  rewrite <- list_fmap_compose. apply list_fmap_ext. intros i k _. cbn. lia.
Qed.

Lemma collect_ok fuel p n : terminated p n -> (n < fuel)%nat -> collect fuel p = Ret (elements p n).
Proof.
  revert fuel p. induction n as [|n IH]; intros [|fuel] p Ht Hf; try lia; cbn [collect]; unfold next.
  - by rewrite (is_zero_ok true) by by apply terminated_0.
  - apply terminated_S in Ht as [Hk Ht]. rewrite (is_zero_ok false) by done. cbn [mbind outcome_bind].
    rewrite IH by (done || lia). cbn [mbind outcome_bind]. by rewrite elements_S.
Qed.
End NullTerm.

(** C40: an array that is terminated is read to its end and no further: the slice and the
    iterator both end, after as many turns as there are elements and one more, the slice
    spans exactly the elements before the first one whose key is zero in every byte, and
    the iterator yields their addresses in order; no byte behind the key of the last
    element is read (memory may end there). *)
Theorem null_term_equivalence mem size_t size_r p n :
  (size_r <= size_t)%nat -> terminated mem size_t size_r p n ->
  from_ptr_unchecked size_t size_r p = Ret p /\
  as_slice_loop mem size_t size_r (S n) p p = Ret (p, p + Z.of_nat size_t * Z.of_nat n) /\
  collect mem size_t size_r (S n) p = Ret (elements size_t p n) /\
  (forall mem', (forall x, x < p + Z.of_nat size_t * Z.of_nat n + Z.of_nat size_r -> mem' x = mem x) ->
     collect mem' size_t size_r (S n) p = Ret (elements size_t p n)).
Proof.
  intros Hs Ht. split; [unfold from_ptr_unchecked; by rewrite decide_True|].
  split; [apply null_slice_ok; [done|lia]|]. split; [apply collect_ok; [done|lia]|].
  intros mem' Hm. apply collect_ok; [|lia]. destruct Ht as [Hk He].
  assert (K : forall z q, q <= p + Z.of_nat size_t * Z.of_nat n -> key_is mem size_r z q -> key_is mem' size_r z q).
  { intros z q Hq (bs & Hl & Hb & Hz). exists bs. split_and!; [done| |done]. intros i b Hi. rewrite Hm; [by apply Hb|].
    apply lookup_lt_Some in Hi. lia. }
  split; [intros k Hlt; apply K; [nia|by apply Hk]|by apply K; [lia|]].
Qed.

(** ** Concrete inputs *)

(** Two pairs of words, of which the second has a zero value; the key of the third is
    zero and memory ends behind it. *)
Definition sample_mem (x : Z) : option Z :=
  if (0 <=? x) && (x <? 40) then Some (if (x =? 0) || (x =? 8) || (x =? 16) then 1 else 0) else None.

Lemma sample_terminated : terminated sample_mem 16 8 0 2.
Proof.
  split.
  - intros k Hk. assert (k = 0 \/ k = 1)%nat as [-> | ->] by lia; exists [1; 0; 0; 0; 0; 0; 0; 0]; (split_and!; [done| |done]);
      intros i b Hi; do 8 (destruct i as [|i]; [by injection Hi as <-|]); done.
  - exists (replicate 8 0). split_and!; [done| |done]. intros i b Hi. do 8 (destruct i as [|i]; [by injection Hi as <-|]). done.
Qed.

Lemma null_term_equivalence_witness :
  as_slice_loop sample_mem 16 8 3 0 0 = Ret (0, 32) /\ collect sample_mem 16 8 3 0 = Ret [0; 16].
Proof.
  destruct (null_term_equivalence sample_mem 16 8 0 2 ltac:(lia) sample_terminated) as (_ & E & C & _). by split.
Defined.
