(* ===== verification/Cells.v ===== *)
(** * Cells, zeroed values and byte-wise comparison

    Small helpers both halves of the system use: [FusedUnsafeCell] and [SyncPointer], in
    which the loader keeps what it finds out at the start, [safe_zeroed], [NullTerm] of
    bytes as a string (wl-ld-lilium/src/helpers.rs), and the comparison of values by their
    bytes and the ranges of slices (wl-impl/src/helpers.rs). *)

From Stdlib Require Import ZArith Lia.
From stdpp Require Import base numbers list option gmap.
From S2P Require Import Prelude.
From S2P Require Import Utf8.
From S2P Require Import NullTerm.

Local Open Scope Z_scope.

(** ** [safe_zeroed] *)

(** The loop over the bytes of an uninitialised value: [None] is a byte not yet written. *)
Fixpoint zero_loop (i n : nat) (val : list (option Z)) : outcome (list (option Z)) :=
  match n with
  | O => Ret val
  | S k => val ← store val i (Some 0); zero_loop (S i) k val
  end.
(** [assume_init]: the value if every byte has been written. *)
Definition safe_zeroed (size : nat) : outcome (option (list Z)) :=
  zero_loop 0 size (replicate size None) ≫= fun val : list (option Z) => Ret (mapM id val).

Lemma zero_loop_ok i n done_ :
  length done_ = i -> zero_loop i n (done_ ++ replicate n None) = Ret (done_ ++ replicate n (Some 0)).
Proof.
  revert i done_. induction n as [|n IH]; intros i done_ Hl; [done|]. cbn [zero_loop replicate].
  rewrite store_ok by (rewrite length_app; cbn; lia). cbn [mbind outcome_bind].
  rewrite <- Hl, insert_app_r_alt by lia. rewrite Nat.sub_diag. cbn [list_insert insert].
  rewrite (cons_middle _ done_), app_assoc, IH by (rewrite length_app; cbn; lia). by rewrite <- app_assoc.
Qed.

(** Every byte of the value is written, none is left over from before, and no byte outside
    of it is touched. *)
Theorem safe_zeroed_all size : safe_zeroed size = Ret (Some (replicate size 0)).
Proof.
  unfold safe_zeroed. pose proof (zero_loop_ok 0 size [] eq_refl) as E. cbn [app] in E. rewrite E. cbn [mbind outcome_bind app]. do 2 f_equal.
  apply mapM_Some_2, Forall2_replicate. done.
Qed.

(** ** Comparison by bytes *)

(** [bytes_of] of both is a list of bytes. *)
Definition bytes_eq (v u : list Z) : bool := bool_decide (v = u).
(** [Ord::cmp] of slices. *)
Fixpoint bytes_cmp (v u : list Z) : comparison :=
  match v, u with
  | [], [] => Eq
  | [], _ :: _ => Lt
  | _ :: _, [] => Gt
  | a :: v, b :: u => match a ?= b with Eq => bytes_cmp v u | c => c end
  end.

Lemma bytes_cmp_eq v u : bytes_cmp v u = Eq <-> v = u.
Proof.
  revert u. induction v as [|a v IH]; intros [|b u]; cbn; try done. destruct (Z.compare_spec a b) as [->|H|H].
  - rewrite IH. naive_solver.
  - split; [done|]. intros [= -> _]. lia.
  - split; [done|]. intros [= -> _]. lia.
Qed.

Lemma bytes_cmp_flip v u : bytes_cmp u v = CompOpp (bytes_cmp v u).
Proof.
  revert u. induction v as [|a v IH]; intros [|b u]; cbn; try done.
  rewrite (Z.compare_antisym a b). destruct (a ?= b); cbn; [apply IH|done|done].
Qed.

Lemma bytes_cmp_trans v u w : bytes_cmp v u = Lt -> bytes_cmp u w = Lt -> bytes_cmp v w = Lt.
Proof.
  revert u w. induction v as [|a v IH]; intros [|b u] [|c w]; cbn; try done.
  destruct (Z.compare_spec a b) as [->|H1|H1], (Z.compare_spec b c) as [->|H2|H2]; try done.
  - apply IH.
  - intros _ _. by rewrite (proj2 (Z.compare_lt_iff a c)).
  - intros _ _. by rewrite (proj2 (Z.compare_lt_iff a c)) by lia.
Qed.

(** The comparison is a strict total order that agrees with [bytes_eq]. *)
Theorem bytes_order v u w :
  (bytes_cmp v u = Eq <-> bytes_eq v u = true) /\ (bytes_cmp v u = Gt <-> bytes_cmp u v = Lt) /\
  (bytes_cmp v u = Lt -> bytes_cmp u w = Lt -> bytes_cmp v w = Lt).
Proof.
  split_and!.
  - unfold bytes_eq. by rewrite bytes_cmp_eq, bool_decide_eq_true.
  - rewrite (bytes_cmp_flip v u). by destruct (bytes_cmp v u).
  - apply bytes_cmp_trans.
Qed.

(** It is not the order of numbers: their low byte stands first. *)
Example bytes_cmp_numbers : bytes_cmp (le_bytes 2 1) (le_bytes 2 256) = Gt.
Proof. reflexivity. Qed.

(** ** Ranges of slices *)

Definition as_ptr_range (size base len : Z) : Z * Z := (base, base + size * len).
Definition as_ptr_range_mut (size base len : Z) : Z * Z := (base, base + size * len).

(** The range holds the addresses of exactly the elements of the slice. *)
Theorem as_ptr_range_elements size base len k :
  0 < size -> 0 <= k -> as_ptr_range_mut size base len = as_ptr_range size base len /\
  ((as_ptr_range size base len).1 <= base + size * k < (as_ptr_range size base len).2 <-> k < len).
Proof. intros Hs Hk. split; [done|]. cbn. nia. Qed.

(** ** Values that compare with zero byte by byte *)

(** The types that implement [ZeroPrimitive], and their sizes. *)
Inductive ZeroPrimitive : Type :=
| ZU8 | ZU16 | ZU32 | ZU64 | ZI8 | ZI16 | ZI32 | ZI64 | ZUsize | ZIsize | ZChar | ZMut | ZConst
| ZMaybeValid (t : ZeroPrimitive).
Fixpoint zp_size (t : ZeroPrimitive) : nat :=
  match t with
  | ZU8 | ZI8 => 1 | ZU16 | ZI16 => 2 | ZU32 | ZI32 | ZChar => 4
  | ZU64 | ZI64 | ZUsize | ZIsize | ZMut | ZConst => 8
  | ZMaybeValid t => zp_size t
  end.

Lemma le_bytes_zero n v : 0 <= v < 256 ^ Z.of_nat n -> forallb (fun b => b =? 0) (le_bytes n v) = (v =? 0).
Proof.
  revert v. induction n as [|n IH]; intros v Hv; [cbn in *; symmetry; apply Z.eqb_eq; lia|]. cbn [le_bytes forallb].
  rewrite Nat2Z.inj_succ, Z.pow_succ_r in Hv by lia.
  rewrite IH by (split; [apply Z.div_pos; lia|apply Z.div_lt_upper_bound; lia]).
  pose proof (Z_div_mod_eq_full v 256). pose proof (Z.mod_pos_bound v 256 ltac:(lia)).
  destruct (Z.eqb_spec (v mod 256) 0), (Z.eqb_spec (v / 256) 0), (Z.eqb_spec v 0); cbn; try done; lia.
Qed.

(** [is_zero] on a value of such a type, as it lies in memory, tells whether the value is
    zero: a negative number, a pointer or a character cannot end a sequence early. *)
Theorem is_zero_value mem t p v :
  0 <= v < 256 ^ Z.of_nat (zp_size t) ->
  (forall i b, le_bytes (zp_size t) v !! i = Some b -> mem (p + Z.of_nat i) = Some b) ->
  is_zero mem (zp_size t) p = Ret (v =? 0).
Proof.
  intros Hv Hm. apply is_zero_ok. exists (le_bytes (zp_size t) v).
  split_and!; [apply length_le_bytes|done|by apply le_bytes_zero].
Qed.

(** ** Terminated strings *)

(** [NullTerm<u8>::as_utf8]: never an error. *)
Definition as_utf8 (mem : Z -> option Z) (fuel : nat) (p : Z) : outcome (result (Z * Z) unit) :=
  s ← as_slice_loop mem 1 1 fuel p p; Ret (Ok s).
(** [Clone for NullTerm]. *)
Definition NullTerm_clone (self : Z) : Z := self.

(** ** [FusedUnsafeCell] *)

Section Cell.
Context {T : Type}.

(** Cells by address; [SyncPointer] adds nothing to the pointer it holds. *)
Abbreviation store := (gmap Z T).
Definition cell_new (s : store) (at_ : Z) (val : T) : store := <[at_ := val]> s.
Definition cell_into_inner (s : store) (c : Z) : store * option T := (delete c s, s !! c).
(** The raw pointer, with which the unsafe code of the loader writes. *)
Definition cell_as_ptr (c : Z) : Z := c.
Definition cell_write (s : store) (ptr : Z) (val : T) : store :=
  match s !! ptr with Some _ => <[ptr := val]> s | None => s end.
Definition cell_get_shared (s : store) (c : Z) : option T := s !! c.
Definition cell_deref : store -> Z -> option T := cell_get_shared.
(** [get_mut]: what an exclusive borrow can do, given as a function on the value. *)
Definition cell_get_mut (s : store) (c : Z) (f : T -> T) : store :=
  match s !! c with Some v => <[c := f v]> s | None => s end.

(** A cell that exists: what was last written through its pointer or an exclusive borrow is
    what every shared access reads, other cells keep their values, and the value it ends
    with is the one given back. *)
Theorem cell_last_write s c d v w f :
  s !! c = Some w -> d <> c ->
  let s1 := cell_write s (cell_as_ptr c) v in
  let s2 := cell_get_mut s1 c f in
  cell_deref s c = Some w /\ cell_get_shared s1 c = Some v /\ cell_deref s2 c = Some (f v) /\
  cell_get_shared s2 d = cell_get_shared s d /\ (cell_into_inner s2 c).2 = Some (f v).
Proof.
  intros Hc Hd. unfold cell_write, cell_get_mut, cell_deref, cell_get_shared, cell_as_ptr, cell_into_inner. rewrite Hc.
  cbn [snd]. rewrite lookup_insert_eq. by rewrite !lookup_insert_eq, !lookup_insert_ne.
Qed.
End Cell.

Definition SyncPointer_null : Z := 0.
Definition SyncPointer_null_mut : Z := 0.

(** ** Concrete inputs *)

(** A pointer whose lowest byte is zero. *)
Lemma is_zero_value_witness : is_zero (fun q => le_bytes 8 4096 !! Z.to_nat q) 8 0 = Ret false.
Proof.
  refine (is_zero_value (fun q => le_bytes 8 4096 !! Z.to_nat q) (ZMaybeValid ZMut) 0 4096 ltac:(cbn; lia) _).
  intros i b Hb. by rewrite Z.add_0_l, Nat2Z.id.
Defined.

Lemma as_ptr_range_elements_witness : as_ptr_range 8 4096 3 = (4096, 4120) /\ (4096 <= 4096 + 8 * 2 < 4120 <-> 2 < 3).
Proof. split; [reflexivity|]. exact (proj2 (as_ptr_range_elements 8 4096 3 2 ltac:(lia) ltac:(lia))). Defined.

(** Two pointers of the loader before it has stored either. *)
Definition sample_cells : gmap Z Z := {[8 := SyncPointer_null_mut; 16 := SyncPointer_null]}.

(** [__MMAP_ADDR] is null until the loader stores the address of its region. *)
Lemma cell_last_write_witness : cell_get_shared (cell_write sample_cells (cell_as_ptr 8) 4096) 8 = Some 4096.
Proof.
  assert (H : sample_cells !! 8 = Some 0) by reflexivity. assert (Hd : 16 <> 8) by lia.
  exact (proj1 (proj2 (cell_last_write sample_cells 8 16 4096 0 id H Hd))).
Defined.

(** Bytes that are not UTF-8 are handed out as a string. *)
Example as_utf8_unchecked :
  as_utf8 (fun p => [255; 0] !! Z.to_nat p) 2 0 = Ret (Ok (0, 1)) /\ utf8_ok [255] = false.
Proof. by split. Qed.
