(* ===== verification/MiniStd.v ===== *)
(** * The small standard library (wl-impl/src/ministd.rs, wl-ld-lilium/src/lib.rs)

    The hash map wrapper and its hasher, the printing macros over a writer, and the panic
    handler and the refusing global allocator of the loader, which print.  Formatting is the list of
    pieces [core::fmt::write] hands to the writer one after the other. *)

From Stdlib Require Import ZArith Lia.
From stdpp Require Import base numbers list option gmap strings.
From S2P Require Import Prelude.
From S2P Require Import Errors.
From S2P Require Import BufReader.
From S2P Require Import Ldso.
From S2P Require Import EnvMap.
From S2P Require Import CRuntime.

Local Open Scope Z_scope.

(** ** [HashMap] *)

Section HashMap.
(** [SipHasher::new_with_keys], keys and values of a map, allocators. *)
Context {Hasher K V A : Type} `{Countable K} (new_with_keys : Z -> Z -> Hasher) (Global : A).

(** [RandomState]: the two keys; [new] is [EnvMap.RandomState_new]. *)
Record RandomState : Type := mkState { k0 : Z; k1 : Z }.
Definition RandomState_default : outcome RandomState := k ← RandomState_new; Ret (mkState k.1 k.2).
Definition build_hasher (s : RandomState) : Hasher := new_with_keys (k0 s) (k1 s).

(** The wrapped table with its hasher and allocator; its capacity cannot be observed. *)
Record HashMap (S : Type) : Type := mkMap { hasher : S; alloc : A; table : gmap K V }.
Arguments mkMap {S}.
Arguments hasher {S}.
Arguments alloc {S}.
Arguments table {S}.

Definition with_hasher_in {S} (h : S) (a : A) : HashMap S := mkMap h a ∅.
Definition with_capacity_and_hasher_in {S} (cap : nat) (h : S) (a : A) : HashMap S := mkMap h a ∅.
Definition with_hasher {S} (h : S) : HashMap S := with_hasher_in h Global.
Definition with_capacity_and_hasher {S} (cap : nat) (h : S) : HashMap S := with_capacity_and_hasher_in cap h Global.
(** [Deref] and [DerefMut]: the map inside, on which the operations are hashbrown's. *)
Definition map_deref {S} (m : HashMap S) : gmap K V := table m.
Definition map_deref_mut {S} (m : HashMap S) (f : gmap K V -> gmap K V) : HashMap S := mkMap (hasher m) (alloc m) (f (table m)).
Definition map_new_in (a : A) : outcome (HashMap RandomState) := s ← RandomState_default; Ret (with_hasher_in s a).
Definition with_capacity_in (cap : nat) (a : A) : outcome (HashMap RandomState) :=
  s ← RandomState_default; Ret (with_capacity_and_hasher_in cap s a).
Definition map_new : outcome (HashMap RandomState) := s ← RandomState_default; Ret (with_hasher_in s Global).
Definition with_capacity (n : nat) : outcome (HashMap RandomState) :=
  s ← RandomState_default; Ret (with_capacity_and_hasher_in n s Global).

(** Only a map that is given its hasher can be made, and it is empty; every constructor
    that chooses the keys itself panics. *)
Theorem hash_map_constructors n a (S : Type) (h : S) :
  [map_new; with_capacity n; map_new_in a; with_capacity_in n a] = replicate 4 (Panic Todo) /\
  Forall (fun m => hasher m = h /\ table m = ∅)
    [with_hasher h; with_capacity_and_hasher n h; with_hasher_in h a; with_capacity_and_hasher_in n h a].
Proof. split; [done|]. by repeat constructor. Qed.
End HashMap.

(** ** Printing *)

Abbreviation script := (list (result nat Z)).

(** [Stdio::write_str] once more, with the calls that are left. *)
Fixpoint stdio_write (b : list Z) (writes : script) : outcome (script * list Z * result unit unit) :=
  match b with
  | [] => Ret (writes, [], Ok tt)
  | _ =>
    match writes with
    | [] => Ret ([], [], Err tt)
    | Ok O :: r => Ret (r, [], Err tt)
    | Err _ :: r => Ret (r, [], Err tt)
    | Ok v :: r =>
      rest ← slice_from b v;
      '(rem, out, res) ← stdio_write rest r;
      Ret (rem, take v b ++ out, res)
    end
  end.

Lemma stdio_write_str_same writes : forall b,
  write_str b writes = ('(_, out, res) ← stdio_write b writes; Ret (out, res)).
Proof.
  induction writes as [|[[|v]|e] writes IH]; intros [|x b]; try done.
  cbn [write_str stdio_write]. destruct (slice_from (x :: b) (S v)) as [rest|]; cbn [mbind outcome_bind]; [|done].
  rewrite IH. by destruct (stdio_write rest writes) as [[[]]|].
Qed.

(** [core::fmt::write]: the pieces in order, up to the first error. *)
Fixpoint write_fmt (ps : list (list Z)) (writes : script) : outcome (script * list Z * result unit unit) :=
  match ps with
  | [] => Ret (writes, [], Ok tt)
  | p :: r =>
    '(rem, out, res) ← stdio_write p writes;
    match res with
    | Err _ => Ret (rem, out, Err tt)
    | Ok _ => '(rem, out', res) ← write_fmt r rem; Ret (rem, out ++ out', res)
    end
  end.

(** [print!] and [println!], and [eprint!], [eprintln!] on the other stream: what was
    written, and whether [unwrap] panics. *)
Definition NEWLINE : Z := 10.
Definition print (ps : list (list Z)) (writes : script) : outcome (list Z * outcome unit) :=
  '(_, out, res) ← write_fmt ps writes;
  Ret (out, match res with Ok _ => Ret tt | Err _ => Panic Explicit end).
Definition println (ps : list (list Z)) (writes : script) : outcome (list Z * outcome unit) := print (ps ++ [[NEWLINE]]) writes.
Definition eprint (ps : list (list Z)) (stderr_writes : script) : outcome (list Z * outcome unit) := print ps stderr_writes.
Definition eprintln (ps : list (list Z)) (stderr_writes : script) : outcome (list Z * outcome unit) := println ps stderr_writes.

(** The calls that are made for [n] bytes accept no more than they are offered; and so
    on, piece by piece. *)
Fixpoint fits (n : nat) (writes : script) : Prop :=
  match writes with
  | Ok v :: r => n = 0%nat \/ (v <= n)%nat /\ fits (n - v) r
  | _ => True
  end.
Fixpoint honest_for (ps : list (list Z)) (writes : script) : Prop :=
  match ps with
  | [] => True
  | p :: r => match stdio_write p writes with
              | Ret (rem, _, Ok _) => fits (length p) writes /\ honest_for r rem
              | _ => fits (length p) writes
              end
  end.

Lemma stdio_write_ok writes : forall b, fits (length b) writes ->
  exists rem n r, stdio_write b writes = Ret (rem, take n b, r) /\ (r = Ok tt -> take n b = b).
Proof.
  induction writes as [|[[|v]|e] writes IH]; intros [|x b] Hh;
    try (by eexists _, 0%nat, _).
  cbn [fits] in Hh. destruct Hh as [Hz|[Hv Hh]]; [done|]. cbn [stdio_write]. rewrite slice_from_ok by done. cbn [mbind outcome_bind].
  destruct (IH (drop (S v) (x :: b))) as (rem & n & r & E & Hr); [by rewrite length_drop|]. rewrite E. cbn [mbind outcome_bind].
  eexists rem, (S v + n)%nat, r. rewrite <- take_take_drop. split; [done|]. intros Hok. rewrite (Hr Hok). apply take_drop.
Qed.

(** Printing either writes the whole text and returns, or writes a prefix of it and
    panics: text is never lost or repeated in the middle, however the kernel cuts the
    writes; and it never faults or ends otherwise. *)
Theorem println_all_or_panic ps writes :
  honest_for (ps ++ [[NEWLINE]]) writes ->
  exists out r, println ps writes = Ret (out, r) /\
    match r with
    | Ret _ => out = concat ps ++ [NEWLINE]
    | Panic p => p = Explicit /\ out `prefix_of` concat ps ++ [NEWLINE]
    end.
Proof.
  unfold println, print. replace (concat ps ++ [NEWLINE]) with (concat (ps ++ [[NEWLINE]])) by (by rewrite concat_app).
  generalize (ps ++ [[NEWLINE]]). clear ps. intros ps. revert writes.
  enough (forall writes, honest_for ps writes -> exists rem out r, write_fmt ps writes = Ret (rem, out, r) /\
    match r with Ok _ => out = concat ps | Err _ => out `prefix_of` concat ps end) as G.
  { intros writes Hh. destruct (G writes Hh) as (rem & out & r & -> & Hr). cbn [mbind outcome_bind].
    destruct r; eexists _, _; by split. }
  induction ps as [|p ps IH]; intros writes Hh; cbn [write_fmt concat honest_for] in *; [by eexists _, _, (Ok tt)|].
  assert (Hp : fits (length p) writes) by (repeat case_match; tauto).
  destruct (stdio_write_ok writes p Hp) as (rem & n & r & E & Hr). rewrite E in *. cbn [mbind outcome_bind].
  destruct r as [[]|[]].
  - rewrite (Hr eq_refl). destruct Hh as [_ Hh]. destruct (IH rem Hh) as (rem' & out & r & -> & Hr'). cbn [mbind outcome_bind].
    eexists _, _, _. split; [done|]. destruct r; [by f_equal|by apply prefix_app].
  - eexists _, _, (Err tt). split; [done|]. exists (drop n p ++ concat ps). by rewrite app_assoc, take_drop.
Qed.

(** ** Messages of the panic handlers *)

(** [Display for u32]. *)
Fixpoint decimal_loop (fuel : nat) (n : Z) : list Z :=
  match fuel with
  | O => []
  | S k => (if n <? 10 then [] else decimal_loop k (n / 10)) ++ [48 + n mod 10]
  end.
Definition decimal (n : Z) : list Z := decimal_loop 10 n.
Definition undecimal (l : list Z) : Z := foldl (fun a d => 10 * a + (d - 48)) 0 l.

Lemma undecimal_loop fuel n : 0 <= n < 10 ^ Z.of_nat fuel -> undecimal (decimal_loop fuel n) = n.
Proof.
  revert n. induction fuel as [|fuel IH]; intros n Hn; [cbn in *; lia|]. cbn [decimal_loop]. unfold undecimal in *.
  rewrite Nat2Z.inj_succ, Z.pow_succ_r in Hn by lia. rewrite foldl_app. cbn [foldl].
  pose proof (Z_div_mod_eq_full n 10). destruct (Z.ltb_spec n 10).
  - cbn [foldl]. rewrite Z.mod_small by lia. lia.
  - rewrite IH; [lia|]. split; [by apply Z.div_pos; lia|]. apply Z.div_lt_upper_bound; lia.
Qed.

Lemma decimal_loop_digits fuel n : 0 <= n -> Forall (fun d => 48 <= d) (decimal_loop fuel n) /\ 58 ∉ decimal_loop fuel n.
Proof.
  revert n. induction fuel as [|fuel IH]; intros n Hn; [split; [constructor|apply not_elem_of_nil]|]. cbn [decimal_loop].
  pose proof (Z.mod_pos_bound n 10 ltac:(lia)). rewrite Forall_app, not_elem_of_app, Forall_singleton, list_elem_of_singleton.
  enough (Forall (fun d => 48 <= d) (if n <? 10 then [] else decimal_loop fuel (n / 10)) /\
          58 ∉ (if n <? 10 then [] else decimal_loop fuel (n / 10))) as [? ?] by (split_and!; [done|lia|done|lia]).
  case_match; [split; [constructor|apply not_elem_of_nil]|]. apply IH. by apply Z.div_pos; lia.
Qed.

(** [core::panic::Location]. *)
Record Location : Type := mkLoc { file : list Z; line : Z; column : Z }.

(** [Display for PrintLoc], as the pieces it writes. *)
Definition PrintLoc_fmt (loc : option Location) : list (list Z) :=
  match loc with
  | Some l => [file l; lit " "; decimal (line l); lit ":"; decimal (column l)]
  | None => [lit "unknown location"]
  end.
(** The message of [at_panic] in wl-impl; [message] are the pieces of the panic. *)
Definition at_panic_message (loc : option Location) (message : list (list Z)) : list (list Z) :=
  [lit "Program Panicked at: ["] ++ PrintLoc_fmt loc ++ [lit "] "] ++ message.
Definition at_panic_print (loc : option Location) (message : list (list Z)) (writes : script) :
    outcome (list Z * outcome unit) := eprintln (at_panic_message loc message) writes.

Lemma split_unique (x : Z) a b a' b' : x ∉ a -> x ∉ a' -> a ++ x :: b = a' ++ x :: b' -> a = a' /\ b = b'.
Proof.
  revert a'. induction a as [|y a IH]; intros [|y' a'] Ha Ha' E; cbn in E.
  - by injection E as ->.
  - injection E as -> _. exfalso. apply Ha'. left.
  - injection E as -> _. exfalso. apply Ha. left.
  - injection E as -> E. rewrite elem_of_cons in Ha, Ha'. destruct (IH a') as [-> ->]; try tauto.
Qed.

Lemma decimal_inj m n : 0 <= m < 2 ^ 32 -> 0 <= n < 2 ^ 32 -> decimal m = decimal n -> m = n.
Proof.
  intros Hm Hn E. apply (f_equal undecimal) in E. unfold decimal in E.
  rewrite !undecimal_loop in E by (change (10 ^ Z.of_nat 10) with 10000000000; lia). done.
Qed.

(** A printed location can be told from every other one of the same file: the line and
    the column are read back from the text. *)
Theorem PrintLoc_inj f l c l' c' :
  0 <= l < 2 ^ 32 -> 0 <= c < 2 ^ 32 -> 0 <= l' < 2 ^ 32 -> 0 <= c' < 2 ^ 32 ->
  concat (PrintLoc_fmt (Some (mkLoc f l c))) = concat (PrintLoc_fmt (Some (mkLoc f l' c'))) -> l = l' /\ c = c'.
Proof.
  intros Hl Hc Hl' Hc' E. cbn [PrintLoc_fmt concat file line column] in E. change (lit " ") with [32] in E.
  change (lit ":") with [58] in E. apply app_inv_head in E. injection E as E. rewrite !app_nil_r in E.
  apply split_unique in E as [E1 E2]; [|apply decimal_loop_digits; lia..].
  split; by apply decimal_inj.
Qed.

(** ** Printing in the loader *)

(** The pieces of a message, each with the answers to its calls of [write]. *)
Abbreviation ld_pieces := (list (list Z * list (result nat errno))).

Fixpoint ld_write_fmt (ps : ld_pieces) : outcome (list Z * result unit unit) :=
  match ps with
  | [] => Ret ([], Ok tt)
  | (p, writes) :: r =>
    '(out, res) ← BufReader.write_str p writes;
    match res with
    | Err _ => Ret (out, Err tt)
    | Ok _ => '(out', res) ← ld_write_fmt r; Ret (out ++ out', res)
    end
  end.
(** [println!] and [eprintln!] on the two constant formatters. *)
Definition ld_println (ps : ld_pieces) (nl : list (result nat errno)) : outcome (list Z * outcome unit) :=
  '(out, res) ← ld_write_fmt (ps ++ [([NEWLINE], nl)]);
  Ret (out, match res with Ok _ => Ret tt | Err _ => Panic Explicit end).
Definition ld_eprintln (ps : ld_pieces) (nl : list (result nat errno)) : outcome (list Z * outcome unit) := ld_println ps nl.

(** A piece is accepted in full at once, or refused. *)
Definition at_once (p : list Z * list (result nat errno)) : Prop :=
  p.1 = [] \/ head p.2 = Some (Ok (length p.1)) \/ exists e, head p.2 = Some (Err e).

Lemma ld_write_str_at_once p : at_once p ->
  BufReader.write_str p.1 p.2 = Ret (p.1, Ok tt) \/ BufReader.write_str p.1 p.2 = Ret ([], Err tt).
Proof.
  destruct p as [[|c s] ws]; [by left; destruct ws|]. intros [?|[H|[e H]]]; cbn [fst snd] in *; [done| |]; destruct ws as [|w ws]; try done;
    injection H as ->.
  - left. cbn [BufReader.write_str BufReader.write_str_loop length]. unfold BufReader.write_str. cbn [BufReader.write_str_loop length].
    rewrite slice_from_ok by (simpl; lia). cbn [mbind outcome_bind]. rewrite drop_ge by (simpl; lia).
    cbn [mbind outcome_bind]. rewrite app_nil_r. do 2 f_equal. change (S (length s)) with (length (c :: s)). apply firstn_all.
  - by right.
Qed.

(** A message of the loader whose pieces are accepted in full or refused appears as a
    whole, or stops before the refused piece and panics.  (A piece that is accepted in
    part is written again from its start, [BufReader.write_str_spec].) *)
Theorem ld_println_whole ps nl :
  Forall at_once (ps ++ [([NEWLINE], nl)]) ->
  exists out r, ld_println ps nl = Ret (out, r) /\ ld_eprintln ps nl = Ret (out, r) /\
    match r with
    | Ret _ => out = concat ps.*1 ++ [NEWLINE]
    | Panic p => p = Explicit /\ out `prefix_of` concat ps.*1 ++ [NEWLINE]
    end.
Proof.
  unfold ld_eprintln, ld_println. replace (concat ps.*1 ++ [NEWLINE]) with (concat (ps ++ [([NEWLINE], nl)]).*1)
    by (by rewrite fmap_app, concat_app).
  generalize (ps ++ [([NEWLINE], nl)]). clear ps. intros ps Hps.
  enough (exists out r, ld_write_fmt ps = Ret (out, r) /\
    match r with Ok _ => out = concat ps.*1 | Err _ => out `prefix_of` concat ps.*1 end) as (out & r & -> & Hr).
  { cbn [mbind outcome_bind]. destruct r; eexists _, _; by split_and!. }
  induction Hps as [|[p ws] ps Hp _ IH]; [by eexists _, (Ok tt)|]. cbn [ld_write_fmt fmap list_fmap concat fst].
  destruct (ld_write_str_at_once _ Hp) as [E|E]; cbn [fst snd] in E; rewrite E; cbn [mbind outcome_bind].
  - destruct IH as (out & r & -> & Hr). cbn [mbind outcome_bind]. eexists _, _. split; [done|].
    destruct r; [by f_equal|by apply prefix_app].
  - eexists _, (Err tt). split; [done|]. apply prefix_nil.
Qed.

(** ** Panics of the loader *)

Inductive ld_line : Type := PanickedAt | PanickedNowhere | UseMmapAllocator.

Section LdPanic.
(** Whether the [k]-th message reaches the standard error stream; otherwise [expect]
    panics, from inside the module. *)
Context (stderr_ok : nat -> bool).

(** [panic_handler], up to [crash_unrecoverably]; [located] is whether the panic carries
    a location.  The stack has room for [depth] nested calls; [None] is its overflow. *)
Fixpoint panic_handler (depth k : nat) (located : bool) : option (list ld_line) :=
  match depth with
  | O => None
  | S depth =>
    if stderr_ok k then Some [if located then PanickedAt else PanickedNowhere]
    else panic_handler depth (S k) true
  end.
(** [NoGlobalAlloc::alloc] and [dealloc]. *)
Definition no_global_alloc (depth : nat) : option (list ld_line) :=
  if stderr_ok 0 then Some [UseMmapAllocator] else panic_handler depth 1 true.

Lemma panic_handler_spec depth : forall k located,
  (exists l, panic_handler depth k located = Some l) <-> exists i, (k <= i < k + depth)%nat /\ stderr_ok i = true.
Proof.
  induction depth as [|depth IH]; intros k located; cbn [panic_handler].
  { split; [by intros [? ?]|intros (i & ? & _); lia]. }
  destruct (stderr_ok k) eqn:Ek.
  - split; [intros _; exists k; split; [lia|done]|intros _; by eexists].
  - rewrite IH. split; intros (i & Hi & Hok); exists i; (split; [|done]); [lia|].
    destruct (decide (i = k)) as [->|]; [congruence|lia].
Qed.

(** The loader's panic handler reaches its crash exactly when one of the messages that the
    stack has room for can be printed; each failing message panics again, until the stack
    overflows.  Any use of the global allocator gets there. *)
Theorem ld_panic_ends depth located :
  ((exists l, panic_handler depth 0 located = Some l) <-> exists k, (k < depth)%nat /\ stderr_ok k = true) /\
  ((exists l, no_global_alloc depth = Some l) <-> exists k, (k <= depth)%nat /\ stderr_ok k = true).
Proof.
  split.
  - rewrite panic_handler_spec. split; intros (i & Hi & Hok); exists i; (split; [lia|done]).
  - unfold no_global_alloc. destruct (stderr_ok 0) eqn:E0.
    + split; [intros _; exists 0%nat; split; [lia|done]|intros _; by eexists].
    + rewrite panic_handler_spec. split; intros (i & Hi & Hok); exists i; (split; [|done]); [lia|].
      destruct (decide (i = 0%nat)) as [->|]; [congruence|lia].
Qed.
End LdPanic.

(** ** Concrete inputs *)

Example at_panic_message_text :
  concat (at_panic_message (Some (mkLoc (lit "src/lib.rs") 41 7)) [lit "done"]) = lit "Program Panicked at: [src/lib.rs 41:7] done".
Proof. reflexivity. Qed.

Lemma PrintLoc_inj_witness : concat (PrintLoc_fmt (Some (mkLoc (lit "a") 11 1))) <> concat (PrintLoc_fmt (Some (mkLoc (lit "a") 1 11))).
Proof. intros E. destruct (PrintLoc_inj (lit "a") 11 1 1 11 ltac:(lia) ltac:(lia) ltac:(lia) ltac:(lia) E). lia. Defined.

Lemma ld_println_whole_witness :
  exists out, ld_println [(lit "hi", [Ok 2%nat]); (lit "!", [Err EBADF])] [Ok 1%nat] = Ret (out, Panic Explicit) /\
    out `prefix_of` lit "hi!" ++ [NEWLINE].
Proof.
  destruct (ld_println_whole [(lit "hi", [Ok 2%nat]); (lit "!", [Err EBADF])] [Ok 1%nat]) as (out & r & E & _ & H).
  { constructor; [right; by left|]. constructor; [right; right; by exists EBADF|]. constructor; [right; by left|constructor]. }
  assert (r = Panic Explicit) as -> by (vm_compute in E; by injection E as _ <-).
  exists out. split; [exact E|apply H].
Defined.

Lemma println_all_or_panic_witness :
  exists out, println [[104; 105]; [33]] [Ok 1%nat; Ok 1%nat; Ok 1%nat; Err 5] = Ret (out, Panic Explicit) /\
    out `prefix_of` [104; 105; 33; NEWLINE].
Proof.
  destruct (println_all_or_panic [[104; 105]; [33]] [Ok 1%nat; Ok 1%nat; Ok 1%nat; Err 5]) as (out & r & E & H);
    [vm_compute; lia|].
  assert (r = Panic Explicit) as -> by (vm_compute in E; by injection E as _ <-).
  exists out. split; [exact E|apply H].
Defined.
